(* ===== verification/_CoqProject ===== *)
-Q . S2P
Prelude.v
BleProtocol.v
QueryParser.v
CommandQueue.v
QueueSpec.v
QueueReentrancy.v
BleSession.v
BleLink.v
LinkBridge.v
BleBridge.v
BleTransport.v
BleStack.v
BleReplies.v
BringUp.v
BringUpReady.v
ColdStart.v
PairingAgent.v
GlazeMeta.v
GoproTypes.v
GoproUsb.v
HttpMessage.v
LibraryLoader.v
WireEnums.v
HttpCommands.v
GoproHttp.v
ProtoReply.v
NetworkClient.v
CohnStore.v
CohnClient.v
WifiHost.v
Streaming.v
EventCodec.v
GoproBridge.v
Resources.v
DiscoveryClient.v
DiscoveryReady.v
DartApiDl.v
VmPost.v
