(* ===== verification/Prelude.v ===== *)
(** * Verification of the native GoPro library

    The library under [native/] finds GoPro cameras on USB and speaks their BLE
    control protocol for a Dart program.  It has no main loop: Dart calls it
    over a C ABI, supplies time and bytes, and receives events as byte arrays
    posted to a port.  This development models all of its own C++ code, the Dart
    readers of its events, the Dart classes on top of the two bridges and the
    clients of the camera's services on top of those, and proves what makes them
    correct, separately and together.

    ** How the parts fit together

<<
      GATT bytes -> ble_bridge -> BleSession -> Reassembler (per channel)
                                      |              -> parse_query -> ReadyState
                                      +-> CommandQueue -> fragment -> events
      link observations -> link_bridge -> LinkMachine -> advice
      libusb, sysfs -> Discovery -> gopro_bridge worker -> CameraRecord -> events

      events -> Dart_PostCObject -> ReceivePort -> GoProBleCamera -> futures
                                               +-> GoProDiscovery -> streams
      BlueZ -> GoProBleTransport (bring-up) -> link_bridge, ble_bridge

      GoProBleCamera -> NetworkClient, CohnClient, GoProAccessPoint, livestream
      CohnClient -> credentials -> file store; CohnHttp
      GoProCommands, webcam -> HttpMessage -> GoProHttp -> camera
>>

    ** Files

    - [Prelude]: machine integers and bytes (an [n]-bit integer is a [Z] whose
      wrap-around is written out with [wrap]), sequences of steps, the monad
      [act] of stateful code that makes callbacks, Dart maps, automation, shared
      lemmas.
    - [BleProtocol] ([ble_protocol.cpp]): [fragment] and [Reassembler], with an
      abstract reassembler on packets as the specification of [feed].
    - [QueryParser] ([query_parser.cpp]): the TLV parser and the ready gate.
    - [CommandQueue] ([command_queue.cpp]): every operation as a function from a
      queue to a queue and the callbacks invoked, for callbacks that do not call
      back.  Completions are values of a type parameter.
    - [QueueSpec]: a FIFO that looks at its head only, as the specification of the
      rescanning queue, and the time by which every command is settled.
    - [QueueReentrancy]: the same code as a step relation on a queue and a stack
      of unfinished calls, in which a callback may make any call; the functions
      of [CommandQueue] are its runs without nesting.
    - [BleSession] ([ble_session.cpp]): the composition, in the monad [act];
      [queue_calls] is the abstraction each call refines.
    - [BleLink] ([ble_link.cpp]): the connection state machine.
    - [LinkBridge], [BleBridge] ([link_bridge.cpp], [ble_bridge.cpp]): the C ABI;
      a handle is an [option], a pointer with a length an [option] of bytes.
      [BleBridge] contains the reader of its events, [ble_codec.dart].
    - [BleTransport] ([ble_transport.dart], [ble_bindings.dart]): the Dart camera
      as a client of [BleBridge], one action per turn of the event loop; [close],
      [_detach] and [_onDrop] go from [await] to [await], one turn for each.
    - [BleStack]: a Dart camera and its native session together: what a command
      and its reply go through, from [send] to the future.
    - [BleReplies]: the same path in the other direction: a future is completed
      with a message that fits its command.
    - [BringUp] ([ble_transport.dart], [link_types.dart]): the bring-up loop as a
      client of [LinkBridge].
    - [BringUpReady]: the same loop against a world that cooperates, stated as the
      class [Cooperative].
    - [ColdStart]: bring-up, the camera made of it and its first command together.
    - [PairingAgent] ([ble_transport.dart]): the agent that answers BlueZ's pairing
      requests, shared by all climbs of a transport.
    - [GlazeMeta] ([glaze_meta.h]): the record encoding.  The class [WireField]
      is the overload set, [WireLaw] what every overload promises, [Meta] and
      [MetaLaw] the same for described structs; clients use only the laws.
    - [GoproTypes] ([gopro_types.h]): [CameraRecord] as an instance of [MetaLaw].
    - [GoproUsb] ([gopro_usb.cpp]): identification, readiness, the arrival cache.
    - [EventCodec] ([codec.dart]): the reader of discovery events.
    - [GoproBridge] ([gopro_bridge.cpp]): the worker thread as atomic actions
      interleaved with the calls of the Dart thread, and what a client of the
      events knows, on records.
    - [Resources] ([gopro_usb.cpp], [gopro_bridge.cpp]): the same operations once
      more as code that acquires and releases libusb objects, sockets, mutexes
      and the thread; their values are those of [GoproUsb] and [GoproBridge].
    - [DiscoveryClient] ([discovery.dart]): that client as it is written, reading
      bytes from its port while the worker runs.
    - [DiscoveryReady]: a camera in reach, from the rungs of the ladder on the host to
      [ready] and [firstReady].
    - [DartApiDl] ([dart_api_dl.c]): looking the VM's entry points up.
    - [VmPost] ([bindings.dart], both [post]s): a process with both bridges, whose
      events go through the table [DartApiDl] fills.
    - [HttpMessage], [HttpCommands], [GoproHttp] ([lib/src/http/]): requests, the
      table and the typed commands, JSON exchanges, and [download] as a state
      machine with the destination file.
    - [LibraryLoader] ([library_loader.dart]): the search for the shared library.
    - [WireEnums] ([tool/gen_constants.py], [lib/src/generated/]): the generator of the
      constants, and the tables of ids with the upstream tables they come from.
    - [ProtoReply]: what the protobuf clients share: stripping and decoding a
      reply, and polling a status against the wall clock.
    - [NetworkClient] ([network_client.dart]): pages of access points, and a reply
      racing a notification, with the errors nobody listens for.
    - [CohnStore], [CohnClient] ([lib/src/cohn/]): credentials, the file store as a
      list of file system states, provisioning.
    - [WifiHost] ([secret.dart], [wifi_controller.dart], [access_point.dart]) and
      [Streaming] ([lib/src/streaming/]).

    ** What the theorems show

    - Framing: fragmentation and reassembly are inverse from any receiver state;
      whatever arrives, messages are never spliced; [feed] refines its
      specification and recovers from every error.
    - Commands: no id is outstanding twice, one ordinary command at a time,
      order is kept, a tick times out exactly what is overdue, and every completion is called exactly
      once, for single calls, for re-entrant callbacks, for the session, for
      the life of a handle over the ABI, and for the futures of the Dart camera;
      replies complete the future of their own command, but for the one id that
      keep-alives share with a write, and fit it: their first bytes are those the
      command's id stands for.  What goes out is whole commands that were submitted,
      on their channels.  A command that can be sent
      reaches the characteristic, and a reply in any packets, with other traffic
      in between, reaches the caller with exactly its bytes.  The queue is
      equivalent to a FIFO, and two ticks settle every command.
    - Session: it refines its queue; channels do not mix; a message is a response
      or a push; readiness is reported exactly when it changes; keep-alives go
      out on time but for one exception, which is proved to be real.
    - Link: stage, stall and retry are functions of the history of calls;
      bring-up returns only cameras the machine found usable; the pairing agent
      accepts only a device some climb is pairing with.  In a cooperative world
      bring-up asks for what is missing and attaches, from any state of the link,
      and the first command of the camera is answered.
    - Life of a camera: [close] ends, after a known number of turns, and leaves no
      future behind; handles are not used after they are freed.  Both are of a
      camera not closed while it handles a drop: that case is a finding, and so is
      that a camera which lost its link is never up again ([drop_is_final]).
    - Events: every event posted, BLE or discovery, is read by the Dart codec as
      what it was posted for; truncated records are never misread.
    - Discovery: readiness counts the stages that hold; departures remember; the
      client's map mirrors the bridge; a camera leaves settling only with a
      report; the worker stops when told to; [start] completes knowing every
      camera already there, and the Dart client lists exactly what is attached, as
      long as nobody asks for a rescan.
      A camera that the host serves while it settles is given as ready.
      What a handle acquires is released on every path, last acquired first, and
      no mutex is taken under a mutex.
    - The VM: every post of a process goes through the VM's entry point, or all
      of them through null, and each handle posts to its own port what it would
      post if it were alone.
    - HTTP: a server reads from the request what the caller gave, in the path and
      in the query; every typed
      command names a message of the table and the arguments it declares; a
      download is all or nothing, unless the disk fails, and is abandoned only
      when nothing has arrived for the stall timeout.
    - Clients: scans and joins end by the reply and the first verdict, in whatever
      order they come; paging ends, and so do provisioning and waiting for a stream
      if the wall clock moves on;
      credentials are written to one file of mode 0600 below their directory and
      read back; the passphrase does not reach an exception.

    - Around it: the library is loaded from the first place that works, in a fixed
      order; the generator emits only enums whose [fromValue] inverts [value], and
      the tables are what it makes of upstream.

    Every theorem with hypotheses has a [_witness] that applies it to a concrete
    input.  Examples under "What modelling showed" are runs of the model that
    contradict a comment of the code or an expectation.

    ** Bounds and fuel

    Recursions that are not structural take fuel, which the callers set to a
    bound of the loop: the number of bytes left in [fragment_loop] and
    [parse_loop] (each iteration consumes one at least), the number of waiting
    commands in [pump_loop] (each sends one), the entries wanted in [pages] (each
    page has one), the polls that fit in the timeout in [poll_until].  [backoff_loop] runs [attempts - 1]
    times as the source does.  [dec_digits] has 20 digits, enough for 64 bits.
    Loops that wait for the world ([wait_until_ready], the worker, bring-up) are
    driven by its answers instead, and so is the order of Dart's turns.  Indices into containers are [nat].

    ** What is not modelled

    libusb, the file system, sockets and clocks: their answers are arguments
    ([Host], [UsbDevice], timestamps), with no consistency assumed between them.
    C++ exceptions end the process and are left out, but for the directory listing
    of [find_netdev_or_throw].
    The VM behind [Dart_PostCObject_DL]: a post is a call with its arguments.
    BlueZ and its Dart client: what it shows and answers is input; how
    long it waits, [readCharacteristic] and the texts of faults are left out.
    Allocation failure and data races; out-of-bounds reads of
    [decode_field] are [None].  [utf8.decode] is a parameter of [EventCodec] and
    [WifiHost], the generated protobuf codecs of the clients, JSON of [GoproHttp]
    and [CohnStore].  TLS, HTTP connections and processes: what they end with is
    input.  The enums of setting and status values, the text the generators emit
    around their tables, and the build scripts.  The vendored headers of the Dart
    API, and the tests. *)

From Stdlib Require Export ZArith Lia Bool.
From stdpp Require Export base tactics option list numbers sorting sets.

#[export] Set Default Goal Selector "!".

(** [lia] sees division and remainder. *)
Ltac Zify.zify_post_hook ::= Z.to_euclidean_division_equations.

Open Scope Z_scope.

(** ** Machine integers and bytes

    A [w]-bit unsigned integer is a [Z]; the wrap-around of the C++ arithmetic
    is written out with [wrap].  [size_t] quantities that index a container
    are [nat]. *)

Definition wrap (w x : Z) : Z := x mod 2 ^ w.

(** [uint64_t] subtraction, the operation behind every elapsed-time test. *)
Definition u64_sub (a b : Z) : Z := wrap 64 (a - b).

Definition u64_add (a b : Z) : Z := wrap 64 (a + b).

Definition in_range (w x : Z) : Prop := 0 <= x < 2 ^ w.

Abbreviation byte := Z (only parsing).
Abbreviation bytes := (list Z).

Definition byte_ok (b : byte) : Prop := 0 <= b < 256.
Abbreviation bytes_ok := (Forall byte_ok).

#[export] Instance byte_ok_dec b : Decision (byte_ok b).
Proof. unfold byte_ok. apply _. Defined.

#[export] Instance in_range_dec w x : Decision (in_range w x).
Proof. unfold in_range. apply _. Defined.

(** ** Fixed-width integers as byte strings

    [le_bytes n v] is what copying the object representation of an [n]-byte
    integer yields on the little-endian targets the library supports;
    [le_value] reads it back and [be_value] is the big-endian reading. *)

Fixpoint le_bytes (n : nat) (v : Z) : bytes :=
  match n with
  | O => []
  | S n => v mod 256 :: le_bytes n (v / 256)
  end.

Fixpoint le_value (l : bytes) : Z :=
  match l with
  | [] => 0
  | b :: l => b + 256 * le_value l
  end.

Fixpoint be_value_from (acc : Z) (l : bytes) : Z :=
  match l with
  | [] => acc
  | b :: l => be_value_from (acc * 256 + b) l
  end.

Definition be_value (l : bytes) : Z := be_value_from 0 l.

(** ** Sequences of steps *)

Section sequences.
Context {A : Type} (R : A -> A -> Prop).

Inductive steps : A -> A -> Prop :=
| steps_refl a : steps a a
| steps_cons a b c : R a b -> steps b c -> steps a c.

Lemma steps_one a b : R a b -> steps a b.
Proof. intros; eapply steps_cons; [eassumption | constructor]. Qed.

Lemma steps_trans a b c : steps a b -> steps b c -> steps a c.
Proof. induction 1; eauto using steps_cons. Qed.

(** Rule induction for invariants. *)
Lemma steps_invariant (P : A -> Prop) :
  (forall a b, R a b -> P a -> P b) -> forall a b, steps a b -> P a -> P b.
Proof. intros HR a b; induction 1; eauto. Qed.

End sequences.

(** ** Stateful code that calls back

    A computation over a state [S] that makes callback invocations [E], in
    order. *)

Definition act (S E A : Type) : Type := S -> A * S * list E.

Section act.
Context {S E : Type}.

Definition ret {A} (a : A) : act S E A := fun s => (a, s, []).

Definition bind {A B} (m : act S E A) (k : A -> act S E B) : act S E B := fun s =>
  let '(a, s1, e1) := m s in
  let '(b, s2, e2) := k a s1 in (b, s2, e1 ++ e2).

Definition gets {A} (f : S -> A) : act S E A := fun s => (f s, s, []).

Definition modify (f : S -> S) : act S E unit := fun s => (tt, f s, []).

Definition emit (e : list E) : act S E unit := fun s => (tt, s, e).

(** [if (b) m;] *)
Definition when (b : bool) (m : act S E unit) : act S E unit := if b then m else ret tt.

Definition run_state {A} (m : act S E A) (s : S) : S := (m s).1.2.

Definition run_events {A} (m : act S E A) (s : S) : list E := (m s).2.

Definition run_result {A} (m : act S E A) (s : S) : A := (m s).1.1.
End act.

(** *** Properties along a computation

    [along R m s]: running [m] from [s] relates the states before and after, and
    the events between, by [R].  When [R] composes, so does [along]. *)

Class TraceOrder {S E : Type} (R : S -> list E -> S -> Prop) := {
  trace_refl s : R s [] s;
  trace_trans s e s' e' s'' : R s e s' -> R s' e' s'' -> R s (e ++ e') s'';
}.

Section along.
Context {S E : Type} (R : S -> list E -> S -> Prop) `{!TraceOrder R}.

Definition along {A} (m : act S E A) (s : S) : Prop := R s (run_events m s) (run_state m s).

Lemma along_ret {A} (a : A) s : along (ret a) s.
Proof. apply trace_refl. Qed.

Lemma along_bind {A B} (m : act S E A) (k : A -> act S E B) s :
  along m s -> along (k (run_result m s)) (run_state m s) -> along (bind m k) s.
Proof.
  unfold along, run_events, run_state, run_result, bind.
  destruct (m s) as [[a s1] e1]. cbn. destruct (k a s1) as [[b s2] e2]. cbn. apply trace_trans.
Qed.

Lemma along_gets {A B} (f : S -> A) (k : A -> act S E B) s :
  along (k (f s)) s -> along (bind (gets f) k) s.
Proof. intros H. apply along_bind; [apply trace_refl | exact H]. Qed.

Lemma along_modify f s : R s [] (f s) -> along (modify f) s.
Proof. done. Qed.

Lemma along_emit e s : R s e s -> along (emit e) s.
Proof. done. Qed.

Lemma along_when (b : bool) (m : act S E unit) s : (b = true -> along m s) -> along (when b m) s.
Proof. destruct b; cbn; [auto | intros _; apply along_ret]. Qed.
End along.

(** Walk along a computation, leaving the updates and the effects to be related. *)
Ltac along :=
  repeat lazymatch goal with
  | |- along _ (bind (gets _) _) _ => apply along_gets; [apply _|]; cbv beta
  | |- along _ (ret _) _ => apply along_ret; apply _
  | |- along _ (when _ _) _ => apply along_when; [apply _|]; let H := fresh "Hwhen" in intros H
  | |- along _ (modify _) _ => apply along_modify
  | |- along _ (emit _) _ => apply along_emit
  | |- along _ (bind _ _) _ => apply along_bind; [apply _| |]
  | |- along _ (if ?b then _ else _) _ => destruct b eqn:?
  end.

Lemma run_bind {S E A B} (m : act S E A) (k : A -> act S E B) (s : S) :
  run_result (bind m k) s = run_result (k (run_result m s)) (run_state m s) /\
  run_state (bind m k) s = run_state (k (run_result m s)) (run_state m s) /\
  run_events (bind m k) s = run_events m s ++ run_events (k (run_result m s)) (run_state m s).
Proof.
  unfold run_events, run_state, run_result, bind.
  destruct (m s) as [[a s1] e1]. cbn. by destruct (k a s1) as [[b s2] e2].
Qed.

Lemma bind_gets {S E A B} (f : S -> A) (k : A -> act S E B) (s : S) : bind (gets f) k s = k (f s) s.
Proof. unfold bind, gets. by destruct (k (f s) s) as [[b s'] e]. Qed.

Lemma bind_modify {S E B} (f : S -> S) (k : unit -> act S E B) (s : S) :
  bind (modify f) k s = k tt (f s).
Proof. unfold bind, modify. by destruct (k tt (f s)) as [[b s'] e]. Qed.

Declare Scope act_scope.
Delimit Scope act_scope with act.
Notation "x <~ m ;; k" := (bind m (fun x => k))
  (at level 200, m at level 99, k at level 200, right associativity) : act_scope.
Notation "m ;;; k" := (bind m (fun _ => k)) (at level 199, k at level 200, right associativity) : act_scope.

(** ** Automation *)

Create HintDb gopro.
Create Rewrite HintDb gopro.

(** Turn the boolean comparisons of the code into propositions. *)
Ltac to_prop :=
  repeat match goal with
  | H : _ && _ = true |- _ => apply andb_true_iff in H; destruct H
  | H : _ && _ = false |- _ => apply andb_false_iff in H
  | H : _ || _ = false |- _ => apply orb_false_iff in H; destruct H
  | H : _ || _ = true |- _ => apply orb_true_iff in H
  | H : negb _ = true |- _ => apply negb_true_iff in H
  | H : negb _ = false |- _ => apply negb_false_iff in H
  | H : (_ =? _) = true |- _ => apply Z.eqb_eq in H
  | H : (_ =? _) = false |- _ => apply Z.eqb_neq in H
  | H : (_ <? _) = true |- _ => apply Z.ltb_lt in H
  | H : (_ <? _) = false |- _ => apply Z.ltb_ge in H
  | H : (_ <=? _) = true |- _ => apply Z.leb_le in H
  | H : (_ <=? _) = false |- _ => apply Z.leb_gt in H
  | H : (_ =? _)%nat = true |- _ => apply Nat.eqb_eq in H
  | H : (_ =? _)%nat = false |- _ => apply Nat.eqb_neq in H
  | H : (_ <? _)%nat = true |- _ => apply Nat.ltb_lt in H
  | H : (_ <? _)%nat = false |- _ => apply Nat.ltb_ge in H
  | H : (_ <=? _)%nat = true |- _ => apply Nat.leb_le in H
  | H : (_ <=? _)%nat = false |- _ => apply Nat.leb_gt in H
  | H : bool_decide _ = true |- _ => apply bool_decide_eq_true in H
  | H : bool_decide _ = false |- _ => apply bool_decide_eq_false in H
  end.

(** Case split on the scrutinee of some [if] or [match], remembering it. *)
Ltac split_match :=
  match goal with
  | |- context [match ?x with _ => _ end] => destruct x eqn:?
  end.

Ltac split_match_in H :=
  match type of H with
  | context [match ?x with _ => _ end] => destruct x eqn:?
  end.

(** ** Lemmas on machine integers *)

Lemma wrap_small w x : 0 <= x < 2 ^ w -> wrap w x = x.
Proof. apply Z.mod_small. Qed.

Lemma wrap_range w x : 0 <= w -> in_range w (wrap w x).
Proof.
  intros. unfold wrap, in_range.
  apply Z.mod_pos_bound, Z.pow_pos_nonneg; lia.
Qed.

Lemma u64_sub_small a b : 0 <= b <= a -> a < 2 ^ 64 -> u64_sub a b = a - b.
Proof. intros. unfold u64_sub. apply wrap_small. lia. Qed.

(** When the clock runs backwards the difference wraps to a huge value. *)
Lemma u64_sub_backwards a b :
  0 <= a < b -> b < 2 ^ 64 -> u64_sub a b = 2 ^ 64 + a - b.
Proof.
  intros. unfold u64_sub, wrap.
  rewrite <- (Z.mod_add _ 1) by lia. rewrite Z.mod_small; lia.
Qed.

Lemma Z_leb_bool_decide a b : (a <=? b) = bool_decide (a <= b).
Proof. by case_bool_decide as H; apply Z.leb_le in H || (apply Z.leb_gt; lia). Qed.

Lemma u64_sub_diag a : u64_sub a a = 0.
Proof. unfold u64_sub. by rewrite Z.sub_diag. Qed.

Lemma u64_sub_range a b : 0 <= u64_sub a b < 2 ^ 64.
Proof. apply (wrap_range 64); lia. Qed.

(** A boolean property of a bounded range is decided by evaluation. *)
Lemma forallb_below (n : Z) (P : Z -> bool) :
  forallb P (seqZ 0 n) = true -> forall x, 0 <= x < n -> P x = true.
Proof.
  intros H x Hx. rewrite forallb_forall in H. apply H.
  apply list_elem_of_In, elem_of_seqZ. lia.
Qed.

(** A shifted value and a small one do not overlap. *)
Lemma lor_shiftl_add a b n :
  0 <= n -> 0 <= b < 2 ^ n -> Z.lor (Z.shiftl a n) b = a * 2 ^ n + b.
Proof.
  intros Hn Hb. rewrite <- Z.lxor_lor, <- Z.add_nocarry_lxor.
  - by rewrite Z.shiftl_mul_pow2.
  - apply Z.bits_inj'. intros i Hi. rewrite Z.land_spec, Z.bits_0.
    destruct (Z.lt_ge_cases i n) as [Hlt|Hge].
    + rewrite Z.shiftl_spec_low; done.
    + rewrite <- (Z.mod_small b (2 ^ n)), Z.mod_pow2_bits_high by lia.
      apply andb_false_r.
  - apply Z.bits_inj'. intros i Hi. rewrite Z.land_spec, Z.bits_0.
    destruct (Z.lt_ge_cases i n) as [Hlt|Hge].
    + rewrite Z.shiftl_spec_low; done.
    + rewrite <- (Z.mod_small b (2 ^ n)), Z.mod_pow2_bits_high by lia.
      apply andb_false_r.
Qed.

Lemma land_255 x : Z.land x 255 = x mod 256.
Proof. change 255 with (Z.ones 8). by rewrite Z.land_ones. Qed.

Lemma shiftr_8 x : Z.shiftr x 8 = x / 256.
Proof. by rewrite Z.shiftr_div_pow2. Qed.

(** ** Lemmas on byte strings *)

Lemma byte_ok_mod x : byte_ok (x mod 256).
Proof. unfold byte_ok. lia. Qed.

Lemma length_le_bytes n v : length (le_bytes n v) = n.
Proof. revert v; induction n; simpl; intros; [done | by rewrite IHn]. Qed.

Lemma le_bytes_ok n v : bytes_ok (le_bytes n v).
Proof.
  revert v; induction n; simpl; intros; constructor; auto using byte_ok_mod.
Qed.

Lemma le_value_le_bytes n v :
  0 <= v < 256 ^ Z.of_nat n -> le_value (le_bytes n v) = v.
Proof.
  revert v; induction n as [|n IH]; intros v Hv; cbn [le_bytes le_value].
  - change (256 ^ Z.of_nat 0) with 1 in Hv. lia.
  - rewrite Nat2Z.inj_succ, Z.pow_succ_r in Hv by lia.
    rewrite IH by lia. lia.
Qed.

Lemma le_value_bound l :
  bytes_ok l -> 0 <= le_value l < 256 ^ Z.of_nat (length l).
Proof.
  induction 1 as [|b l Hb Hl IH]; cbn [le_value length]; [lia|].
  rewrite Nat2Z.inj_succ, Z.pow_succ_r by lia. unfold byte_ok in Hb. lia.
Qed.

Lemma le_bytes_le_value l : bytes_ok l -> le_bytes (length l) (le_value l) = l.
Proof.
  induction 1 as [|b l Hb Hl IH]; cbn [le_value length le_bytes]; [done|].
  unfold byte_ok in Hb. f_equal; [lia|].
  replace ((b + 256 * le_value l) / 256) with (le_value l) by lia. exact IH.
Qed.

Lemma le_bytes_inj n v w :
  0 <= v < 256 ^ Z.of_nat n -> 0 <= w < 256 ^ Z.of_nat n ->
  le_bytes n v = le_bytes n w -> v = w.
Proof.
  intros Hv Hw E. rewrite <- (le_value_le_bytes n v), <- (le_value_le_bytes n w) by done.
  by rewrite E.
Qed.

(** ** Lemmas on lists *)

Lemma list_find_first {A} (p : A -> bool) l :
  match List.find p l with
  | Some x => x ∈ l /\ p x = true
  | None => Forall (fun x => p x = false) l
  end.
Proof.
  induction l as [|a l IH]; cbn; [constructor|].
  destruct (p a) eqn:E; [split; [left | done]|].
  destruct (List.find p l) as [x|]; [|by constructor].
  destruct IH; split; [by right | done].
Qed.

Lemma Forall_existsb {A} (p : A -> bool) l :
  existsb p l = false <-> Forall (fun x => p x = false) l.
Proof.
  induction l as [|a l IH]; cbn; [split; [constructor | done]|].
  rewrite orb_false_iff, Forall_cons, IH. done.
Qed.

Lemma forallb_negb {A} (p : A -> bool) l :
  forallb (fun x => negb (p x)) l = true <-> Forall (fun x => p x = false) l.
Proof.
  induction l as [|a l IH]; cbn; [split; [constructor | done]|].
  rewrite andb_true_iff, negb_true_iff, Forall_cons, IH. done.
Qed.

Lemma filter_none {A} (p : A -> bool) l :
  Forall (fun x => p x = false) l -> List.filter p l = [].
Proof. induction 1 as [|x l Hx Hl IH]; cbn; [done|]. by rewrite Hx. Qed.

(** [List.filter], the model of an erase loop over a container. *)
Lemma elem_of_lfilter {A} (p : A -> bool) x l : x ∈ List.filter p l <-> x ∈ l /\ p x = true.
Proof. by rewrite !list_elem_of_In, filter_In. Qed.

Lemma lfilter_ext {A} (p q : A -> bool) : (forall x, p x = q x) -> forall l, List.filter p l = List.filter q l.
Proof. intros H l. by apply List.filter_ext. Qed.

Lemma lfilter_sublist {A} (p : A -> bool) l : sublist (List.filter p l) l.
Proof.
  induction l as [|a l IH]; cbn; [constructor|].
  destruct (p a); by constructor.
Qed.

Lemma lfilter_split {A} (p : A -> bool) l :
  List.filter p l ++ List.filter (fun x => negb (p x)) l ≡ₚ l.
Proof.
  induction l as [|a l IH]; cbn; [done|]. destruct (p a); cbn; [by rewrite IH|].
  by rewrite <- Permutation_middle, IH.
Qed.

Lemma lfilter_length_le {A} (p : A -> bool) l1 l2 :
  sublist l1 l2 -> (length (List.filter p l1) <= length (List.filter p l2))%nat.
Proof. induction 1 as [|a l1 l2 H IH|a l1 l2 H IH]; cbn; [lia|..]; destruct (p a); cbn; lia. Qed.

(** ** Dart maps

    Entries in insertion order: a new key goes last, storing under an old key
    keeps its place. *)

Section dict.
Context {K A : Type} `{EqDecision K}.
Implicit Types m : list (K * A).

Definition dict_get (k : K) m : option A := snd <$> List.find (fun e => bool_decide (e.1 = k)) m.

Definition dict_has (k : K) m : bool := bool_decide (k ∈ m.*1).

Definition dict_put (k : K) (x : A) m : list (K * A) :=
  if bool_decide (k ∈ m.*1) then (fun e => if bool_decide (e.1 = k) then (k, x) else e) <$> m
  else m ++ [(k, x)].

Definition dict_del (k : K) m : list (K * A) := List.filter (fun e => negb (bool_decide (e.1 = k))) m.

Lemma dict_put_keys k x m : (dict_put k x m).*1 = if bool_decide (k ∈ m.*1) then m.*1 else m.*1 ++ [k].
Proof.
  unfold dict_put. case_bool_decide; [|by rewrite fmap_app]. rewrite <- list_fmap_compose.
  apply list_fmap_ext. intros i e He. cbn. by case_bool_decide.
Qed.

Lemma dict_put_NoDup k x m : NoDup m.*1 -> NoDup (dict_put k x m).*1.
Proof.
  intros H. rewrite dict_put_keys. case_bool_decide as E; [done|]. apply NoDup_app.
  split_and!; [done| |apply NoDup_singleton]. intros i Hi ->%list_elem_of_singleton. done.
Qed.

Lemma dict_put_incl k x m i : i ∈ m.*1 -> i ∈ (dict_put k x m).*1.
Proof. rewrite dict_put_keys. case_bool_decide; [done|]. intros. apply elem_of_app. by left. Qed.

Lemma dict_del_NoDup k m : NoDup m.*1 -> NoDup (dict_del k m).*1.
Proof. intros H. eapply sublist_NoDup; [exact H|]. apply fmap_sublist, lfilter_sublist. Qed.

Lemma dict_get_cons k e m : dict_get k (e :: m) = if bool_decide (e.1 = k) then Some e.2 else dict_get k m.
Proof. unfold dict_get. cbn. by case_bool_decide. Qed.

Lemma dict_get_other k k' x m :
  k' <> k -> dict_get k' ((fun e => if bool_decide (e.1 = k) then (k, x) else e) <$> m) = dict_get k' m.
Proof.
  intros H. induction m as [|e m IH]; [done|]. rewrite fmap_cons, !dict_get_cons, IH.
  destruct (bool_decide_reflect (e.1 = k)); cbn [fst]; [|done].
  by rewrite !bool_decide_eq_false_2 by congruence.
Qed.

Lemma dict_get_put k x m k' :
  dict_get k' (dict_put k x m) = if bool_decide (k' = k) then Some x else dict_get k' m.
Proof.
  unfold dict_put. destruct (bool_decide_reflect (k ∈ m.*1)) as [Hin|Hin].
  - case_bool_decide as E; [subst k' | by apply dict_get_other].
    induction m as [|e m IH]; [by apply not_elem_of_nil in Hin|]. rewrite fmap_cons, dict_get_cons.
    destruct (bool_decide_reflect (e.1 = k)) as [E|E]; cbn [fst]; [by rewrite bool_decide_eq_true_2|].
    rewrite bool_decide_eq_false_2 by done. apply IH. by apply elem_of_cons in Hin as [->|].
  - induction m as [|e m IH]; cbn [app]; rewrite !dict_get_cons; cbn [fst snd].
    + rewrite (bool_decide_ext (k = k') (k' = k)) by done. by case_bool_decide.
    + apply not_elem_of_cons in Hin as [Hne Hin]. rewrite IH by done.
      destruct (bool_decide_reflect (e.1 = k')); [|done]. by rewrite bool_decide_eq_false_2 by congruence.
Qed.

Lemma dict_get_del k m k' :
  dict_get k' (dict_del k m) = if bool_decide (k' = k) then None else dict_get k' m.
Proof.
  unfold dict_del. induction m as [|e m IH]; cbn [List.filter]; [by case_bool_decide|].
  rewrite dict_get_cons. destruct (bool_decide_reflect (e.1 = k)) as [E|E]; cbn [negb].
  - rewrite IH. case_bool_decide; [done|]. by rewrite bool_decide_eq_false_2 by congruence.
  - rewrite dict_get_cons, IH. destruct (bool_decide_reflect (e.1 = k')); [|done].
    by rewrite bool_decide_eq_false_2 by congruence.
Qed.

Lemma dict_get_keys k m : k ∈ m.*1 <-> is_Some (dict_get k m).
Proof.
  induction m as [|e m IH].
  { split; [intros H; by apply not_elem_of_nil in H | intros H; by apply is_Some_None in H]. }
  rewrite fmap_cons, elem_of_cons, IH, dict_get_cons. case_bool_decide as E; [split; [by eexists | by left]|].
  split; [intros [?|H]; [congruence | done] | by right].
Qed.

Lemma dict_get_elem k x m : NoDup m.*1 -> (k, x) ∈ m -> dict_get k m = Some x.
Proof.
  induction m as [|e m IH]; intros Hn Hin; [by apply not_elem_of_nil in Hin|].
  cbn in Hn. apply NoDup_cons in Hn as [Hn1 Hn2]. rewrite dict_get_cons.
  apply elem_of_cons in Hin as [<-|Hin]; [by rewrite bool_decide_eq_true_2|].
  rewrite bool_decide_eq_false_2; [by apply IH|]. intros E. apply Hn1. rewrite E.
  apply list_elem_of_fmap. by exists (k, x).
Qed.

Lemma dict_get_Some k x m : dict_get k m = Some x -> (k, x) ∈ m.
Proof.
  induction m as [|[k' y] m IH]; [done|]. rewrite dict_get_cons. cbn. case_bool_decide as E.
  - intros [= ->]. subst. left.
  - intros H. right. by apply IH.
Qed.

Lemma dict_put_fresh k x m : k ∉ m.*1 -> dict_put k x m = m ++ [(k, x)].
Proof. intros H. unfold dict_put. by rewrite bool_decide_eq_false_2. Qed.

Lemma dict_del_fresh k m : k ∉ m.*1 -> dict_del k m = m.
Proof.
  intros H. apply List.forallb_filter_id, forallb_forall. intros e He%list_elem_of_In.
  apply negb_true_iff, bool_decide_eq_false_2. intros <-. apply H, list_elem_of_fmap. by exists e.
Qed.

Lemma dict_del_last k x m : k ∉ m.*1 -> dict_del k (m ++ [(k, x)]) = m.
Proof.
  intros H. unfold dict_del. rewrite List.filter_app. cbn [List.filter fst].
  rewrite bool_decide_eq_true_2 by done. cbn. rewrite app_nil_r. by apply dict_del_fresh.
Qed.

(** Keys are unique: what is taken out is the one entry under the key. *)
Lemma dict_take k m :
  NoDup m.*1 ->
  match dict_get k m with
  | Some x => (k, x) ∈ m /\ m ≡ₚ (k, x) :: dict_del k m
  | None => dict_del k m = m /\ k ∉ m.*1
  end.
Proof.
  intros Hn. destruct (dict_get k m) as [x|] eqn:Eg.
  - induction m as [|e m IH]; [done|]. rewrite fmap_cons, NoDup_cons in Hn. destruct Hn as [Hi Hn].
    rewrite dict_get_cons in Eg. unfold dict_del. cbn [List.filter]. fold (dict_del k m).
    destruct (bool_decide_reflect (e.1 = k)) as [E|E]; cbn [negb].
    + injection Eg as <-. subst k. rewrite dict_del_fresh by done. destruct e. split; [left | done].
    + destruct (IH Hn Eg) as [H1 H2]. split; [by right|]. rewrite H2 at 1. apply perm_swap.
  - assert (k ∉ m.*1) as Hk by (rewrite dict_get_keys, Eg; apply is_Some_None).
    split; [by apply dict_del_fresh | done].
Qed.
End dict.

#[export] Hint Resolve byte_ok_mod le_bytes_ok u64_sub_range : gopro.
#[export] Hint Rewrite length_le_bytes @length_app @length_cons : gopro.
