(* ===== verification/BleProtocol.v ===== *)
(** * BLE packet framing ([native/include/ble_protocol.h], [native/src/ble_protocol.cpp])

    Fragmentation on transmit ([fragment]) and reassembly on receive
    ([Reassembler] with [feed], [take], [reset]).  Bytes are [Z] in
    [0..255]; a [std::span<const uint8_t>] is a list; [size_t] lengths that
    index a list are [nat], and the lengths carried in headers are [Z]. *)

From stdpp Require Import strings.
From S2P Require Import Prelude.
Local Open Scope Z_scope.

(** ** Constants *)

Definition kContMask : Z := 128.
Definition kHdrMask : Z := 96.
Definition kGenLenMask : Z := 31.
Definition kExt13Byte0Mask : Z := 31.

Inductive PacketHeader := kGeneral | kExt13 | kExt16 | kReserved.

#[export] Instance PacketHeader_eq_dec : EqDecision PacketHeader.
Proof. solve_decision. Defined.

(** The underlying [uint8_t] value, and the cast from a two-bit field. *)
Definition PacketHeader_val (h : PacketHeader) : Z :=
  match h with kGeneral => 0 | kExt13 => 1 | kExt16 => 2 | kReserved => 3 end.

Definition PacketHeader_cast (v : Z) : PacketHeader :=
  match v with 0 => kGeneral | 1 => kExt13 | 2 => kExt16 | _ => kReserved end.

Definition kMaxMessageLen : nat := Z.to_nat (2 ^ 16 - 2).
Definition kMinAttPayload : nat := 20.
Definition kAttOverhead : nat := 3.

(** ** Transmit *)

(** [static_cast<uint8_t>]. *)
Definition to_u8 (x : Z) : byte := Z.land x 255.

Definition first_hdr (len : Z) : bytes :=
  if len <? Z.shiftl 1 13 - 1 then
    [to_u8 (Z.lor (Z.shiftl (PacketHeader_val kExt13) 5)
                  (Z.land (Z.shiftr len 8) kExt13Byte0Mask));
     to_u8 (Z.land len 255)]
  else
    [to_u8 (Z.shiftl (PacketHeader_val kExt16) 5);
     to_u8 (Z.land (Z.shiftr len 8) 255);
     to_u8 (Z.land len 255)].

(** The [while (offset < len)] loop.  [None] is "out of fuel"; each iteration
    advances [offset] by at least one, so [length data] iterations suffice
    ([fragment_loop_cont], [fragment_loop_first]). *)
Fixpoint fragment_loop (fuel : nat) (data hdr : bytes) (att_payload offset : nat)
    (first : bool) : option (list bytes) :=
  if (offset <? length data)%nat then
    match fuel with
    | O => None
    | S fuel =>
        let packet := if first then hdr else [kContMask] in
        let room := (att_payload - length packet)%nat in
        let n := Nat.min room (length data - offset) in
        let packet := packet ++ firstn n (skipn offset data) in
        match fragment_loop fuel data hdr att_payload (offset + n) false with
        | Some out => Some (packet :: out)
        | None => None
        end
    end
  else Some [].

Definition fragment (data : bytes) (att_payload : nat) : list bytes :=
  if (length data =? 0)%nat || (kMaxMessageLen <? length data)%nat then []
  else
    let len := Z.of_nat (length data) in
    let hdr := first_hdr len in
    if (att_payload <=? length hdr)%nat then []
    else default [] (fragment_loop (length data) data hdr att_payload 0 true).

(** ** Receive *)

Inductive FeedResult :=
| kNeedMore | kComplete | kEmptyPacket | kTruncatedHdr
| kReservedHdr | kStrayCont | kOverflow | kZeroLength.

#[export] Instance FeedResult_eq_dec : EqDecision FeedResult.
Proof. solve_decision. Defined.

(** The underlying value, in declaration order. *)
Definition FeedResult_val (r : FeedResult) : Z :=
  match r with
  | kNeedMore => 0 | kComplete => 1 | kEmptyPacket => 2 | kTruncatedHdr => 3
  | kReservedHdr => 4 | kStrayCont => 5 | kOverflow => 6 | kZeroLength => 7
  end.

Definition FeedResult_to_string (r : FeedResult) : string :=
  match r with
  | kNeedMore => "need-more"
  | kComplete => "complete"
  | kEmptyPacket => "empty-packet"
  | kTruncatedHdr => "truncated-header"
  | kReservedHdr => "reserved-header"
  | kStrayCont => "stray-continuation"
  | kOverflow => "overflow"
  | kZeroLength => "zero-length"
  end.

Record Reassembler := mkReassembler {
  buf_ : bytes;
  remaining_ : Z;
  declared_ : Z;
  in_progress_ : bool;
}.

Definition Reassembler_init : Reassembler := mkReassembler [] 0 0 false.

Definition reset (r : Reassembler) : Reassembler := mkReassembler [] 0 0 false.

(** The tail of [feed], from [payload_len] on. *)
Definition feed_payload (r : Reassembler) (packet : bytes) (payload_start : nat)
    : Reassembler * FeedResult :=
  let payload_len := Z.of_nat (length packet - payload_start) in
  if remaining_ r <? payload_len then (reset r, kOverflow)
  else
    let buf := buf_ r ++ skipn payload_start packet in
    let remaining := remaining_ r - payload_len in
    if remaining =? 0 then
      (mkReassembler buf remaining (declared_ r) false, kComplete)
    else (mkReassembler buf remaining (declared_ r) (in_progress_ r), kNeedMore).

(** The end of the new-message branch: a length has been declared. *)
Definition feed_declared (r : Reassembler) (packet : bytes) (declared : Z)
    (payload_start : nat) : Reassembler * FeedResult :=
  if declared =? 0 then (reset r, kZeroLength)
  else feed_payload (mkReassembler [] declared declared true) packet payload_start.

Definition feed (r : Reassembler) (packet : bytes) : Reassembler * FeedResult :=
  match packet with
  | [] => (reset r, kEmptyPacket)
  | b0 :: _ =>
    if negb (Z.land b0 kContMask =? 0) then
      if negb (in_progress_ r) then (reset r, kStrayCont)
      else feed_payload r packet 1
    else
      match PacketHeader_cast (Z.shiftr (Z.land b0 kHdrMask) 5) with
      | kGeneral => feed_declared r packet (Z.land b0 kGenLenMask) 1
      | kExt13 =>
          if (length packet <? 2)%nat then (reset r, kTruncatedHdr)
          else feed_declared r packet
                 (Z.lor (Z.shiftl (Z.land b0 kExt13Byte0Mask) 8) (nth 1 packet 0)) 2
      | kExt16 =>
          if (length packet <? 3)%nat then (reset r, kTruncatedHdr)
          else feed_declared r packet
                 (Z.lor (Z.shiftl (nth 1 packet 0) 8) (nth 2 packet 0)) 3
      | kReserved => (reset r, kReservedHdr)
      end
  end.

(** [take] moves the message out and leaves the reassembler idle. *)
Definition take (r : Reassembler) : Reassembler * bytes :=
  (mkReassembler [] 0 0 false, buf_ r).

(** Accessors. *)
Definition in_progress (r : Reassembler) : bool := in_progress_ r.
Definition bytes_remaining (r : Reassembler) : Z := remaining_ r.
Definition declared_len (r : Reassembler) : Z := declared_ r.

(** ** Sequences of packets

    [feed_all] feeds a list of packets in order; [receive] is [feed] followed
    by [take] on completion, the way the session drives it. *)

Fixpoint feed_all (r : Reassembler) (ps : list bytes) : Reassembler * list FeedResult :=
  match ps with
  | [] => (r, [])
  | p :: ps =>
      let '(r1, x) := feed r p in
      let '(r2, xs) := feed_all r1 ps in (r2, x :: xs)
  end.

Definition receive (r : Reassembler) (p : bytes) : Reassembler * option bytes :=
  let '(r1, x) := feed r p in
  match x with
  | kComplete => let '(r2, m) := take r1 in (r2, Some m)
  | _ => (r1, None)
  end.

Fixpoint receive_all (r : Reassembler) (ps : list bytes) : Reassembler * list bytes :=
  match ps with
  | [] => (r, [])
  | p :: ps =>
      let '(r1, o) := receive r p in
      let '(r2, ms) := receive_all r1 ps in
      (r2, match o with Some m => m :: ms | None => ms end)
  end.

(** ** What a packet says

    The reading of one packet that the wire format of the header file
    describes, independent of any reassembler. *)

Inductive packet_view :=
| VEmpty
| VCont (payload : bytes)
| VTruncated
| VReserved
| VStart (declared : Z) (payload : bytes).

Definition view (p : bytes) : packet_view :=
  match p with
  | [] => VEmpty
  | b0 :: rest =>
      if b0 <? 128 then
        if b0 <? 32 then VStart b0 rest
        else if b0 <? 64 then
          match rest with
          | b1 :: rest => VStart (256 * (b0 - 32) + b1) rest
          | _ => VTruncated
          end
        else if b0 <? 96 then
          match rest with
          | b1 :: b2 :: rest => VStart (256 * b1 + b2) rest
          | _ => VTruncated
          end
        else VReserved
      else VCont rest
  end.

(** Appending one payload to the message being assembled. *)
Definition absorb (r : Reassembler) (pl : bytes) : Reassembler * FeedResult :=
  let n := Z.of_nat (length pl) in
  if remaining_ r <? n then (Reassembler_init, kOverflow)
  else if remaining_ r - n =? 0 then
    (mkReassembler (buf_ r ++ pl) 0 (declared_ r) false, kComplete)
  else (mkReassembler (buf_ r ++ pl) (remaining_ r - n) (declared_ r) (in_progress_ r),
        kNeedMore).

(** [feed] as a function of what the packet says: the specification the
    byte-level code refines ([feed_refines]). *)
Definition feed_spec (r : Reassembler) (v : packet_view) : Reassembler * FeedResult :=
  match v with
  | VEmpty => (Reassembler_init, kEmptyPacket)
  | VTruncated => (Reassembler_init, kTruncatedHdr)
  | VReserved => (Reassembler_init, kReservedHdr)
  | VCont pl =>
      if in_progress_ r then absorb r pl else (Reassembler_init, kStrayCont)
  | VStart d pl =>
      if d =? 0 then (Reassembler_init, kZeroLength)
      else absorb (mkReassembler [] d d true) pl
  end.

(** What the reassembler promises between calls. *)
Definition reassembler_ok (r : Reassembler) : Prop :=
  Z.of_nat (length (buf_ r)) + remaining_ r = declared_ r /\
  declared_ r <= 65535 /\ bytes_ok (buf_ r) /\
  (if in_progress_ r then 0 < remaining_ r else remaining_ r = 0).

(** The payloads of a run of continuation packets. *)
Definition cont_payloads (ps : list bytes) : bytes := concat (tail <$> ps).

Definition is_cont (p : bytes) : Prop := exists pl, view p = VCont pl.

(** A well-framed message: a start packet declaring the total length, then
    continuations that deliver exactly the rest, none of them past the end. *)
Definition well_framed (m : bytes) (ps : list bytes) : Prop :=
  exists h conts pl,
    ps = h :: conts /\ view h = VStart (Z.of_nat (length m)) pl /\
    Forall is_cont conts /\ pl ++ cont_payloads conts = m /\ m <> [] /\
    (forall k, (k < length conts)%nat ->
       (length (pl ++ cont_payloads (firstn k conts)) < length m)%nat).

(** [decodes ps ms]: the messages [ms] are cut out of the packets [ps], in
    order and without overlap; every other packet is dropped. *)
Inductive decodes : list bytes -> list bytes -> Prop :=
| decodes_nil : decodes [] []
| decodes_skip p ps ms : decodes ps ms -> decodes (p :: ps) ms
| decodes_message seg m ps ms :
    well_framed m seg -> decodes ps ms -> decodes (seg ++ ps) (m :: ms).

(** The packets fed since the start packet of the message in progress. *)
Definition assembling (r : Reassembler) (seg : list bytes) : Prop :=
  exists h conts pl,
    seg = h :: conts /\ view h = VStart (declared_ r) pl /\ Forall is_cont conts /\
    buf_ r = pl ++ cont_payloads conts /\
    Z.of_nat (length (buf_ r)) + remaining_ r = declared_ r /\ 0 < remaining_ r /\
    (forall k, (k <= length conts)%nat ->
       Z.of_nat (length (pl ++ cont_payloads (firstn k conts))) < declared_ r).

(** ** Header arithmetic *)

Lemma land_cont_mask b :
  byte_ok b -> (Z.land b kContMask =? 0) = (b <? 128).
Proof.
  intros Hb. apply eqb_prop.
  apply (forallb_below 256 (fun b => Bool.eqb (Z.land b kContMask =? 0) (b <? 128))); done.
Qed.

(** The three masks of a start packet, read as intervals. *)
Lemma header_bits b :
  byte_ok b -> b < 128 ->
  Z.shiftr (Z.land b kHdrMask) 5 = b / 32 /\
  Z.land b kGenLenMask = b mod 32 /\ Z.land b kExt13Byte0Mask = b mod 32.
Proof.
  intros Hb Hlt. unfold byte_ok in Hb.
  pose proof (forallb_below 128
    (fun b => (Z.shiftr (Z.land b kHdrMask) 5 =? b / 32) &&
              (Z.land b kGenLenMask =? b mod 32)) eq_refl b ltac:(lia)) as H.
  cbv beta in H. to_prop. unfold kExt13Byte0Mask, kGenLenMask in *. done.
Qed.

Lemma first_hdr_ext13 len :
  0 < len < 8191 -> first_hdr len = [32 + len / 256; len mod 256].
Proof.
  intros H. unfold first_hdr. change (Z.shiftl 1 13 - 1) with 8191.
  destruct (len <? 8191) eqn:E; to_prop; [|lia].
  unfold to_u8. rewrite !land_255, shiftr_8. change kExt13Byte0Mask with (Z.ones 5).
  rewrite Z.land_ones by lia.
  replace (Z.lor _ _) with (32 + len / 256); [do 2 f_equal; lia|].
  change (PacketHeader_val kExt13) with 1. rewrite lor_shiftl_add by lia. lia.
Qed.

Lemma first_hdr_ext16 len :
  8191 <= len < 65535 -> first_hdr len = [64; len / 256; len mod 256].
Proof.
  intros H. unfold first_hdr. change (Z.shiftl 1 13 - 1) with 8191.
  destruct (len <? 8191) eqn:E; to_prop; [lia|].
  unfold to_u8. rewrite !land_255, shiftr_8.
  change (Z.shiftl (PacketHeader_val kExt16) 5 mod 256) with 64.
  assert ((len / 256) mod 256 mod 256 = len / 256) as -> by lia.
  assert (len mod 256 mod 256 = len mod 256) as -> by lia. done.
Qed.

Lemma length_first_hdr len :
  length (first_hdr len) = if len <? 8191 then 2%nat else 3%nat.
Proof. unfold first_hdr. change (Z.shiftl 1 13 - 1) with 8191. by destruct (_ <? _). Qed.

Lemma view_first_hdr len rest :
  0 < len < 65535 -> view (first_hdr len ++ rest) = VStart len rest.
Proof.
  intros H. destruct (Z.lt_ge_cases len 8191) as [Hl|Hl].
  - rewrite first_hdr_ext13 by lia. cbn.
    destruct (32 + len / 256 <? 128) eqn:?; to_prop; [|lia].
    destruct (32 + len / 256 <? 32) eqn:?; to_prop; [lia|].
    destruct (32 + len / 256 <? 64) eqn:?; to_prop; [|lia].
    f_equal. lia.
  - rewrite first_hdr_ext16 by lia. cbn. f_equal. lia.
Qed.

(** ** [feed] by the content of the packet *)

Lemma feed_payload_absorb r p n :
  feed_payload r p n = absorb r (skipn n p).
Proof.
  unfold feed_payload, absorb. rewrite length_skipn.
  destruct (_ <? _); [done|]. destruct (_ =? 0) eqn:E; [|done].
  to_prop. by rewrite E.
Qed.

Lemma feed_declared_spec r p d n :
  feed_declared r p d n = feed_spec r (VStart d (skipn n p)).
Proof. unfold feed_declared. rewrite feed_payload_absorb. done. Qed.

Lemma feed_by_view r p : bytes_ok p -> feed r p = feed_spec r (view p).
Proof.
  intros Hp. destruct p as [|b0 rest]; [done|].
  apply Forall_cons in Hp as [Hb Hrest]. cbn [feed view].
  rewrite land_cont_mask by done.
  destruct (b0 <? 128) eqn:E128; to_prop; cbn [negb].
  2: { cbn [feed_spec]. rewrite feed_payload_absorb. by destruct (in_progress_ r). }
  destruct (header_bits b0) as (-> & -> & ->); [done..|]. unfold byte_ok in Hb.
  destruct (b0 <? 32) eqn:?; to_prop.
  { replace (b0 / 32) with 0 by lia. cbn [PacketHeader_cast].
    rewrite feed_declared_spec. do 2 f_equal. lia. }
  destruct (b0 <? 64) eqn:?; to_prop.
  { replace (b0 / 32) with 1 by lia. cbn [PacketHeader_cast].
    destruct rest as [|b1 rest]; [done|]. cbn [length Nat.ltb Nat.leb nth].
    apply Forall_cons in Hrest as [Hb1 _]. unfold byte_ok in Hb1.
    rewrite feed_declared_spec, lor_shiftl_add by lia. do 2 f_equal. lia. }
  destruct (b0 <? 96) eqn:?; to_prop.
  { replace (b0 / 32) with 2 by lia. cbn [PacketHeader_cast].
    destruct rest as [|b1 [|b2 rest]]; [done..|]. cbn [length Nat.ltb Nat.leb nth].
    rewrite !Forall_cons in Hrest. destruct Hrest as (Hb1 & Hb2 & _).
    unfold byte_ok in Hb1, Hb2.
    rewrite feed_declared_spec, lor_shiftl_add by lia. do 2 f_equal. lia. }
  replace (b0 / 32) with 3 by lia. done.
Qed.

Lemma view_declared_range p d pl :
  bytes_ok p -> view p = VStart d pl -> 0 <= d <= 65535 /\ bytes_ok pl.
Proof.
  intros Hp. destruct p as [|b0 rest]; [done|].
  apply Forall_cons in Hp as [Hb Hr]. unfold byte_ok in Hb. unfold view.
  repeat split_match; intros; simplify_eq; rewrite ?Forall_cons in Hr;
    destruct_and?; unfold byte_ok in *; to_prop; (split; [lia | done]).
Qed.

Lemma view_cont_ok p pl : bytes_ok p -> view p = VCont pl -> bytes_ok pl /\ tail p = pl.
Proof.
  intros Hp. destruct p as [|b0 rest]; [done|].
  apply Forall_cons in Hp as [Hb Hr]. unfold view.
  repeat split_match; intros; simplify_eq. done.
Qed.

(** ** The invariant *)

Lemma reassembler_ok_init : reassembler_ok Reassembler_init.
Proof. unfold reassembler_ok; cbn. split_and!; [done..|constructor|done]. Qed.

Lemma absorb_ok r pl :
  reassembler_ok r -> in_progress_ r = true -> bytes_ok pl ->
  reassembler_ok (absorb r pl).1.
Proof.
  intros (H1 & H2 & H3 & H4) Hp Hpl. unfold absorb. rewrite Hp in H4 |- *.
  repeat split_match; to_prop; try apply reassembler_ok_init;
    unfold reassembler_ok; cbn; rewrite length_app;
    (split_and!; [lia..|by apply Forall_app|lia]).
Qed.

Lemma feed_ok r p : bytes_ok p -> reassembler_ok r -> reassembler_ok (feed r p).1.
Proof.
  intros Hp Hr. rewrite feed_by_view by done.
  destruct (view p) as [|pl| | |d pl] eqn:Ev; cbn [feed_spec]; try apply reassembler_ok_init.
  - apply view_cont_ok in Ev as [Hpl _]; [|done].
    destruct (in_progress_ r) eqn:Ep; [by apply absorb_ok | apply reassembler_ok_init].
  - apply view_declared_range in Ev as [Hd Hpl]; [|done].
    destruct (d =? 0) eqn:Ed; to_prop; [apply reassembler_ok_init|].
    apply absorb_ok; [|done..]. unfold reassembler_ok; cbn. split_and!; [lia..|constructor|lia].
Qed.

Lemma absorb_result r pl :
  match (absorb r pl).2 with
  | kNeedMore => (absorb r pl).1 =
      mkReassembler (buf_ r ++ pl) (remaining_ r - Z.of_nat (length pl)) (declared_ r) (in_progress_ r)
      /\ Z.of_nat (length pl) < remaining_ r
  | kComplete => (absorb r pl).1 = mkReassembler (buf_ r ++ pl) 0 (declared_ r) false
      /\ Z.of_nat (length pl) = remaining_ r
  | kOverflow => (absorb r pl).1 = Reassembler_init /\ remaining_ r < Z.of_nat (length pl)
  | _ => False
  end.
Proof.
  unfold absorb. destruct (_ <? _) eqn:?; [|destruct (_ =? 0) eqn:?]; to_prop; cbn;
    (split; [done | lia]).
Qed.

#[export] Hint Resolve reassembler_ok_init feed_ok : gopro.

(** ** The transmit loop *)

(** The continuation packets of a fragmentation. *)
Definition cont_packet (att : nat) (p : bytes) : Prop :=
  exists pl, p = kContMask :: pl /\ pl <> [] /\ (length p <= att)%nat.

(** All packets but the last are full. *)
Definition all_full (att : nat) (ps : list bytes) : Prop :=
  forall k p, ps !! k = Some p -> (S k < length ps)%nat -> length p = att.

Lemma cont_packet_is_cont att p : cont_packet att p -> is_cont p.
Proof. intros (pl & -> & _). by exists pl. Qed.

Lemma fragment_loop_cont data hdr att :
  (1 < att)%nat -> forall fuel offset, (length data - offset <= fuel)%nat ->
  exists ps, fragment_loop fuel data hdr att offset false = Some ps /\
    Forall (cont_packet att) ps /\ cont_payloads ps = skipn offset data /\
    all_full att ps.
Proof.
  intros Hatt. induction fuel as [|fuel IH]; intros offset Hf.
  { exists []. cbn [fragment_loop]. destruct (_ <? _)%nat eqn:E; to_prop; [lia|].
    rewrite skipn_all2 by lia. done. }
  cbn [fragment_loop]. destruct (_ <? _)%nat eqn:E; to_prop.
  2: { exists []. rewrite skipn_all2 by lia. done. }
  cbn [length]. remember (Nat.min _ _) as n eqn:Hnd.
  destruct (IH (offset + n)%nat) as (ps & -> & Hps & Hpay & Hfull); [lia|].
  exists ((kContMask :: firstn n (skipn offset data)) :: ps).
  assert (length (firstn n (skipn offset data)) = n) as Hn.
  { rewrite length_firstn, length_skipn. lia. }
  split_and!; [done| |unfold cont_payloads in *; cbn; rewrite Hpay|].
  - constructor; [|done]. eexists; split; [done|]. split.
    + intros Hnil. rewrite Hnil in Hn. cbn in Hn. lia.
    + cbn [length]. lia.
  - by rewrite (Nat.add_comm offset), <- skipn_skipn, firstn_skipn.
  - intros [|k] p; cbn; intros Hk Hlen; [|apply (Hfull k p Hk); lia].
    injection Hk as <-. cbn. rewrite Hn. destruct ps as [|q ps]; [cbn in Hlen; lia|].
    apply Forall_cons in Hps as [(pl & -> & Hpl & _) _].
    assert (length (skipn (offset + n) data) > 0)%nat as Hrest.
    { rewrite <- Hpay. destruct pl; [done | cbn; lia]. }
    rewrite length_skipn in Hrest. lia.
Qed.

Lemma fragment_loop_first data hdr att :
  (1 < att)%nat -> (length hdr < att)%nat -> data <> [] ->
  exists conts,
    fragment_loop (length data) data hdr att 0 true =
      Some ((hdr ++ firstn (att - length hdr) data) :: conts) /\
    Forall (cont_packet att) conts /\
    cont_payloads conts = skipn (att - length hdr) data /\
    all_full att ((hdr ++ firstn (att - length hdr) data) :: conts).
Proof.
  intros Hatt Hhdr Hne. rename data into d.
  assert (0 < length d)%nat as Hpos by (destruct d; [done | cbn; lia]).
  remember (length d) as fuel eqn:Hfuel. destruct fuel as [|fuel]; [lia|].
  cbn [fragment_loop]. destruct (_ <? _)%nat eqn:E; to_prop; [|lia].
  rewrite Nat.sub_0_r, skipn_0. remember (Nat.min _ _) as n eqn:Hnd.
  destruct (fragment_loop_cont d hdr att Hatt fuel (0 + n)) as (ps & -> & Hps & Hpay & Hfull);
    [lia|].
  exists ps.
  assert (firstn n d = firstn (att - length hdr) d) as ->.
  { destruct (Nat.le_gt_cases (att - length hdr) (length d)) as [Hle|Hgt].
    - f_equal. lia.
    - rewrite !firstn_all2; [done|lia|lia]. }
  assert (skipn (0 + n) d = skipn (att - length hdr) d) as Hsk.
  { destruct (Nat.le_gt_cases (att - length hdr) (length d)) as [Hle|Hgt].
    - f_equal. lia.
    - rewrite !skipn_all2; [done|lia|lia]. }
  rewrite Hsk in Hpay. split_and!; [done..|].
  intros [|k] p; cbn; intros Hk Hlen; [|apply (Hfull k p Hk); lia].
  injection Hk as <-. destruct ps as [|q ps]; [cbn in Hlen; lia|].
  apply Forall_cons in Hps as [(pl & -> & Hpl & _) _].
  assert (length (skipn (att - length hdr) d) > 0)%nat as Hrest.
  { rewrite <- Hpay. destruct pl; [done | cbn; lia]. }
  rewrite length_skipn in Hrest. rewrite length_app, length_firstn. lia.
Qed.

(** The loop always finishes within its fuel: [fragment] never takes the
    [default]. *)
Lemma fragment_eq data att :
  data <> [] -> (length data <= kMaxMessageLen)%nat ->
  (length (first_hdr (Z.of_nat (length data))) < att)%nat ->
  exists conts,
    let hdr := first_hdr (Z.of_nat (length data)) in
    fragment data att = (hdr ++ firstn (att - length hdr) data) :: conts /\
    Forall (cont_packet att) conts /\
    cont_payloads conts = skipn (att - length hdr) data /\
    all_full att (fragment data att).
Proof.
  intros Hne Hmax Hatt. unfold fragment.
  assert (length (first_hdr (Z.of_nat (length data))) >= 2)%nat.
  { rewrite length_first_hdr. destruct (_ <? _); lia. }
  destruct (fragment_loop_first data (first_hdr (Z.of_nat (length data))) att)
    as (conts & Hl & Hc & Hp & Hf); [lia|lia|done|].
  exists conts. destruct (length data =? 0)%nat eqn:E; to_prop;
    [by destruct data|]. cbn [orb].
  destruct (kMaxMessageLen <? _)%nat eqn:?; to_prop; [lia|].
  destruct (att <=? _)%nat eqn:?; to_prop; [lia|].
  by rewrite Hl.
Qed.

(** ** Receiving a well-framed message *)

Lemma cont_payloads_cons p ps pl :
  view p = VCont pl -> cont_payloads (p :: ps) = pl ++ cont_payloads ps.
Proof.
  intros Hv. unfold cont_payloads. cbn. f_equal.
  destruct p as [|b rest]; [done|]. unfold view in Hv.
  by repeat split_match_in Hv; simplify_eq.
Qed.

Lemma cont_payloads_app ps qs :
  cont_payloads (ps ++ qs) = cont_payloads ps ++ cont_payloads qs.
Proof. unfold cont_payloads. by rewrite fmap_app, concat_app. Qed.

(** [ps] brings the reassembler from [r] to the message [m] with its last
    packet and not before, with no error on the way. *)
Definition accepts (r : Reassembler) (ps : list bytes) (m : bytes) : Prop :=
  exists ps' p, ps = ps' ++ [p] /\ Forall (fun x => x = kNeedMore) (feed_all r ps').2 /\
    receive (feed_all r ps').1 p = (Reassembler_init, Some m).

Lemma accepts_last r p m : receive r p = (Reassembler_init, Some m) -> accepts r [p] m.
Proof. intros H. exists [], p. split_and!; [done|constructor|done]. Qed.

Lemma accepts_cons r p r1 ps m :
  feed r p = (r1, kNeedMore) -> accepts r1 ps m -> accepts r (p :: ps) m.
Proof.
  intros Hf (ps' & q & -> & Hq & Hr). exists (p :: ps'), q. cbn [feed_all]. rewrite Hf.
  destruct (feed_all r1 ps'). split_and!; [done|by constructor|done].
Qed.

Lemma accepts_receive_all r ps m : accepts r ps m -> receive_all r ps = (Reassembler_init, [m]).
Proof.
  intros (ps' & p & -> & Hq & Hr). revert r Hq Hr. induction ps' as [|q ps IH]; intros r Hq Hr.
  { cbn in *. by rewrite Hr. }
  cbn [feed_all app receive_all] in *. unfold receive at 1. destruct (feed r q) as [r1 x].
  specialize (IH r1). destruct (feed_all r1 ps). cbn [fst snd] in *.
  apply Forall_cons in Hq as [-> Hq]. by rewrite IH.
Qed.

Lemma receive_conts conts : forall r,
  conts <> [] ->
  Forall bytes_ok conts -> Forall is_cont conts -> in_progress_ r = true ->
  0 < remaining_ r -> Z.of_nat (length (cont_payloads conts)) = remaining_ r ->
  (forall k, (k < length conts)%nat ->
     Z.of_nat (length (cont_payloads (firstn k conts))) < remaining_ r) ->
  accepts r conts (buf_ r ++ cont_payloads conts).
Proof.
  induction conts as [|c conts IH]; intros r Hn Hok Hc Hp Hr Hlen Hpre; [done|].
  apply Forall_cons in Hok as [Hok1 Hok]. apply Forall_cons in Hc as [[pl Hv] Hc].
  rewrite (cont_payloads_cons c conts pl) in * by done. rewrite length_app in Hlen.
  assert (feed r c = absorb r pl) as Hf.
  { rewrite feed_by_view, Hv by done. cbn [feed_spec]. by rewrite Hp. }
  unfold absorb in Hf. destruct (remaining_ r <? _) eqn:E1 in Hf; to_prop; [lia|].
  destruct conts as [|c2 conts].
  - rewrite app_nil_r. apply accepts_last. unfold receive. rewrite Hf.
    cbn in Hlen. destruct (_ =? 0) eqn:E2; to_prop; [done|lia].
  - specialize (IH (mkReassembler (buf_ r ++ pl) (remaining_ r - Z.of_nat (length pl)) (declared_ r)
                      (in_progress_ r)) ltac:(done) Hok Hc Hp).
    pose proof (Hpre 1%nat ltac:(cbn; lia)) as Hlt. cbn [firstn] in Hlt.
    rewrite (cont_payloads_cons c [] pl), length_app in Hlt by done.
    destruct (_ =? 0) eqn:E2 in Hf; to_prop; [lia|].
    eapply accepts_cons; [exact Hf|]. rewrite app_assoc. apply IH; cbn [remaining_]; [lia|lia|].
    intros k Hk. specialize (Hpre (S k) ltac:(cbn in *; lia)). cbn [firstn] in Hpre.
    rewrite (cont_payloads_cons c _ pl), length_app in Hpre by done. lia.
Qed.

Lemma well_framed_accepted m ps r :
  Forall bytes_ok ps -> well_framed m ps -> accepts r ps m.
Proof.
  intros Hok (h & conts & pl & -> & Hv & Hc & Hm & Hne & Hpre).
  apply Forall_cons in Hok as [Hok1 Hok].
  assert (0 < Z.of_nat (length m)) by (destruct m; [done | cbn; lia]).
  assert (length m = length pl + length (cont_payloads conts))%nat as Hlm
    by (by rewrite <- length_app, Hm).
  assert (feed r h = absorb (mkReassembler [] (Z.of_nat (length m)) (Z.of_nat (length m)) true) pl) as Hf.
  { rewrite feed_by_view, Hv by done. cbn [feed_spec].
    destruct (_ =? 0) eqn:E0; to_prop; [lia|]. done. }
  unfold absorb in Hf. cbn [remaining_ buf_ declared_ in_progress_ app] in Hf.
  destruct (_ <? _) eqn:E1 in Hf; to_prop; [lia|].
  destruct conts as [|c conts].
  - apply accepts_last. unfold receive. rewrite Hf. cbn in Hlm.
    destruct (_ =? 0) eqn:E2; to_prop; [|lia]. rewrite <- Hm. cbn. by rewrite app_nil_r.
  - pose proof (Hpre 0%nat ltac:(cbn; lia)) as Hlt. rewrite length_app in Hlt.
    destruct (_ =? 0) eqn:E2 in Hf; to_prop; [lia|].
    eapply accepts_cons; [exact Hf|].
    match goal with |- accepts ?r1 _ _ => pose proof (receive_conts (c :: conts) r1) as G end.
    cbn [buf_] in G. rewrite Hm in G. apply G; cbn [remaining_ in_progress_]; try done; [lia|lia|].
    intros k Hk. specialize (Hpre k Hk). rewrite length_app in Hpre. lia.
Qed.

(** A fragmentation is well framed. *)
Lemma fragment_well_framed data att :
  data <> [] -> (length data <= kMaxMessageLen)%nat ->
  (length (first_hdr (Z.of_nat (length data))) < att)%nat ->
  well_framed data (fragment data att).
Proof.
  intros Hne Hmax Hatt.
  destruct (fragment_eq data att) as (conts & -> & Hc & Hp & _); [done..|].
  set (hdr := first_hdr _) in *. set (n := (att - length hdr)%nat) in *.
  assert (0 < length data)%nat by (destruct data; [done | cbn; lia]).
  assert (Z.of_nat (length data) < 65535).
  { change kMaxMessageLen with (Z.to_nat 65534) in Hmax. lia. }
  exists (hdr ++ firstn n data), conts, (firstn n data). split_and!; [done| | | |done|].
  - apply view_first_hdr. lia.
  - by eapply Forall_impl; [exact Hc|]; intros; eapply cont_packet_is_cont.
  - by rewrite Hp, firstn_skipn.
  - intros k Hk. apply (f_equal length) in Hp as Hlen.
    rewrite <- (firstn_skipn k conts), cont_payloads_app, length_app, length_skipn in Hlen.
    rewrite length_app, length_firstn.
    assert (0 < length (cont_payloads (skipn k conts)))%nat; [|lia].
    rewrite Forall_forall in Hc.
    destruct (skipn k conts) as [|c cs] eqn:Ek.
    { apply (f_equal length) in Ek. rewrite length_skipn in Ek. cbn in Ek. lia. }
    destruct (Hc c) as (pl & -> & Hpl & _).
    { rewrite <- (firstn_skipn k conts), Ek. apply elem_of_app. right. left. }
    rewrite (cont_payloads_cons _ _ pl), length_app by done. destruct pl; [done | cbn; lia].
Qed.

Lemma fragment_bytes_ok data att : bytes_ok data -> Forall bytes_ok (fragment data att).
Proof.
  intros Hd. unfold fragment. repeat split_match; try constructor.
  assert (forall fuel off first out,
    fragment_loop fuel data (first_hdr (Z.of_nat (length data))) att off first = Some out ->
    Forall bytes_ok out) as Hl.
  { assert (bytes_ok (first_hdr (Z.of_nat (length data)))) as Hh.
    { unfold first_hdr, to_u8. destruct (_ <? _); repeat constructor;
        rewrite land_255; apply byte_ok_mod. }
    induction fuel as [|fuel IH]; intros off first out; cbn [fragment_loop];
      repeat split_match; intros; simplify_eq; try constructor; eauto;
      apply Forall_app; (split; [| by apply Forall_take, Forall_drop]); try done.
    all: repeat constructor; done. }
  destruct (fragment_loop _ _ _ _ _ _) eqn:E; cbn; [by eapply Hl | constructor].
Qed.

(** ** Soundness of reassembly on arbitrary input *)

Lemma decodes_skip_app seg ps ms : decodes ps ms -> decodes (seg ++ ps) ms.
Proof. induction seg; cbn; [done | eauto using decodes]. Qed.

Lemma assembling_absorb r seg p pl :
  assembling r seg -> in_progress_ r = true -> view p = VCont pl ->
  match (absorb r pl).2 with
  | kNeedMore => assembling (absorb r pl).1 (seg ++ [p]) /\ in_progress_ (absorb r pl).1 = true
  | kComplete => well_framed (buf_ (absorb r pl).1) (seg ++ [p])
  | _ => in_progress_ (absorb r pl).1 = false
  end.
Proof.
  intros (h & conts & pl0 & -> & Hv & Hc & Hb & Hsum & Hr & Hpre) Hip Hp.
  assert (Forall is_cont (conts ++ [p])) as Hc' by (apply Forall_app; split; [done|by repeat constructor; exists pl]).
  assert (buf_ r ++ pl = pl0 ++ cont_payloads (conts ++ [p])) as Hb'.
  { rewrite cont_payloads_app, (cont_payloads_cons p [] pl), app_nil_r by done. by rewrite Hb, app_assoc. }
  pose proof (absorb_result r pl) as Hres. unfold absorb in *.
  destruct (_ <? _) eqn:E1; [done|]. destruct (_ =? 0) eqn:E2; to_prop; cbn in *.
  - destruct Hres as [_ Hlen].
    assert (Z.of_nat (length (buf_ r ++ pl)) = declared_ r) as Hd by (rewrite length_app; lia).
    exists h, (conts ++ [p]), pl0. rewrite Hd. split_and!; try done.
    + intros Hnil. rewrite Hnil in Hd. cbn in Hd. rewrite Hb in Hsum.
      specialize (Hpre 0%nat ltac:(lia)). lia.
    + intros k Hk. rewrite length_app in Hk. cbn in Hk.
      rewrite firstn_app, (proj2 (Nat.sub_0_le k (length conts))), firstn_O, app_nil_r by lia.
      specialize (Hpre k ltac:(lia)). lia.
  - destruct Hres as [_ Hlt]. split; [|done].
    exists h, (conts ++ [p]), pl0. cbn. split_and!; try done; rewrite ?length_app; try lia.
    intros k Hk. cbn in Hk. destruct (decide (k <= length conts)%nat).
    + rewrite firstn_app, (proj2 (Nat.sub_0_le k (length conts))), firstn_O, app_nil_r by lia.
      by apply Hpre.
    + rewrite firstn_all2 by (rewrite length_app; cbn; lia). rewrite <- Hb', length_app. lia.
Qed.

Lemma assembling_start p d pl :
  view p = VStart d pl -> d <> 0 -> 0 <= d ->
  let ra := absorb (mkReassembler [] d d true) pl in
  match ra.2 with
  | kNeedMore => assembling ra.1 [p] /\ in_progress_ ra.1 = true
  | kComplete => well_framed (buf_ ra.1) [p]
  | _ => in_progress_ ra.1 = false
  end.
Proof.
  intros Hv Hd0 Hd. pose proof (absorb_result (mkReassembler [] d d true) pl) as Hres.
  unfold absorb in *. cbn in *. destruct (_ <? _) eqn:E1; [done|].
  destruct (_ =? 0) eqn:E2; to_prop; cbn in *; destruct Hres as [_ Hlen].
  - exists p, [], pl. unfold cont_payloads; cbn. rewrite Hlen, app_nil_r.
    split_and!; try done; [destruct pl; cbn in *; [lia|done] | lia].
  - split; [|done]. exists p, [], pl. unfold cont_payloads; cbn. rewrite app_nil_r.
    split_and!; try done; try lia. intros k Hk. destruct k; [|lia]. cbn. rewrite app_nil_r. lia.
Qed.

(** One packet, seen from a reassembler that has consumed [seg] of the message
    in progress (nothing when idle): it extends the segment, completes it, or
    the segment is dropped. *)
Lemma receive_step r seg p :
  bytes_ok p -> (if in_progress_ r then assembling r seg else seg = []) ->
  match (receive r p).2 with
  | Some m => in_progress_ (receive r p).1 = false /\
      exists seg', well_framed m seg' /\ (seg' = seg ++ [p] \/ seg' = [p])
  | None => if in_progress_ (receive r p).1
      then exists seg', assembling (receive r p).1 seg' /\ (seg' = seg ++ [p] \/ seg' = [p])
      else True
  end.
Proof.
  intros Hp Hseg. unfold receive. rewrite feed_by_view by done.
  destruct (view p) as [|pl| | |d pl] eqn:Ev; cbn [feed_spec]; try done.
  - destruct (in_progress_ r) eqn:Hip; [|done].
    pose proof (assembling_absorb r seg p pl Hseg Hip Ev) as H.
    destruct (absorb r pl) as [r1 x]; cbn [fst snd] in H.
    destruct x; cbn in *; rewrite ?H; try done; [destruct H as [H ->]|split; [done|]]; eauto.
  - pose proof (view_declared_range p d pl Hp Ev) as [Hd _].
    destruct (d =? 0) eqn:E; to_prop; [done|].
    pose proof (assembling_start p d pl Ev E ltac:(lia)) as H.
    destruct (absorb _ pl) as [r1 x]; cbn [fst snd] in H.
    destruct x; cbn in *; rewrite ?H; try done; [destruct H as [H ->]|split; [done|]]; eauto.
Qed.

Lemma receive_all_decodes ps : forall r seg,
  Forall bytes_ok ps -> (if in_progress_ r then assembling r seg else seg = []) ->
  decodes (seg ++ ps) (receive_all r ps).2.
Proof.
  induction ps as [|p ps IH]; intros r seg Hok Hseg.
  { apply decodes_skip_app. constructor. }
  apply Forall_cons in Hok as [Hp Hok]. pose proof (receive_step r seg p Hp Hseg) as Hstep.
  cbn [receive_all]. destruct (receive r p) as [r1 o] eqn:Er. cbn [fst snd] in Hstep.
  destruct (receive_all r1 ps) as [r2 ms] eqn:Ea. cbn [snd].
  assert (forall seg', (if in_progress_ r1 then assembling r1 seg' else seg' = []) ->
            decodes (seg' ++ ps) ms) as Hnext.
  { intros seg' H. specialize (IH r1 seg' Hok H). by rewrite Ea in IH. }
  destruct o as [m|].
  - destruct Hstep as (Hip & seg' & Hw & Hs).
    assert (decodes ps ms) as Hrest by (specialize (Hnext []); rewrite Hip in Hnext; auto).
    assert (decodes (seg' ++ ps) (m :: ms)) by by apply decodes_message.
    destruct Hs as [-> | ->]; [by rewrite <- app_assoc in *|]. by apply decodes_skip_app.
  - destruct (in_progress_ r1) eqn:Hip.
    + destruct Hstep as (seg' & Hw & Hs). specialize (Hnext seg' Hw).
      destruct Hs as [-> | ->]; [by rewrite <- app_assoc in *|]. by apply decodes_skip_app.
    + specialize (Hnext [] eq_refl). apply decodes_skip_app. by constructor.
Qed.

Lemma receive_all_decoded ps :
  Forall bytes_ok ps -> decodes ps (receive_all Reassembler_init ps).2.
Proof. intros H. by apply (receive_all_decodes ps Reassembler_init []). Qed.

Lemma cont_count att conts :
  (1 < att)%nat -> Forall (cont_packet att) conts -> all_full att conts ->
  (length (cont_payloads conts) <= length conts * (att - 1) /\
   length conts * (att - 1) < length (cont_payloads conts) + (att - 1))%nat.
Proof.
  intros Hatt Hc. induction Hc as [|p conts (pl & -> & Hpl & Hle) Hc IH]; intros Hfull.
  { unfold cont_payloads; cbn. lia. }
  rewrite (cont_payloads_cons _ _ pl), length_app by done. cbn [length] in *.
  assert (0 < length pl)%nat by (destruct pl; [done | cbn; lia]).
  destruct IH as [IH1 IH2].
  { intros k q Hk Hlen. apply (Hfull (S k) q Hk). cbn; lia. }
  destruct conts as [|q conts]; [unfold cont_payloads in *; cbn in *; lia|].
  pose proof (Hfull 0%nat _ eq_refl ltac:(cbn; lia)) as Hf. cbn in Hf. cbn in *. lia.
Qed.

(** ** Properties *)

(** C2: round trip.  Whatever the receiver was doing before, feeding it the
    packets of [fragment data att] delivers exactly [data], once, and leaves
    it idle; for every message the framing accepts and every payload size that
    holds a header and one byte. *)
Theorem fragment_reassemble data att r :
  bytes_ok data -> data <> [] -> (length data <= kMaxMessageLen)%nat ->
  (length (first_hdr (Z.of_nat (length data))) < att)%nat ->
  receive_all r (fragment data att) = (Reassembler_init, [data]).
Proof.
  intros Hok Hne Hmax Hatt.
  apply accepts_receive_all, well_framed_accepted; auto using fragment_bytes_ok, fragment_well_framed.
Qed.

Lemma fragment_reassemble_witness :
  receive_all (mkReassembler [9; 9] 3 5 true) (fragment [7; 8; 9; 10; 11] 4) =
    (Reassembler_init, [[7; 8; 9; 10; 11]]).
Proof.
  apply (fragment_reassemble [7; 8; 9; 10; 11] 4).
  - repeat constructor; unfold byte_ok; lia.
  - discriminate.
  - apply Nat.leb_le. vm_compute. reflexivity.
  - vm_compute. lia.
Defined.

(** Every packet fits in the ATT payload, all but the last are full, and
    their number is the least possible: the first packet carries
    [att - header] bytes and each further one [att - 1]. *)
Theorem fragment_packets data att :
  data <> [] -> (length data <= kMaxMessageLen)%nat ->
  (length (first_hdr (Z.of_nat (length data))) < att)%nat ->
  let room := (att - length (first_hdr (Z.of_nat (length data))))%nat in
  Forall (fun p => length p <= att)%nat (fragment data att) /\
  all_full att (fragment data att) /\
  length (fragment data att) =
    (1 + (length data - room + (att - 2)) / (att - 1))%nat.
Proof.
  intros Hne Hmax Hatt room.
  destruct (fragment_eq data att) as (conts & Hfr & Hc & Hp & Hfull); [done..|].
  assert (1 < att)%nat.
  { rewrite length_first_hdr in Hatt. destruct (_ <? _); lia. }
  split_and!; [|done|].
  - rewrite Hfr. constructor.
    + rewrite length_app, length_firstn. lia.
    + eapply Forall_impl; [exact Hc|]. by intros p (? & ? & ? & ?).
  - destruct (cont_count att conts) as [H1 H2]; [done..| |].
    { intros k p Hk Hlen. apply (Hfull (S k) p); rewrite Hfr; [done | cbn; lia]. }
    rewrite Hfr. cbn [length]. rewrite Hp, length_skipn in *.
    fold room in H1, H2. replace (att - 2)%nat with (att - 1 - 1)%nat by lia.
    assert (0 < att - 1)%nat as Hb by lia. generalize dependent (att - 1)%nat.
    intros b H1 H2 Hb. rewrite Nat.mul_comm in H1, H2. f_equal.
    apply (Nat.div_unique _ _ _ (length data - room + (b - 1) - b * length conts));
      clearbody room; generalize dependent (b * length conts)%nat; intros; lia.
Qed.

Lemma fragment_packets_witness :
  length (fragment (repeat 5 3000) 20) = 158%nat /\ length (fragment (repeat 5 3000) 512) = 6%nat.
Proof.
  split.
  - refine (proj2 (proj2 (fragment_packets (repeat 5 3000) 20 _ _ _)));
      [discriminate | apply Nat.leb_le; reflexivity | vm_compute; lia].
  - refine (proj2 (proj2 (fragment_packets (repeat 5 3000) 512 _ _ _)));
      [discriminate | apply Nat.leb_le; reflexivity | vm_compute; lia].
Defined.

(** [fragment] refuses exactly three inputs: no data, more data than
    [kMaxMessageLen], and a payload size that cannot hold a header and a byte. *)
Theorem fragment_rejects data att :
  fragment data att = [] <->
  data = [] \/ (kMaxMessageLen < length data)%nat \/
  (att <= length (first_hdr (Z.of_nat (length data))))%nat.
Proof.
  split.
  - intros Hnil. destruct data as [|b data]; [by left|right].
    destruct (Nat.le_gt_cases (length (b :: data)) kMaxMessageLen) as [Hle|?]; [right|by left].
    apply Nat.nlt_ge. intros Hatt.
    destruct (fragment_eq (b :: data) att) as (conts & Hfr & _); [done..|]. congruence.
  - unfold fragment. intros H.
    destruct (_ || _) eqn:E; [done|]. to_prop. destruct H as [-> |[H|H]]; [done|lia|].
    destruct (_ <=? _)%nat eqn:?; to_prop; [done|lia].
Qed.

(** C19: the byte-level parser is exactly the reading of the wire format: what
    [feed] does depends on a packet only through [view], which says whether it
    is a continuation, a start with a declared length, or malformed. *)
Theorem feed_refines r p : bytes_ok p -> feed r p = feed_spec r (view p).
Proof. apply feed_by_view. Qed.

Lemma feed_refines_witness :
  feed Reassembler_init [64; 1; 44; 7; 8] = feed_spec Reassembler_init (VStart 300 [7; 8]).
Proof. apply (feed_refines Reassembler_init [64; 1; 44; 7; 8]). repeat constructor; unfold byte_ok; lia. Defined.

(** On any packet whatsoever the reassembler's counters stay consistent
    ([buf] + [remaining] = [declared] <= 65535, and [remaining] is never
    negative); a completed message has exactly its declared length; every
    error leaves the reassembler in its initial state. *)
Theorem feed_safe r p :
  bytes_ok p -> reassembler_ok r ->
  reassembler_ok (feed r p).1 /\
  match (feed r p).2 with
  | kNeedMore => in_progress (feed r p).1 = true
  | kComplete => in_progress (feed r p).1 = false /\
      Z.of_nat (length (take (feed r p).1).2) = declared_len (feed r p).1 /\
      (take (feed r p).1).1 = Reassembler_init
  | _ => (feed r p).1 = Reassembler_init
  end.
Proof.
  intros Hp Hr. pose proof (feed_ok r p Hp Hr) as Hok. split; [done|].
  rewrite feed_by_view in * by done.
  destruct (view p) as [|pl| | |d pl]; cbn [feed_spec] in *; try done.
  - destruct (in_progress_ r) eqn:Hip; [|done].
    pose proof (absorb_result r pl) as Hres. destruct (absorb r pl) as [r1 []]; cbn in *;
      try done; destruct Hres as [-> ?]; try done;
      destruct Hok as (H1 & _); cbn in *; split_and!; done || lia.
  - destruct (d =? 0); [done|].
    pose proof (absorb_result (mkReassembler [] d d true) pl) as Hres.
    destruct (absorb _ pl) as [r1 []]; cbn in *;
      try done; destruct Hres as [-> ?]; try done;
      destruct Hok as (H1 & _); cbn in *; split_and!; done || lia.
Qed.

Lemma feed_safe_witness :
  reassembler_ok (feed (mkReassembler [1] 4 5 true) [128; 2; 3]).1 /\
  in_progress (feed (mkReassembler [1] 4 5 true) [128; 2; 3]).1 = true.
Proof.
  apply (feed_safe (mkReassembler [1] 4 5 true) [128; 2; 3]).
  - repeat constructor; unfold byte_ok; lia.
  - unfold reassembler_ok; cbn. split_and!; [lia|lia|repeat constructor; unfold byte_ok; lia|lia].
Defined.

(** C3: no splicing.  Whatever packets arrive, every delivered message is the
    payload of one start packet and the continuations that directly follow it,
    with the declared length; messages come out in order and share no packet. *)
Theorem reassembly_sound ps :
  Forall bytes_ok ps -> decodes ps (receive_all Reassembler_init ps).2.
Proof. apply receive_all_decoded. Qed.

Lemma reassembly_sound_witness :
  decodes [[128; 9]; [3; 1; 2]; [2; 7]; [128; 8]; [128; 9]] [[7; 8]].
Proof.
  apply (reassembly_sound [[128; 9]; [3; 1; 2]; [2; 7]; [128; 8]; [128; 9]]).
  repeat constructor; unfold byte_ok; lia.
Defined.

(** A length of 8191 fits in the 13 bits of EXT_13, but [fragment] gives it
    the three-byte EXT_16 header; every shorter message gets EXT_13. *)
Theorem header_switch len :
  0 < len < 65535 ->
  length (first_hdr len) = (if len <? 2 ^ 13 - 1 then 2%nat else 3%nat) /\
  view (first_hdr len) = VStart len [].
Proof.
  intros H. rewrite length_first_hdr. split; [done|].
  rewrite <- (app_nil_r (first_hdr len)). by apply view_first_hdr.
Qed.

Lemma header_switch_witness :
  length (first_hdr 8191) = 3%nat /\ view (first_hdr 8191) = VStart 8191 [].
Proof. apply (header_switch 8191). lia. Defined.
