(* ===== verification/QueryParser.v ===== *)
(** * Query responses and the ready gate
    ([native/include/query_parser.h], [native/src/query_parser.cpp])

    [parse_query] turns a reassembled payload into a list of (id, value)
    entries; [ReadyState] folds the BUSY and ENCODING entries into the gate the
    command queue waits on. *)

From stdpp Require Import strings.
From S2P Require Import Prelude.
Local Open Scope Z_scope.

Definition kGetStatusVal : Z := 19.
Definition kRegStatusValUpdate : Z := 83.
Definition kUnregStatusValUpdate : Z := 115.
Definition kStatusValPush : Z := 147.
Definition kStatusBusy : Z := 8.
Definition kStatusEncoding : Z := 10.

Record QueryEntry := mkQueryEntry {
  id : byte;
  value : bytes;
}.

#[export] Instance QueryEntry_eq_dec : EqDecision QueryEntry.
Proof. solve_decision. Defined.

Record QueryResponse := mkQueryResponse {
  query_cmd_id : byte;
  status : byte;
  entries : list QueryEntry;
}.

#[export] Instance QueryResponse_eq_dec : EqDecision QueryResponse.
Proof. solve_decision. Defined.

(** [QueryResponse{}]. *)
Definition QueryResponse_init : QueryResponse := mkQueryResponse 0 0 [].

Definition as_uint (e : QueryEntry) : option Z :=
  if (length (value e) =? 0)%nat || (8 <? length (value e))%nat then None
  else Some (fold_left (fun v b => Z.lor (wrap 64 (Z.shiftl v 8)) b) (value e) 0).

Definition as_bool (e : QueryEntry) : bool := negb (default 0 (as_uint e) =? 0).

Definition is_status (r : QueryResponse) : bool :=
  (query_cmd_id r =? kGetStatusVal) || (query_cmd_id r =? kRegStatusValUpdate) ||
  (query_cmd_id r =? kUnregStatusValUpdate) || (query_cmd_id r =? kStatusValPush).

Definition ok (r : QueryResponse) : bool := status r =? 0.

(** The first entry with this id. *)
Definition find (r : QueryResponse) (i : byte) : option QueryEntry :=
  List.find (fun e => id e =? i) (entries r).

Inductive QueryParseResult := kOk | kTooShort | kTruncatedTlv.

#[export] Instance QueryParseResult_eq_dec : EqDecision QueryParseResult.
Proof. solve_decision. Defined.

Definition QueryParseResult_to_string (r : QueryParseResult) : string :=
  match r with
  | kOk => "ok"
  | kTooShort => "too-short"
  | kTruncatedTlv => "truncated-tlv"
  end.

(** The [while (i + 1 < payload.size())] loop from index [i]; [None] is "out of
    fuel", and [length payload] iterations always suffice ([parse_loop_total]). *)
Fixpoint parse_loop (fuel : nat) (payload : bytes) (i : nat)
    : option (QueryParseResult * list QueryEntry) :=
  if (i + 1 <? length payload)%nat then
    match fuel with
    | O => None
    | S fuel =>
        let id := nth i payload 0 in
        let len := Z.to_nat (nth (i + 1) payload 0) in
        if (length payload <? i + 2 + len)%nat then Some (kTruncatedTlv, [])
        else
          let e := mkQueryEntry id (firstn len (skipn (i + 2) payload)) in
          match parse_loop fuel payload (i + (2 + len)) with
          | Some (r, es) => Some (r, e :: es)
          | None => None
          end
    end
  else Some (kOk, []).

Definition parse_query (payload : bytes) : QueryParseResult * QueryResponse :=
  if (length payload <? 2)%nat then (kTooShort, QueryResponse_init)
  else
    let '(r, es) := default (kOk, []) (parse_loop (length payload) payload 2) in
    (r, mkQueryResponse (nth 0 payload 0) (nth 1 payload 0) es).

(** ** ReadyState *)

Record ReadyState := mkReadyState {
  busy_ : option bool;
  encoding_ : option bool;
}.

Definition ReadyState_init : ReadyState := mkReadyState None None.

Definition ready (s : ReadyState) : bool :=
  match busy_ s, encoding_ s with
  | Some b, Some e => negb b && negb e
  | _, _ => false
  end.

Definition ready_reset (s : ReadyState) : ReadyState := mkReadyState None None.

(** One of the two [if (const QueryEntry* e = response.find(..))] blocks. *)
Definition fold_status (old : option bool) (e : option QueryEntry) : option bool :=
  match e with
  | Some e => if (length (value e) =? 0)%nat then old else Some (as_bool e)
  | None => old
  end.

(** The new state, and whether [ready()] changed. *)
Definition apply (s : ReadyState) (r : QueryResponse) : ReadyState * bool :=
  if negb (is_status r) then (s, false)
  else
    let s' := mkReadyState (fold_status (busy_ s) (find r kStatusBusy))
                           (fold_status (encoding_ s) (find r kStatusEncoding)) in
    (s', negb (Bool.eqb (ready s') (ready s))).

(** ** The wire format, as the header file describes it *)

Definition entry_bytes (e : QueryEntry) : bytes :=
  id e :: Z.of_nat (length (value e)) :: value e.

Definition entries_bytes (es : list QueryEntry) : bytes := concat (entry_bytes <$> es).

Definition response_bytes (r : QueryResponse) : bytes :=
  query_cmd_id r :: status r :: entries_bytes (entries r).

Definition entry_ok (e : QueryEntry) : Prop := (length (value e) <= 255)%nat.

(** What may follow the complete entries of a payload: nothing or one stray
    byte ([kOk]), or an entry whose declared length runs past the end. *)
Definition tail_of (res : QueryParseResult) (tl : bytes) : Prop :=
  match res with
  | kOk => (length tl <= 1)%nat
  | kTruncatedTlv => exists i n rest, tl = i :: n :: rest /\ Z.of_nat (length rest) < n
  | kTooShort => False
  end.

(** ** The parse loop *)

Lemma nth_skipn_0 (l : bytes) i d : nth i l d = nth 0 (skipn i l) d.
Proof. revert l; induction i as [|i IH]; intros [|x l]; cbn; done || apply IH. Qed.

(** The loop as a function of the bytes still to read: what it returns is the
    only way to cut them into complete entries and a tail. *)
Lemma parse_loop_spec fuel payload i :
  bytes_ok payload -> (length payload - i <= fuel)%nat ->
  exists res es tl, parse_loop fuel payload i = Some (res, es) /\
    skipn i payload = entries_bytes es ++ tl /\ Forall entry_ok es /\ tail_of res tl.
Proof.
  intros Hok. revert i. induction fuel as [|fuel IH]; intros i Hf; cbn [parse_loop].
  { destruct (_ <? _)%nat eqn:E; to_prop; [lia|]. exists kOk, [], (skipn i payload).
    split_and!; try done. cbn. rewrite length_skipn. lia. }
  destruct (_ <? _)%nat eqn:E; to_prop.
  2: { exists kOk, [], (skipn i payload).
       split_and!; try done. cbn. rewrite length_skipn. lia. }
  destruct (skipn i payload) as [|a [|n rest]] eqn:Hsk;
    try (apply (f_equal length) in Hsk; rewrite length_skipn in Hsk; cbn in Hsk; lia).
  assert (skipn (i + 1) payload = n :: rest) as Hsk1.
  { rewrite Nat.add_comm, <- skipn_skipn, Hsk. done. }
  assert (skipn (i + 2) payload = rest) as Hsk2.
  { rewrite Nat.add_comm, <- skipn_skipn, Hsk. done. }
  rewrite (nth_skipn_0 payload i), (nth_skipn_0 payload (i + 1)), Hsk, Hsk1, Hsk2. cbn [nth].
  assert (byte_ok n) as Hn.
  { assert (bytes_ok (skipn (i + 1) payload)) as H by by apply Forall_drop.
    rewrite Hsk1 in H. by inversion H. }
  unfold byte_ok in Hn.
  assert (length rest = length payload - i - 2)%nat as Hlr.
  { rewrite <- Hsk2, length_skipn. lia. }
  destruct (_ <? _)%nat eqn:E2; to_prop.
  { exists kTruncatedTlv, [], (a :: n :: rest). split_and!; try done.
    exists a, n, rest. split; [done|lia]. }
  destruct (IH (i + (2 + Z.to_nat n))%nat) as (res & es & tl & -> & Hcut & Hes & Htl); [lia|].
  exists res, (mkQueryEntry a (firstn (Z.to_nat n) rest) :: es), tl.
  split_and!; [done| | |done].
  - rewrite Nat.add_assoc, Nat.add_comm, <- skipn_skipn, Hsk2 in Hcut.
    unfold entries_bytes. cbn. rewrite length_firstn, Nat.min_l by lia.
    rewrite Z2Nat.id by lia. do 2 f_equal.
    rewrite <- app_assoc. fold (entries_bytes es). rewrite <- Hcut. by rewrite firstn_skipn.
  - constructor; [|done]. unfold entry_ok; cbn. rewrite length_firstn. lia.
Qed.

(** Cutting a byte string into entries and a tail is unambiguous. *)
Lemma cut_unique es1 : forall es2 res1 res2 tl1 tl2,
  entries_bytes es1 ++ tl1 = entries_bytes es2 ++ tl2 ->
  tail_of res1 tl1 -> tail_of res2 tl2 -> es1 = es2 /\ tl1 = tl2 /\ res1 = res2.
Proof.
  assert (forall e es res tl tl', tail_of res tl' ->
            entries_bytes (e :: es) ++ tl <> tl') as Habs.
  { intros e es res tl tl' Ht Heq. unfold entries_bytes in Heq. cbn in Heq.
    rewrite <- app_assoc in Heq.
    destruct res; cbn in Ht; [subst tl'; cbn in Ht; lia|done|].
    destruct Ht as (i & n & rest & -> & Hlt). simplify_eq.
    rewrite length_app in Hlt. lia. }
  induction es1 as [|e1 es1 IH]; intros [|e2 es2] res1 res2 tl1 tl2 Heq H1 H2.
  - cbn in Heq. subst tl2. split_and!; [done..|].
    destruct res1, res2; cbn in *; try done;
      repeat match goal with H : exists _, _ |- _ => destruct H | H : _ /\ _ |- _ => destruct H end;
      subst; cbn in *; lia.
  - exfalso. eapply Habs; [exact H1 | symmetry; exact Heq].
  - exfalso. eapply Habs; [exact H2 | exact Heq].
  - unfold entries_bytes in Heq. cbn in Heq. rewrite <- !app_assoc in Heq.
    injection Heq as Hi Hl Heq. apply Nat2Z.inj in Hl.
    apply app_inj_1 in Heq as [Hv Heq]; [|done].
    destruct (IH es2 res1 res2 tl1 tl2 Heq H1 H2) as (-> & -> & ->).
    destruct e1, e2; cbn in *; by subst.
Qed.

(** The complete characterisation both directions of the parser's theorems use. *)
Lemma parse_query_cut c s es tl res :
  bytes_ok (entries_bytes es ++ tl) -> tail_of res tl -> Forall entry_ok es ->
  parse_query (c :: s :: entries_bytes es ++ tl) = (res, mkQueryResponse c s es).
Proof.
  intros Hok Ht Hes. unfold parse_query. set (payload := c :: s :: _).
  assert ((length payload <? 2)%nat = false) as -> by done.
  (* The loop never reads the first two bytes. *)
  assert (exists res' es' tl', parse_loop (length payload) payload 2 = Some (res', es') /\
    entries_bytes es ++ tl = entries_bytes es' ++ tl' /\ tail_of res' tl') as
    (res' & es' & tl' & Hp & Hcut & Ht').
  { assert (forall fuel i x y, parse_loop fuel payload (S (S i)) =
              parse_loop fuel (x :: y :: entries_bytes es ++ tl) (S (S i))) as Hind.
    { subst payload. induction fuel as [|fuel IH]; intros i x y; cbn [parse_loop]; [done|].
      cbn [Nat.add length nth skipn].
      destruct (_ <? _)%nat; [|done]. destruct (_ <? _)%nat; [done|]. by rewrite (IH _ x y). }
    rewrite (Hind _ _ 0 0).
    destruct (parse_loop_spec (length payload) (0 :: 0 :: entries_bytes es ++ tl) 2)
      as (r & l & t & Hp & Hc & _ & Ht'); [|subst payload; cbn; lia|eauto 8].
    repeat (constructor; [unfold byte_ok; lia|]). done. }
  rewrite Hp. cbn. by destruct (cut_unique es es' res res' tl tl' Hcut Ht Ht') as (-> & _ & ->).
Qed.

Lemma entries_bytes_ok es tl c s :
  bytes_ok (c :: s :: entries_bytes es ++ tl) -> bytes_ok (entries_bytes es ++ tl).
Proof. rewrite !Forall_cons. tauto. Qed.

(** ** Values *)

Lemma be_value_from_bound l : forall acc n,
  bytes_ok l -> 0 <= acc < 256 ^ Z.of_nat n ->
  0 <= be_value_from acc l < 256 ^ Z.of_nat (n + length l).
Proof.
  induction l as [|b l IH]; intros acc n Hl Hacc; cbn [be_value_from length].
  - by rewrite Nat.add_0_r.
  - apply Forall_cons in Hl as [Hb Hl]. unfold byte_ok in Hb.
    rewrite <- Nat.add_succ_comm. apply IH; [done|].
    rewrite Nat2Z.inj_succ, Z.pow_succ_r; lia.
Qed.

(** The shift-and-or loop is the big-endian value as long as nothing is
    shifted out of the 64 bits. *)
Lemma as_uint_fold l : forall acc n,
  bytes_ok l -> 0 <= acc < 256 ^ Z.of_nat n -> (n + length l <= 8)%nat ->
  fold_left (fun v b => Z.lor (wrap 64 (Z.shiftl v 8)) b) l acc = be_value_from acc l.
Proof.
  induction l as [|b l IH]; intros acc n Hl Hacc Hn; cbn [fold_left be_value_from]; [done|].
  apply Forall_cons in Hl as [Hb Hl]. unfold byte_ok in Hb. cbn [length] in Hn.
  assert (256 ^ Z.of_nat (S n) <= 256 ^ 8) as Hpow by (apply Z.pow_le_mono_r; lia).
  rewrite Nat2Z.inj_succ, Z.pow_succ_r in Hpow by lia.
  change (256 ^ 8) with (2 ^ 64) in Hpow.
  rewrite wrap_small by (rewrite Z.shiftl_mul_pow2; lia).
  rewrite lor_shiftl_add by lia. change (2 ^ 8) with 256.
  apply (IH _ (S n)); [done| |lia]. rewrite Nat2Z.inj_succ, Z.pow_succ_r; lia.
Qed.

(** ** The gate over a history of responses *)

(** What one response says about status [i], when it says anything. *)
Definition report (i : byte) (r : QueryResponse) : option bool :=
  if is_status r then
    match find r i with
    | Some e => if (length (value e) =? 0)%nat then None else Some (as_bool e)
    | None => None
    end
  else None.

Lemma apply_state s r :
  (apply s r).1 =
    mkReadyState (from_option Some (busy_ s) (report kStatusBusy r))
                 (from_option Some (encoding_ s) (report kStatusEncoding r)).
Proof.
  unfold apply, report, fold_status. destruct (is_status r); cbn; [|by destruct s].
  f_equal; repeat split_match; done.
Qed.

Lemma apply_changed s r : (apply s r).2 = negb (Bool.eqb (ready (apply s r).1) (ready s)).
Proof.
  unfold apply. destruct (is_status r); cbn; [done|]. by rewrite Bool.eqb_reflx.
Qed.

Lemma last_omap_snoc {A B} (f : A -> option B) l x :
  last (omap f (l ++ [x])) = from_option Some (last (omap f l)) (f x).
Proof.
  rewrite omap_app. cbn. destruct (f x); cbn; [by rewrite last_snoc | by rewrite app_nil_r].
Qed.

Lemma apply_history rs :
  foldl (fun s r => (apply s r).1) ReadyState_init rs =
    mkReadyState (last (omap (report kStatusBusy) rs)) (last (omap (report kStatusEncoding) rs)).
Proof.
  induction rs as [|r rs IH] using rev_ind; [done|].
  rewrite foldl_app, IH. cbn. by rewrite apply_state, !last_omap_snoc.
Qed.

(** ** Properties *)

(** C22: complete specification of the parser.  A payload of at least two bytes
    parses to command id, status and entries exactly when the rest of it is
    those entries followed by a tail of the reported kind: at most one stray
    byte for [kOk], a truncated entry for [kTruncatedTlv].  So well-formed
    responses round-trip, unknown ids are never fatal, and the entries before a
    bad one are kept; shorter payloads are [kTooShort]. *)
Theorem parse_query_spec p res r :
  bytes_ok p ->
  parse_query p = (res, r) <->
  (exists c s es tl, p = c :: s :: entries_bytes es ++ tl /\ Forall entry_ok es /\
     tail_of res tl /\ r = mkQueryResponse c s es) \/
  ((length p < 2)%nat /\ res = kTooShort /\ r = QueryResponse_init).
Proof.
  intros Hok. split.
  - intros Hp. destruct p as [|c [|s body]];
      [right; unfold parse_query in Hp; cbn in *; simplify_eq; split_and!; done || lia..|left].
    destruct (parse_loop_spec (S (S (length body))) (c :: s :: body) 2 Hok) as
      (res' & es & tl & Hl & Hcut & Hes & Ht); [cbn; lia|]. cbn in Hcut.
    rewrite drop_0 in Hcut. subst body.
    rewrite (parse_query_cut c s es tl res') in Hp by eauto using entries_bytes_ok.
    simplify_eq. eauto 8.
  - intros [(c & s & es & tl & -> & Hes & Ht & ->)|(Hl & -> & ->)].
    + apply parse_query_cut; eauto using entries_bytes_ok.
    + unfold parse_query. by destruct (_ <? 2)%nat eqn:E; to_prop; [|lia].
Qed.

Lemma parse_query_spec_witness :
  parse_query [19; 0; 8; 1; 0; 200; 2; 1; 44; 10; 4; 0] =
    (kTruncatedTlv, mkQueryResponse 19 0 [mkQueryEntry 8 [0]; mkQueryEntry 200 [1; 44]]).
Proof.
  apply (parse_query_spec [19; 0; 8; 1; 0; 200; 2; 1; 44; 10; 4; 0]).
  - repeat constructor; unfold byte_ok; lia.
  - left. exists 19, 0, [mkQueryEntry 8 [0]; mkQueryEntry 200 [1; 44]], [10; 4; 0].
    split_and!; [reflexivity| |exists 10, 4, [0]; split; [reflexivity|cbn; lia]|reflexivity].
    repeat constructor; unfold entry_ok; cbn; lia.
Defined.

(** [as_uint] is the big-endian value for one to eight bytes, always below
    [2^64], and [nullopt] for any other width. *)
Theorem as_uint_spec e :
  bytes_ok (value e) ->
  match as_uint e with
  | Some v => (0 < length (value e) <= 8)%nat /\ v = be_value (value e) /\
              0 <= v < 256 ^ Z.of_nat (length (value e))
  | None => length (value e) = 0%nat \/ (8 < length (value e))%nat
  end.
Proof.
  intros Hok. unfold as_uint. destruct (_ || _) eqn:E; to_prop.
  - destruct E; to_prop; lia.
  - assert (0 <= 0 < 256 ^ Z.of_nat 0) as Hz by (cbn; lia).
    rewrite (as_uint_fold _ 0 0) by (done || lia).
    pose proof (be_value_from_bound (value e) 0 0 Hok Hz) as Hb. cbn [Nat.add] in Hb.
    unfold be_value. split_and!; done || lia.
Qed.

Lemma as_uint_spec_witness :
  match as_uint (mkQueryEntry 1 [1; 44]) with
  | Some v => (0 < 2 <= 8)%nat /\ v = 300 /\ 0 <= v < 65536
  | None => 2%nat = 0%nat \/ (8 < 2)%nat
  end.
Proof. apply (as_uint_spec (mkQueryEntry 1 [1; 44])). repeat constructor; unfold byte_ok; lia. Defined.

(** C23: the gate is open exactly when the latest BUSY report and the latest
    ENCODING report, over the whole history of responses, both say "no".
    Setting responses and empty values are not reports, and with either status
    never reported the gate is shut; [apply] announces exactly the changes. *)
Theorem gate_history rs r :
  let s := foldl (fun s r => (apply s r).1) ReadyState_init rs in
  (ready s = true <->
     last (omap (report kStatusBusy) rs) = Some false /\
     last (omap (report kStatusEncoding) rs) = Some false) /\
  ((apply s r).2 = true <-> ready (apply s r).1 <> ready s).
Proof.
  split.
  - rewrite apply_history. unfold ready; cbn.
    destruct (last (omap (report kStatusBusy) rs)) as [[]|],
      (last (omap (report kStatusEncoding) rs)) as [[]|]; cbn; naive_solver.
  - rewrite apply_changed. rewrite negb_true_iff, Bool.eqb_false_iff. done.
Qed.
