(* ===== verification/CommandQueue.v ===== *)
(** * The ready-gated command queue
    ([native/include/command_queue.h], [native/src/command_queue.cpp])

    Every member function is a function from the queue to the queue and the
    list of callback invocations it makes, in order.  A [CompletionFn] is a
    token of an abstract type [C] ([None] for an empty [std::function]); the
    callbacks return without calling back into the queue here, and
    [QueueReentrancy] lifts that restriction.  Times are [uint64_t] values and
    their differences wrap. *)

From stdpp Require Import strings.
From S2P Require Import Prelude.
Local Open Scope Z_scope.

Abbreviation CorrelationId := Z (only parsing).

Inductive Priority := kQueued | kFastpass | kKeepAlive.

#[export] Instance Priority_eq_dec : EqDecision Priority.
Proof. solve_decision. Defined.

Definition Priority_val (p : Priority) : Z :=
  match p with kQueued => 0 | kFastpass => 1 | kKeepAlive => 2 end.

Inductive Outcome := kResponded | kTimedOut | kCanceled | kRejected.

#[export] Instance Outcome_eq_dec : EqDecision Outcome.
Proof. solve_decision. Defined.

Definition Outcome_val (o : Outcome) : Z :=
  match o with kResponded => 0 | kTimedOut => 1 | kCanceled => 2 | kRejected => 3 end.

Definition Priority_to_string (p : Priority) : string :=
  match p with
  | kQueued => "queued"
  | kFastpass => "fastpass"
  | kKeepAlive => "keep-alive"
  end.

Definition Outcome_to_string (o : Outcome) : string :=
  match o with
  | kResponded => "responded"
  | kTimedOut => "timed-out"
  | kCanceled => "canceled"
  | kRejected => "rejected"
  end.

Record CommandQueueOptions := mkOptions {
  write_timeout_ms : Z;
  queue_timeout_ms : Z;
}.

Definition CommandQueueOptions_default : CommandQueueOptions := mkOptions 5000 30000.

Section queue.
Context {C : Type}.

Record Entry := mkEntry {
  id : CorrelationId;
  payload : bytes;
  priority : Priority;
  done : option C;
  queued_at_ms : Z;
  sent_at_ms : Z;
}.

Record CommandQueue := mkCommandQueue {
  opts_ : CommandQueueOptions;
  ready_ : bool;
  pending_ : list Entry;
  in_flight_ : list Entry;
}.

(** A callback invocation: the transport's [write_], or a [CompletionFn]. *)
Inductive QEvent :=
| Written (i : CorrelationId) (data : bytes)
| Completed (c : C) (o : Outcome) (response : bytes).

Definition CommandQueue_init (opts : CommandQueueOptions) : CommandQueue :=
  mkCommandQueue opts false [] [].

(** [if (done) done(o, data);] *)
Definition invoke (d : option C) (o : Outcome) (data : bytes) : list QEvent :=
  match d with Some c => [Completed c o data] | None => [] end.

Definition has_id (i : CorrelationId) (e : Entry) : bool := id e =? i.

Definition is_in_flight (q : CommandQueue) (i : CorrelationId) : bool :=
  existsb (has_id i) (in_flight_ q).

Definition is_queued (e : Entry) : bool :=
  match priority e with kQueued => true | _ => false end.

Definition can_send (q : CommandQueue) (e : Entry) : bool :=
  if is_in_flight q (id e) then false
  else
    match priority e with
    | kKeepAlive => true
    | kFastpass => true
    | kQueued =>
        if negb (ready_ q) then false
        else forallb (fun f => negb (is_queued f)) (in_flight_ q)
    end.

(** [e.sent_at_ms = now_ms;] *)
Definition stamp (now_ms : Z) (e : Entry) : Entry :=
  mkEntry (id e) (payload e) (priority e) (done e) (queued_at_ms e) now_ms.

Definition write_event (e : Entry) : QEvent := Written (id e) (payload e).

(** [send]: record the entry as in flight, then write it. *)
Definition send (q : CommandQueue) (e : Entry) (now_ms : Z) : CommandQueue * list QEvent :=
  (mkCommandQueue (opts_ q) (ready_ q) (pending_ q) (in_flight_ q ++ [stamp now_ms e]),
   [write_event e]).

(** The [for] loop of [pump]: the first entry that can be sent, and the rest. *)
Fixpoint pick (q : CommandQueue) (l : list Entry) : option (Entry * list Entry) :=
  match l with
  | [] => None
  | e :: l =>
      if can_send q e then Some (e, l)
      else match pick q l with
           | Some (x, l') => Some (x, e :: l')
           | None => None
           end
  end.

(** The [while (progressed)] loop.  Each pass removes an entry from [pending_],
    so [length pending_] passes suffice ([pump_loop_conserving] shows that nothing
    sendable is left). *)
Fixpoint pump_loop (fuel : nat) (q : CommandQueue) (now_ms : Z) : CommandQueue * list QEvent :=
  match pick q (pending_ q) with
  | None => (q, [])
  | Some (e, rest) =>
      match fuel with
      | O => (q, [])
      | S fuel =>
          let '(q1, ev1) := send (mkCommandQueue (opts_ q) (ready_ q) rest (in_flight_ q)) e now_ms in
          let '(q2, ev2) := pump_loop fuel q1 now_ms in
          (q2, ev1 ++ ev2)
      end
  end.

Definition pump (q : CommandQueue) (now_ms : Z) : CommandQueue * list QEvent :=
  pump_loop (length (pending_ q)) q now_ms.

Definition is_duplicate (q : CommandQueue) (i : CorrelationId) : bool :=
  is_in_flight q i || existsb (has_id i) (pending_ q).

(** The new entry goes to the front of the queue only for a keep-alive. *)
Definition enqueue_entry (q : CommandQueue) (e : Entry) : CommandQueue :=
  mkCommandQueue (opts_ q) (ready_ q)
    (match priority e with
     | kKeepAlive => e :: pending_ q
     | _ => pending_ q ++ [e]
     end) (in_flight_ q).

Definition submit (q : CommandQueue) (i : CorrelationId) (data : bytes) (p : Priority)
    (d : option C) (now_ms : Z) : CommandQueue * bool * list QEvent :=
  if is_duplicate q i then (q, false, invoke d kRejected [])
  else
    let e := mkEntry i data p d now_ms 0 in
    let '(q', ev) := pump (enqueue_entry q e) now_ms in
    (q', true, ev).

Definition set_ready (q : CommandQueue) (b : bool) (now_ms : Z) : CommandQueue * list QEvent :=
  let q := mkCommandQueue (opts_ q) b (pending_ q) (in_flight_ q) in
  if b then pump q now_ms else (q, []).

(** [find_if] and [erase]: the first in-flight entry with this id. *)
Fixpoint extract (i : CorrelationId) (l : list Entry) : option (Entry * list Entry) :=
  match l with
  | [] => None
  | e :: l =>
      if has_id i e then Some (e, l)
      else match extract i l with
           | Some (x, l') => Some (x, e :: l')
           | None => None
           end
  end.

Definition on_response (q : CommandQueue) (i : CorrelationId) (data : bytes) (now_ms : Z)
    : CommandQueue * bool * list QEvent :=
  match extract i (in_flight_ q) with
  | None => (q, false, [])
  | Some (e, rest) =>
      let q := mkCommandQueue (opts_ q) (ready_ q) (pending_ q) rest in
      let '(q', ev) := pump q now_ms in
      (q', true, invoke (done e) kResponded data ++ ev)
  end.

Definition write_expired (q : CommandQueue) (now_ms : Z) (e : Entry) : bool :=
  write_timeout_ms (opts_ q) <=? u64_sub now_ms (sent_at_ms e).

Definition queue_expired (q : CommandQueue) (now_ms : Z) (e : Entry) : bool :=
  negb (queue_timeout_ms (opts_ q) =? 0) &&
  (queue_timeout_ms (opts_ q) <=? u64_sub now_ms (queued_at_ms e)).

(** What [tick] erases, in the order the completions are collected. *)
Definition expired (q : CommandQueue) (now_ms : Z) : list Entry :=
  List.filter (write_expired q now_ms) (in_flight_ q) ++
  List.filter (queue_expired q now_ms) (pending_ q).

Definition drop_expired (q : CommandQueue) (now_ms : Z) : CommandQueue :=
  mkCommandQueue (opts_ q) (ready_ q)
    (List.filter (fun e => negb (queue_expired q now_ms e)) (pending_ q))
    (List.filter (fun e => negb (write_expired q now_ms e)) (in_flight_ q)).

Definition complete_all (o : Outcome) (l : list Entry) : list QEvent :=
  concat ((fun e => invoke (done e) o []) <$> l).

Definition tick (q : CommandQueue) (now_ms : Z) : CommandQueue * list QEvent :=
  let '(q', ev) := pump (drop_expired q now_ms) now_ms in
  (q', complete_all kTimedOut (expired q now_ms) ++ ev).

Definition cancel_all (q : CommandQueue) : CommandQueue * list QEvent :=
  (mkCommandQueue (opts_ q) (ready_ q) [] [],
   complete_all kCanceled (in_flight_ q ++ pending_ q)).

(** Accessors. *)
Definition ready (q : CommandQueue) : bool := ready_ q.
Definition pending (q : CommandQueue) : nat := length (pending_ q).
Definition in_flight (q : CommandQueue) : nat := length (in_flight_ q).

(** ** Sequences of calls *)

Inductive call :=
| Submit (i : CorrelationId) (data : bytes) (p : Priority) (d : option C) (now_ms : Z)
| SetReady (b : bool) (now_ms : Z)
| OnResponse (i : CorrelationId) (data : bytes) (now_ms : Z)
| Tick (now_ms : Z)
| CancelAll.

Definition exec (q : CommandQueue) (c : call) : CommandQueue * list QEvent :=
  match c with
  | Submit i data p d now => let '(q', _, ev) := submit q i data p d now in (q', ev)
  | SetReady b now => set_ready q b now
  | OnResponse i data now => let '(q', _, ev) := on_response q i data now in (q', ev)
  | Tick now => tick q now
  | CancelAll => cancel_all q
  end.

Fixpoint run (q : CommandQueue) (cs : list call) : CommandQueue * list QEvent :=
  match cs with
  | [] => (q, [])
  | c :: cs =>
      let '(q1, ev1) := exec q c in
      let '(q2, ev2) := run q1 cs in (q2, ev1 ++ ev2)
  end.

(** ** What the queue promises *)

(** Single flight per id, and at most one ordinary command on the air. *)
Record queue_ok (q : CommandQueue) : Prop := {
  ids_unique : NoDup (id <$> (in_flight_ q ++ pending_ q));
  one_queued : (length (List.filter is_queued (in_flight_ q)) <= 1)%nat;
}.

(** Nothing that could go out is waiting. *)
Definition work_conserving (q : CommandQueue) : Prop :=
  Forall (fun e => can_send q e = false) (pending_ q).

(** The completions still owed, and those delivered. *)
Definition owed (q : CommandQueue) : list C := omap done (in_flight_ q ++ pending_ q).

Definition completed (ev : list QEvent) : list C :=
  omap (fun x => match x with Completed c _ _ => Some c | _ => None end) ev.

Definition written (ev : list QEvent) : list (CorrelationId * bytes) :=
  omap (fun x => match x with Written i d => Some (i, d) | _ => None end) ev.

(** The completion a call hands to the queue. *)
Definition handed (c : call) : option C :=
  match c with Submit _ _ _ d _ => d | _ => None end.
End queue.

Arguments Entry : clear implicits.
Arguments CommandQueue : clear implicits.
Arguments QEvent : clear implicits.
Arguments call : clear implicits.
Arguments stamp : simpl never.
Arguments write_event : simpl never.
Arguments pump : simpl never.
Arguments completed : simpl never.
Arguments written : simpl never.
Arguments owed : simpl never.
Arguments complete_all : simpl never.

Section queue_lemmas.
Context {C : Type}.
Implicit Types (q : CommandQueue C) (e x : Entry C) (l : list (Entry C)) (ev : list (QEvent C)).

(** ** Ids *)

Lemma has_id_spec i e : has_id i e = true <-> id e = i.
Proof. unfold has_id. by rewrite Z.eqb_eq. Qed.

Lemma existsb_has_id i l : existsb (has_id i) l = true <-> i ∈ id <$> l.
Proof.
  rewrite existsb_exists, list_elem_of_fmap. split.
  - intros (e & He & Hi). exists e. apply has_id_spec in Hi. by rewrite list_elem_of_In.
  - intros (e & -> & He). exists e. rewrite has_id_spec. by rewrite <- list_elem_of_In.
Qed.

Lemma is_in_flight_spec q i : is_in_flight q i = true <-> i ∈ id <$> in_flight_ q.
Proof. apply existsb_has_id. Qed.

Lemma is_duplicate_spec q i :
  is_duplicate q i = true <-> i ∈ id <$> (in_flight_ q ++ pending_ q).
Proof.
  unfold is_duplicate, is_in_flight.
  by rewrite orb_true_iff, !existsb_has_id, fmap_app, elem_of_app.
Qed.

Lemma is_duplicate_false q i :
  is_duplicate q i = false <-> i ∉ id <$> (in_flight_ q ++ pending_ q).
Proof. by rewrite <- not_true_iff_false, is_duplicate_spec. Qed.

(** ** Sendability *)

Lemma can_send_spec q e :
  can_send q e = true <->
  (id e ∉ id <$> in_flight_ q) /\
  (is_queued e = true ->
     ready_ q = true /\ Forall (fun f => is_queued f = false) (in_flight_ q)).
Proof.
  unfold can_send. destruct (is_in_flight q (id e)) eqn:E.
  { apply is_in_flight_spec in E. split; [done|]. by intros []. }
  apply not_true_iff_false in E. rewrite is_in_flight_spec in E.
  destruct (is_queued e) eqn:Eq; unfold is_queued in Eq; destruct (priority e);
    try done; try by (split; [intros _; split|]).
  destruct (ready_ q); cbn; [|split; [done|]; intros [_ H]; by destruct H].
  rewrite forallb_negb. split; [intros H; split; [done|]; intros _; by split|].
  intros [_ H]. by apply H.
Qed.

Lemma can_send_same q q' e :
  in_flight_ q = in_flight_ q' -> ready_ q = ready_ q' -> can_send q e = can_send q' e.
Proof. intros Hf Hr. unfold can_send, is_in_flight. by rewrite Hf, Hr. Qed.

Lemma pick_Some q l e rest :
  pick q l = Some (e, rest) ->
  exists l1 l2, l = l1 ++ e :: l2 /\ rest = l1 ++ l2 /\ can_send q e = true /\
    Forall (fun x => can_send q x = false) l1.
Proof.
  revert rest. induction l as [|x l IH]; intros rest; cbn; [done|].
  destruct (can_send q x) eqn:E.
  { intros [= <- <-]. by exists [], l. }
  destruct (pick q l) as [[y l']|]; [|done]. intros [= -> <-].
  destruct (IH l' eq_refl) as (l1 & l2 & -> & -> & He & Hl1).
  exists (x :: l1), l2. split_and!; try done. by constructor.
Qed.

Lemma pick_None q l : pick q l = None <-> Forall (fun x => can_send q x = false) l.
Proof.
  induction l as [|x l IH]; cbn; [split; [constructor|done]|].
  rewrite Forall_cons. destruct (can_send q x) eqn:E; [naive_solver|].
  rewrite <- IH. destruct (pick q l) as [[]|]; naive_solver.
Qed.

(** ** One send *)

(** The queue after the first sendable entry [e] has been moved. *)
Definition sent_one q e rest now : CommandQueue C :=
  mkCommandQueue (opts_ q) (ready_ q) rest (in_flight_ q ++ [stamp now e]).

Lemma filter_queued_stamp now l :
  length (List.filter is_queued (stamp now <$> l)) = length (List.filter is_queued l).
Proof.
  induction l as [|x l IH]; cbn; [done|]. change (is_queued (stamp now x)) with (is_queued x).
  destruct (is_queued x); cbn; by rewrite IH.
Qed.

Lemma sent_one_ok q e l1 l2 now :
  queue_ok q -> pending_ q = l1 ++ e :: l2 -> can_send q e = true ->
  queue_ok (sent_one q e (l1 ++ l2) now).
Proof.
  intros [Hids Hone] Hp He. split; cbn.
  - rewrite Hp in Hids. rewrite !fmap_app in *. cbn in *.
    rewrite <- app_assoc. cbn. by rewrite Permutation_middle.
  - rewrite List.filter_app, length_app.
    change [stamp now e] with (stamp now <$> [e]). rewrite filter_queued_stamp. cbn.
    apply can_send_spec in He as [_ He].
    destruct (is_queued e) eqn:E; cbn; [|lia].
    destruct (He eq_refl) as [_ Hf]. rewrite filter_none by done. cbn. lia.
Qed.

(** ** The pump *)

(** What a pump may do: move some pending entries in flight, in the order it
    writes them, and touch nothing else. *)
Record pumped (now : Z) q q' ev (sent : list (Entry C)) : Prop := {
  pumped_in_flight : in_flight_ q' = in_flight_ q ++ (stamp now <$> sent);
  pumped_pending : pending_ q ≡ₚ sent ++ pending_ q';
  pumped_order : sublist (pending_ q') (pending_ q);
  pumped_events : ev = write_event <$> sent;
  pumped_ready : ready_ q' = ready_ q;
  pumped_opts : opts_ q' = opts_ q;
}.

Lemma pump_loop_pumped fuel : forall q now, exists sent,
  pumped now q (pump_loop fuel q now).1 (pump_loop fuel q now).2 sent.
Proof.
  induction fuel as [|fuel IH]; intros q now; cbn [pump_loop].
  { exists []. destruct (pick _ _) as [[]|]; split; cbn; by rewrite ?app_nil_r. }
  destruct (pick _ _) as [[e rest]|] eqn:E.
  2: { exists []. split; cbn; by rewrite ?app_nil_r. }
  apply pick_Some in E as (l1 & l2 & Hp & -> & He & _). cbn.
  destruct (IH (sent_one q e (l1 ++ l2) now) now) as [sent [H1 H2 H3 H4 H5 H6]].
  unfold sent_one in *. destruct (pump_loop fuel _ now) as [q2 ev2]. cbn in *.
  exists (e :: sent). split; cbn; try done.
  - by rewrite H1, <- app_assoc.
  - rewrite Hp, <- Permutation_middle. by rewrite H2.
  - rewrite Hp. etransitivity; [exact H3|]. by apply sublist_app, sublist_cons.
  - by rewrite H4.
Qed.

Lemma pump_pumped q now : exists sent, pumped now q (pump q now).1 (pump q now).2 sent.
Proof. apply pump_loop_pumped. Qed.

Lemma pump_loop_ok fuel : forall q now, queue_ok q -> queue_ok (pump_loop fuel q now).1.
Proof.
  induction fuel as [|fuel IH]; intros q now Hq; cbn [pump_loop].
  { by destruct (pick _ _) as [[]|]. }
  destruct (pick _ _) as [[e rest]|] eqn:E; [|done].
  apply pick_Some in E as (l1 & l2 & Hp & -> & He & _). cbn.
  pose proof (IH _ now (sent_one_ok q e l1 l2 now Hq Hp He)) as H.
  unfold sent_one in H. by destruct (pump_loop fuel _ now).
Qed.

Lemma pump_ok q now : queue_ok q -> queue_ok (pump q now).1.
Proof. apply pump_loop_ok. Qed.

(** The loop ends because nothing more can be sent, not because it is cut off. *)
Lemma pump_loop_conserving fuel : forall q now,
  (length (pending_ q) <= fuel)%nat -> work_conserving (pump_loop fuel q now).1.
Proof.
  induction fuel as [|fuel IH]; intros q now Hf; cbn [pump_loop].
  { destruct (pending_ q) eqn:E; [|cbn in Hf; lia]. cbn. unfold work_conserving.
    by rewrite E; constructor. }
  destruct (pick _ _) as [[e rest]|] eqn:E; [|by apply pick_None in E].
  apply pick_Some in E as (l1 & l2 & Hp & -> & He & _). cbn.
  match goal with |- context [pump_loop fuel ?q1 now] =>
    pose proof (IH q1 now) as H; destruct (pump_loop fuel q1 now) end.
  cbn in *. apply H. rewrite Hp, !length_app in *. cbn in Hf. lia.
Qed.

Lemma pump_conserving q now : work_conserving (pump q now).1.
Proof. by apply pump_loop_conserving. Qed.

(** Once an ordinary command is in flight no other is sent. *)
Lemma pump_loop_slot fuel : forall q now x,
  existsb is_queued (in_flight_ q) = true -> x ∈ pending_ q -> is_queued x = true ->
  x ∈ pending_ (pump_loop fuel q now).1.
Proof.
  induction fuel as [|fuel IH]; intros q now x Hs Hx Hxq; cbn [pump_loop].
  { by destruct (pick _ _) as [[]|]. }
  destruct (pick _ _) as [[e rest]|] eqn:E; [|done].
  apply pick_Some in E as (l1 & l2 & Hp & -> & He & _). cbn.
  match goal with |- context [pump_loop fuel ?q1 now] =>
    pose proof (IH q1 now x) as H; destruct (pump_loop fuel q1 now) end.
  cbn in *. apply H; [|clear H|done].
  { by rewrite existsb_app, Hs. }
  rewrite Hp in Hx. apply elem_of_app in Hx as [Hx|Hx]; [apply elem_of_app; by left|].
  apply elem_of_cons in Hx as [->|Hx]; [|apply elem_of_app; by right].
  apply can_send_spec in He as [_ He]. destruct (He Hxq) as [_ Hnone].
  apply Forall_existsb in Hnone. congruence.
Qed.

(** An ordinary command is sent only when no ordinary command is ahead of it. *)
Lemma pump_loop_fifo fuel : forall q now l1 x l2,
  queue_ok q -> pending_ q = l1 ++ x :: l2 -> is_queued x = true ->
  x ∉ pending_ (pump_loop fuel q now).1 -> Forall (fun y => is_queued y = false) l1.
Proof.
  induction fuel as [|fuel IH]; intros q now l1 x l2 Hq Hp Hxq Hx; cbn [pump_loop] in Hx.
  { exfalso. apply Hx. destruct (pick _ _) as [[]|]; cbn; rewrite Hp; set_solver. }
  destruct (pick _ _) as [[e rest]|] eqn:E.
  2: { exfalso. apply Hx. cbn. rewrite Hp; set_solver. }
  apply pick_Some in E as (a & b & Hp' & -> & He & Ha). cbn in Hx.
  match type of Hx with context [pump_loop fuel ?q1 now] =>
    pose proof (IH q1 now) as H; pose proof (pump_loop_slot fuel q1 now x) as Hslot;
    destruct (pump_loop fuel q1 now) end.
  pose proof (sent_one_ok q e a b now Hq Hp' He) as Hok. unfold sent_one in Hok.
  cbn in *. rewrite Hp in Hp'.
  assert (forall y, y ∈ pending_ q -> id y ∉ id <$> in_flight_ q) as Hfresh.
  { destruct Hq as [Hids _]. rewrite fmap_app, NoDup_app in Hids. destruct Hids as (_ & Hd & _).
    intros y Hy Hin. apply (Hd _ Hin). apply list_elem_of_fmap. eauto. }
  apply can_send_spec in He as [_ He].
  destruct (app_eq_inv _ _ _ _ Hp') as [(k & Hl & Hr)|(k & Hl & Hr)].
  - (* [e] is at or before the position of [x] in the split *)
    subst l1. destruct k as [|y k]; cbn in Hr; simplify_eq.
    + (* [e] is [x] *)
      rewrite app_nil_r. eapply Forall_impl; [apply Forall_forall; intros y Hy; exact Hy|].
      cbv beta. intros y Hy. destruct (is_queued y) eqn:Hyq; [|done].
      rewrite Forall_forall in Ha. specialize (Ha y Hy).
      rewrite <- not_true_iff_false, can_send_spec in Ha. exfalso. apply Ha.
      split; [apply Hfresh; rewrite Hp; set_solver | auto].
    + specialize (H (a ++ k) x l2 Hok). rewrite <- app_assoc in H.
      specialize (H eq_refl Hxq Hx). rewrite Forall_app in *. destruct H as [H1 H2].
      split; [done|]. constructor; [|done].
      destruct (is_queued y) eqn:Hyq; [|done]. exfalso. apply Hx, Hslot; [|set_solver|done].
      rewrite existsb_app. cbn. change (is_queued (stamp now y)) with (is_queued y). rewrite Hyq. cbn. apply orb_true_r.
  - subst a. destruct k as [|y k]; cbn in Hr; simplify_eq.
    + rewrite app_nil_r in *. eapply Forall_impl; [apply Forall_forall; intros y Hy; exact Hy|].
      cbv beta. intros y Hy. destruct (is_queued y) eqn:Hyq; [|done].
      rewrite Forall_forall in Ha. specialize (Ha y Hy).
      rewrite <- not_true_iff_false, can_send_spec in Ha. exfalso. apply Ha.
      split; [apply Hfresh; rewrite Hp; set_solver | auto].
    + apply (H l1 y (k ++ b) Hok); [by rewrite <- app_assoc|done..].
Qed.

Lemma pump_fifo q now l1 x l2 :
  queue_ok q -> pending_ q = l1 ++ x :: l2 -> is_queued x = true ->
  x ∉ pending_ (pump q now).1 -> Forall (fun y => is_queued y = false) l1.
Proof. apply pump_loop_fifo. Qed.
End queue_lemmas.

Section call_lemmas.
Context {C : Type}.
Implicit Types (q : CommandQueue C) (e x : Entry C) (l : list (Entry C)) (ev : list (QEvent C)).

Lemma extract_spec i l :
  match extract i l with
  | Some (e, rest) => exists l1 l2, l = l1 ++ e :: l2 /\ rest = l1 ++ l2 /\ id e = i
  | None => i ∉ id <$> l
  end.
Proof.
  induction l as [|x l IH]; cbn; [by apply not_elem_of_nil|].
  destruct (has_id i x) eqn:E.
  { apply has_id_spec in E. by exists [], l. }
  apply not_true_iff_false in E. rewrite has_id_spec in E.
  destruct (extract i l) as [[y rest]|].
  - destruct IH as (l1 & l2 & -> & -> & Hy). by exists (x :: l1), l2.
  - rewrite not_elem_of_cons. by split.
Qed.

(** ** Sub-queues *)

(** Erasing entries keeps the queue well formed. *)
Lemma queue_ok_sub q q' :
  queue_ok q -> sublist (in_flight_ q') (in_flight_ q) -> sublist (pending_ q') (pending_ q) ->
  queue_ok q'.
Proof.
  intros [H1 H2] Hf Hp. split.
  - eapply sublist_NoDup; [exact H1|]. apply fmap_sublist. by apply sublist_app.
  - etransitivity; [by apply lfilter_length_le|done].
Qed.

Lemma drop_expired_ok q now : queue_ok q -> queue_ok (drop_expired q now).
Proof. intros Hq. eapply queue_ok_sub; [exact Hq|apply lfilter_sublist..]. Qed.

Lemma enqueue_entry_pending q e : pending_ (enqueue_entry q e) ≡ₚ e :: pending_ q.
Proof. cbn. destruct (priority e); [|..|done]; by rewrite Permutation_app_comm. Qed.

Lemma enqueue_entry_ok q e :
  queue_ok q -> (id e ∉ id <$> (in_flight_ q ++ pending_ q)) -> queue_ok (enqueue_entry q e).
Proof.
  intros [H1 H2] Hd. split; [|done].
  rewrite enqueue_entry_pending. cbn. rewrite <- Permutation_middle. cbn. by constructor.
Qed.

(** ** Every call keeps the invariant and leaves nothing sendable waiting *)

Lemma exec_ok q c : queue_ok q -> queue_ok (exec q c).1.
Proof.
  intros Hq. destruct c as [i data p d now|b now|i data now|now|]; cbn.
  - unfold submit. destruct (is_duplicate q i) eqn:E; [done|].
    apply is_duplicate_false in E.
    pose proof (pump_ok (enqueue_entry q (mkEntry i data p d now 0)) now) as H.
    destruct (pump _ now). by apply H, enqueue_entry_ok.
  - unfold set_ready. destruct b; [apply pump_ok|]; by eapply queue_ok_sub.
  - unfold on_response. pose proof (extract_spec i (in_flight_ q)) as Hx.
    destruct (extract i _) as [[e rest]|]; [|done].
    destruct Hx as (l1 & l2 & Hf & -> & _).
    match goal with |- context [pump ?q1 now] =>
      pose proof (pump_ok q1 now) as H; destruct (pump q1 now) end.
    apply H. eapply queue_ok_sub; [exact Hq| |done]. cbn. rewrite Hf.
    by apply sublist_app, sublist_cons.
  - unfold tick. pose proof (pump_ok _ now (drop_expired_ok q now Hq)).
    by destruct (pump _ now).
  - split; cbn; [constructor | lia].
Qed.

Lemma exec_conserving q c : work_conserving q -> work_conserving (exec q c).1.
Proof.
  intros Hq. destruct c as [i data p d now|b now|i data now|now|]; cbn.
  - unfold submit. destruct (is_duplicate q i); [done|].
    match goal with |- context [pump ?q1 now] => pose proof (pump_conserving q1 now) end.
    by destruct (pump _ now).
  - unfold set_ready. destruct b; [apply pump_conserving|].
    eapply Forall_impl; [exact Hq|]. intros e. cbn. rewrite <- !not_true_iff_false, !can_send_spec.
    cbn. intros H [H1 H2]. apply H. split; [done|]. intros Hx. by destruct (H2 Hx).
  - unfold on_response. destruct (extract i _) as [[e rest]|]; [|done].
    match goal with |- context [pump ?q1 now] => pose proof (pump_conserving q1 now) end.
    by destruct (pump _ now).
  - unfold tick.
    match goal with |- context [pump ?q1 now] => pose proof (pump_conserving q1 now) end.
    by destruct (pump _ now).
  - constructor.
Qed.

(** ** Completions *)

Lemma completed_app ev1 ev2 : completed (ev1 ++ ev2) = completed ev1 ++ completed ev2.
Proof. apply omap_app. Qed.

Lemma written_app ev1 ev2 : written (ev1 ++ ev2) = written ev1 ++ written ev2.
Proof. apply omap_app. Qed.

Lemma completed_writes l : completed (write_event <$> l) = [].
Proof. by induction l. Qed.

Lemma written_writes l : written (write_event <$> l) = (fun e => (id e, payload e)) <$> l.
Proof. induction l as [|e l IH]; [done|]. cbn. by rewrite <- IH. Qed.

Lemma completed_invoke (d : option C) o data : completed (invoke d o data) = option_list d.
Proof. by destruct d. Qed.

Lemma written_invoke (d : option C) o data : written (invoke d o data) = [].
Proof. by destruct d. Qed.

Lemma completed_complete_all o l : completed (complete_all o l) = omap done l.
Proof.
  induction l as [|e l IH]; [done|]. cbn. rewrite <- IH.
  change (complete_all o (e :: l)) with (invoke (done e) o [] ++ complete_all o l).
  rewrite completed_app, completed_invoke. by destruct (done e).
Qed.

Lemma written_complete_all o l : written (complete_all o l) = [].
Proof.
  induction l as [|e l IH]; [done|].
  change (complete_all o (e :: l)) with (invoke (done e) o [] ++ complete_all o l).
  by rewrite written_app, IH, written_invoke.
Qed.

Lemma omap_done_stamp now l : omap done (stamp now <$> l) = omap done l.
Proof. induction l as [|e l IH]; cbn; [done|]. by rewrite IH. Qed.

Lemma pump_owed q now : owed (pump q now).1 ≡ₚ owed q /\ completed (pump q now).2 = [].
Proof.
  destruct (pump_pumped q now) as [sent [H1 H2 _ H4 _ _]]. split.
  - unfold owed. rewrite H1, H2, !omap_app, omap_done_stamp. by rewrite app_assoc.
  - by rewrite H4, completed_writes.
Qed.

Lemma exec_owed q c :
  completed (exec q c).2 ++ owed (exec q c).1 ≡ₚ option_list (handed c) ++ owed q.
Proof.
  destruct c as [i data p d now|b now|i data now|now|]; cbn.
  - unfold submit. destruct (is_duplicate q i); cbn; [by rewrite completed_invoke|].
    match goal with |- context [pump ?q1 now] =>
      destruct (pump_owed q1 now) as [H1 H2]; destruct (pump q1 now) end.
    cbn in *. rewrite H1, H2. unfold owed. cbn [app].
    rewrite omap_app, enqueue_entry_pending, <- omap_app. cbn.
    rewrite <- Permutation_middle. cbn. by destruct d.
  - unfold set_ready. destruct b; cbn; [|done].
    match goal with |- context [pump ?q1 now] =>
      destruct (pump_owed q1 now) as [H1 H2]; destruct (pump q1 now) end.
    cbn in *. by rewrite H1, H2.
  - unfold on_response. pose proof (extract_spec i (in_flight_ q)) as Hx.
    destruct (extract i _) as [[e rest]|]; [|done]. destruct Hx as (l1 & l2 & Hf & -> & _).
    match goal with |- context [pump ?q1 now] =>
      destruct (pump_owed q1 now) as [H1 H2]; destruct (pump q1 now) end.
    cbn in *. rewrite completed_app, H1, H2, completed_invoke, app_nil_r.
    unfold owed. cbn. rewrite Hf, <- !app_assoc. cbn.
    rewrite <- Permutation_middle. cbn. by destruct (done e).
  - unfold tick.
    match goal with |- context [pump ?q1 now] =>
      destruct (pump_owed q1 now) as [H1 H2]; destruct (pump q1 now) end.
    cbn in *. rewrite completed_app, H1, H2, completed_complete_all, app_nil_r.
    unfold owed, expired, drop_expired. cbn. rewrite <- !omap_app.
    apply omap_Permutation.
    rewrite <- (lfilter_split (write_expired q now) (in_flight_ q)) at 3.
    rewrite <- (lfilter_split (queue_expired q now) (pending_ q)) at 3.
    rewrite <- !app_assoc. apply Permutation_app_head.
    rewrite !app_assoc. by apply Permutation_app_tail, Permutation_app_comm.
  - by rewrite completed_complete_all, app_nil_r.
Qed.

(** ** Runs *)

Lemma run_invariant cs : forall q,
  queue_ok q -> work_conserving q -> queue_ok (run q cs).1 /\ work_conserving (run q cs).1.
Proof.
  induction cs as [|c cs IH]; intros q H1 H2; cbn; [done|].
  pose proof (exec_ok q c H1) as H3. pose proof (exec_conserving q c H2) as H4.
  destruct (exec q c) as [q1 ev1]. cbn in *. specialize (IH q1 H3 H4).
  by destruct (run q1 cs).
Qed.

Lemma init_ok opts : queue_ok (C := C) (CommandQueue_init opts).
Proof. split; cbn; [constructor | lia]. Qed.

Lemma init_conserving opts : work_conserving (C := C) (CommandQueue_init opts).
Proof. constructor. Qed.

(** Properties [F] of the entries in flight and [P] of those waiting survive a
    call, if sending turns [P] into [F] and a submitted entry has [P]. *)
Definition call_time (c : call C) : Z :=
  match c with
  | Submit _ _ _ _ now | SetReady _ now | OnResponse _ _ now | Tick now => now
  | CancelAll => 0
  end.

Definition parts (F P : Entry C -> Prop) q : Prop := Forall F (in_flight_ q) /\ Forall P (pending_ q).

Lemma parts_sub F P q q' :
  parts F P q -> sublist (in_flight_ q') (in_flight_ q) -> sublist (pending_ q') (pending_ q) ->
  parts F P q'.
Proof.
  intros [H1 H2] Hf Hp. apply sublist_submseteq in Hf, Hp.
  split; [rewrite Forall_forall in H1 |- *|rewrite Forall_forall in H2 |- *]; intros e He.
  - by apply H1, (elem_of_submseteq _ _ e He Hf).
  - by apply H2, (elem_of_submseteq _ _ e He Hp).
Qed.

Lemma pump_parts F P q now :
  (forall e, P e -> F (stamp now e)) -> parts F P q -> parts F P (pump q now).1.
Proof.
  intros Hst [H1 H2]. destruct (pump_pumped q now) as [sent [E1 E2 _ _ _ _]].
  rewrite E2, Forall_app in H2. destruct H2 as [Hs Hp]. split; [|done].
  rewrite E1, Forall_app. split; [done|]. apply Forall_fmap.
  eapply Forall_impl; [exact Hs|]. intros e. apply Hst.
Qed.

Lemma exec_parts F P q c :
  (forall e, P e -> F (stamp (call_time c) e)) ->
  match c with Submit i data p d now => P (mkEntry i data p d now 0) | _ => True end ->
  parts F P q -> parts F P (exec q c).1.
Proof.
  destruct c as [i data p d now|b now|i data now|now|]; cbn [exec call_time]; intros Hst Hc Hq.
  - unfold submit. destruct (is_duplicate q i); [done|].
    pose proof (pump_parts F P (enqueue_entry q (mkEntry i data p d now 0)) now Hst) as H.
    destruct (pump _ now). apply H. destruct Hq as [Hf Hp]. split; [done|].
    rewrite enqueue_entry_pending. by constructor.
  - unfold set_ready. destruct b; [by apply pump_parts|done].
  - unfold on_response. pose proof (extract_spec i (in_flight_ q)) as Hx.
    destruct (extract i _) as [[e rest]|]; [|done]. destruct Hx as (l1 & l2 & Hf & -> & _).
    match goal with |- context [pump ?q1 now] =>
      pose proof (pump_parts F P q1 now Hst) as H; destruct (pump q1 now) end.
    apply H. eapply parts_sub; [exact Hq| |done]. cbn. rewrite Hf. by apply sublist_app, sublist_cons.
  - unfold tick. pose proof (pump_parts F P (drop_expired q now) now Hst) as H.
    destruct (pump _ now). apply H. eapply parts_sub; [exact Hq|apply lfilter_sublist..].
  - by split; constructor.
Qed.

(** A property of entries that does not look at the send time survives every
    call, if submitted entries have it. *)
Lemma exec_Forall (P : Entry C -> Prop) q c :
  (forall now e, P e -> P (stamp now e)) ->
  match c with Submit i data p d now => P (mkEntry i data p d now 0) | _ => True end ->
  Forall P (in_flight_ q ++ pending_ q) ->
  Forall P (in_flight_ (exec q c).1 ++ pending_ (exec q c).1).
Proof. rewrite !Forall_app. intros Hst. apply (exec_parts P P). intros e. apply Hst. Qed.

(** Only [set_ready] touches the gate. *)
Lemma exec_ready q c :
  ready (exec q c).1 = match c with SetReady b _ => b | _ => ready q end.
Proof.
  assert (forall q' now, ready (pump q' now).1 = ready q') as Hpump.
  { intros q' now. by destruct (pump_pumped q' now) as [sent [_ _ _ _ H _]]. }
  destruct c as [i data p d now|b now|i data now|now|]; cbn.
  - unfold submit. destruct (is_duplicate q i); [done|].
    match goal with |- context [pump ?q1 now] =>
      pose proof (Hpump q1 now) as H; by destruct (pump q1 now) end.
  - unfold set_ready. destruct b; [by rewrite Hpump|done].
  - unfold on_response. destruct (extract i _) as [[e rest]|]; [|done].
    match goal with |- context [pump ?q1 now] =>
      pose proof (Hpump q1 now) as H; by destruct (pump q1 now) end.
  - unfold tick.
    match goal with |- context [pump ?q1 now] =>
      pose proof (Hpump q1 now) as H; by destruct (pump q1 now) end.
  - done.
Qed.

(** In a well-formed queue with nothing sendable, only ordinary commands wait,
    and they wait for the gate or for the one ordinary command in flight. *)
Lemma waiting_are_queued q :
  queue_ok q -> work_conserving q ->
  Forall (fun e => is_queued e = true) (pending_ q) /\
  (pending_ q <> [] -> ready_ q = false \/ existsb is_queued (in_flight_ q) = true).
Proof.
  intros [Hids _] Hw. unfold work_conserving in Hw. rewrite Forall_forall in Hw.
  assert (forall e, e ∈ pending_ q -> (id e ∉ id <$> in_flight_ q)) as Hfresh.
  { rewrite fmap_app, NoDup_app in Hids. destruct Hids as (_ & Hd & _).
    intros e He Hin. apply (Hd _ Hin). apply list_elem_of_fmap. eauto. }
  split.
  - apply Forall_forall. intros e He. specialize (Hw e He).
    apply not_true_iff_false in Hw. rewrite can_send_spec in Hw.
    destruct (is_queued e) eqn:Eq; [done|]. exfalso. apply Hw. split; [by apply Hfresh|done].
  - destruct (pending_ q) as [|e l]; [done|]. intros _. specialize (Hw e (list_elem_of_here _ _)).
    apply not_true_iff_false in Hw. rewrite can_send_spec in Hw.
    destruct (ready_ q); [right|by left]. destruct (existsb _ _) eqn:E; [done|].
    apply Forall_existsb in E. exfalso. apply Hw. split; [apply Hfresh; left|done].
Qed.
End call_lemmas.

Section property_lemmas.
Context {C : Type}.
Implicit Types (q : CommandQueue C) (e x : Entry C) (l : list (Entry C)) (ev : list (QEvent C)).

(** More traffic in flight never makes an entry sendable. *)
Lemma can_send_sent_one q e l now x :
  can_send q x = false -> can_send (sent_one q e l now) x = false.
Proof.
  rewrite <- !not_true_iff_false, !can_send_spec. cbn. rewrite fmap_app, Forall_app.
  intros H [H1 H2]. apply H. split; [set_solver|]. intros Hx. by destruct (H2 Hx) as (? & ? & _).
Qed.

(** A pump that finds nothing sendable does nothing. *)
Lemma pump_idle q now : work_conserving q -> pump q now = (q, []).
Proof.
  intros H. apply pick_None in H. unfold pump. destruct (length _); cbn [pump_loop]; by rewrite H.
Qed.

(** A pump that can send [e] first, and nothing once [e] is in flight, sends [e]
    and stops. *)
Lemma pump_one q e l1 l2 now :
  pending_ q = l1 ++ e :: l2 -> can_send q e = true ->
  Forall (fun x => can_send q x = false) l1 ->
  Forall (fun x => can_send (sent_one q e (l1 ++ l2) now) x = false) (l1 ++ l2) ->
  pump q now = (sent_one q e (l1 ++ l2) now, [write_event e]).
Proof.
  intros Hp He Hl Hn. unfold pump. rewrite Hp.
  assert (length (l1 ++ e :: l2) = S (length (l1 ++ l2))) as ->.
  { rewrite !length_app. cbn. lia. }
  cbn [pump_loop]. rewrite Hp.
  assert (pick q (l1 ++ e :: l2) = Some (e, l1 ++ l2)) as ->.
  { clear Hp Hn. induction l1 as [|y l1 IH]; cbn in *; [by rewrite He|].
    apply Forall_cons in Hl as [Hy Hl]. rewrite Hy. by rewrite IH. }
  cbn [send opts_ ready_ pending_ in_flight_]. fold (sent_one q e (l1 ++ l2) now).
  apply (pick_None (sent_one q e (l1 ++ l2) now) (l1 ++ l2)) in Hn.
  destruct (length (l1 ++ l2)); cbn [pump_loop pending_ sent_one]; fold (sent_one q e (l1 ++ l2) now);
    by rewrite Hn.
Qed.

Lemma pump_single q e l1 l2 now :
  pending_ q = l1 ++ e :: l2 -> can_send q e = true ->
  Forall (fun x => can_send q x = false) (l1 ++ l2) ->
  pump q now = (sent_one q e (l1 ++ l2) now, [write_event e]).
Proof.
  intros Hp He Hl. apply pump_one; [done..| |].
  - by apply Forall_app in Hl as [Hl _].
  - eapply Forall_impl; [exact Hl|]. intros y. apply can_send_sent_one.
Qed.

(** A written id belongs to an entry that has left the queue. *)
Lemma pump_written q now x :
  queue_ok q -> x ∈ pending_ q -> (id x, payload x) ∈ written (pump q now).2 ->
  x ∉ pending_ (pump q now).1.
Proof.
  intros [Hids _] Hx Hw Hin. destruct (pump_pumped q now) as [sent [_ Hp _ Hev _ _]].
  rewrite Hev, written_writes in Hw. apply list_elem_of_fmap in Hw as (s & Heq & Hs).
  rewrite fmap_app, NoDup_app in Hids. destruct Hids as (_ & _ & Hids).
  rewrite Hp, fmap_app, NoDup_app in Hids. destruct Hids as (_ & Hd & _).
  apply (Hd (id x)); apply list_elem_of_fmap; [exists s; simplify_eq; done | eauto].
Qed.

Lemma pump_first q now a l1 x l2 :
  queue_ok q -> pending_ q = a ++ l1 ++ x :: l2 -> is_queued x = true ->
  Forall (fun y => is_queued y = true) l1 ->
  (id x, payload x) ∈ written (pump q now).2 -> l1 = [].
Proof.
  rewrite app_assoc. intros Hq Hp Hx Hl Hw. assert (x ∉ pending_ (pump q now).1) as Hgone.
  { apply pump_written; [done| |done]. rewrite Hp. set_solver. }
  pose proof (pump_fifo q now _ x l2 Hq Hp Hx Hgone) as Hl'. apply Forall_app in Hl' as [_ Hl'].
  destruct l1 as [|y l1]; [done|]. rewrite !Forall_cons in *. destruct Hl, Hl'. congruence.
Qed.

(** Every written id comes from an entry that was pending before the pump. *)
Lemma pump_written_pending q now i data :
  (i, data) ∈ written (pump q now).2 -> exists e, e ∈ pending_ q /\ id e = i.
Proof.
  destruct (pump_pumped q now) as [sent [_ Hp _ Hev _ _]].
  rewrite Hev, written_writes. intros Hw. apply list_elem_of_fmap in Hw as (s & Heq & Hs).
  exists s. simplify_eq. split; [|done]. rewrite Hp. set_solver.
Qed.

Lemma pending_same_id q x y :
  queue_ok q -> x ∈ pending_ q -> y ∈ pending_ q -> id x = id y -> x = y.
Proof.
  intros [Hids _] Hx Hy Heq. rewrite fmap_app, NoDup_app in Hids.
  destruct Hids as (_ & _ & Hids). revert Hids Hx Hy. clear -Heq.
  generalize (pending_ q) as l. induction l as [|z l IH]; cbn; intros Hn Hx Hy; [set_solver|].
  apply NoDup_cons in Hn as [Hz Hn]. rewrite list_elem_of_fmap in Hz.
  apply elem_of_cons in Hx as [->|Hx], Hy as [->|Hy]; [done| | |by apply IH].
  - exfalso. apply Hz. eauto.
  - exfalso. apply Hz. eauto.
Qed.

Lemma complete_all_elem o l e c :
  e ∈ l -> done e = Some c -> Completed c o [] ∈ complete_all o l.
Proof.
  intros He Hc. unfold complete_all. apply list_elem_of_In, in_concat.
  exists (invoke (done e) o []). rewrite Hc. cbn. split; [|by left].
  rewrite <- list_elem_of_In. apply list_elem_of_fmap. exists e. by rewrite Hc.
Qed.
(** In a [tick], what is ahead of a transmitted command has expired. *)
Lemma tick_first q now l1 x l2 :
  queue_ok q -> pending_ q = l1 ++ x :: l2 -> is_queued x = true ->
  Forall (fun y => is_queued y = true) l1 -> (id x, payload x) ∈ written (tick q now).2 ->
  Forall (fun y => (y ∉ pending_ (tick q now).1) /\
    forall k, done y = Some k -> Completed k kTimedOut [] ∈ (tick q now).2) l1.
Proof.
  intros Hok Hp Hx Hl1 Hw. unfold tick in *. set (live e := negb (queue_expired q now e)).
  pose proof (pump_first (drop_expired q now) now [] (List.filter live l1) x (List.filter live l2)
    (drop_expired_ok q now Hok)) as Hfirst.
  pose proof (pump_written_pending (drop_expired q now) now (id x) (payload x)) as Hwp.
  destruct (pump_pumped (drop_expired q now) now) as [sent [_ _ Hsub _ _ _]].
  destruct (pump (drop_expired q now) now) as [q' ev]. cbn [fst snd] in *.
  rewrite written_app, written_complete_all in Hw. cbn [app] in Hw.
  assert (live x = true) as Hxe.
  { destruct (Hwp Hw) as (e & He & Hid). apply elem_of_lfilter in He as [He Hne].
    by rewrite (pending_same_id q x e Hok); [|rewrite Hp; set_solver|..]. }
  assert (List.filter live l1 = []) as Hnil.
  { apply Hfirst; [|done| |done].
    - cbn. fold live. rewrite Hp, List.filter_app. cbn. by rewrite Hxe.
    - apply Forall_forall. intros y [Hy _]%elem_of_lfilter. rewrite Forall_forall in Hl1. auto. }
  apply Forall_forall. intros y Hy.
  assert (live y = false) as Hye.
  { destruct (live y) eqn:E; [|done].
    assert (y ∈ List.filter live l1) as Hc by by apply elem_of_lfilter.
    rewrite Hnil in Hc. by apply not_elem_of_nil in Hc. }
  split.
  - intros Hin. apply sublist_submseteq, (elem_of_submseteq _ _ y) in Hsub; [|done].
    apply elem_of_lfilter in Hsub as [_ Hne]. unfold live in Hye. congruence.
  - intros k Hk. apply elem_of_app. left. apply (complete_all_elem _ _ y); [|done].
    apply elem_of_app. right. apply elem_of_lfilter. split; [rewrite Hp; set_solver|].
    by apply negb_false_iff in Hye.
Qed.

(** Any other call transmits a waiting command only from the head. *)
Lemma call_first q (c : call C) l1 x l2 :
  queue_ok q -> pending_ q = l1 ++ x :: l2 -> is_queued x = true ->
  Forall (fun y => is_queued y = true) l1 -> (id x, payload x) ∈ written (exec q c).2 ->
  match c with Tick _ => True | _ => l1 = [] end.
Proof.
  intros Hok Hp Hx Hl1 Hw.
  assert (forall ev, (id x, payload x) ∈ written ev -> ev <> []) as Hne
    by (intros [|] H; [by inversion H|done]).
  destruct c as [i data p d now|b now|i data now|now|]; cbn [exec] in Hw; try done.
  - unfold submit in Hw. destruct (is_duplicate q i) eqn:Hd.
    { cbn in Hw. rewrite written_invoke in Hw. by apply not_elem_of_nil in Hw. }
    set (e := mkEntry i data p d now 0) in *.
    pose proof (enqueue_entry_ok q e Hok (proj1 (is_duplicate_false q i) Hd)) as Hok'.
    destruct (pump (enqueue_entry q e) now) as [q' ev] eqn:Ep. cbn [fst snd] in Hw.
    apply (f_equal snd) in Ep. cbn in Ep. rewrite <- Ep in Hw. destruct p.
    + apply (pump_first _ now [] l1 x (l2 ++ [e]) Hok'); try done.
      cbn. by rewrite Hp, <- app_assoc.
    + apply (pump_first _ now [] l1 x (l2 ++ [e]) Hok'); try done.
      cbn. by rewrite Hp, <- app_assoc.
    + apply (pump_first _ now [e] l1 x l2 Hok'); try done. cbn. by rewrite Hp.
  - unfold set_ready in Hw. destruct b; [|by apply Hne in Hw].
    eapply (pump_first _ now [] l1 x l2); [| |done|done|exact Hw]; [|done]. by eapply queue_ok_sub.
  - unfold on_response in Hw. pose proof (extract_spec i (in_flight_ q)) as Hx'.
    destruct (extract i _) as [[e rest]|]; [|by apply Hne in Hw].
    destruct Hx' as (a & b & Hf & -> & _).
    match type of Hw with context [pump ?q1 now] => set (q1' := q1) in Hw;
      pose proof (pump_first q1' now [] l1 x l2) as H; destruct (pump q1' now) end.
    cbn in Hw. rewrite written_app, written_invoke in Hw. apply H; try done.
    eapply queue_ok_sub; [exact Hok| |done]. cbn. rewrite Hf. by apply sublist_app, sublist_cons.
  - cbn in Hw. rewrite written_complete_all in Hw. by apply not_elem_of_nil in Hw.
Qed.
Lemma run_owed (cs : list (call C)) : forall q,
  completed (run q cs).2 ++ owed (run q cs).1 ≡ₚ omap handed cs ++ owed q.
Proof.
  induction cs as [|c cs IH]; intros q; cbn [run omap list_omap]; [done|].
  pose proof (exec_owed q c) as Hc. destruct (exec q c) as [q1 ev1].
  specialize (IH q1). destruct (run q1 cs) as [q2 ev2]. cbn in *.
  rewrite completed_app, <- app_assoc, IH, (Permutation_app_comm (omap handed cs)), app_assoc.
  rewrite Hc. destruct (handed c); cbn; by rewrite (Permutation_app_comm (owed q)).
Qed.

(** An ungated command is sent by its own submission. *)
Lemma submit_ungated q i data p d now :
  queue_ok q -> work_conserving q -> p <> kQueued -> is_duplicate q i = false ->
  submit q i data p d now =
    (mkCommandQueue (opts_ q) (ready_ q) (pending_ q)
       (in_flight_ q ++ [mkEntry i data p d now now]), true, [Written i data]).
Proof.
  intros Hok Hw Hp Hd.
  unfold submit. rewrite Hd. set (e := mkEntry i data p d now 0).
  assert (can_send (enqueue_entry q e) e = true) as He.
  { apply can_send_spec. apply is_duplicate_false in Hd. cbn.
    split; [rewrite fmap_app in Hd; set_solver|]. unfold is_queued; cbn. by destruct p. }
  assert (Forall (fun x => can_send (enqueue_entry q e) x = false) (pending_ q)) as Hl.
  { eapply Forall_impl; [exact Hw|]. intros x Hx. by rewrite <- (can_send_same q). }
  destruct p; [done| |].
  - rewrite (pump_single _ e (pending_ q) [] now); [|done|done|by rewrite app_nil_r].
    unfold sent_one; cbn. by rewrite app_nil_r.
  - by rewrite (pump_single _ e [] (pending_ q) now).
Qed.

(** What a call writes was waiting, or is what it submits. *)
Lemma exec_written (P : Entry C -> Prop) q c :
  match c with Submit i data p d now => P (mkEntry i data p d now 0) | _ => True end ->
  Forall P (in_flight_ q ++ pending_ q) ->
  Forall (fun w => exists e, P e /\ w = (id e, payload e)) (written (exec q c).2).
Proof.
  intros Hc Hq. apply Forall_app in Hq as [_ Hq].
  assert (forall q' now, Forall P (pending_ q') ->
            Forall (fun w => exists e, P e /\ w = (id e, payload e)) (written (pump q' now).2)) as Hpump.
  { intros q' now H. destruct (pump_pumped q' now) as [sent [_ H2 _ -> _ _]].
    rewrite H2 in H. apply Forall_app in H as [H _]. rewrite written_writes.
    apply Forall_fmap. eapply Forall_impl; [exact H|]. intros e He. by exists e. }
  destruct c as [i data p d now|b now|i data now|now|]; cbn.
  - unfold submit. destruct (is_duplicate q i); cbn; [by rewrite written_invoke|].
    match goal with |- context [pump ?q1 now] =>
      pose proof (Hpump q1 now) as H; destruct (pump q1 now) end. apply H.
    rewrite enqueue_entry_pending. by constructor.
  - unfold set_ready. destruct b; [by apply Hpump|constructor].
  - unfold on_response. destruct (extract i _) as [[e rest]|]; [|constructor].
    match goal with |- context [pump ?q1 now] =>
      pose proof (Hpump q1 now) as H; destruct (pump q1 now) end.
    cbn. rewrite written_app, written_invoke. by apply H.
  - unfold tick.
    match goal with |- context [pump ?q1 now] =>
      pose proof (Hpump q1 now) as H; destruct (pump q1 now) end.
    cbn. rewrite written_app, written_complete_all. apply H.
    rewrite Forall_forall in Hq |- *. intros e He. apply Hq. by apply elem_of_lfilter in He as [He _].
  - rewrite written_complete_all. constructor.
Qed.
End property_lemmas.

(** ** What is written was handed over *)

Section handed.
Context {C : Type}.
Implicit Types (q : CommandQueue C) (c : call C) (e : Entry C).

Definition written_form e : CorrelationId * bytes := (id e, payload e).

(** What a call hands over to be written. *)
Definition given c : list (CorrelationId * bytes) :=
  match c with Submit i data _ _ _ => [(i, data)] | _ => [] end.

Lemma exec_given q c :
  written (exec q c).2 ++ (written_form <$> pending_ (exec q c).1) ⊆+ given c ++ (written_form <$> pending_ q).
Proof.
  assert (forall q' now, written (pump q' now).2 ++ (written_form <$> pending_ (pump q' now).1) ≡ₚ
            written_form <$> pending_ q') as Hpump.
  { intros q' now. destruct (pump_pumped q' now) as [sent [_ H2 _ -> _ _]].
    by rewrite written_writes, H2, fmap_app. }
  destruct c as [i data p d now|b now|i data now|now|]; cbn [exec given].
  - unfold submit. destruct (is_duplicate q i); cbn.
    { rewrite written_invoke. by apply submseteq_cons. }
    specialize (Hpump (enqueue_entry q (mkEntry i data p d now 0)) now).
    destruct (pump _ now) as [q' ev]. cbn [fst snd] in *. by rewrite Hpump, enqueue_entry_pending.
  - unfold set_ready. destruct b; [|done].
    match goal with |- context [pump ?q1 now] => specialize (Hpump q1 now) end. by rewrite Hpump.
  - unfold on_response. destruct (extract i _) as [[e rest]|]; [|done].
    match goal with |- context [pump ?q1 now] => specialize (Hpump q1 now); destruct (pump q1 now) end.
    cbn [fst snd] in *. by rewrite written_app, written_invoke, Hpump.
  - unfold tick.
    match goal with |- context [pump ?q1 now] => specialize (Hpump q1 now); destruct (pump q1 now) end.
    cbn [fst snd] in *. rewrite written_app, written_complete_all, Hpump.
    apply fmap_submseteq, sublist_submseteq, lfilter_sublist.
  - cbn. rewrite written_complete_all. apply submseteq_nil_l.
Qed.

Lemma run_given cs : forall q,
  written (run q cs).2 ++ (written_form <$> pending_ (run q cs).1) ⊆+
    concat (given <$> cs) ++ (written_form <$> pending_ q).
Proof.
  induction cs as [|c cs IH]; intros q; [done|]. cbn [run fmap list_fmap concat].
  pose proof (exec_given q c) as H. destruct (exec q c) as [q1 ev1]. specialize (IH q1).
  destruct (run q1 cs) as [q2 ev2]. cbn [fst snd] in *.
  rewrite written_app, <- !app_assoc. etransitivity; [by apply submseteq_skips_l|].
  rewrite Permutation_app_swap_app. etransitivity; [by apply submseteq_skips_l|].
  by rewrite Permutation_app_swap_app.
Qed.
End handed.

(** ** Deadlines *)

Section deadlines.
Context {C : Type}.
Implicit Types (q : CommandQueue C) (l : list (Entry C)) (ev : list (QEvent C)).

(** Completions with what they are given. *)
Definition completions ev : list (C * Outcome * bytes) :=
  omap (fun x => match x with Completed c o d => Some (c, o, d) | _ => None end) ev.

Lemma completions_app ev1 ev2 : completions (ev1 ++ ev2) = completions ev1 ++ completions ev2.
Proof. apply omap_app. Qed.

Lemma completions_writes l : completions (write_event <$> l) = [].
Proof. induction l as [|e l IH]; [done|exact IH]. Qed.

Lemma completions_complete_all o l :
  completions (complete_all o l) = omap (fun e => (fun k => (k, o, [])) <$> done e) l.
Proof.
  unfold complete_all. induction l as [|e l IH]; [done|]. cbn [fmap list_fmap concat omap list_omap].
  rewrite completions_app, IH. by destruct (done e).
Qed.

Lemma write_expired_age q now (e : Entry C) :
  write_expired q now e = bool_decide (write_timeout_ms (opts_ q) <= (now - sent_at_ms e) mod 2 ^ 64).
Proof. apply Z_leb_bool_decide. Qed.

Lemma queue_expired_age q now (e : Entry C) :
  queue_expired q now e = bool_decide (queue_timeout_ms (opts_ q) <> 0) &&
    bool_decide (queue_timeout_ms (opts_ q) <= (now - queued_at_ms e) mod 2 ^ 64).
Proof.
  unfold queue_expired. f_equal; [|apply Z_leb_bool_decide].
  case_bool_decide as H; [by apply negb_true_iff, Z.eqb_neq|]. apply negb_false_iff, Z.eqb_eq. lia.
Qed.
End deadlines.

(** ** Properties *)

Section properties.
Context {C : Type}.
Implicit Types (q : CommandQueue C) (cs : list (call C)).

(** Exactly once.  Over any sequence of calls, the completions that have
    fired and the ones still owed are together exactly the completions handed
    to [submit] — none is lost, none fires twice, refused submissions
    included. *)
Theorem exactly_once opts cs :
  let '(q, ev) := run (CommandQueue_init opts) cs in
  completed ev ++ owed q ≡ₚ omap handed cs.
Proof.
  pose proof (run_owed cs (CommandQueue_init opts)) as H. destruct (run _ cs) as [q ev]. cbn in H.
  rewrite H. unfold owed; cbn. by rewrite app_nil_r.
Qed.

(** C4: the queue's invariant.  After any sequence of calls no correlation id is
    outstanding twice, at most one ordinary command is in flight, everything
    waiting is an ordinary command, and it waits only because the gate is shut
    or an ordinary command is in flight. *)
Theorem queue_invariant opts cs :
  let q := (run (CommandQueue_init (C := C) opts) cs).1 in
  NoDup (id <$> (in_flight_ q ++ pending_ q)) /\
  (length (List.filter is_queued (in_flight_ q)) <= 1)%nat /\
  Forall (fun e => is_queued e = true) (pending_ q) /\
  (pending_ q <> [] -> ready q = false \/ existsb is_queued (in_flight_ q) = true).
Proof.
  destruct (run_invariant cs (CommandQueue_init opts) (init_ok opts) (init_conserving opts))
    as [[H1 H2] H3].
  split_and!; [done..| |]; by apply waiting_are_queued.
Qed.

(** A keep-alive (or fastpass) command whose id is not outstanding goes out
    at once, whatever the gate and whatever else is in flight or waiting: the
    call writes exactly that command and changes nothing else. *)
Theorem ungated_sent_at_once opts cs i data p d now :
  let q := (run (CommandQueue_init (C := C) opts) cs).1 in
  p <> kQueued -> is_duplicate q i = false ->
  submit q i data p d now =
    (mkCommandQueue (opts_ q) (ready_ q) (pending_ q)
       (in_flight_ q ++ [mkEntry i data p d now now]), true, [Written i data]).
Proof.
  intros q. apply submit_ungated;
    by apply (run_invariant cs (CommandQueue_init opts) (init_ok opts) (init_conserving opts)).
Qed.

(** No overtaking.  When a call transmits a command that was waiting, every
    command that was ahead of it has left the queue, timed out. *)
Theorem no_overtaking opts cs c l1 x l2 :
  let q := (run (CommandQueue_init (C := C) opts) cs).1 in
  pending_ q = l1 ++ x :: l2 -> (id x, payload x) ∈ written (exec q c).2 ->
  Forall (fun y => (y ∉ pending_ (exec q c).1) /\
    forall k, done y = Some k -> Completed k kTimedOut [] ∈ (exec q c).2) l1.
Proof.
  intros q Hp Hw.
  destruct (run_invariant cs (CommandQueue_init opts) (init_ok opts) (init_conserving opts))
    as [Hok Hcons]. fold q in Hok, Hcons.
  destruct (waiting_are_queued q Hok Hcons) as [Hall _]. rewrite Hp in Hall.
  apply Forall_app in Hall as [Hl1 Hall]. apply Forall_cons in Hall as [Hx Hl2].
  pose proof (call_first q c l1 x l2 Hok Hp Hx Hl1 Hw) as Hfirst.
  destruct c; try (rewrite Hfirst; constructor).
  by apply (tick_first q now_ms l1 x l2).
Qed.

(** [submit] refuses exactly the ids that are already outstanding, waiting
    or in flight: the completion fires at once with [kRejected] and nothing is
    queued or written; any other id is accepted and its entry is outstanding
    after the call, without a completion having fired. *)
Theorem submit_single_flight q i data p d now :
  queue_ok q ->
  (i ∈ id <$> (in_flight_ q ++ pending_ q) ->
     submit q i data p d now = (q, false, invoke d kRejected [])) /\
  ((i ∉ id <$> (in_flight_ q ++ pending_ q)) ->
     exists q' ev, submit q i data p d now = (q', true, ev) /\ completed ev = [] /\
       id <$> (in_flight_ q' ++ pending_ q') ≡ₚ i :: (id <$> (in_flight_ q ++ pending_ q))).
Proof.
  intros Hq. unfold submit. split; intros Hi.
  - apply is_duplicate_spec in Hi. by rewrite Hi.
  - apply is_duplicate_false in Hi. rewrite Hi. set (e := mkEntry i data p d now 0).
    destruct (pump_pumped (enqueue_entry q e) now) as [sent [H1 H2 _ H4 _ _]].
    destruct (pump _ now) as [q' ev]. cbn [fst snd] in *. exists q', ev.
    split_and!; [done|by rewrite H4, completed_writes|].
    rewrite enqueue_entry_pending in H2. rewrite H1, <- app_assoc, !fmap_app.
    assert (id <$> (stamp now <$> sent) = id <$> sent) as -> by by rewrite <- list_fmap_compose.
    rewrite <- fmap_app, <- H2. cbn. by rewrite <- Permutation_middle.
Qed.

(** A response completes exactly the command that is in flight under its
    id, with the response's bytes, before anything else is transmitted, and
    frees the id; a response nothing waits for changes nothing and is reported
    as unhandled. *)
Theorem response_resolves q i data now :
  queue_ok q ->
  match List.find (has_id i) (in_flight_ q) with
  | Some e => exists q' ev,
      on_response q i data now = (q', true, invoke (done e) kResponded data ++ ev) /\
      completed ev = [] /\ is_duplicate q' i = false
  | None => on_response q i data now = (q, false, [])
  end.
Proof.
  intros [Hids _]. unfold on_response. pose proof (extract_spec i (in_flight_ q)) as Hx.
  pose proof (list_find_first (has_id i) (in_flight_ q)) as Hf.
  destruct (extract i (in_flight_ q)) as [[e rest]|] eqn:Ex.
  - destruct Hx as (l1 & l2 & Hl & -> & Hi).
    destruct (List.find _ _) as [x|].
    2: { rewrite Hl, Forall_app, Forall_cons in Hf. destruct Hf as (_ & Hf & _).
         apply has_id_spec in Hi. congruence. }
    destruct Hf as [Hin Hxi]. apply has_id_spec in Hxi.
    rewrite Hl, <- app_assoc, fmap_app, NoDup_app in Hids. cbn in Hids.
    destruct Hids as (_ & Hd & Hn). apply NoDup_cons in Hn as [Hn _]. rewrite fmap_app in Hn.
    assert (x = e) as ->.
    { rewrite Hl in Hin. apply elem_of_app in Hin as [Hin|[->|Hin]%elem_of_cons]; [|done|].
      - exfalso. apply (Hd (id x)); [apply list_elem_of_fmap; eauto|]. rewrite Hxi, <- Hi. left.
      - exfalso. apply Hn. rewrite Hi, <- Hxi. apply elem_of_app. left. apply list_elem_of_fmap. eauto. }
    set (q1 := mkCommandQueue _ _ _ _).
    destruct (pump_pumped q1 now) as [sent [H1 H2 _ H4 _ _]].
    destruct (pump q1 now) as [q' ev]. cbn [fst snd] in *. exists q', ev.
    split_and!; [done|by rewrite H4, completed_writes|]. apply is_duplicate_false.
    rewrite H1, <- app_assoc, !fmap_app.
    assert (id <$> (stamp now <$> sent) = id <$> sent) as -> by by rewrite <- list_fmap_compose.
    rewrite <- fmap_app, <- H2. subst q1; cbn. rewrite !fmap_app, !elem_of_app.
    rewrite elem_of_app, Hi in Hn. intros [[H|H]|H]; [|tauto..].
    apply (Hd i); [done|]. rewrite Hi. left.
  - destruct (List.find _ _) as [x|]; [|done]. destruct Hf as [Hin Hxi].
    exfalso. apply Hx. apply list_elem_of_fmap. exists x. split; [|done].
    symmetry. by apply has_id_spec.
Qed.

(** C21: a tick times out exactly what is overdue.  An age is the distance from a
    time stamp to [now] modulo 2^64.  The commands in flight whose age since they
    were sent has reached the write timeout, and the waiting ones whose age since
    they were submitted has reached the queue timeout, if that is not zero, complete
    with [kTimedOut] and no bytes, in order, and nothing else completes; every other
    command in flight stays there, and every other waiting one still waits or is
    sent now, stamped with [now].  So nothing outstanding is past its deadline, and
    if the gate is open and something still waits, a command younger than the write
    timeout holds the slot: the queue cannot wedge. *)
Theorem tick_deadlines q now :
  queue_ok q -> 0 < write_timeout_ms (opts_ q) ->
  let W := write_timeout_ms (opts_ q) in
  let Q := queue_timeout_ms (opts_ q) in
  let late_write e := bool_decide (W <= (now - sent_at_ms e) mod 2 ^ 64) in
  let late_queue e := bool_decide (Q <> 0) && bool_decide (Q <= (now - queued_at_ms e) mod 2 ^ 64) in
  let '(q', ev) := tick q now in
  completions ev = omap (fun e => (fun k => (k, kTimedOut, [])) <$> done e)
    (List.filter late_write (in_flight_ q) ++ List.filter late_queue (pending_ q)) /\
  (exists sent,
     in_flight_ q' = List.filter (fun e => negb (late_write e)) (in_flight_ q) ++ (stamp now <$> sent) /\
     List.filter (fun e => negb (late_queue e)) (pending_ q) ≡ₚ sent ++ pending_ q') /\
  Forall (fun e => u64_sub now (sent_at_ms e) < W) (in_flight_ q') /\
  Forall (fun e => Q = 0 \/ u64_sub now (queued_at_ms e) < Q) (pending_ q') /\
  (ready q = true -> pending_ q' <> [] -> existsb is_queued (in_flight_ q') = true).
Proof.
  intros Hq Hpos. cbv zeta. pose proof (drop_expired_ok q now Hq) as Hok.
  pose proof (pump_ok _ now Hok) as Hok'. pose proof (pump_conserving (drop_expired q now) now) as Hw.
  unfold tick. destruct (pump_pumped (drop_expired q now) now) as [sent [H1 H2 H3 H4 H5 _]].
  destruct (pump (drop_expired q now) now) as [q' ev]. cbn [fst snd] in *.
  cbn [drop_expired in_flight_ pending_] in H1, H2. split_and!.
  - rewrite completions_app, completions_complete_all, H4, completions_writes, app_nil_r. unfold expired.
    by rewrite (lfilter_ext _ _ (write_expired_age q now)), (lfilter_ext _ _ (queue_expired_age q now)).
  - exists sent. rewrite H1, <- H2. split.
    + f_equal. apply lfilter_ext. intros e. by rewrite write_expired_age.
    + rewrite (lfilter_ext _ (fun e => negb (queue_expired q now e))); [done|]. intros e. by rewrite queue_expired_age.
  - rewrite H1. apply Forall_app. split; apply Forall_forall; intros e He.
    + apply elem_of_lfilter in He as [_ He]. unfold write_expired in He. to_prop. lia.
    + apply list_elem_of_fmap in He as (s & -> & _). cbn. rewrite u64_sub_diag. lia.
  - apply Forall_forall. intros e He.
    apply sublist_submseteq, (elem_of_submseteq _ _ e) in H3; [|done].
    apply elem_of_lfilter in H3 as [_ H3]. unfold queue_expired in H3. to_prop.
    destruct H3 as [H3|H3]; to_prop; lia.
  - intros Hr Hne. destruct (waiting_are_queued q' Hok' Hw) as [_ Hwait].
    destruct (Hwait Hne) as [Hf|]; [|done]. unfold ready in Hr. cbn in H5. congruence.
Qed.
End properties.

(** ** Witnesses *)

(** An ordinary command in flight, two waiting behind it, tokens 1, 2, 3. *)
Definition busy_calls : list (call nat) :=
  [SetReady true 0; Submit 1 [1] kQueued (Some 1%nat) 0; Submit 2 [2] kQueued (Some 2%nat) 10;
   Submit 3 [3] kQueued (Some 3%nat) 20].

Definition busy_queue : CommandQueue nat := (run (CommandQueue_init (mkOptions 5000 5005)) busy_calls).1.

Lemma busy_queue_ok : queue_ok busy_queue.
Proof.
  destruct (run_invariant busy_calls (CommandQueue_init (mkOptions 5000 5005))
    (init_ok _) (init_conserving _)). done.
Qed.

Lemma ungated_sent_at_once_witness :
  submit busy_queue 347 [91; 1; 66] kKeepAlive (Some 4%nat) 30 =
    (mkCommandQueue (opts_ busy_queue) true (pending_ busy_queue)
       (in_flight_ busy_queue ++ [mkEntry 347 [91; 1; 66] kKeepAlive (Some 4%nat) 30 30]),
     true, [Written 347 [91; 1; 66]]).
Proof.
  apply (ungated_sent_at_once (mkOptions 5000 5005) busy_calls 347 [91; 1; 66] kKeepAlive
    (Some 4%nat) 30); [discriminate | reflexivity].
Defined.

(** At time 5016 the command in flight and the first waiting one have expired;
    the second one is transmitted. *)
Lemma no_overtaking_witness :
  written (exec busy_queue (Tick 5016)).2 = [(3, [3])] /\
  Forall (fun y => (y ∉ pending_ (exec busy_queue (Tick 5016)).1) /\
    forall k, done y = Some k -> Completed k kTimedOut [] ∈ (exec busy_queue (Tick 5016)).2)
    [mkEntry 2 [2] kQueued (Some 2%nat) 10 0].
Proof.
  split; [reflexivity|].
  apply (no_overtaking (mkOptions 5000 5005) busy_calls (Tick 5016) _
    (mkEntry 3 [3] kQueued (Some 3%nat) 20 0) []); [reflexivity|].
  vm_compute. left.
Defined.

Lemma submit_single_flight_witness :
  submit busy_queue 2 [9] kFastpass (Some 7%nat) 40 = (busy_queue, false, [Completed 7%nat kRejected []]).
Proof.
  apply (submit_single_flight busy_queue 2 [9] kFastpass (Some 7%nat) 40); [apply busy_queue_ok|].
  vm_compute. right. left.
Defined.

Lemma response_resolves_witness :
  exists q' ev, on_response busy_queue 1 [1; 0] 50 = (q', true, [Completed 1%nat kResponded [1; 0]] ++ ev) /\
    completed ev = [] /\ is_duplicate q' 1 = false.
Proof. apply (response_resolves busy_queue 1 [1; 0] 50). apply busy_queue_ok. Defined.

Lemma tick_deadlines_witness :
  completions (tick busy_queue 5016).2 = [(1%nat, kTimedOut, []); (2%nat, kTimedOut, [])] /\
  (exists sent, in_flight_ (tick busy_queue 5016).1 = stamp 5016 <$> sent).
Proof.
  assert (H := tick_deadlines busy_queue 5016 busy_queue_ok eq_refl). cbv zeta in H.
  destruct (tick busy_queue 5016) as [q' ev]. cbn [fst snd].
  destruct H as (-> & (sent & -> & _) & _). split; [vm_compute; reflexivity|].
  exists sent. vm_compute. reflexivity.
Defined.
