(* ===== verification/QueueSpec.v ===== *)
(** * The command queue against its specification
    ([native/src/command_queue.cpp])

    [pump] rescans the waiting commands from the front after every send.  What
    callers rely on is simpler: ordinary commands leave a FIFO one at a time
    through a single slot, everything else goes out at once.  [spec_exec] says
    that without a loop; the queue computes the same states and callbacks, call
    by call.  The second half shows that two ticks settle every command. *)

From S2P Require Import Prelude CommandQueue.
Local Open Scope Z_scope.

(** ** The specification *)

Section spec.
Context {C : Type}.
Implicit Types (q : CommandQueue C).

(** No ordinary command is awaiting its response. *)
Definition slot_free q : bool := forallb (fun f => negb (is_queued f)) (in_flight_ q).

(** Let the head of the FIFO through, if the gate is open and the slot free. *)
Definition release q (now_ms : Z) : CommandQueue C * list (QEvent C) :=
  match pending_ q with
  | e :: rest =>
      if ready_ q && slot_free q then (sent_one q e rest now_ms, [write_event e]) else (q, [])
  | [] => (q, [])
  end.

Definition spec_submit q (i : CorrelationId) (data : bytes) (p : Priority) (d : option C) (now_ms : Z)
    : CommandQueue C * list (QEvent C) :=
  let e := mkEntry i data p d now_ms 0 in
  if decide (i ∈ id <$> (in_flight_ q ++ pending_ q)) then (q, invoke d kRejected [])
  else if is_queued e then
    release (mkCommandQueue (opts_ q) (ready_ q) (pending_ q ++ [e]) (in_flight_ q)) now_ms
  else (sent_one q e (pending_ q) now_ms, [write_event e]).

Definition spec_exec q (c : call C) : CommandQueue C * list (QEvent C) :=
  match c with
  | Submit i data p d now => spec_submit q i data p d now
  | SetReady b now => release (mkCommandQueue (opts_ q) b (pending_ q) (in_flight_ q)) now
  | OnResponse i data now =>
      match extract i (in_flight_ q) with
      | None => (q, [])
      | Some (e, rest) =>
          let '(q', ev) := release (mkCommandQueue (opts_ q) (ready_ q) (pending_ q) rest) now in
          (q', invoke (done e) kResponded data ++ ev)
      end
  | Tick now =>
      let '(q', ev) := release (drop_expired q now) now in
      (q', complete_all kTimedOut (expired q now) ++ ev)
  | CancelAll => cancel_all q
  end.

Fixpoint spec_run q (cs : list (call C)) : CommandQueue C * list (QEvent C) :=
  match cs with
  | [] => (q, [])
  | c :: cs =>
      let '(q1, ev1) := spec_exec q c in
      let '(q2, ev2) := spec_run q1 cs in (q2, ev1 ++ ev2)
  end.
End spec.

Arguments release : simpl never.

(** ** One call *)

Section equivalence.
Context {C : Type}.
Implicit Types (q : CommandQueue C) (e x : Entry C) (cs : list (call C)).

Lemma pending_fresh q e : queue_ok q -> e ∈ pending_ q -> id e ∉ id <$> in_flight_ q.
Proof.
  intros [Hids _] He Hin. rewrite fmap_app, NoDup_app in Hids. destruct Hids as (_ & Hd & _).
  apply (Hd _ Hin), list_elem_of_fmap. eauto.
Qed.

(** For a waiting ordinary command only the gate and the slot matter. *)
Lemma can_send_waiting q e :
  queue_ok q -> e ∈ pending_ q -> is_queued e = true -> can_send q e = ready_ q && slot_free q.
Proof.
  intros Hok He Hq. apply eq_true_iff_eq.
  rewrite can_send_spec, andb_true_iff. unfold slot_free. rewrite forallb_negb.
  pose proof (pending_fresh q e Hok He). naive_solver.
Qed.

(** The slot taken, nothing else goes out. *)
Lemma can_send_taken q e rest now x :
  is_queued e = true -> is_queued x = true -> can_send (sent_one q e rest now) x = false.
Proof.
  intros He Hx. apply not_true_iff_false. rewrite can_send_spec. intros [_ H].
  destruct (H Hx) as [_ Hf]. cbn in Hf. apply Forall_app in Hf as [_ Hf].
  apply Forall_cons in Hf as [Hf _]. change (is_queued (stamp now e)) with (is_queued e) in Hf.
  congruence.
Qed.

Lemma pump_release q now :
  queue_ok q -> Forall (fun e => is_queued e = true) (pending_ q) -> pump q now = release q now.
Proof.
  intros Hok Hall. unfold release.
  assert (Forall (fun e => can_send q e = ready_ q && slot_free q) (pending_ q)) as Hsend.
  { rewrite Forall_forall in Hall |- *. intros e He. by apply can_send_waiting; [|done|apply Hall]. }
  destruct (pending_ q) as [|e rest] eqn:Hp; [apply pump_idle; unfold work_conserving; by rewrite Hp|].
  apply Forall_cons in Hsend as [He Hsend]. destruct (ready_ q && slot_free q).
  - apply Forall_cons in Hall as [Hq Hall]. apply (pump_one q e [] rest now Hp He); [constructor|].
    eapply Forall_impl; [exact Hall|]. intros x Hx. by apply can_send_taken.
  - apply pump_idle. unfold work_conserving. rewrite Hp. by constructor.
Qed.

(** What a call leaves behind still has the two properties the next one needs. *)
Lemma exec_spec q c : queue_ok q -> work_conserving q -> exec q c = spec_exec q c.
Proof.
  intros Hok Hw. pose proof (proj1 (waiting_are_queued q Hok Hw)) as Hall.
  destruct c as [i data p d now|b now|i data now|now|]; cbn [exec spec_exec]; [| | | |done].
  - unfold spec_submit. destruct (decide _) as [Hin|Hin].
    { apply is_duplicate_spec in Hin. unfold submit. by rewrite Hin. }
    apply is_duplicate_false in Hin. destruct (is_queued _) eqn:Hq.
    + unfold submit. rewrite Hin. apply is_duplicate_false in Hin.
      set (e := mkEntry i data p d now 0) in *.
      pose proof (enqueue_entry_ok q e Hok Hin) as Hok'.
      assert (enqueue_entry q e =
        mkCommandQueue (opts_ q) (ready_ q) (pending_ q ++ [e]) (in_flight_ q)) as Heq.
      { unfold enqueue_entry, e. cbn. destruct p; [done|done|discriminate]. }
      rewrite Heq in *. rewrite pump_release; [by destruct (release _ now)|done|].
      cbn. apply Forall_app. by split; [|repeat constructor].
    + rewrite submit_ungated; [done|done|done| |done]. intros ->. discriminate.
  - unfold set_ready. destruct b; [|unfold release; by destruct (pending_ q)].
    apply pump_release; [|done]. by eapply queue_ok_sub.
  - unfold on_response. pose proof (extract_spec i (in_flight_ q)) as Hx.
    destruct (extract i _) as [[e rest]|]; [|done]. destruct Hx as (l1 & l2 & Hf & -> & _).
    rewrite pump_release; [by destruct (release _ now)| |done].
    eapply queue_ok_sub; [exact Hok| |done]. cbn. rewrite Hf. by apply sublist_app, sublist_cons.
  - unfold tick. rewrite pump_release; [by destruct (release _ now)|by apply drop_expired_ok|].
    cbn. rewrite Forall_forall in Hall |- *. intros e [He _]%elem_of_lfilter. by apply Hall.
Qed.

Lemma run_spec cs : forall q, queue_ok q -> work_conserving q -> run q cs = spec_run q cs.
Proof.
  induction cs as [|c cs IH]; intros q Hok Hw; [done|]. cbn [run spec_run].
  pose proof (exec_ok q c Hok) as Hok'. pose proof (exec_conserving q c Hw) as Hw'.
  rewrite <- exec_spec by done. destruct (exec q c) as [q1 ev1]. by rewrite IH.
Qed.

Lemma written_one e : written [write_event e] = [(id e, payload e)].
Proof. apply (written_writes [e]). Qed.

Lemma written_release q now : (length (written (release q now).2) <= 1)%nat.
Proof.
  unfold release. destruct (pending_ q); [exact Nat.le_0_1|].
  destruct (_ && _); cbn [snd]; [by rewrite written_one | exact Nat.le_0_1].
Qed.

Lemma written_spec_exec q c : (length (written (spec_exec q c).2) <= 1)%nat.
Proof.
  destruct c as [i data p d now|b now|i data now|now|]; cbn [spec_exec].
  - unfold spec_submit. destruct (decide _); [cbn; rewrite written_invoke; cbn; lia|].
    destruct (is_queued _); [apply written_release | cbn [snd]; by rewrite written_one].
  - apply written_release.
  - destruct (extract i _) as [[e rest]|]; [|exact Nat.le_0_1].
    match goal with |- context [release ?q1 now] =>
      pose proof (written_release q1 now); destruct (release q1 now) end.
    cbn in *. by rewrite written_app, written_invoke.
  - match goal with |- context [release ?q1 now] =>
      pose proof (written_release q1 now); destruct (release q1 now) end.
    cbn in *. by rewrite written_app, written_complete_all.
  - cbn. rewrite written_complete_all. cbn. lia.
Qed.
End equivalence.

(** ** Two ticks *)

Section liveness.
Context {C : Type}.
Implicit Types (q : CommandQueue C) (e x : Entry C) (cs : list (call C)).

(** Calls made with a clock that does not run backwards, from [t] on. *)
Fixpoint clocked (t : Z) cs : Prop :=
  match cs with
  | [] => True
  | CancelAll :: cs => clocked t cs
  | c :: cs => t <= call_time c /\ clocked (call_time c) cs
  end.

Fixpoint clock_after (t : Z) cs : Z :=
  match cs with
  | [] => t
  | CancelAll :: cs => clock_after t cs
  | c :: cs => clock_after (call_time c) cs
  end.

Lemma clocked_app cs cs' : forall t, clocked t (cs ++ cs') <-> clocked t cs /\ clocked (clock_after t cs) cs'.
Proof.
  induction cs as [|c cs IH]; intros t; cbn; [naive_solver|].
  destruct c; cbn; rewrite IH; naive_solver.
Qed.

Lemma clock_after_mono cs : forall t, clocked t cs -> t <= clock_after t cs.
Proof.
  induction cs as [|c cs IH]; intros t; cbn; [lia|].
  destruct c; cbn; try (intros [H1 H2]; specialize (IH _ H2); lia). apply IH.
Qed.

(** Sent or queued no later than [t]. *)
Definition sent_by (t : Z) e : Prop := 0 <= sent_at_ms e <= t.
Definition queued_by (t : Z) e : Prop := 0 <= queued_at_ms e <= t.

(** A property of entries in flight that tolerates the times of a run. *)
Lemma run_parts (F P : Entry C -> Prop) cs : forall q t,
  (forall e now, t <= now <= clock_after t cs -> P e -> F (stamp now e)) ->
  Forall (fun c => match c with Submit i data p d now => P (mkEntry i data p d now 0) | _ => True end) cs ->
  clocked t cs -> parts F P q -> parts F P (run q cs).1.
Proof.
  induction cs as [|c cs IH]; intros q t Hst Hcs Hcl Hq; cbn [run]; [done|].
  apply Forall_cons in Hcs as [Hc Hcs].
  assert (match c with CancelAll => True | _ => t <= call_time c /\
            call_time c <= clock_after t (c :: cs) end) as Ht.
  { destruct c; cbn in Hcl |- *; try (destruct Hcl as [? Hcl]; apply clock_after_mono in Hcl; lia). done. }
  assert (parts F P (exec q c).1) as Hq'.
  { destruct c; try (apply exec_parts; [|done|done]; intros e; apply Hst; lia). by split; constructor. }
  destruct (exec q c) as [q1 ev1]. cbn [fst] in Hq'.
  assert (exists t', t <= t' /\ clocked t' cs /\ clock_after t' cs = clock_after t (c :: cs))
    as (t' & Htt & Hcl' & Heq).
  { destruct c; cbn in Hcl |- *; (eexists; split_and!; [|apply Hcl|done]; lia). }
  rewrite <- Heq in Hst.
  enough (parts F P (run q1 cs).1) as H by by destruct (run q1 cs).
  apply (IH q1 t'); [|done..]. intros e now Hn. apply Hst. lia.
Qed.

(** Everything waiting at a tick past its deadline goes, and nothing is sent. *)
Lemma tick_empties q t1 :
  queue_timeout_ms (opts_ q) <> 0 -> t1 < 2 ^ 64 ->
  parts (sent_by t1) (fun e => 0 <= queued_at_ms e /\ queued_at_ms e + queue_timeout_ms (opts_ q) <= t1) q ->
  0 < queue_timeout_ms (opts_ q) ->
  pending_ (tick q t1).1 = [] /\ Forall (sent_by t1) (in_flight_ (tick q t1).1).
Proof.
  intros Hnz Ht [Hf Hp] Hpos. unfold tick.
  assert (pending_ (drop_expired q t1) = []) as Hnil.
  { cbn. apply filter_none. eapply Forall_impl; [exact Hp|]. intros e [H0 H1]. apply negb_false_iff.
    unfold queue_expired. apply andb_true_iff. split; [apply negb_true_iff, Z.eqb_neq; lia|].
    apply Z.leb_le. rewrite u64_sub_small by lia. lia. }
  rewrite pump_idle by (unfold work_conserving; rewrite Hnil; constructor). split; [done|].
  cbn. rewrite Forall_forall in Hf |- *. intros e [He _]%elem_of_lfilter. by apply Hf.
Qed.

(** What was sent by [t1] is gone a write timeout later. *)
Lemma tick_expires (P : Entry C -> Prop) q t1 t2 :
  t1 + write_timeout_ms (opts_ q) <= t2 -> t2 < 2 ^ 64 -> (forall now e, P e -> P (stamp now e)) ->
  parts (fun e => sent_by t1 e \/ P e) P q -> 0 <= write_timeout_ms (opts_ q) ->
  parts P P (tick q t2).1.
Proof.
  intros Ht Hb Hst [Hf Hp] Hw. unfold tick.
  pose proof (pump_parts P P (drop_expired q t2) t2 (Hst t2)) as H.
  destruct (pump _ t2). apply H. split; cbn.
  - rewrite Forall_forall in Hf |- *. intros e [He Hexp]%elem_of_lfilter.
    destruct (Hf e He) as [[H0 H1]|HP]; [exfalso|exact HP].
    apply negb_true_iff in Hexp. unfold write_expired in Hexp. apply Z.leb_gt in Hexp.
    rewrite u64_sub_small in Hexp by lia. lia.
  - rewrite Forall_forall in Hp |- *. intros e [He _]%elem_of_lfilter. by apply Hp.
Qed.

Lemma run_app cs cs' q :
  run q (cs ++ cs') =
    ((run (run q cs).1 cs').1, (run q cs).2 ++ (run (run q cs).1 cs').2).
Proof.
  revert q. induction cs as [|c cs IH]; intros q; cbn [app run fst snd].
  { by destruct (run q cs'). }
  destruct (exec q c) as [q1 ev1]. rewrite IH. destruct (run q1 cs) as [q2 ev2]. cbn.
  by rewrite app_assoc.
Qed.

Lemma run_cons c cs q : (run q (c :: cs)).1 = (run (exec q c).1 cs).1.
Proof. cbn [run]. destruct (exec q c) as [q1 ev1]. cbn [fst]. by destruct (run q1 cs). Qed.

Lemma run_opts cs : forall q, opts_ (run q cs).1 = opts_ q.
Proof.
  assert (forall q' now, opts_ (pump q' now).1 = opts_ q') as Hpump.
  { intros q' now. by destruct (pump_pumped q' now) as [sent [_ _ _ _ _ H]]. }
  induction cs as [|c cs IH]; intros q; [done|]. cbn [run].
  assert (opts_ (exec q c).1 = opts_ q) as Hc.
  { destruct c; cbn [exec]; unfold submit, set_ready, on_response, tick.
    - destruct (is_duplicate _ _); [done|].
      match goal with |- context [pump ?q1 ?n] => pose proof (Hpump q1 n); by destruct (pump q1 n) end.
    - destruct b; [by rewrite Hpump|done].
    - destruct (extract _ _) as [[e rest]|]; [|done].
      match goal with |- context [pump ?q1 ?n] => pose proof (Hpump q1 n); by destruct (pump q1 n) end.
    - match goal with |- context [pump ?q1 ?n] => pose proof (Hpump q1 n); by destruct (pump q1 n) end.
    - done. }
  destruct (exec q c) as [q1 ev1]. cbn in Hc. specialize (IH q1). destruct (run q1 cs). cbn in *. congruence.
Qed.

Definition due_by (qt t1 : Z) (c : call C) : Prop :=
  match c with Submit _ _ _ _ now => 0 <= now /\ now + qt <= t1 | _ => True end.

(** What is still owed after the two ticks was handed over between them. *)
Lemma owed_after_two_ticks opts cs0 t1 cs1 t2 :
  0 < write_timeout_ms opts -> 0 < queue_timeout_ms opts -> t2 < 2 ^ 64 ->
  clocked 0 (cs0 ++ Tick t1 :: cs1 ++ [Tick t2]) -> t1 + write_timeout_ms opts <= t2 ->
  Forall (due_by (queue_timeout_ms opts) t1) cs0 ->
  Forall (fun c => c ∈ omap handed cs1)
    (owed (run (CommandQueue_init opts) (cs0 ++ Tick t1 :: cs1 ++ [Tick t2])).1).
Proof.
  intros Hw Hq Hb Hcl H12 Hdue. apply clocked_app in Hcl as [Hcl0 Hcl].
  set (t0 := clock_after 0 cs0) in *. cbn in Hcl. destruct Hcl as [H01 Hcl].
  apply clocked_app in Hcl as [Hcl1 [Hle _]]. cbn in Hle.
  rewrite run_app. cbn [fst]. rewrite run_cons, run_app. cbn [fst]. rewrite run_cons.
  cbn [exec run fst].
  set (q0 := (run (CommandQueue_init opts) cs0).1) in *.
  assert (opts_ q0 = opts) as Ho by apply run_opts.
  assert (parts (sent_by t1) (fun e => 0 <= queued_at_ms e /\
            queued_at_ms e + queue_timeout_ms opts <= t1) q0) as Hq0.
  { apply (run_parts _ _ cs0 _ 0); [|exact Hdue|done|by split; constructor].
    intros e now Hn _. unfold sent_by, stamp. cbn. fold t0 in Hn. lia. }
  pose proof (clock_after_mono cs1 t1 Hcl1) as Hmono.
  pose proof (tick_empties q0 t1) as Hempty. rewrite Ho in Hempty.
  destruct Hempty as [Hnil Hsent]; [lia|lia|done|done|].
  assert (opts_ (tick q0 t1).1 = opts) as Ho1.
  { pose proof (run_opts [Tick t1] q0) as H. rewrite run_cons in H.
    cbn [run fst exec] in H. congruence. }
  destruct (tick q0 t1) as [q1 ev1]. cbn [fst] in *.
  set (late e := forall c, done e = Some c -> c ∈ omap handed cs1).
  assert (parts (fun e => sent_by t1 e \/ late e) late (run q1 cs1).1) as Hq1.
  { apply (run_parts _ _ cs1 _ t1); [intros e now _ He; by right| |done|].
    - apply Forall_forall. intros c Hc. destruct c; try done.
      intros c' Hc'. cbn in Hc'. apply list_elem_of_omap. eauto.
    - split; [|rewrite Hnil; constructor]. eapply Forall_impl; [exact Hsent|]. by left. }
  pose proof (run_opts cs1 q1) as Ho2. rewrite Ho1 in Ho2.
  destruct (run q1 cs1) as [q2 ev2]. cbn [fst] in *. rewrite <- Ho2 in H12.
  apply (tick_expires late q2 t1 t2) in H12; [|done| |done|rewrite Ho2; lia].
  2: { intros now e He. exact He. }
  destruct (tick q2 t2) as [q3 ev3]. cbn [fst] in *.
  destruct H12 as [Hf Hp]. unfold owed. apply Forall_forall.
  intros c (e & He & Hc)%list_elem_of_omap.
  rewrite Forall_forall in Hf, Hp. apply elem_of_app in He as [He|He]; [by apply (Hf e)|by apply (Hp e)].
Qed.
End liveness.

(** ** Properties *)

(** C17: the rescanning queue is a FIFO behind one slot.  Over any sequence of
    calls it goes through the same states and makes the same callbacks as the
    specification, which lets at most the head of the FIFO through per call and
    never scans; so no call transmits more than one command. *)
Theorem queue_is_fifo {C : Type} opts (cs : list (call C)) c :
  run (CommandQueue_init opts) cs = spec_run (CommandQueue_init opts) cs /\
  (length (written (exec (run (CommandQueue_init opts) cs).1 c).2) <= 1)%nat.
Proof.
  destruct (run_invariant cs (CommandQueue_init opts) (init_ok opts) (init_conserving opts))
    as [Hok Hw].
  split; [by apply run_spec; [apply init_ok | apply init_conserving]|].
  rewrite exec_spec by done. apply written_spec_exec.
Qed.

(** C18: two ticks settle every command.  With a clock that does not run
    backwards and deadlines that are not disabled, once a tick has come a queue
    timeout after a command was handed over, and another a write timeout after
    that one, its completion has been called, whatever else was called before,
    between and for whatever reason the camera was silent. *)
Theorem two_ticks_settle {C : Type} opts (cs0 : list (call C)) t1 cs1 t2 c :
  0 < write_timeout_ms opts -> 0 < queue_timeout_ms opts -> t2 < 2 ^ 64 ->
  clocked 0 (cs0 ++ Tick t1 :: cs1 ++ [Tick t2]) -> t1 + write_timeout_ms opts <= t2 ->
  Forall (due_by (queue_timeout_ms opts) t1) cs0 ->
  c ∈ omap handed cs0 -> c ∉ omap handed cs1 ->
  c ∈ completed (run (CommandQueue_init opts) (cs0 ++ Tick t1 :: cs1 ++ [Tick t2])).2.
Proof.
  intros Hw Hq Hb Hcl H12 Hdue Hin Hnot.
  pose proof (owed_after_two_ticks opts cs0 t1 cs1 t2 Hw Hq Hb Hcl H12 Hdue) as Howed.
  pose proof (run_owed (cs0 ++ Tick t1 :: cs1 ++ [Tick t2]) (CommandQueue_init opts)) as Hacc.
  rewrite omap_app in Hacc. rewrite Forall_forall in Howed.
  assert (c ∈ completed (run (CommandQueue_init opts) (cs0 ++ Tick t1 :: cs1 ++ [Tick t2])).2 ++
              owed (run (CommandQueue_init opts) (cs0 ++ Tick t1 :: cs1 ++ [Tick t2])).1) as Hc.
  { rewrite Hacc, !elem_of_app. by do 2 left. }
  apply elem_of_app in Hc as [Hc|Hc]; [exact Hc|]. by destruct (Hnot (Howed c Hc)).
Qed.

(** The gate shut for good and the camera silent: three commands, an ungated one
    among them, and a late one that is not covered. *)
Lemma two_ticks_settle_witness :
  2%nat ∈ completed (run (CommandQueue_init (mkOptions 5000 30000))
    ([Submit 1 [1] kQueued (Some 1%nat) 0; Submit 2 [2] kQueued (Some 2%nat) 10;
      Submit 531 [19; 8] kFastpass (Some 3%nat) 20] ++ Tick 30020 ::
     [SetReady true 31000; Submit 7 [7] kQueued (Some 4%nat) 34000] ++ [Tick 35020])).2.
Proof.
  apply two_ticks_settle; try (cbn; lia).
  - repeat apply Forall_cons_2; try apply Forall_nil_2; cbn; lia.
  - vm_compute. right. left.
  - vm_compute. intros H. apply list_elem_of_In in H. cbn in H. destruct H as [H|[]]. discriminate.
Defined.
