(* ===== verification/QueueReentrancy.v ===== *)
(** * The command queue with callbacks that call back
    ([native/src/command_queue.cpp])

    [tick] collects completions before it invokes them, [send] records the
    entry before it writes it, and [pump] restarts its scan after every send,
    because a completion or a synchronous transport may call [submit],
    [on_response] or any other member while the queue is in the middle of a
    call.  [CommandQueue] models the members with callbacks that return at
    once; here the same members are cut at their callbacks into the steps of a
    machine with an explicit call stack, and every callback may make any calls
    it likes, nested to any depth. *)

From S2P Require Import Prelude CommandQueue.

Section machine.
Context {C : Type}.

(** What is still to be done by an unfinished call.
    - [FUser]: user code is running: the owner of the queue at the bottom of
      the stack, a callback above it;
    - [FPump]: the rest of a [pump];
    - [FDones]: the completions a call has collected and not yet invoked. *)
Inductive frame :=
| FUser
| FPump (now_ms : Z)
| FDones (l : list (option C * Outcome * bytes)).

Record config := mkConfig {
  queue : CommandQueue C;
  stack : list frame;
  trace : list (QEvent C);
  given : list C;  (** the completions handed to [submit] so far *)
}.

Definition config_init (opts : CommandQueueOptions) : config :=
  mkConfig (CommandQueue_init opts) [FUser] [] [].

Definition dones_of (o : Outcome) (l : list (Entry C)) : list (option C * Outcome * bytes) :=
  (fun e => (done e, o, [])) <$> l.

(** The part of a member function before its first callback, and what it still
    has to do. *)
Definition begin_call (q : CommandQueue C) (c : call C) : CommandQueue C * list frame :=
  match c with
  | Submit i data p d now =>
      if is_duplicate q i then (q, [FDones [(d, kRejected, [])]])
      else (enqueue_entry q (mkEntry i data p d now 0), [FPump now])
  | SetReady b now =>
      (mkCommandQueue (opts_ q) b (pending_ q) (in_flight_ q), if b then [FPump now] else [])
  | OnResponse i data now =>
      match extract i (in_flight_ q) with
      | None => (q, [])
      | Some (e, rest) =>
          (mkCommandQueue (opts_ q) (ready_ q) (pending_ q) rest,
           [FDones [(done e, kResponded, data)]; FPump now])
      end
  | Tick now => (drop_expired q now, [FDones (dones_of kTimedOut (expired q now)); FPump now])
  | CancelAll =>
      (mkCommandQueue (opts_ q) (ready_ q) [] [],
       [FDones (dones_of kCanceled (in_flight_ q ++ pending_ q))])
  end.

Inductive step : config -> config -> Prop :=
| step_call q k tr g c :
    step (mkConfig q (FUser :: k) tr g)
         (mkConfig (begin_call q c).1 ((begin_call q c).2 ++ FUser :: k) tr
                   (g ++ option_list (handed c)))
| step_return q f k tr g :
    step (mkConfig q (FUser :: f :: k) tr g) (mkConfig q (f :: k) tr g)
| step_send q now k tr g e rest :
    pick q (pending_ q) = Some (e, rest) ->
    step (mkConfig q (FPump now :: k) tr g)
         (mkConfig (sent_one q e rest now) (FUser :: FPump now :: k) (tr ++ [write_event e]) g)
| step_pump_end q now k tr g :
    pick q (pending_ q) = None ->
    step (mkConfig q (FPump now :: k) tr g) (mkConfig q k tr g)
| step_done q c o data l k tr g :
    step (mkConfig q (FDones ((Some c, o, data) :: l) :: k) tr g)
         (mkConfig q (FUser :: FDones l :: k) (tr ++ [Completed c o data]) g)
| step_no_done q o data l k tr g :
    step (mkConfig q (FDones ((None, o, data) :: l) :: k) tr g)
         (mkConfig q (FDones l :: k) tr g)
| step_dones_end q k tr g :
    step (mkConfig q (FDones [] :: k) tr g) (mkConfig q k tr g).

Definition reachable (opts : CommandQueueOptions) : config -> Prop :=
  steps step (config_init opts).

(** Completions collected but not yet invoked. *)
Definition frame_owed (f : frame) : list C :=
  match f with FDones l => omap (fun x => x.1.1) l | _ => [] end.

Definition stack_owed (k : list frame) : list C := concat (frame_owed <$> k).

#[local] Arguments stack_owed : simpl never.

Definition pumping (k : list frame) : Prop := exists now, FPump now ∈ k.

(** The invariant of the machine. *)
Record config_ok (x : config) : Prop := {
  cfg_queue : queue_ok (queue x);
  cfg_conserving : pumping (stack x) \/ work_conserving (queue x);
  cfg_owed : completed (trace x) ++ owed (queue x) ++ stack_owed (stack x) ≡ₚ given x;
}.

(** ** Cutting a call in two loses nothing *)

Lemma stack_owed_app k1 k2 : stack_owed (k1 ++ k2) = stack_owed k1 ++ stack_owed k2.
Proof. unfold stack_owed. by rewrite fmap_app, concat_app. Qed.

Lemma owed_dones_of o l : omap (fun x => x.1.1) (dones_of o l) = omap done l.
Proof. induction l as [|e l IH]; [done|]. cbn in *. by rewrite <- IH. Qed.

Lemma begin_call_ok q c : queue_ok q -> queue_ok (begin_call q c).1.
Proof.
  intros Hq. destruct c as [i data p d now|b now|i data now|now|]; cbn.
  - destruct (is_duplicate q i) eqn:E; [done|]. apply is_duplicate_false in E.
    by apply enqueue_entry_ok.
  - by eapply queue_ok_sub.
  - pose proof (extract_spec i (in_flight_ q)) as Hx. destruct (extract i _) as [[e rest]|]; [|done].
    destruct Hx as (l1 & l2 & Hf & -> & _). eapply queue_ok_sub; [exact Hq| |done].
    cbn. rewrite Hf. by apply sublist_app, sublist_cons.
  - by apply drop_expired_ok.
  - split; cbn; [constructor | lia].
Qed.

(** A call either leaves nothing sendable waiting or still has its pump to run. *)
Lemma begin_call_conserving q c :
  work_conserving q -> pumping (begin_call q c).2 \/ work_conserving (begin_call q c).1.
Proof.
  intros Hq. pose proof (exec_conserving q c Hq) as He. unfold pumping.
  destruct c as [i data p d now|b now|i data now|now|]; cbn in *.
  - destruct (is_duplicate q i); cbn; [by right|]. left. exists now. set_solver.
  - destruct b; cbn; [left; exists now; set_solver|by right].
  - destruct (extract i _) as [[e rest]|]; cbn; [left; exists now; set_solver|by right].
  - left. exists now. set_solver.
  - by right.
Qed.

Lemma begin_call_owed q c :
  owed (begin_call q c).1 ++ stack_owed (begin_call q c).2 ≡ₚ option_list (handed c) ++ owed q.
Proof.
  destruct c as [i data p d now|b now|i data now|now|]; cbn; unfold stack_owed; cbn.
  - destruct (is_duplicate q i); cbn.
    { rewrite Permutation_app_comm. by destruct d. }
    rewrite app_nil_r. unfold owed. rewrite omap_app, enqueue_entry_pending, <- omap_app.
    cbn. rewrite <- Permutation_middle. cbn. by destruct d.
  - destruct b; cbn; by rewrite app_nil_r.
  - pose proof (extract_spec i (in_flight_ q)) as Hx.
    destruct (extract i _) as [[e rest]|]; cbn; [|by rewrite app_nil_r].
    destruct Hx as (l1 & l2 & Hf & -> & _). unfold owed; cbn. rewrite Hf, <- !app_assoc. cbn.
    rewrite <- Permutation_middle. cbn. rewrite Permutation_app_comm. by destruct (done e).
  - rewrite owed_dones_of, !app_nil_r. unfold owed, expired, drop_expired. cbn.
    rewrite <- omap_app. apply omap_Permutation.
    rewrite <- (lfilter_split (write_expired q now) (in_flight_ q)) at 3.
    rewrite <- (lfilter_split (queue_expired q now) (pending_ q)) at 3.
    rewrite Permutation_app_comm, <- !app_assoc. apply Permutation_app_head.
    rewrite !app_assoc. apply Permutation_app_tail, Permutation_app_comm.
  - by rewrite owed_dones_of, app_nil_r.
Qed.

Lemma sent_one_owed (q : CommandQueue C) e rest now :
  pick q (pending_ q) = Some (e, rest) -> owed (sent_one q e rest now) ≡ₚ owed q.
Proof.
  intros H. apply pick_Some in H as (l1 & l2 & Hp & -> & _). unfold owed; cbn.
  rewrite Hp, <- app_assoc, !omap_app. unfold stamp; cbn.
  destruct (done e); cbn; by rewrite ?Permutation_middle.
Qed.

(** ** Preservation *)

Lemma step_ok x y : step x y -> config_ok x -> config_ok y.
Proof.
  intros Hs [H1 H2 H3].
  destruct Hs as [q k tr g c|q f k tr g|q now k tr g e rest Hp|q now k tr g Hp
                 |q c o data l k tr g|q o data l k tr g|q k tr g]; cbn in *.
  - split; cbn; [by apply begin_call_ok| |].
    + unfold pumping in *. destruct H2 as [[now Hn]|Hw]; [left; exists now; set_solver|].
      destruct (begin_call_conserving q c Hw) as [[now Hn]|]; [left; exists now|by right].
      apply elem_of_app. by left.
    + rewrite stack_owed_app, <- H3. rewrite (app_assoc (owed (begin_call q c).1)), begin_call_owed.
      change (stack_owed (FUser :: k)) with (stack_owed k).
      rewrite (Permutation_app_comm (option_list _)). solve_Permutation.
  - split; cbn; [done| |done]. destruct H2 as [[now Hn]|]; [left; exists now; set_solver|by right].
  - pose proof (sent_one_owed q e rest now Hp) as Ho.
    split; cbn; [| |].
    + apply pick_Some in Hp as (l1 & l2 & Hp & -> & He & _). by apply sent_one_ok.
    + left. exists now. set_solver.
    + rewrite completed_app, Ho. change (completed [write_event e]) with (@nil C).
      by rewrite app_nil_r.
  - split; cbn; [done| |done]. right. by apply pick_None.
  - split; cbn; [done| |].
    + destruct H2 as [[now Hn]|]; [left; exists now; set_solver|by right].
    + rewrite <- H3, completed_app. unfold stack_owed; cbn. solve_Permutation.
  - split; cbn; [done| |done]. destruct H2 as [[now Hn]|]; [left; exists now; set_solver|by right].
  - split; cbn; [done| |done]. destruct H2 as [[now Hn]|]; [left; exists now; set_solver|by right].
Qed.

(** ** Callbacks that return at once *)

Lemma steps_return q k tr g f :
  steps step (mkConfig q (FUser :: f :: k) tr g) (mkConfig q (f :: k) tr g).
Proof. apply steps_one. constructor. Qed.

Lemma pump_steps fuel : forall q now f k tr g, (length (pending_ q) <= fuel)%nat ->
  steps step (mkConfig q (FPump now :: f :: k) tr g)
    (mkConfig (pump_loop fuel q now).1 (f :: k) (tr ++ (pump_loop fuel q now).2) g).
Proof.
  induction fuel as [|fuel IH]; intros q now f k tr g Hf; cbn [pump_loop].
  { destruct (pending_ q) eqn:E; [|cbn in Hf; lia]. cbn. rewrite app_nil_r.
    apply steps_one. constructor. by rewrite E. }
  destruct (pick q (pending_ q)) as [[e rest]|] eqn:E.
  2: { cbn. rewrite app_nil_r. apply steps_one. by constructor. }
  cbn [send opts_ ready_ pending_ in_flight_]. fold (sent_one q e rest now).
  eapply steps_cons; [by apply step_send|]. eapply steps_cons; [apply step_return|].
  pose proof (IH (sent_one q e rest now) now f k (tr ++ [write_event e]) g) as H.
  destruct (pump_loop fuel (sent_one q e rest now) now) as [q2 ev2]. cbn in *.
  rewrite <- app_assoc in H. apply H.
  apply pick_Some in E as (l1 & l2 & Hp & -> & _). rewrite Hp, !length_app in *. cbn in Hf. lia.
Qed.

Lemma dones_steps l : forall q f k tr g,
  steps step (mkConfig q (FDones l :: f :: k) tr g)
    (mkConfig q (f :: k) (tr ++ concat ((fun x => invoke x.1.1 x.1.2 x.2) <$> l)) g).
Proof.
  induction l as [|[[[c|] o] data] l IH]; intros q f k tr g; cbn.
  - rewrite app_nil_r. apply steps_one. constructor.
  - eapply steps_cons; [apply step_done|]. eapply steps_cons; [apply step_return|].
    specialize (IH q f k (tr ++ [Completed c o data]) g). by rewrite <- app_assoc in IH.
  - eapply steps_cons; [apply step_no_done|]. apply IH.
Qed.

Lemma dones_of_events o (l : list (Entry C)) :
  concat ((fun x => invoke x.1.1 x.1.2 x.2) <$> dones_of o l) = complete_all o l.
Proof. unfold dones_of, complete_all. by rewrite <- list_fmap_compose. Qed.

(** The frames a call leaves run to the result of [exec]. *)
Lemma begin_call_runs q c f k tr g :
  steps step (mkConfig (begin_call q c).1 ((begin_call q c).2 ++ f :: k) tr g)
    (mkConfig (exec q c).1 (f :: k) (tr ++ (exec q c).2) g).
Proof.
  destruct c as [i data p d now|b now|i data now|now|]; cbn.
  - unfold submit. destruct (is_duplicate q i); cbn.
    + pose proof (dones_steps [(d, kRejected, [])] q f k tr g) as H. cbn in H.
      by rewrite app_nil_r in H.
    + set (q1 := enqueue_entry _ _). pose proof (pump_steps _ q1 now f k tr g (le_n _)) as H.
      fold (pump q1 now) in H. by destruct (pump q1 now).
  - unfold set_ready. destruct b; cbn; [|rewrite app_nil_r; constructor].
    set (q1 := mkCommandQueue _ _ _ _). exact (pump_steps _ q1 now f k tr g (le_n _)).
  - unfold on_response. destruct (extract i (in_flight_ q)) as [[e rest]|]; cbn;
      [|rewrite app_nil_r; constructor].
    set (q1 := mkCommandQueue _ _ _ _). eapply steps_trans; [apply dones_steps|]. cbn.
    rewrite app_nil_r.
    pose proof (pump_steps _ q1 now f k (tr ++ invoke (done e) kResponded data) g (le_n _)) as H.
    fold (pump q1 now) in H. destruct (pump q1 now). cbn in *. by rewrite <- app_assoc in H.
  - unfold tick. set (q1 := drop_expired q now).
    eapply steps_trans; [apply dones_steps|]. rewrite dones_of_events.
    pose proof (pump_steps _ q1 now f k (tr ++ complete_all kTimedOut (expired q now)) g (le_n _)) as H.
    fold (pump q1 now) in H. destruct (pump q1 now). cbn in *. by rewrite <- app_assoc in H.
  - eapply steps_trans; [apply dones_steps|]. rewrite dones_of_events. constructor.
Qed.

Lemma call_runs q c k tr g :
  steps step (mkConfig q (FUser :: k) tr g)
    (mkConfig (exec q c).1 (FUser :: k) (tr ++ (exec q c).2) (g ++ option_list (handed c))).
Proof. eapply steps_cons; [apply step_call|]. apply begin_call_runs. Qed.

Lemma reachable_ok opts x : reachable opts x -> config_ok x.
Proof.
  intros Hr. eapply steps_invariant; [|exact Hr|].
  - intros a b Hab Ha. by eapply step_ok.
  - split; cbn; [apply init_ok|right; apply init_conserving|done].
Qed.

(** ** Properties *)

(** Whatever the callbacks do — submit, deliver responses, tick, cancel,
    nested to any depth — no correlation id is ever outstanding twice, at most
    one ordinary command is in flight, and whenever no pump is interrupted (in
    particular when control is back with the owner) nothing sendable waits. *)
Theorem reentrant_invariant opts x :
  reachable opts x ->
  queue_ok (queue x) /\
  (stack x = [FUser] -> Forall (fun e => is_queued e = true) (pending_ (queue x)) /\
    (pending_ (queue x) <> [] ->
       ready (queue x) = false \/ existsb is_queued (in_flight_ (queue x)) = true)).
Proof.
  intros Hr. destruct (reachable_ok opts x Hr) as [H1 H2 _]. split; [done|].
  intros Hs. apply waiting_are_queued; [done|]. destruct H2 as [[now Hn]|]; [|done].
  rewrite Hs in Hn. set_solver.
Qed.

(** C16: exactly once, reentrantly: at every point of every execution the
    completions invoked so far, those the queue still owes and those collected
    by unfinished calls are together exactly the ones handed to [submit]. *)
Theorem reentrant_exactly_once opts x :
  reachable opts x ->
  completed (trace x) ++ owed (queue x) ++ stack_owed (stack x) ≡ₚ given x.
Proof. intros Hr. by destruct (reachable_ok opts x Hr). Qed.

(** The member functions of [CommandQueue] are the runs of the machine in
    which every callback returns at once: same resulting queue, same callback
    invocations in the same order, at any depth of the call stack. *)
Theorem exec_refines_machine q c k tr g :
  steps step (mkConfig q (FUser :: k) tr g)
    (mkConfig (exec q c).1 (FUser :: k) (tr ++ (exec q c).2) (g ++ option_list (handed c))).
Proof. apply call_runs. Qed.
End machine.

Arguments config : clear implicits.
Arguments frame : clear implicits.

(** ** Witness

    The completion of command 1 resubmits id 1 from inside [on_response]. *)

Definition resubmit_start : config nat :=
  mkConfig (run (CommandQueue_init CommandQueueOptions_default)
              [SetReady true 0; Submit 1 [1] kQueued (Some 1%nat) 0]).1
    [FUser] [Written 1 [1]] [1%nat].

Definition resubmit_end : config nat :=
  mkConfig (mkCommandQueue CommandQueueOptions_default true [mkEntry 1 [7] kQueued (Some 2%nat) 5 0] [])
    [FPump 5; FUser; FDones []; FPump 9; FUser]
    [Written 1 [1]; Completed 1%nat kResponded [1; 0]] [1%nat; 2%nat].

Lemma resubmit_reachable : reachable CommandQueueOptions_default resubmit_end.
Proof.
  eapply (steps_trans _ _ resubmit_start).
  - unfold config_init.
    eapply steps_trans; [apply (call_runs _ (SetReady true 0))|].
    eapply steps_trans; [apply (call_runs _ (Submit 1 [1] kQueued (Some 1%nat) 0))|].
    constructor.
  - eapply steps_cons; [apply (step_call _ _ _ _ (OnResponse 1 [1; 0] 9))|].
    eapply steps_cons; [apply step_done|].
    eapply steps_cons; [apply (step_call _ _ _ _ (Submit 1 [7] kQueued (Some 2%nat) 5))|].
    constructor.
Qed.

Lemma reentrant_invariant_witness :
  queue_ok (queue resubmit_end).
Proof. apply (reentrant_invariant CommandQueueOptions_default resubmit_end). apply resubmit_reachable. Defined.

Lemma reentrant_exactly_once_witness :
  completed (trace resubmit_end) ++ owed (queue resubmit_end) ++ stack_owed (stack resubmit_end)
    ≡ₚ [1%nat; 2%nat].
Proof. apply (reentrant_exactly_once CommandQueueOptions_default resubmit_end). apply resubmit_reachable. Defined.
