(* ===== verification/BleSession.v ===== *)
(** * The BLE control plane, composed
    ([native/include/ble_session.h], [native/src/ble_session.cpp])

    One reassembler per channel, the query parser, the ready gate and the
    command queue, wired together the way [BleSession] wires them.  The
    callbacks of a session are the events of an [act] computation; a handler
    that was never installed is a [false] flag in [handlers].  The completion
    token the session gives the queue is the correlation id its lambda
    captures.  Callbacks do not re-enter the session (the C ABI of
    [ble_bridge.cpp], its only client, posts a message and returns). *)

From stdpp Require Import strings.
From S2P Require Import Prelude BleProtocol QueryParser CommandQueue.
Local Open Scope Z_scope.
Open Scope act_scope.

(** ** Channels

    [Channel] is an [enum class : uint8_t]; casts from bytes produce any of its
    256 values, so it is the byte itself, with names for the enumerators. *)

Abbreviation Channel := Z (only parsing).

Definition kCommand : Channel := 0.
Definition kSettings : Channel := 1.
Definition kQuery : Channel := 2.
Definition kNetwork : Channel := 3.
Definition kChannelCount : nat := 4.

Definition channel_ok (c : Channel) : Prop := 0 <= c < Z.of_nat kChannelCount.

Definition Channel_to_string (c : Channel) : string :=
  match c with
  | 0 => "command"
  | 1 => "settings"
  | 2 => "query"
  | 3 => "network"
  | _ => "?"
  end.

(** ** Correlation ids *)

Definition correlation_of (channel : Channel) (leading_byte : byte) : CorrelationId :=
  Z.lor (Z.shiftl channel 8) leading_byte.

Definition kProtobufCorrelationBit : CorrelationId := Z.shiftl 1 24.

Definition protobuf_response_action (request : byte) : byte := Z.lor request 128.

Definition channel_of_correlation (id : CorrelationId) : Channel :=
  let shift := if negb (Z.land id kProtobufCorrelationBit =? 0) then 16 else 8 in
  Z.land (Z.shiftr id shift) 255.

Definition correlation_of_protobuf (channel : Channel) (feature_id request_action_id : byte)
    : CorrelationId :=
  Z.lor (Z.lor (Z.lor kProtobufCorrelationBit (Z.shiftl channel 16)) (Z.shiftl feature_id 8))
        (protobuf_response_action request_action_id).

Definition correlation_of_message (channel : Channel) (message : bytes) : CorrelationId :=
  match message with
  | [] => correlation_of channel 0
  | b :: _ => correlation_of channel b
  end.

Definition protobuf_correlation_of_message (channel : Channel) (message : bytes) : CorrelationId :=
  Z.lor (Z.lor (Z.lor kProtobufCorrelationBit (Z.shiftl channel 16))
               (Z.shiftl (nth 0 message 0) 8))
        (nth 1 message 0).

Definition kLedSettingId : byte := 91.
Definition kKeepAliveValue : byte := 66.

Definition keep_alive_payload : bytes := [kLedSettingId; 1; kKeepAliveValue].

(** ** The session *)

Record SessionConfig := mkSessionConfig {
  keep_alive_interval_ms : Z;
  att_payload : nat;
  queue_options : CommandQueueOptions;
}.

Definition SessionConfig_default : SessionConfig :=
  mkSessionConfig 3000 kMinAttPayload CommandQueueOptions_default.

(** Which of the [std::function] members are set. *)
Record Handlers := mkHandlers {
  has_write : bool;
  has_response : bool;
  has_push : bool;
  has_ready : bool;
  has_frame_error : bool;
}.

Record BleSession := mkBleSession {
  cfg_ : SessionConfig;
  handlers : Handlers;
  rx_ : list Reassembler;
  queue_ : CommandQueue CorrelationId;
  gate_ : ReadyState;  (** the member [ready_] *)
  last_keep_alive_ms_ : Z;
  keep_alive_started_ : bool;
}.

(** The callbacks of a session. *)
Inductive SEvent :=
| SWrite (c : Channel) (packet : bytes)
| SResponse (id : CorrelationId) (o : Outcome) (payload : bytes)
| SPush (c : Channel) (r : QueryResponse) (message : bytes)
| SReady (b : bool)
| SFrameError (c : Channel) (r : FeedResult).

Definition BleSession_init (h : Handlers) (cfg : SessionConfig) : BleSession :=
  mkBleSession cfg h (replicate kChannelCount Reassembler_init)
    (CommandQueue_init (queue_options cfg)) ReadyState_init 0 false.

(** Field updates. *)
Definition set_rx (s : BleSession) rx :=
  mkBleSession (cfg_ s) (handlers s) rx (queue_ s) (gate_ s) (last_keep_alive_ms_ s) (keep_alive_started_ s).
Definition set_queue (s : BleSession) q :=
  mkBleSession (cfg_ s) (handlers s) (rx_ s) q (gate_ s) (last_keep_alive_ms_ s) (keep_alive_started_ s).
Definition set_gate (s : BleSession) g :=
  mkBleSession (cfg_ s) (handlers s) (rx_ s) (queue_ s) g (last_keep_alive_ms_ s) (keep_alive_started_ s).
Definition set_keep_alive (s : BleSession) last started :=
  mkBleSession (cfg_ s) (handlers s) (rx_ s) (queue_ s) (gate_ s) last started.

(** The accessors [ready], [pending], [in_flight]. *)
Definition session_ready (s : BleSession) : bool := QueryParser.ready (gate_ s).
Definition session_pending (s : BleSession) : nat := CommandQueue.pending (queue_ s).
Definition session_in_flight (s : BleSession) : nat := CommandQueue.in_flight (queue_ s).

Abbreviation session := (act BleSession SEvent).

(** The [WriteFn] the constructor gives the queue: recover the channel, fragment,
    and write packet by packet. *)
Definition write_packets (s : BleSession) (id : CorrelationId) (payload : bytes) : list SEvent :=
  let channel := channel_of_correlation id in
  if has_write (handlers s) then
    SWrite channel <$> fragment payload (att_payload (cfg_ s))
  else [].

(** What one queue callback does: [write_packets], or the completion lambda of
    [enqueue], which reports to [on_response_]. *)
Definition queue_event (s : BleSession) (e : QEvent CorrelationId) : list SEvent :=
  match e with
  | Written id payload => write_packets s id payload
  | Completed id o response =>
      if has_response (handlers s) then [SResponse id o response] else []
  end.

Definition queue_events (s : BleSession) (ev : list (QEvent CorrelationId)) : list SEvent :=
  concat (queue_event s <$> ev).

(** Calls into the queue. *)
Definition queue_on_response (id : CorrelationId) (data : bytes) (now_ms : Z) : session bool :=
  fun s => let '(q, b, ev) := CommandQueue.on_response (queue_ s) id data now_ms in
           (b, set_queue s q, queue_events s ev).

Definition queue_set_ready (b : bool) (now_ms : Z) : session unit :=
  fun s => let '(q, ev) := CommandQueue.set_ready (queue_ s) b now_ms in
           (tt, set_queue s q, queue_events s ev).

Definition queue_tick (now_ms : Z) : session unit :=
  fun s => let '(q, ev) := CommandQueue.tick (queue_ s) now_ms in
           (tt, set_queue s q, queue_events s ev).

Definition queue_cancel_all : session unit :=
  fun s => let '(q, ev) := CommandQueue.cancel_all (queue_ s) in
           (tt, set_queue s q, queue_events s ev).

(** [ready_.apply(parsed)]. *)
Definition gate_apply (r : QueryResponse) : session bool :=
  fun s => let '(g, changed) := QueryParser.apply (gate_ s) r in (changed, set_gate s g, []).

(** The user callbacks, each behind its [if (on_..._)]. *)
Definition call_on_ready (b : bool) : session unit :=
  h <~ gets handlers ;; emit (if has_ready h then [SReady b] else []).

Definition call_on_push (c : Channel) (r : QueryResponse) (m : bytes) : session unit :=
  h <~ gets handlers ;; emit (if has_push h then [SPush c r m] else []).

Definition call_on_frame_error (c : Channel) (r : FeedResult) : session unit :=
  h <~ gets handlers ;; emit (if has_frame_error h then [SFrameError c r] else []).

Definition set_att_payload (n : nat) : session unit :=
  modify (fun s =>
    if (kMinAttPayload <=? n)%nat then
      mkBleSession (mkSessionConfig (keep_alive_interval_ms (cfg_ s)) n (queue_options (cfg_ s)))
        (handlers s) (rx_ s) (queue_ s) (gate_ s) (last_keep_alive_ms_ s) (keep_alive_started_ s)
    else s).

(** ** Receiving *)

(** The id a message is delivered under: the two-byte id when a command waits
    under it, else the one-byte id. *)
Definition message_id (s : BleSession) (channel : Channel) (message : bytes) : CorrelationId :=
  let id := correlation_of_message channel message in
  if (2 <=? length message)%nat then
    let wide := protobuf_correlation_of_message channel message in
    if is_in_flight (queue_ s) wide then wide else id
  else id.

Definition parsed_ok (res : QueryParseResult) : bool := bool_decide (res = kOk).

(** Folding a reply into the gate: the caller is told before the queue. *)
Definition fold_reply (message : bytes) (now_ms : Z) : session unit :=
  let '(res, parsed) := parse_query message in
  when (parsed_ok res) (
    was <~ gets session_ready ;;
    changed <~ gate_apply parsed ;;
    cur <~ gets session_ready ;;
    when changed (call_on_ready cur) ;;;
    when (negb (Bool.eqb cur was)) (queue_set_ready cur now_ms)).

(** Folding a push into the gate: the queue is told before the caller. *)
Definition fold_push (message : bytes) (now_ms : Z) : session unit :=
  let '(res, parsed) := parse_query message in
  when (parsed_ok res) (
    was <~ gets session_ready ;;
    changed <~ gate_apply parsed ;;
    cur <~ gets session_ready ;;
    if changed then
      queue_set_ready cur now_ms ;;;
      call_on_ready cur
    else when (negb (Bool.eqb cur was)) (queue_set_ready cur now_ms)).

Definition deliver (channel : Channel) (message : bytes) (now_ms : Z) : session unit :=
  id <~ gets (fun s => message_id s channel message) ;;
  handled <~ queue_on_response id message now_ms ;;
  if (handled : bool) then fold_reply message now_ms
  else
    fold_push message now_ms ;;;
    call_on_push channel (parse_query message).2 message.

(** [rx_[idx].feed(packet)], and [rx_[idx].take()]. *)
Definition rx_feed (idx : nat) (packet : bytes) : session FeedResult :=
  fun s =>
    let '(r, x) := BleProtocol.feed (nth idx (rx_ s) Reassembler_init) packet in
    (x, set_rx s (<[idx := r]> (rx_ s)), []).

Definition rx_take (idx : nat) : session bytes :=
  fun s =>
    let '(r, m) := BleProtocol.take (nth idx (rx_ s) Reassembler_init) in
    (m, set_rx s (<[idx := r]> (rx_ s)), []).

Definition feed (channel : Channel) (packet : bytes) (now_ms : Z) : session unit :=
  let idx := Z.to_nat channel in
  if (kChannelCount <=? idx)%nat then ret tt
  else
    result <~ rx_feed idx packet ;;
    match result with
    | kNeedMore => ret tt
    | kComplete => m <~ rx_take idx ;; deliver channel m now_ms
    | _ => call_on_frame_error channel result
    end.

(** ** Sending *)

Definition enqueue (id : CorrelationId) (payload : bytes) (p : Priority) (now_ms : Z) : session bool :=
  fun s => let '(q, b, ev) := CommandQueue.submit (queue_ s) id payload p (Some id) now_ms in
           (b, set_queue s q, queue_events s ev).

Definition submit (channel : Channel) (payload : bytes) (p : Priority) (now_ms : Z) : session bool :=
  match payload with
  | [] => ret false
  | b :: _ => enqueue (correlation_of channel b) payload p now_ms
  end.

Definition submit_protobuf (channel : Channel) (feature_id action_id : byte) (message : bytes)
    (p : Priority) (now_ms : Z) : session bool :=
  enqueue (correlation_of_protobuf channel feature_id action_id)
    (feature_id :: action_id :: message) p now_ms.

(** ** Time and teardown *)

Definition tick (now_ms : Z) : session unit :=
  queue_tick now_ms ;;;
  started <~ gets keep_alive_started_ ;;
  if negb started then modify (fun s => set_keep_alive s now_ms true)
  else
    last <~ gets last_keep_alive_ms_ ;;
    cfg <~ gets cfg_ ;;
    if u64_sub now_ms last <? keep_alive_interval_ms cfg then ret tt
    else
      modify (fun s => set_keep_alive s now_ms (keep_alive_started_ s)) ;;;
      _ <~ submit kSettings keep_alive_payload kKeepAlive now_ms ;;
      ret tt.

Definition on_disconnect : session unit :=
  modify (fun s => set_rx s (BleProtocol.reset <$> rx_ s)) ;;;
  queue_cancel_all ;;;
  was <~ gets session_ready ;;
  modify (fun s => set_gate s (ready_reset (gate_ s))) ;;;
  queue_set_ready false 0 ;;;
  when was (call_on_ready false) ;;;
  modify (fun s => set_keep_alive s (last_keep_alive_ms_ s) false).

(** ** Calls of the C ABI on one session *)

Inductive api_call :=
| Feed (channel : Channel) (packet : bytes) (now_ms : Z)
| SubmitCommand (channel : Channel) (payload : bytes) (p : Priority) (now_ms : Z)
| SubmitProtobuf (channel : Channel) (feature_id action_id : byte) (message : bytes)
    (p : Priority) (now_ms : Z)
| TickSession (now_ms : Z)
| SetAttPayload (n : nat)
| Disconnect.

Definition api (c : api_call) : session unit :=
  match c with
  | Feed ch p now => feed ch p now
  | SubmitCommand ch m p now => _ <~ submit ch m p now ;; ret tt
  | SubmitProtobuf ch f a m p now => _ <~ submit_protobuf ch f a m p now ;; ret tt
  | TickSession now => tick now
  | SetAttPayload n => set_att_payload n
  | Disconnect => on_disconnect
  end.

Definition api_ok (c : api_call) : Prop :=
  match c with
  | Feed ch p _ => channel_ok ch /\ bytes_ok p
  | SubmitCommand ch m _ _ => channel_ok ch /\ bytes_ok m
  | SubmitProtobuf ch f a m _ _ => channel_ok ch /\ byte_ok f /\ byte_ok a /\ bytes_ok m
  | _ => True
  end.

Fixpoint api_all (cs : list api_call) : session unit :=
  match cs with
  | [] => ret tt
  | c :: cs => api c ;;; api_all cs
  end.

(** ** What a session promises *)

(** An outstanding command carries the id its channel and payload determine,
    and its completion reports under that id. *)
Definition entry_of_session (e : Entry CorrelationId) : Prop :=
  done e = Some (CommandQueue.id e) /\
  exists c, channel_ok c /\
    match payload e with
    | b :: _ => CommandQueue.id e = correlation_of c b \/
        exists a m, payload e = b :: a :: m /\ CommandQueue.id e = correlation_of_protobuf c b a
    | [] => False
    end /\ bytes_ok (payload e).

Definition queue_part_ok (q : CommandQueue CorrelationId) : Prop :=
  queue_ok q /\ work_conserving q /\ Forall entry_of_session (in_flight_ q ++ pending_ q).

Record session_ok (s : BleSession) : Prop := {
  sok_rx_length : length (rx_ s) = kChannelCount;
  sok_rx : Forall reassembler_ok (rx_ s);
  sok_queue : queue_part_ok (queue_ s);
  sok_gate : CommandQueue.ready (queue_ s) = session_ready s;
}.

(** The gate after a message has been folded in. *)
Definition folded_gate (s : BleSession) (message : bytes) : ReadyState :=
  let '(res, parsed) := parse_query message in
  if parsed_ok res then (QueryParser.apply (gate_ s) parsed).1 else gate_ s.

Definition ready_event (s : BleSession) (b : bool) : list SEvent :=
  if has_ready (handlers s) then [SReady b] else [].

(** ** Correlation arithmetic *)

Lemma correlation_of_sum c b : byte_ok b -> correlation_of c b = 256 * c + b.
Proof. intros H. unfold correlation_of. rewrite lor_shiftl_add by (done || unfold byte_ok in H; lia). lia. Qed.

Lemma protobuf_response_action_sum a : byte_ok a -> protobuf_response_action a = 128 + a mod 128.
Proof.
  intros H. apply Z.eqb_eq.
  apply (forallb_below 256 (fun a => protobuf_response_action a =? 128 + a mod 128)); done.
Qed.

(** The wide layout, for any low byte. *)
Lemma wide_sum c f x :
  0 <= c < 256 -> byte_ok f -> byte_ok x ->
  Z.lor (Z.lor (Z.lor kProtobufCorrelationBit (Z.shiftl c 16)) (Z.shiftl f 8)) x =
  2 ^ 24 + 65536 * c + 256 * f + x.
Proof.
  intros Hc Hf Hx. unfold byte_ok in *. unfold kProtobufCorrelationBit.
  assert (Z.shiftl c 16 = c * 2 ^ 16) as Ec by (apply Z.shiftl_mul_pow2; lia).
  assert (Z.shiftl f 8 = f * 2 ^ 8) as Ef by (apply Z.shiftl_mul_pow2; lia).
  assert (1 * 2 ^ 24 + Z.shiftl c 16 = Z.shiftl (256 + c) 16) as E1
    by (rewrite !Z.shiftl_mul_pow2 by lia; lia).
  assert ((256 + c) * 2 ^ 16 + Z.shiftl f 8 = Z.shiftl ((256 + c) * 256 + f) 8) as E2
    by (rewrite !Z.shiftl_mul_pow2 by lia; lia).
  rewrite (lor_shiftl_add 1 _ 24), E1 by lia.
  rewrite (lor_shiftl_add (256 + c) _ 16), E2 by lia.
  rewrite lor_shiftl_add by lia. lia.
Qed.

Lemma correlation_of_protobuf_sum c f a :
  0 <= c < 256 -> byte_ok f -> byte_ok a ->
  correlation_of_protobuf c f a = 2 ^ 24 + 65536 * c + 256 * f + (128 + a mod 128).
Proof.
  intros Hc Hf Ha. unfold correlation_of_protobuf.
  rewrite (protobuf_response_action_sum a) by done. apply wide_sum; try done.
  unfold byte_ok in *; lia.
Qed.

Lemma land_protobuf_bit x :
  0 <= x -> (Z.land x kProtobufCorrelationBit =? 0) = ((x / 2 ^ 24) mod 2 =? 0).
Proof.
  intros Hx. change kProtobufCorrelationBit with (2 ^ 24).
  assert (Z.land x (2 ^ 24) = if Z.testbit x 24 then 2 ^ 24 else 0) as ->.
  { apply Z.bits_inj'. intros i Hi. rewrite Z.land_spec, Z.pow2_bits_eqb by lia.
    destruct (Z.eqb_spec 24 i) as [<-|Hne].
    - destruct (Z.testbit x 24); [by rewrite Z.pow2_bits_eqb | by rewrite Z.bits_0].
    - rewrite andb_false_r. destruct (Z.testbit x 24); [|by rewrite Z.bits_0].
      symmetry. by apply Z.pow2_bits_false. }
  destruct (Z.testbit x 24) eqn:E.
  - rewrite Z.testbit_true in E by lia. by rewrite E.
  - rewrite Z.testbit_false in E by lia. by rewrite E.
Qed.

Lemma channel_of_narrow c b : 0 <= c < 256 -> byte_ok b -> channel_of_correlation (256 * c + b) = c.
Proof.
  intros Hc Hb. unfold byte_ok in Hb. unfold channel_of_correlation.
  rewrite land_protobuf_bit by lia.
  assert ((256 * c + b) / 2 ^ 24 = 0) as -> by lia.
  change (negb (0 mod 2 =? 0)) with false. cbn iota.
  rewrite Z.shiftr_div_pow2, land_255 by lia. lia.
Qed.

Lemma channel_of_wide c f x :
  0 <= c < 256 -> byte_ok f -> byte_ok x ->
  channel_of_correlation (2 ^ 24 + 65536 * c + 256 * f + x) = c.
Proof.
  intros Hc Hf Hx. unfold byte_ok in *. unfold channel_of_correlation.
  rewrite land_protobuf_bit by lia.
  assert ((2 ^ 24 + 65536 * c + 256 * f + x) / 2 ^ 24 = 1) as -> by lia. cbn [negb].
  change (negb (1 mod 2 =? 0)) with true. cbn iota.
  rewrite Z.shiftr_div_pow2, land_255 by lia. lia.
Qed.


(** ** The steps of a session, as functions of its state *)

Lemma queue_events_app s ev1 ev2 :
  queue_events s (ev1 ++ ev2) = queue_events s ev1 ++ queue_events s ev2.
Proof. unfold queue_events. by rewrite fmap_app, concat_app. Qed.

(** One call into the queue. *)
Definition queue_exec (s : BleSession) (c : call CorrelationId) : BleSession * list SEvent :=
  let '(q, ev) := CommandQueue.exec (queue_ s) c in (set_queue s q, queue_events s ev).

Lemma queue_set_ready_exec b now s :
  queue_set_ready b now s = (tt, (queue_exec s (SetReady b now)).1, (queue_exec s (SetReady b now)).2).
Proof. unfold queue_set_ready, queue_exec; cbn. by destruct (CommandQueue.set_ready _ _ _). Qed.

Lemma queue_tick_exec now s :
  queue_tick now s = (tt, (queue_exec s (Tick now)).1, (queue_exec s (Tick now)).2).
Proof. unfold queue_tick, queue_exec; cbn. by destruct (CommandQueue.tick _ _). Qed.

Lemma queue_cancel_all_exec s :
  queue_cancel_all s = (tt, (queue_exec s CancelAll).1, (queue_exec s CancelAll).2).
Proof. done. Qed.

(** [on_response] says whether the id was in flight. *)
Lemma queue_on_response_exec id m now s :
  queue_on_response id m now s =
    (is_in_flight (queue_ s) id, (queue_exec s (OnResponse id m now)).1,
     (queue_exec s (OnResponse id m now)).2).
Proof.
  unfold queue_on_response, queue_exec; cbn. unfold CommandQueue.on_response.
  pose proof (extract_spec id (in_flight_ (queue_ s))) as Hx.
  destruct (is_in_flight (queue_ s) id) eqn:E.
  - apply is_in_flight_spec in E. destruct (extract id _) as [[e rest]|]; [|done].
    by destruct (pump _ now).
  - apply not_true_iff_false in E. rewrite is_in_flight_spec in E.
    destruct (extract id _) as [[e rest]|]; [|done].
    destruct Hx as (l1 & l2 & Hf & _ & <-). destruct E. rewrite Hf, fmap_app. set_solver.
Qed.

Lemma enqueue_exec id m p now s :
  enqueue id m p now s =
    (negb (is_duplicate (queue_ s) id), (queue_exec s (Submit id m p (Some id) now)).1,
     (queue_exec s (Submit id m p (Some id) now)).2).
Proof.
  unfold enqueue, queue_exec; cbn. unfold CommandQueue.submit.
  destruct (is_duplicate _ _); [done|]. by destruct (pump _ now).
Qed.

(** What a message does to the gate, in either branch of [deliver]: nothing,
    or the gate's new state is told to the queue. *)
Definition gate_flips (s : BleSession) (m : bytes) : bool :=
  negb (Bool.eqb (QueryParser.ready (folded_gate s m)) (session_ready s)).

Definition folded (s : BleSession) (m : bytes) : BleSession := set_gate s (folded_gate s m).

Lemma fold_reply_eq m now s :
  fold_reply m now s =
  if gate_flips s m then
    let b := QueryParser.ready (folded_gate s m) in
    (tt, (queue_exec (folded s m) (SetReady b now)).1,
     ready_event s b ++ (queue_exec (folded s m) (SetReady b now)).2)
  else (tt, folded s m, []).
Proof.
  unfold fold_reply, gate_flips, folded, folded_gate, ready_event.
  destruct (parse_query m) as [res parsed]. destruct (parsed_ok res).
  - unfold when, bind, gets, gate_apply, call_on_ready, emit, ret, session_ready.
    pose proof (apply_changed (gate_ s) parsed) as Hc.
    destruct (QueryParser.apply (gate_ s) parsed) as [g changed]; cbn in *. rewrite Hc.
    destruct (Bool.eqb _ _); cbn; [done|]. rewrite queue_set_ready_exec. done.
  - unfold session_ready. rewrite Bool.eqb_reflx. cbn. by destruct s.
Qed.

Lemma fold_push_eq m now s :
  fold_push m now s =
  if gate_flips s m then
    let b := QueryParser.ready (folded_gate s m) in
    (tt, (queue_exec (folded s m) (SetReady b now)).1,
     (queue_exec (folded s m) (SetReady b now)).2 ++ ready_event s b)
  else (tt, folded s m, []).
Proof.
  unfold fold_push, gate_flips, folded, folded_gate, ready_event.
  destruct (parse_query m) as [res parsed]. destruct (parsed_ok res).
  - unfold when, bind, gets, gate_apply, call_on_ready, emit, ret, session_ready.
    pose proof (apply_changed (gate_ s) parsed) as Hc.
    destruct (QueryParser.apply (gate_ s) parsed) as [g changed]; cbn in *. rewrite Hc.
    destruct (Bool.eqb _ _) eqn:E; cbn; [by rewrite ?E|]. rewrite queue_set_ready_exec.
    unfold queue_exec. by destruct (CommandQueue.exec _ _).
  - unfold session_ready. rewrite Bool.eqb_reflx. cbn. by destruct s.
Qed.

(** *** Delivering a message *)

Lemma message_id_queue s s' ch m :
  queue_ s' = queue_ s -> message_id s' ch m = message_id s ch m.
Proof. intros H. unfold message_id. by rewrite H. Qed.

(** The state in which a message is folded: the queue has seen it. *)
Definition after_reply (s : BleSession) (ch : Channel) (m : bytes) (now : Z) : BleSession :=
  (queue_exec s (OnResponse (message_id s ch m) m now)).1.

Definition answers (s : BleSession) (ch : Channel) (m : bytes) : bool :=
  is_in_flight (queue_ s) (message_id s ch m).

Definition push_event (s : BleSession) (ch : Channel) (m : bytes) : list SEvent :=
  if has_push (handlers s) then [SPush ch (parse_query m).2 m] else [].

(** What telling the queue about the gate does, if it has flipped. *)
Definition gate_told (s : BleSession) (m : bytes) (now : Z) : BleSession * list SEvent :=
  if gate_flips s m then queue_exec (folded s m) (SetReady (QueryParser.ready (folded_gate s m)) now)
  else (folded s m, []).

Definition flip_event (s : BleSession) (m : bytes) : list SEvent :=
  if gate_flips s m then ready_event s (QueryParser.ready (folded_gate s m)) else [].

Lemma on_response_unknown s id m now :
  is_in_flight (queue_ s) id = false -> CommandQueue.exec (queue_ s) (OnResponse id m now) = (queue_ s, []).
Proof.
  intros H. apply not_true_iff_false in H. rewrite is_in_flight_spec in H.
  cbn. unfold CommandQueue.on_response.
  pose proof (extract_spec id (in_flight_ (queue_ s))) as Hx.
  destruct (extract id _) as [[e rest]|]; [|done].
  destruct Hx as (l1 & l2 & Hf & _ & <-). destruct H. rewrite Hf, fmap_app. set_solver.
Qed.

(** [deliver] in one equation: the reply and the push branch. *)
Lemma deliver_eq ch m now s :
  deliver ch m now s =
  if answers s ch m then
    let s1 := after_reply s ch m now in
    (tt, (gate_told s1 m now).1,
     (queue_exec s (OnResponse (message_id s ch m) m now)).2 ++
     flip_event s m ++ (gate_told s1 m now).2)
  else
    (tt, (gate_told s m now).1, (gate_told s m now).2 ++ flip_event s m ++ push_event s ch m).
Proof.
  unfold deliver, bind, gets. rewrite queue_on_response_exec. fold (answers s ch m).
  destruct (answers s ch m) eqn:E; cbn [fst snd].
  - rewrite fold_reply_eq. fold (after_reply s ch m now). unfold gate_told, flip_event.
    assert (gate_ (after_reply s ch m now) = gate_ s) as Hg.
    { unfold after_reply, queue_exec. by destruct (CommandQueue.exec _ _). }
    assert (handlers (after_reply s ch m now) = handlers s) as Hh.
    { unfold after_reply, queue_exec. by destruct (CommandQueue.exec _ _). }
    replace (gate_flips s m) with (gate_flips (after_reply s ch m now) m)
      by (unfold gate_flips, folded_gate, session_ready; by rewrite Hg).
    replace (folded_gate s m) with (folded_gate (after_reply s ch m now) m)
      by (unfold folded_gate; by rewrite Hg).
    replace (ready_event s) with (ready_event (after_reply s ch m now))
      by (unfold ready_event; by rewrite Hh).
    destruct (gate_flips _ m); cbn; by rewrite ?app_nil_r.
  - unfold queue_exec. rewrite on_response_unknown by exact E. cbn [fst snd].
    replace (set_queue s (queue_ s)) with s by by destruct s.
    rewrite fold_push_eq. unfold gate_told, flip_event, call_on_push, bind, gets, emit, push_event.
    destruct (gate_flips s m); cbn -[CommandQueue.exec]; [|done]. unfold queue_exec.
    destruct (CommandQueue.exec _ _); cbn. by rewrite <- app_assoc.
Qed.

(** *** Feeding a packet *)

Definition frame_error_event (s : BleSession) (ch : Channel) (x : FeedResult) : list SEvent :=
  match x with
  | kNeedMore | kComplete => []
  | _ => if has_frame_error (handlers s) then [SFrameError ch x] else []
  end.

Definition rx_of (s : BleSession) (ch : Channel) : Reassembler :=
  nth (Z.to_nat ch) (rx_ s) Reassembler_init.

Definition with_rx (s : BleSession) (ch : Channel) (r : Reassembler) : BleSession :=
  set_rx s (<[Z.to_nat ch := r]> (rx_ s)).

Lemma nth_insert {A} (l : list A) i x d : (i < length l)%nat -> nth i (<[i := x]> l) d = x.
Proof. intros. rewrite nth_lookup, list_lookup_insert_eq by done. done. Qed.

Lemma nth_insert_ne {A} (l : list A) i j x d : i <> j -> nth j (<[i := x]> l) d = nth j l d.
Proof. intros. by rewrite !nth_lookup, list_lookup_insert_ne. Qed.

(** A packet goes to its channel's reassembler; what that completes is
    delivered. *)
Lemma feed_eq ch p now s :
  length (rx_ s) = kChannelCount -> channel_ok ch ->
  feed ch p now s =
  let '(r, o) := receive (rx_of s ch) p in
  match o with
  | Some m => deliver ch m now (with_rx s ch r)
  | None => (tt, with_rx s ch r, frame_error_event s ch (BleProtocol.feed (rx_of s ch) p).2)
  end.
Proof.
  intros Hl Hc. unfold feed. unfold channel_ok, kChannelCount in *.
  destruct (_ <=? _)%nat eqn:E; to_prop; [lia|].
  unfold bind, rx_feed, receive. fold (rx_of s ch).
  destruct (BleProtocol.feed (rx_of s ch) p) as [r x]. cbn [snd].
  destruct x; cbn -[take deliver set_rx];
    unfold bind, gets, emit, rx_take, call_on_frame_error, frame_error_event, with_rx; try done.
  change (rx_ (set_rx s ?l)) with l. rewrite nth_insert by lia.
  destruct (take r) as [r' m]. rewrite list_insert_insert_eq.
  change (set_rx (set_rx s _) ?l) with (set_rx s l).
  by destruct (deliver ch m now _) as [[[] ?] ?].
Qed.

(** *** What a call hands to the queue *)

Definition keep_alive_id : CorrelationId := correlation_of kSettings kLedSettingId.

Definition keep_alive_due (s : BleSession) (now : Z) : bool :=
  keep_alive_started_ s &&
  (keep_alive_interval_ms (cfg_ s) <=? u64_sub now (last_keep_alive_ms_ s)).

Definition queue_submit (id : CorrelationId) (m : bytes) (p : Priority) (now : Z) : call CorrelationId :=
  Submit id m p (Some id) now.

Definition deliver_calls (s : BleSession) (ch : Channel) (m : bytes) (now : Z)
    : list (call CorrelationId) :=
  OnResponse (message_id s ch m) m now ::
  if gate_flips s m then [SetReady (QueryParser.ready (folded_gate s m)) now] else [].

(** The queue's side of an API call, as a sequence of its own calls. *)
Definition queue_calls (s : BleSession) (c : api_call) : list (call CorrelationId) :=
  match c with
  | Feed ch p now =>
      match (receive (rx_of s ch) p).2 with
      | Some m => deliver_calls s ch m now
      | None => []
      end
  | SubmitCommand ch m p now =>
      match m with [] => [] | b :: _ => [queue_submit (correlation_of ch b) m p now] end
  | SubmitProtobuf ch f a m p now =>
      [queue_submit (correlation_of_protobuf ch f a) (f :: a :: m) p now]
  | TickSession now =>
      Tick now ::
      (if keep_alive_due s now then [queue_submit keep_alive_id keep_alive_payload kKeepAlive now] else [])
  | SetAttPayload _ => []
  | Disconnect => [CancelAll; SetReady false 0]
  end.

Definition is_queue_event (e : SEvent) : bool :=
  match e with SWrite _ _ | SResponse _ _ _ => true | _ => false end.

(** The part of a session's callbacks that the queue causes. *)
Definition queue_part (ev : list SEvent) : list SEvent := List.filter is_queue_event ev.

Lemma queue_part_app ev1 ev2 : queue_part (ev1 ++ ev2) = queue_part ev1 ++ queue_part ev2.
Proof. apply List.filter_app. Qed.

Lemma queue_part_events s ev : queue_part (queue_events s ev) = queue_events s ev.
Proof.
  induction ev as [|e ev IH]; [done|].
  change (queue_events s (e :: ev)) with (queue_event s e ++ queue_events s ev).
  rewrite queue_part_app, IH. f_equal.
  destruct e; cbn; [|by destruct (has_response _)]. unfold write_packets.
  destruct (has_write _); [|done]. by induction (fragment _ _) as [|p l IHl]; cbn; [|rewrite <- IHl at 2].
Qed.

Lemma queue_part_other e : is_queue_event e = false -> queue_part [e] = [].
Proof. intros H. cbn. by rewrite H. Qed.

(** A session step: its queue runs [qs], and its queue events are theirs. *)
Record does (s s' : BleSession) (ev : list SEvent) (qs : list (call CorrelationId)) : Prop := {
  does_queue : queue_ s' = (run (queue_ s) qs).1;
  does_events : queue_part ev = queue_events s (run (queue_ s) qs).2;
  does_handlers : handlers s' = handlers s;
}.

Lemma does_nothing s s' ev :
  queue_ s' = queue_ s -> queue_part ev = [] -> handlers s' = handlers s -> does s s' ev [].
Proof. by split. Qed.

Lemma queue_exec_does s c : does s (queue_exec s c).1 (queue_exec s c).2 [c].
Proof.
  unfold queue_exec. destruct (CommandQueue.exec (queue_ s) c) as [q ev] eqn:E.
  split; cbn -[CommandQueue.exec]; rewrite ?E; cbn; try done.
  by rewrite app_nil_r, queue_part_events.
Qed.

Lemma does_app s s1 s2 ev1 ev2 qs1 qs2 :
  does s s1 ev1 qs1 -> cfg_ s1 = cfg_ s -> does s1 s2 ev2 qs2 ->
  does s s2 (ev1 ++ ev2) (qs1 ++ qs2).
Proof.
  intros [H1 H2 H3] Hcfg [G1 G2 G3].
  assert (forall q, (run q (qs1 ++ qs2)).1 = (run (run q qs1).1 qs2).1 /\
    (run q (qs1 ++ qs2)).2 = (run q qs1).2 ++ (run (run q qs1).1 qs2).2) as Hrun.
  { clear. induction qs1 as [|c qs1 IH]; intros q; cbn.
    { by destruct (run q qs2). }
    destruct (CommandQueue.exec q c) as [q1 e1]. destruct (IH q1) as [I1 I2].
    destruct (run q1 (qs1 ++ qs2)), (run q1 qs1). cbn in *. subst.
    by rewrite app_assoc. }
  destruct (Hrun (queue_ s)) as [R1 R2]. split.
  - by rewrite R1, G1, H1.
  - rewrite queue_part_app, R2, queue_events_app, H2, G2, H1. f_equal.
    unfold queue_events. f_equal. apply list_fmap_ext. intros _ [] _; cbn; unfold write_packets;
    by rewrite H3, ?Hcfg.
  - by rewrite G3.
Qed.

Lemma queue_exec_frame s c :
  cfg_ (queue_exec s c).1 = cfg_ s /\ handlers (queue_exec s c).1 = handlers s /\
  rx_ (queue_exec s c).1 = rx_ s /\ gate_ (queue_exec s c).1 = gate_ s /\
  last_keep_alive_ms_ (queue_exec s c).1 = last_keep_alive_ms_ s /\
  keep_alive_started_ (queue_exec s c).1 = keep_alive_started_ s.
Proof. unfold queue_exec. by destruct (CommandQueue.exec _ _). Qed.

Lemma ready_event_quiet s b : queue_part (ready_event s b) = [].
Proof. unfold ready_event. by destruct (has_ready _). Qed.

Lemma flip_event_quiet s m : queue_part (flip_event s m) = [].
Proof. unfold flip_event. destruct (gate_flips _ _); [apply ready_event_quiet | done]. Qed.

Lemma push_event_quiet s ch m : queue_part (push_event s ch m) = [].
Proof. unfold push_event. by destruct (has_push _). Qed.

Lemma frame_error_quiet s ch x : queue_part (frame_error_event s ch x) = [].
Proof. unfold frame_error_event. destruct x; try done; by destruct (has_frame_error _). Qed.

(** Events that are not the queue's may be put around a step. *)
Lemma does_quiet s s' ev ev1 ev2 qs :
  queue_part ev1 = [] -> queue_part ev2 = [] -> does s s' ev qs -> does s s' (ev1 ++ ev ++ ev2) qs.
Proof. intros H1 H2 [? G ?]. split; [done| |done]. by rewrite !queue_part_app, H1, H2, app_nil_r. Qed.

Lemma gate_told_does s m now :
  does s (gate_told s m now).1 (gate_told s m now).2
    (if gate_flips s m then [SetReady (QueryParser.ready (folded_gate s m)) now] else []).
Proof.
  unfold gate_told. destruct (gate_flips s m); [|by apply does_nothing].
  eapply (does_app s (folded s m) _ [] _ [] _); [by apply does_nothing | done | apply queue_exec_does].
Qed.

Lemma gate_flips_same s s' m : gate_ s' = gate_ s -> gate_flips s' m = gate_flips s m.
Proof. intros H. unfold gate_flips, folded_gate, session_ready. by rewrite H. Qed.

Lemma folded_gate_same s s' m : gate_ s' = gate_ s -> folded_gate s' m = folded_gate s m.
Proof. intros H. unfold folded_gate. by rewrite H. Qed.

Lemma deliver_does ch m now s :
  does s (run_state (deliver ch m now) s) (run_events (deliver ch m now) s) (deliver_calls s ch m now).
Proof.
  unfold run_state, run_events. rewrite deliver_eq.
  set (c := OnResponse (message_id s ch m) m now).
  destruct (queue_exec_frame s c) as (Hcfg & _ & _ & Hg & _).
  assert (does s (queue_exec s c).1 (queue_exec s c).2 [c]) as H1 by apply queue_exec_does.
  unfold deliver_calls. fold c.
  destruct (answers s ch m) eqn:E; cbn -[queue_exec].
  - pose proof (gate_told_does (after_reply s ch m now) m now) as H2.
    unfold after_reply in *. fold c in H2 |- *.
    rewrite (gate_flips_same s), (folded_gate_same s) in H2 by done.
    eapply (does_app _ _ _ _ _ [c] _ H1 Hcfg).
    apply (does_quiet _ _ _ _ [] _ (flip_event_quiet s m) eq_refl) in H2.
    by rewrite app_nil_r in H2.
  - assert (does s s [] [c]) as H0.
    { unfold queue_exec in H1. unfold c in H1 at 1 2. rewrite on_response_unknown in H1 by done.
      replace (set_queue s (queue_ s)) with s in H1 by by destruct s. done. }
    eapply (does_app _ _ _ [] _ [c] _ H0 eq_refl).
    apply (does_quiet _ _ _ [] (flip_event s m ++ push_event s ch m) _ eq_refl).
    { by rewrite queue_part_app, flip_event_quiet, push_event_quiet. }
    apply gate_told_does.
Qed.

Lemma enqueue_eq id m p now s :
  (id0 <~ enqueue id m p now ;; ret tt) s =
    (tt, (queue_exec s (queue_submit id m p now)).1, (queue_exec s (queue_submit id m p now)).2).
Proof. unfold bind. rewrite enqueue_exec. cbn -[queue_exec]. by rewrite app_nil_r. Qed.

Definition anchored (s : BleSession) (now : Z) : BleSession :=
  set_keep_alive s now true.

Lemma tick_eq now s :
  tick now s =
  let '(s1, ev1) := queue_exec s (Tick now) in
  if negb (keep_alive_started_ s) then (tt, anchored s1 now, ev1)
  else if keep_alive_due s now then
    let '(s2, ev2) := queue_exec (anchored s1 now)
                        (queue_submit keep_alive_id keep_alive_payload kKeepAlive now) in
    (tt, s2, ev1 ++ ev2)
  else (tt, s1, ev1).
Proof.
  unfold tick, bind. rewrite queue_tick_exec.
  destruct (queue_exec_frame s (Tick now)) as (Hcfg & _ & _ & _ & Hl & Hs).
  destruct (queue_exec s (Tick now)) as [s1 ev1]. cbn [fst snd] in *.
  unfold keep_alive_due, gets, modify. rewrite <- Hcfg, <- Hl, <- Hs.
  destruct (keep_alive_started_ s1) eqn:E; cbn [negb andb]; cbn -[queue_exec u64_sub enqueue].
  2: by rewrite app_nil_r.
  rewrite Z.ltb_antisym. destruct (_ <=? _); cbn -[queue_exec enqueue].
  2: by rewrite app_nil_r.
  rewrite enqueue_exec. fold keep_alive_id. unfold anchored, queue_submit. rewrite E.
  destruct (queue_exec _ _). cbn. by rewrite app_nil_r.
Qed.

Lemma on_disconnect_eq s :
  on_disconnect s =
  let s1 := (queue_exec (set_rx s (replicate (length (rx_ s)) Reassembler_init)) CancelAll).1 in
  (tt, set_keep_alive (queue_exec (set_gate s1 ReadyState_init) (SetReady false 0)).1
         (last_keep_alive_ms_ s) false,
   queue_events s (complete_all kCanceled (in_flight_ (queue_ s) ++ pending_ (queue_ s))) ++
   (if session_ready s then ready_event s false else [])).
Proof.
  unfold on_disconnect, bind, gets, modify.
  replace (reset <$> rx_ s) with (replicate (length (rx_ s)) Reassembler_init).
  2: { induction (rx_ s) as [|r l IH]; cbn; [done|]. by rewrite IH. }
  cbn. unfold session_ready, ready_event, when, call_on_ready, bind, gets, emit, ret; cbn.
  destruct (QueryParser.ready (gate_ s)); cbn; [|by rewrite ?app_nil_r].
  by destruct (has_ready (handlers s)); cbn; rewrite ?app_nil_r.
Qed.

Lemma tick_does now s : does s (run_state (tick now) s) (run_events (tick now) s) (queue_calls s (TickSession now)).
Proof.
  unfold run_state, run_events. rewrite tick_eq.
  pose proof (queue_exec_does s (Tick now)) as H1.
  destruct (queue_exec_frame s (Tick now)) as (Hcfg & _).
  cbn [queue_calls]. unfold keep_alive_due.
  destruct (queue_exec s (Tick now)) as [s1 ev1]. cbn [fst snd] in *.
  destruct (keep_alive_started_ s); cbn [negb andb].
  2: { cbn. destruct H1. by split. }
  destruct (_ <=? _); [|done].
  match goal with |- context [queue_exec ?s ?c] =>
    pose proof (queue_exec_does s c) as H2; destruct (queue_exec s c) as [s2 ev2] end.
  cbn [fst snd] in *. eapply (does_app _ _ _ _ _ [Tick now] [_] H1 Hcfg).
  destruct H2. by split.
Qed.

Lemma on_disconnect_does s :
  does s (run_state on_disconnect s) (run_events on_disconnect s) (queue_calls s Disconnect).
Proof.
  unfold run_state, run_events. rewrite on_disconnect_eq. split; cbn; [done| |done].
  rewrite queue_part_app, app_nil_r, queue_part_events.
  destruct (session_ready s); [by rewrite ready_event_quiet, app_nil_r | by rewrite app_nil_r].
Qed.

(** Every API call is the run of its [queue_calls]. *)
Lemma api_does c s :
  length (rx_ s) = kChannelCount -> api_ok c ->
  does s (run_state (api c) s) (run_events (api c) s) (queue_calls s c).
Proof.
  intros Hl Hok.
  destruct c as [ch p now|ch m p now|ch f a m p now|now|n|]; cbn [api queue_calls].
  - destruct Hok as [Hch _]. unfold run_state, run_events. rewrite feed_eq by done.
    destruct (receive (rx_of s ch) p) as [r [m|]]; cbn [snd].
    + eapply (does_app s (with_rx s ch r) _ [] _ [] _); [by apply does_nothing|done|].
      apply (deliver_does ch m now (with_rx s ch r)).
    + cbn. apply does_nothing; [done|apply frame_error_quiet|done].
  - unfold submit. destruct m as [|b m]; [by apply does_nothing|].
    unfold run_state, run_events. rewrite enqueue_eq. apply queue_exec_does.
  - unfold submit_protobuf, run_state, run_events. rewrite enqueue_eq. apply queue_exec_does.
  - apply tick_does.
  - unfold set_att_payload, run_state, run_events, modify.
    destruct (_ <=? n)%nat; by apply does_nothing.
  - apply on_disconnect_does.
Qed.

(** *** The reassemblers *)

Definition rx_after (s : BleSession) (c : api_call) : list Reassembler :=
  match c with
  | Feed ch p _ => <[Z.to_nat ch := (receive (rx_of s ch) p).1]> (rx_ s)
  | Disconnect => replicate (length (rx_ s)) Reassembler_init
  | _ => rx_ s
  end.

Lemma gate_told_frame s m now :
  rx_ (gate_told s m now).1 = rx_ s /\ gate_ (gate_told s m now).1 = folded_gate s m /\
  handlers (gate_told s m now).1 = handlers s.
Proof.
  unfold gate_told. destruct (gate_flips s m); [|done].
  destruct (queue_exec_frame (folded s m) (SetReady (QueryParser.ready (folded_gate s m)) now))
    as (_ & -> & -> & -> & _). done.
Qed.

Lemma deliver_frame ch m now s :
  rx_ (run_state (deliver ch m now) s) = rx_ s /\
  gate_ (run_state (deliver ch m now) s) = folded_gate s m.
Proof.
  unfold run_state. rewrite deliver_eq. destruct (answers s ch m); cbn -[queue_exec].
  - destruct (gate_told_frame (after_reply s ch m now) m now) as (-> & -> & _). unfold after_reply.
    destruct (queue_exec_frame s (OnResponse (message_id s ch m) m now)) as (_ & _ & -> & Hg & _).
    split; [done | by apply folded_gate_same].
  - by destruct (gate_told_frame s m now) as (-> & -> & _).
Qed.

Lemma api_rx c s :
  length (rx_ s) = kChannelCount -> api_ok c -> rx_ (run_state (api c) s) = rx_after s c.
Proof.
  intros Hl Hok. destruct c as [ch p now|ch m p now|ch f a m p now|now|n|]; cbn [api rx_after].
  - destruct Hok as [Hch _]. unfold run_state. rewrite feed_eq by done.
    destruct (receive (rx_of s ch) p) as [r [m|]]; cbn [fst]; [|done].
    apply (deliver_frame ch m now (with_rx s ch r)).
  - unfold submit. destruct m as [|b m]; [done|]. unfold run_state. rewrite enqueue_eq.
    by destruct (queue_exec_frame s (queue_submit (correlation_of ch b) (b :: m) p now)) as (_ & _ & ? & _).
  - unfold submit_protobuf, run_state. rewrite enqueue_eq.
    by destruct (queue_exec_frame s (queue_submit (correlation_of_protobuf ch f a) (f :: a :: m) p now))
      as (_ & _ & ? & _).
  - unfold run_state. rewrite tick_eq.
    destruct (queue_exec_frame s (Tick now)) as (_ & _ & Hr & _).
    destruct (queue_exec s (Tick now)) as [s1 ev1]. cbn [fst] in Hr.
    destruct (negb _); [done|]. destruct (keep_alive_due s now); [|done].
    destruct (queue_exec_frame (anchored s1 now) (queue_submit keep_alive_id keep_alive_payload kKeepAlive now))
      as (_ & _ & Hr2 & _). destruct (queue_exec _ _). cbn in *. by rewrite Hr2.
  - unfold set_att_payload, run_state, modify. by destruct (_ <=? n)%nat.
  - unfold run_state. by rewrite on_disconnect_eq.
Qed.

(** *** The invariant *)

Lemma receive_ok r p : bytes_ok p -> reassembler_ok r ->
  reassembler_ok (receive r p).1 /\ (forall m, (receive r p).2 = Some m -> bytes_ok m).
Proof.
  intros Hp Hr. pose proof (feed_ok r p Hp Hr) as H. unfold receive.
  destruct (BleProtocol.feed r p) as [r1 x]. cbn in *.
  destruct x; cbn; try done. split; [apply reassembler_ok_init|]. intros m [= <-]. apply H.
Qed.

Lemma submitted_entry_ok id m p now :
  (exists c, channel_ok c /\
    match m with
    | b :: _ => id = correlation_of c b \/
        exists a m', m = b :: a :: m' /\ id = correlation_of_protobuf c b a
    | [] => False
    end /\ bytes_ok m) ->
  entry_of_session (mkEntry id m p (Some id) now 0).
Proof. by split. Qed.

Lemma run_Forall (P : Entry CorrelationId -> Prop) cs : forall q,
  (forall now e, P e -> P (stamp now e)) ->
  Forall (fun c => match c with Submit i data p d now => P (mkEntry i data p d now 0) | _ => True end) cs ->
  Forall P (in_flight_ q ++ pending_ q) ->
  Forall P (in_flight_ (run q cs).1 ++ pending_ (run q cs).1).
Proof.
  induction cs as [|c cs IH]; intros q Hst Hcs Hq; [done|].
  apply Forall_cons in Hcs as [Hc Hcs]. cbn [run].
  pose proof (exec_Forall P q c Hst Hc Hq) as H. destruct (CommandQueue.exec q c) as [q1 ev1].
  specialize (IH q1 Hst Hcs H). by destruct (run q1 cs).
Qed.

Lemma keep_alive_entry_ok now : entry_of_session (mkEntry keep_alive_id keep_alive_payload kKeepAlive (Some keep_alive_id) now 0).
Proof.
  apply submitted_entry_ok. exists kSettings. split_and!; [done|by left|].
  repeat constructor; unfold byte_ok; done.
Qed.

Lemma queue_calls_ok s c :
  api_ok c ->
  Forall (fun c => match c with
                   | Submit i data p d now => entry_of_session (mkEntry i data p d now 0)
                   | _ => True end) (queue_calls s c).
Proof.
  intros Hok. destruct c as [ch p now|ch m p now|ch f a m p now|now|n|]; cbn [queue_calls].
  - destruct (receive _ _).2; [|constructor]. unfold deliver_calls.
    repeat constructor. destruct (gate_flips _ _); by repeat constructor.
  - destruct m as [|b m]; [constructor|]. destruct Hok. repeat apply Forall_cons_2; [|constructor].
    apply submitted_entry_ok. exists ch. split_and!; [done|by left|done].
  - destruct Hok as (Hc & Hf & Ha & Hm). repeat apply Forall_cons_2; [|constructor].
    apply submitted_entry_ok. exists ch. split_and!; [done| |by repeat apply Forall_cons_2].
    right. exists a, m. done.
  - constructor; [done|]. destruct (keep_alive_due s now); [|constructor].
    apply Forall_cons_2; [apply keep_alive_entry_ok|constructor].
  - constructor.
  - by repeat constructor.
Qed.

Lemma queue_part_preserved s c :
  length (rx_ s) = kChannelCount -> api_ok c -> queue_part_ok (queue_ s) ->
  queue_part_ok (queue_ (run_state (api c) s)).
Proof.
  intros Hl Hok (H1 & H2 & H3). destruct (api_does c s Hl Hok) as [-> _ _].
  destruct (run_invariant (queue_calls s c) (queue_ s) H1 H2) as [H4 H5].
  split_and!; [done..|]. apply run_Forall; [|by apply queue_calls_ok|done].
  intros now e [He (ch & Hch)]. split; [done|]. by exists ch.
Qed.

Lemma run_ready {C} (q : CommandQueue C) cs :
  CommandQueue.ready (run q cs).1 =
  foldl (fun b c => match c with SetReady b' _ => b' | _ => b end) (CommandQueue.ready q) cs.
Proof.
  revert q. induction cs as [|c cs IH]; intros q; cbn [run]; [done|].
  pose proof (exec_ready q c) as H. destruct (CommandQueue.exec q c) as [q1 ev1].
  specialize (IH q1). destruct (run q1 cs). cbn in *. by rewrite IH, H.
Qed.

(** What a call does to the gate. *)
Definition gate_after (s : BleSession) (c : api_call) : ReadyState :=
  match c with
  | Feed ch p _ =>
      match (receive (rx_of s ch) p).2 with Some m => folded_gate s m | None => gate_ s end
  | Disconnect => ReadyState_init
  | _ => gate_ s
  end.

Lemma api_gate c s :
  length (rx_ s) = kChannelCount -> api_ok c -> gate_ (run_state (api c) s) = gate_after s c.
Proof.
  intros Hl Hok. destruct c as [ch p now|ch m p now|ch f a m p now|now|n|]; cbn [api gate_after].
  - destruct Hok as [Hch _]. unfold run_state. rewrite feed_eq by done.
    destruct (receive (rx_of s ch) p) as [r [m|]]; cbn [fst snd]; [|done].
    apply (deliver_frame ch m now (with_rx s ch r)).
  - unfold submit. destruct m as [|b m]; [done|]. unfold run_state. rewrite enqueue_eq.
    apply queue_exec_frame.
  - unfold submit_protobuf, run_state. rewrite enqueue_eq. apply queue_exec_frame.
  - unfold run_state. rewrite tick_eq.
    destruct (queue_exec_frame s (Tick now)) as (_ & _ & _ & Hr & _).
    destruct (queue_exec s (Tick now)) as [s1 ev1]. cbn [fst] in Hr.
    destruct (negb _); [done|]. destruct (keep_alive_due s now); [|done].
    destruct (queue_exec_frame (anchored s1 now) (queue_submit keep_alive_id keep_alive_payload kKeepAlive now))
      as (_ & _ & _ & Hr2 & _). destruct (queue_exec _ _). cbn in *. by rewrite Hr2.
  - unfold set_att_payload, run_state, modify. by destruct (_ <=? n)%nat.
  - unfold run_state. by rewrite on_disconnect_eq.
Qed.

Lemma gate_coherent s c :
  length (rx_ s) = kChannelCount -> api_ok c -> CommandQueue.ready (queue_ s) = session_ready s ->
  CommandQueue.ready (queue_ (run_state (api c) s)) = session_ready (run_state (api c) s).
Proof.
  intros Hl Hok Hc. destruct (api_does c s Hl Hok) as [-> _ _].
  unfold session_ready at 1. rewrite api_gate, run_ready, Hc by done.
  destruct c as [ch p now|ch [|b m] p now|ch f a m p now|now|n|]; cbn; try done.
  - destruct (receive _ _).2 as [m|]; [|done]. unfold deliver_calls, gate_flips.
    destruct (Bool.eqb _ _) eqn:E; cbn; [|done]. by apply eqb_prop in E.
  - by destruct (keep_alive_due _ _).
Qed.

Lemma api_session_ok c s : api_ok c -> session_ok s -> session_ok (run_state (api c) s).
Proof.
  intros Hok [Hl Hr Hq Hg]. split.
  - rewrite api_rx by done. destruct c; cbn; try done; [by rewrite length_insert|by rewrite length_replicate].
  - rewrite api_rx by done. destruct c as [ch p now| | | | |]; cbn; try done.
    + apply Forall_insert; [done|]. destruct Hok as [_ Hp]. apply receive_ok; [done|].
      unfold rx_of. destruct (nth_in_or_default (Z.to_nat ch) (rx_ s) Reassembler_init) as [Hin| ->].
      * rewrite Forall_forall in Hr. by apply Hr, list_elem_of_In.
      * apply reassembler_ok_init.
    + apply Forall_replicate, reassembler_ok_init.
  - by apply queue_part_preserved.
  - by apply gate_coherent.
Qed.

Lemma init_session_ok h cfg : session_ok (BleSession_init h cfg).
Proof.
  split; [done| | |done].
  - repeat constructor; try apply reassembler_ok_init.
  - split_and!; [apply init_ok|apply init_conserving|constructor].
Qed.

(** ** Observations on a session's callbacks *)

Definition responses (ev : list SEvent) : list (CorrelationId * Outcome * bytes) :=
  omap (fun e => match e with SResponse i o p => Some (i, o, p) | _ => None end) ev.

Definition pushes (ev : list SEvent) : list (Channel * QueryResponse * bytes) :=
  omap (fun e => match e with SPush c r m => Some (c, r, m) | _ => None end) ev.

Definition readies (ev : list SEvent) : list bool :=
  omap (fun e => match e with SReady b => Some b | _ => None end) ev.

Definition writes (ev : list SEvent) : list (Channel * bytes) :=
  omap (fun e => match e with SWrite c p => Some (c, p) | _ => None end) ev.

Definition outstanding (s : BleSession) : list (Entry CorrelationId) :=
  in_flight_ (queue_ s) ++ pending_ (queue_ s).

(** The ids of the commands a call hands to the queue. *)
Definition submitted (s : BleSession) (c : api_call) : list CorrelationId :=
  omap handed (queue_calls s c).

Fixpoint submitted_all (s : BleSession) (cs : list api_call) : list CorrelationId :=
  match cs with
  | [] => []
  | c :: cs => submitted s c ++ submitted_all (run_state (api c) s) cs
  end.

Lemma responses_queue_part ev : responses (queue_part ev) = responses ev.
Proof.
  unfold responses, queue_part. induction ev as [|e ev IH]; [done|].
  destruct e; cbn; by rewrite ?IH.
Qed.

Lemma writes_queue_part ev : writes (queue_part ev) = writes ev.
Proof.
  unfold writes, queue_part. induction ev as [|e ev IH]; [done|].
  destruct e; cbn; by rewrite ?IH.
Qed.

Lemma responses_app ev1 ev2 : responses (ev1 ++ ev2) = responses ev1 ++ responses ev2.
Proof. apply omap_app. Qed.

Lemma writes_app ev1 ev2 : writes (ev1 ++ ev2) = writes ev1 ++ writes ev2.
Proof. apply omap_app. Qed.

Lemma pushes_app ev1 ev2 : pushes (ev1 ++ ev2) = pushes ev1 ++ pushes ev2.
Proof. apply omap_app. Qed.

Lemma readies_app ev1 ev2 : readies (ev1 ++ ev2) = readies ev1 ++ readies ev2.
Proof. apply omap_app. Qed.

Lemma writes_on c ps : writes (SWrite c <$> ps) = pair c <$> ps.
Proof. induction ps as [|p ps IH]; [done|]. cbn. by rewrite <- IH. Qed.

Lemma responses_write_packets s i m : responses (write_packets s i m) = [].
Proof. unfold write_packets. destruct (has_write _); [|done]. by induction (fragment _ _). Qed.

(** What the session observes of a queue event. *)
Lemma responses_queue_events s ev :
  has_response (handlers s) = true ->
  responses (queue_events s ev) =
    omap (fun e => match e with Completed i o p => Some (i, o, p) | _ => None end) ev.
Proof.
  intros H. induction ev as [|e ev IH]; [done|].
  change (queue_events s (e :: ev)) with (queue_event s e ++ queue_events s ev).
  rewrite responses_app, IH. destruct e; cbn; [by rewrite responses_write_packets|].
  by rewrite H.
Qed.

Lemma writes_queue_events s ev :
  has_write (handlers s) = true ->
  writes (queue_events s ev) =
    concat ((fun w => pair (channel_of_correlation w.1) <$> fragment w.2 (att_payload (cfg_ s)))
              <$> written ev).
Proof.
  intros H. induction ev as [|e ev IH]; [done|].
  change (queue_events s (e :: ev)) with (queue_event s e ++ queue_events s ev).
  rewrite writes_app, IH. destruct e; cbn.
  - unfold write_packets. by rewrite H, writes_on.
  - by destruct (has_response _).
Qed.

Lemma completed_reported (ev : list (QEvent CorrelationId)) :
  (fun r => r.1.1) <$>
    omap (fun e => match e with Completed i o p => Some (i, o, p) | _ => None end) ev
  = completed ev.
Proof. unfold completed. induction ev as [|[] ev IH]; cbn; [done..|]. by f_equal. Qed.

Lemma outstanding_owed s : queue_part_ok (queue_ s) -> owed (queue_ s) = CommandQueue.id <$> outstanding s.
Proof.
  intros (_ & _ & H). unfold owed, outstanding.
  induction H as [|e l [He _] Hl IH]; cbn; [done|]. by rewrite He, IH.
Qed.

Lemma api_handlers c s : length (rx_ s) = kChannelCount -> api_ok c ->
  handlers (run_state (api c) s) = handlers s.
Proof. intros. by destruct (api_does c s). Qed.

(** One call's share of the account. *)
Lemma api_account c s :
  api_ok c -> session_ok s -> has_response (handlers s) = true ->
  ((fun r => r.1.1) <$> responses (run_events (api c) s)) ++
    (CommandQueue.id <$> outstanding (run_state (api c) s)) ≡ₚ
  submitted s c ++ (CommandQueue.id <$> outstanding s).
Proof.
  intros Hok Hs Hr. pose proof (api_session_ok c s Hok Hs) as Hs'.
  destruct (api_does c s (sok_rx_length s Hs) Hok) as [Hq He _].
  rewrite <- responses_queue_part, He, responses_queue_events, completed_reported by done.
  rewrite <- !outstanding_owed by (apply sok_queue; assumption). rewrite Hq. apply run_owed.
Qed.

Lemma api_all_cons c cs s :
  run_state (api_all (c :: cs)) s = run_state (api_all cs) (run_state (api c) s) /\
  run_events (api_all (c :: cs)) s =
    run_events (api c) s ++ run_events (api_all cs) (run_state (api c) s).
Proof.
  cbn [api_all]. unfold bind, run_state, run_events.
  destruct (api c s) as [[u s1] e1]. cbn. by destruct (api_all cs s1) as [[[] ?] ?].
Qed.

Lemma api_all_app cs cs' s :
  run_state (api_all (cs ++ cs')) s = run_state (api_all cs') (run_state (api_all cs) s) /\
  run_events (api_all (cs ++ cs')) s =
    run_events (api_all cs) s ++ run_events (api_all cs') (run_state (api_all cs) s).
Proof.
  revert s. induction cs as [|c cs IH]; intros s; [done|]. cbn [app].
  destruct (api_all_cons c (cs ++ cs') s) as [-> ->]. destruct (api_all_cons c cs s) as [-> ->].
  destruct (IH (run_state (api c) s)) as [-> ->]. by rewrite app_assoc.
Qed.

Lemma api_all_session_ok cs : forall s,
  Forall api_ok cs -> session_ok s -> session_ok (run_state (api_all cs) s).
Proof.
  induction cs as [|c cs IH]; intros s Hok Hs; [done|].
  apply Forall_cons in Hok as [Hc Hok]. destruct (api_all_cons c cs s) as [-> _].
  apply IH; [done|]. by apply api_session_ok.
Qed.

Lemma readies_queue_events s ev : readies (queue_events s ev) = [].
Proof.
  unfold readies. induction ev as [|e ev IH]; [done|].
  change (queue_events s (e :: ev)) with (queue_event s e ++ queue_events s ev).
  rewrite omap_app, IH, app_nil_r. destruct e; cbn; [|by destruct (has_response _)].
  unfold write_packets. destruct (has_write _); [|done]. by induction (fragment _ _).
Qed.

Lemma pushes_queue_events s ev : pushes (queue_events s ev) = [].
Proof.
  unfold pushes. induction ev as [|e ev IH]; [done|].
  change (queue_events s (e :: ev)) with (queue_event s e ++ queue_events s ev).
  rewrite omap_app, IH, app_nil_r. destruct e; cbn; [|by destruct (has_response _)].
  unfold write_packets. destruct (has_write _); [|done]. by induction (fragment _ _).
Qed.

Lemma queue_exec_events s c : exists ev, (queue_exec s c).2 = queue_events s ev /\
  ev = (CommandQueue.exec (queue_ s) c).2.
Proof. unfold queue_exec. destruct (CommandQueue.exec _ _) as [q ev]. by exists ev. Qed.

Lemma queue_exec_quiet s c :
  readies (queue_exec s c).2 = [] /\ pushes (queue_exec s c).2 = [].
Proof.
  destruct (queue_exec_events s c) as (ev & -> & _).
  split; [apply readies_queue_events | apply pushes_queue_events].
Qed.

Lemma responses_of_writes s (l : list (Entry CorrelationId)) :
  responses (queue_events s (write_event <$> l)) = [].
Proof.
  induction l as [|e l IH]; [done|].
  change (queue_events s (write_event <$> e :: l)) with
    (write_packets s (CommandQueue.id e) (payload e) ++ queue_events s (write_event <$> l)).
  by rewrite responses_app, IH, responses_write_packets.
Qed.

Lemma gate_told_quiet s m now :
  readies (gate_told s m now).2 = [] /\ pushes (gate_told s m now).2 = [] /\
  responses (gate_told s m now).2 = [].
Proof.
  unfold gate_told. destruct (gate_flips s m); [|done].
  split_and!; try apply queue_exec_quiet. unfold queue_exec. cbn. unfold CommandQueue.set_ready.
  destruct (QueryParser.ready _); [|done].
  match goal with |- context [pump ?q1 now] =>
    destruct (pump_pumped q1 now) as [sent [_ _ _ H _ _]]; destruct (pump q1 now) as [q ev] end.
  cbn in *. rewrite H. apply responses_of_writes.
Qed.

(** A gate callback is made exactly when the gate flips. *)
Lemma flip_event_readies s m :
  has_ready (handlers s) = true ->
  readies (flip_event s m) =
    if Bool.eqb (QueryParser.ready (folded_gate s m)) (session_ready s) then []
    else [QueryParser.ready (folded_gate s m)].
Proof.
  intros H. unfold flip_event, gate_flips, ready_event. rewrite H. by destruct (Bool.eqb _ _).
Qed.

Lemma deliver_readies ch m now s :
  has_ready (handlers s) = true ->
  readies (run_events (deliver ch m now) s) =
    if Bool.eqb (QueryParser.ready (folded_gate s m)) (session_ready s) then []
    else [QueryParser.ready (folded_gate s m)].
Proof.
  intros H. unfold run_events. rewrite deliver_eq.
  destruct (answers s ch m); cbn -[queue_exec]; rewrite !readies_app, flip_event_readies by done.
  - destruct (queue_exec_quiet s (OnResponse (message_id s ch m) m now)) as [-> _].
    destruct (gate_told_quiet (after_reply s ch m now) m now) as [-> _]. by rewrite app_nil_r.
  - destruct (gate_told_quiet s m now) as [-> _]. cbn.
    unfold push_event. by destruct (has_push _); cbn; rewrite app_nil_r.
Qed.

(** The response of the command a reply answers. *)
Lemma reply_responses s id m now :
  queue_part_ok (queue_ s) -> has_response (handlers s) = true ->
  is_in_flight (queue_ s) id = true ->
  responses (queue_exec s (OnResponse id m now)).2 = [(id, kResponded, m)].
Proof.
  intros (_ & _ & Hent) Hr Hin. unfold queue_exec. cbn [CommandQueue.exec].
  unfold CommandQueue.on_response.
  apply is_in_flight_spec in Hin. pose proof (extract_spec id (in_flight_ (queue_ s))) as Hx.
  destruct (extract id _) as [[e rest]|]; [|done].
  destruct Hx as (l1 & l2 & Hf & _ & Hid).
  assert (done e = Some id) as ->.
  { rewrite Forall_app in Hent. destruct Hent as [Hent _]. rewrite Hf in Hent.
    apply Forall_app in Hent as [_ Hent]. apply Forall_cons in Hent as [[-> _] _]. by rewrite Hid. }
  match goal with |- context [pump ?q1 now] =>
    destruct (pump_pumped q1 now) as [sent [_ _ _ H _ _]]; destruct (pump q1 now) as [q ev] end.
  cbn [fst snd invoke app] in H |- *. subst ev.
  match goal with |- context [queue_events s (?x :: ?l)] =>
    change (queue_events s (x :: l)) with (queue_event s x ++ queue_events s l) end.
  rewrite responses_app, responses_of_writes, app_nil_r. cbn. by rewrite Hr.
Qed.

(** Feeding packets on one channel. *)
Fixpoint feeds (ch : Channel) (ps : list bytes) (now_ms : Z) : session unit :=
  match ps with
  | [] => ret tt
  | p :: ps => feed ch p now_ms ;;; feeds ch ps now_ms
  end.

Lemma rx_of_with s ch r :
  length (rx_ s) = kChannelCount -> channel_ok ch -> rx_of (with_rx s ch r) ch = r.
Proof. intros Hl Hc. unfold channel_ok in Hc. unfold rx_of, with_rx. cbn. apply nth_insert. lia. Qed.

Lemma length_with_rx s ch r : length (rx_ (with_rx s ch r)) = length (rx_ s).
Proof. apply length_insert. Qed.

Lemma with_rx_twice s ch r r' : with_rx (with_rx s ch r) ch r' = with_rx s ch r'.
Proof. unfold with_rx, set_rx. cbn. by rewrite list_insert_insert_eq. Qed.

(** Packets that only reassemble (no message, no error) leave only the
    reassembler changed; the packet that completes a message delivers it. *)
Lemma feeds_quiet ch ps now : forall s r,
  length (rx_ s) = kChannelCount -> channel_ok ch ->
  Forall (fun x => x = kNeedMore) (feed_all r ps).2 ->
  feeds ch ps now (with_rx s ch r) = (tt, with_rx s ch (feed_all r ps).1, []).
Proof.
  induction ps as [|p ps IH]; intros s r Hl Hc Hq; [done|].
  cbn [feed_all feeds] in *. unfold bind. rewrite feed_eq, rx_of_with by (done || by rewrite length_with_rx).
  unfold receive. destruct (BleProtocol.feed r p) as [r1 x]. specialize (IH s r1 Hl Hc).
  destruct (feed_all r1 ps) as [r2 xs]. cbn [fst snd] in *. apply Forall_cons in Hq as [-> Hq].
  cbn. rewrite with_rx_twice, IH by done. done.
Qed.

Lemma feeds_app ch ps qs now s :
  feeds ch (ps ++ qs) now s =
  let '(_, s1, e1) := feeds ch ps now s in
  let '(_, s2, e2) := feeds ch qs now s1 in (tt, s2, e1 ++ e2).
Proof.
  revert s. induction ps as [|p ps IH]; intros s; cbn.
  { by destruct (feeds ch qs now s) as [[[] ?] ?]. }
  unfold bind. destruct (feed ch p now s) as [[[] s1] e1]. rewrite IH.
  destruct (feeds ch ps now s1) as [[[] s2] e2].
  destruct (feeds ch qs now s2) as [[[] s3] e3]. by rewrite app_assoc.
Qed.

(** The keep-alive is one packet for every payload size the session accepts. *)
Lemma fragment_keep_alive att :
  (kMinAttPayload <= att)%nat -> fragment keep_alive_payload att = [[32; 3; 91; 1; 66]].
Proof.
  unfold kMinAttPayload. intros H. unfold fragment.
  change (_ || _) with false. cbn iota. change (first_hdr _) with [32; 3].
  cbn [length]. destruct (att <=? 2)%nat eqn:E; to_prop; [lia|].
  unfold fragment_loop. cbn [length keep_alive_payload].
  do 20 (destruct att as [|att]; [lia|]). reflexivity.
Qed.

(** The account of a run of calls. *)
Lemma api_all_account cs : forall s,
  Forall api_ok cs -> session_ok s -> has_response (handlers s) = true ->
  ((fun r => r.1.1) <$> responses (run_events (api_all cs) s)) ++
    (CommandQueue.id <$> outstanding (run_state (api_all cs) s)) ≡ₚ
  submitted_all s cs ++ (CommandQueue.id <$> outstanding s).
Proof.
  induction cs as [|c cs IH]; intros s Hok Hs Hr; [done|]. apply Forall_cons in Hok as [Hc Hok].
  destruct (api_all_cons c cs s) as [-> ->]. cbn [submitted_all].
  rewrite responses_app, fmap_app, <- !app_assoc.
  pose proof (api_session_ok c s Hc Hs) as Hs1.
  assert (has_response (handlers (run_state (api c) s)) = true) as Hr1
    by (rewrite api_handlers; [done | apply Hs | done]).
  rewrite IH by done.
  rewrite (Permutation_app_comm (submitted_all _ _)), app_assoc, api_account by done.
  rewrite <- app_assoc. by rewrite (Permutation_app_comm (CommandQueue.id <$> _)).
Qed.

Lemma api_all_handlers cs : forall s,
  Forall api_ok cs -> session_ok s -> handlers (run_state (api_all cs) s) = handlers s.
Proof.
  induction cs as [|c cs IH]; intros s Hok Hs; [done|]. apply Forall_cons in Hok as [Hc Hok].
  destruct (api_all_cons c cs s) as [-> _].
  rewrite IH by (try done; by apply api_session_ok). apply api_handlers; [apply Hs|done].
Qed.

Lemma submitted_all_app cs cs' s :
  submitted_all s (cs ++ cs') = submitted_all s cs ++ submitted_all (run_state (api_all cs) s) cs'.
Proof.
  revert s. induction cs as [|c cs IH]; intros s; [done|]. cbn [app submitted_all].
  destruct (api_all_cons c cs s) as [-> _]. by rewrite IH, app_assoc.
Qed.

Lemma disconnect_outstanding s : outstanding (run_state on_disconnect s) = [].
Proof. unfold run_state. by rewrite on_disconnect_eq. Qed.

(** ** Properties *)

(** The correlation ids.  The channel is recovered from an id of either
    width; one-byte ids determine channel and byte, two-byte ids determine
    channel, feature and action up to its response bit; and no id is of both
    widths. *)
Theorem correlation_layout c c' b b' f f' a a' :
  0 <= c < 256 -> 0 <= c' < 256 -> byte_ok b -> byte_ok b' -> byte_ok f -> byte_ok f' ->
  byte_ok a -> byte_ok a' ->
  channel_of_correlation (correlation_of c b) = c /\
  channel_of_correlation (correlation_of_protobuf c f a) = c /\
  (correlation_of c b = correlation_of c' b' -> c = c' /\ b = b') /\
  (correlation_of_protobuf c f a = correlation_of_protobuf c' f' a' ->
     c = c' /\ f = f' /\ protobuf_response_action a = protobuf_response_action a') /\
  correlation_of c b <> correlation_of_protobuf c' f' a'.
Proof.
  intros Hc Hc' Hb Hb' Hf Hf' Ha Ha'.
  rewrite !correlation_of_sum, !correlation_of_protobuf_sum, !protobuf_response_action_sum by done.
  split_and!.
  - by apply channel_of_narrow.
  - apply channel_of_wide; try done. unfold byte_ok in *. lia.
  - unfold byte_ok in *. lia.
  - unfold byte_ok in *. lia.
  - unfold byte_ok in *. lia.
Qed.

Lemma correlation_layout_witness :
  channel_of_correlation (correlation_of_protobuf 3 2 101) = 3 /\
  correlation_of 2 255 <> correlation_of_protobuf 0 2 255.
Proof.
  split.
  - refine (proj1 (proj2 (correlation_layout 3 3 0 0 2 2 101 101 _ _ _ _ _ _ _ _)));
      unfold byte_ok; lia.
  - refine (proj2 (proj2 (proj2 (proj2 (correlation_layout 2 0 255 255 2 2 255 255 _ _ _ _ _ _ _ _)))));
      unfold byte_ok; lia.
Defined.

(** C20: the session's invariant.  After any sequence of API calls there are
    four consistent reassemblers, the queue is well formed with nothing
    sendable left waiting, every outstanding command carries the id of its
    channel and payload and reports under it, and the queue's gate agrees with
    the readiness the session reports. *)
Theorem session_invariant h cfg cs :
  Forall api_ok cs -> session_ok (run_state (api_all cs) (BleSession_init h cfg)).
Proof. intros H. apply api_all_session_ok; [done | apply init_session_ok]. Qed.

Definition all_handlers : Handlers := mkHandlers true true true true true.

Definition demo_calls : list api_call :=
  [TickSession 0;
   SubmitCommand kQuery [19; 8; 10] kFastpass 5;
   SubmitCommand kCommand [1; 1; 1] kQueued 6;
   Feed kQuery [8; 19; 0; 8; 1; 0; 10; 1; 0] 10;
   SubmitProtobuf kNetwork 2 5 [8; 1] kFastpass 20].

Lemma demo_calls_ok : Forall api_ok demo_calls.
Proof. repeat constructor; unfold byte_ok; done. Qed.

Definition demo_session : BleSession := run_state (api_all demo_calls) (BleSession_init all_handlers SessionConfig_default).

Lemma session_invariant_witness : session_ok demo_session.
Proof. apply (session_invariant all_handlers SessionConfig_default demo_calls). apply demo_calls_ok. Defined.

(** C5: the session refines its queue.  Each API call is a definite sequence of
    queue calls: the queue ends where that sequence takes it, and the writes
    and responses of the call are those the sequence makes. *)
Theorem session_refines_queue s c :
  session_ok s -> api_ok c ->
  queue_ (run_state (api c) s) = (run (queue_ s) (queue_calls s c)).1 /\
  queue_part (run_events (api c) s) = queue_events s (run (queue_ s) (queue_calls s c)).2.
Proof. intros Hs Hc. by destruct (api_does c s (sok_rx_length s Hs) Hc). Qed.

Lemma session_refines_queue_witness :
  queue_calls demo_session (Feed kQuery [3; 147; 0; 9] 25) = [OnResponse 659 [147; 0; 9] 25] /\
  queue_ (run_state (api (Feed kQuery [3; 147; 0; 9] 25)) demo_session) =
    (run (queue_ demo_session) (queue_calls demo_session (Feed kQuery [3; 147; 0; 9] 25))).1.
Proof.
  split; [reflexivity|].
  refine (proj1 (session_refines_queue demo_session (Feed kQuery [3; 147; 0; 9] 25) _ _)).
  - apply api_all_session_ok; [apply demo_calls_ok | apply init_session_ok].
  - repeat constructor; unfold byte_ok; done.
Defined.

(** C1: exactly one response per command.  Over any sequence of API calls, the
    ids of the responses reported and of the commands still outstanding are
    together exactly the ids of the commands handed over: those submitted (the
    rejected ones included) and the keep-alives. *)
Theorem session_exactly_once h cfg cs :
  Forall api_ok cs -> has_response h = true ->
  let s := BleSession_init h cfg in
  ((fun r => r.1.1) <$> responses (run_events (api_all cs) s)) ++
    (CommandQueue.id <$> outstanding (run_state (api_all cs) s)) ≡ₚ submitted_all s cs.
Proof.
  intros Hok Hr. cbv zeta.
  rewrite api_all_account by (done || apply init_session_ok). cbn. by rewrite app_nil_r.
Qed.

Lemma session_exactly_once_witness :
  submitted_all (BleSession_init all_handlers SessionConfig_default) demo_calls =
    [531; 1; 16974469] /\
  ((fun r => r.1.1) <$> responses (run_events (api_all demo_calls)
     (BleSession_init all_handlers SessionConfig_default))) ++
    (CommandQueue.id <$> outstanding demo_session) ≡ₚ
  submitted_all (BleSession_init all_handlers SessionConfig_default) demo_calls.
Proof.
  split; [reflexivity|].
  apply (session_exactly_once all_handlers SessionConfig_default demo_calls);
    [apply demo_calls_ok | reflexivity].
Defined.

(** Every message is a response or a push, never both.  A message that
    answers an outstanding command produces that command's response and no
    push; any other produces no response and one push that carries it, parsed. *)
Theorem deliver_exclusive s ch m now :
  session_ok s -> has_response (handlers s) = true -> has_push (handlers s) = true ->
  let ev := run_events (deliver ch m now) s in
  if is_in_flight (queue_ s) (message_id s ch m) then
    responses ev = [(message_id s ch m, kResponded, m)] /\ pushes ev = []
  else responses ev = [] /\ pushes ev = [(ch, (parse_query m).2, m)].
Proof.
  intros Hs Hr Hp ev. subst ev. unfold run_events. rewrite deliver_eq. fold (answers s ch m).
  assert (responses (flip_event s m) = [] /\ pushes (flip_event s m) = []) as [F1 F2].
  { unfold flip_event, ready_event. destruct (gate_flips _ _), (has_ready (handlers s)); done. }
  destruct (answers s ch m) eqn:E; cbn -[queue_exec];
    rewrite !responses_app, !pushes_app, F1, F2.
  - destruct (gate_told_quiet (after_reply s ch m now) m now) as (_ & -> & ->).
    destruct (queue_exec_quiet s (OnResponse (message_id s ch m) m now)) as [_ ->].
    rewrite reply_responses by (done || apply Hs). done.
  - destruct (gate_told_quiet s m now) as (_ & -> & ->). unfold push_event. by rewrite Hp.
Qed.

Lemma demo_session_ok : session_ok demo_session.
Proof. apply api_all_session_ok; [apply demo_calls_ok | apply init_session_ok]. Qed.

Lemma deliver_exclusive_witness :
  responses (run_events (deliver kNetwork [2; 133; 8; 1] 30) demo_session) =
    [(16974469, kResponded, [2; 133; 8; 1])] /\
  pushes (run_events (deliver kNetwork [2; 133; 8; 1] 30) demo_session) = [].
Proof.
  exact (deliver_exclusive demo_session kNetwork [2; 133; 8; 1] 30 demo_session_ok eq_refl eq_refl).
Defined.

(** However the camera cuts a message into packets, and whatever its channel
    was reassembling before, feeding the packets delivers exactly that message,
    once, on that channel, and changes nothing else. *)
Theorem feed_message s ch m ps now :
  length (rx_ s) = kChannelCount -> channel_ok ch -> Forall bytes_ok ps -> well_framed m ps ->
  feeds ch ps now s = deliver ch m now (with_rx s ch Reassembler_init).
Proof.
  intros Hl Hc Hok Hw.
  pose proof (well_framed_accepted m ps (rx_of s ch) Hok Hw) as (ps' & p & -> & Hq & Hp).
  replace s with (with_rx s ch (rx_of s ch)) at 1.
  2: { unfold with_rx, rx_of, set_rx, channel_ok in *. rewrite nth_lookup.
       destruct (lookup_lt_is_Some_2 (rx_ s) (Z.to_nat ch)) as [x Hx]; [lia|].
       rewrite Hx. cbn. rewrite list_insert_id by done. by destruct s. }
  rewrite feeds_app, (feeds_quiet ch ps' now s _ Hl Hc Hq). cbn [feeds]. unfold bind.
  rewrite feed_eq, rx_of_with by (done || by rewrite length_with_rx). rewrite Hp, with_rx_twice.
  destruct (deliver ch m now _) as [[[] ?] ?]. cbn. by rewrite app_nil_r.
Qed.

(** A camera that cuts a three-byte message in an eccentric way. *)
Lemma feed_message_witness :
  feeds kCommand [[64; 0; 3]; [128; 23]; [129; 0; 5]] 40 demo_session =
    deliver kCommand [23; 0; 5] 40 (with_rx demo_session kCommand Reassembler_init).
Proof.
  apply (feed_message demo_session kCommand [23; 0; 5] [[64; 0; 3]; [128; 23]; [129; 0; 5]] 40).
  - reflexivity.
  - unfold channel_ok, kCommand, kChannelCount; lia.
  - repeat constructor; unfold byte_ok; lia.
  - exists [64; 0; 3], [[128; 23]; [129; 0; 5]], []. split_and!; try done.
    + repeat constructor; by eexists.
    + intros k Hk. destruct k as [|[|k]]; cbn in *; lia.
Defined.

(** The packets fed to a channel since the last disconnection. *)
Fixpoint packets_on (ch : Channel) (acc : list bytes) (cs : list api_call) : list bytes :=
  match cs with
  | [] => acc
  | Feed c p _ :: cs => packets_on ch (if Z.eqb c ch then acc ++ [p] else acc) cs
  | Disconnect :: cs => packets_on ch [] cs
  | _ :: cs => packets_on ch acc cs
  end.

Lemma receive_all_app r ps qs :
  (receive_all r (ps ++ qs)).1 = (receive_all (receive_all r ps).1 qs).1 /\
  (receive_all r (ps ++ qs)).2 = (receive_all r ps).2 ++ (receive_all (receive_all r ps).1 qs).2.
Proof.
  revert r. induction ps as [|p ps IH]; intros r; cbn [app receive_all]; [done|].
  destruct (receive r p) as [r1 o]. destruct (IH r1) as [H1 H2].
  destruct (receive_all r1 (ps ++ qs)), (receive_all r1 ps). cbn in *. subst.
  split; [done|]. by destruct o.
Qed.

Lemma rx_history ch cs : forall s acc,
  channel_ok ch -> Forall api_ok cs -> session_ok s ->
  rx_of s ch = (receive_all Reassembler_init acc).1 ->
  rx_of (run_state (api_all cs) s) ch = (receive_all Reassembler_init (packets_on ch acc cs)).1.
Proof.
  induction cs as [|c cs IH]; intros s acc Hch Hok Hs Hr; [done|].
  apply Forall_cons in Hok as [Hc Hok]. destruct (api_all_cons c cs s) as [-> _].
  pose proof (api_session_ok c s Hc Hs) as Hs1. pose proof (sok_rx_length s Hs) as Hl.
  pose proof (api_rx c s Hl Hc) as Hrx.
  unfold rx_of in Hr. unfold channel_ok in Hch.
  assert (forall acc', nth (Z.to_nat ch) (rx_after s c) Reassembler_init = (receive_all Reassembler_init acc').1 ->
    rx_of (run_state (api_all cs) (run_state (api c) s)) ch =
      (receive_all Reassembler_init (packets_on ch acc' cs)).1) as Hnext.
  { intros acc' H. apply IH; try done. unfold rx_of. by rewrite Hrx. }
  destruct c as [c p now| | | | |]; cbn [packets_on]; apply Hnext; cbn [rx_after]; try done.
  - destruct Hc as [Hc _]. unfold channel_ok in Hc. destruct (Z.eqb_spec c ch) as [->|Hne].
    + rewrite nth_insert by lia. destruct (receive_all_app Reassembler_init acc [p]) as [-> _].
      unfold rx_of. rewrite Hr. cbn. by destruct (receive _ p).
    + rewrite nth_insert_ne by lia. done.
  - rewrite nth_lookup. destruct (replicate _ _ !! _) eqn:E; [|done].
    by apply lookup_replicate in E as [-> _].
Qed.

(** The messages a run delivers on one channel. *)
Fixpoint messages_on (ch : Channel) (s : BleSession) (cs : list api_call) : list bytes :=
  match cs with
  | [] => []
  | c :: cs =>
      (match c with
       | Feed ch' p _ => if Z.eqb ch' ch then option_list (receive (rx_of s ch) p).2 else []
       | _ => []
       end) ++ messages_on ch (run_state (api c) s) cs
  end.

(** Channels do not splice.  Over any sequence of API calls without a
    disconnection, whatever the interleaving, the messages delivered on a
    channel are exactly those one reassembler would deliver from that
    channel's packets alone: each is the payload of consecutive packets of
    that channel. *)
Theorem channels_do_not_splice h cfg ch cs :
  channel_ok ch -> Forall api_ok cs -> Disconnect ∉ cs ->
  let packets := packets_on ch [] cs in
  messages_on ch (BleSession_init h cfg) cs = (receive_all Reassembler_init packets).2 /\
  decodes packets (messages_on ch (BleSession_init h cfg) cs).
Proof.
  intros Hch Hok Hd. cbv zeta.
  assert (messages_on ch (BleSession_init h cfg) cs =
          (receive_all Reassembler_init (packets_on ch [] cs)).2) as H.
  2: { split; [done|]. rewrite H. apply receive_all_decoded.
       assert (forall acc, Forall bytes_ok acc -> Forall bytes_ok (packets_on ch acc cs)) as Hp.
       { clear -Hok. induction Hok as [|c cs Hc Hok IH]; intros acc Hacc; [done|].
         destruct c as [c p now| | | | |]; cbn [packets_on]; try by apply IH.
         apply IH. destruct (_ =? _); [|done]. apply Forall_app. split; [done|].
         constructor; [apply Hc|constructor]. }
       by apply Hp. }
  assert (forall s acc, session_ok s -> rx_of s ch = (receive_all Reassembler_init acc).1 ->
    (receive_all Reassembler_init acc).2 ++ messages_on ch s cs =
    (receive_all Reassembler_init (packets_on ch acc cs)).2) as H.
  2: { apply (H (BleSession_init h cfg) []); [apply init_session_ok|].
       unfold rx_of. cbn. unfold channel_ok, kChannelCount in Hch.
       by destruct (Z.to_nat ch) as [|[|[|[|]]]] eqn:?; try lia. }
  induction Hok as [|c cs Hc Hok IH]; intros s acc Hs Hr; [apply app_nil_r|].
  apply not_elem_of_cons in Hd as [Hdc Hd]. specialize (IH Hd).
  pose proof (api_session_ok c s Hc Hs) as Hs1.
  pose proof (rx_history ch [c] s acc Hch (Forall_cons_2 _ _ _ Hc (Forall_nil_2 _)) Hs Hr) as Hr1.
  destruct (api_all_cons c [] s) as [Hone _]. rewrite Hone in Hr1. clear Hone.
  change (run_state (api_all []) (run_state (api c) s)) with (run_state (api c) s) in Hr1.
  destruct c as [c p now| | | | |]; cbn [packets_on messages_on app] in *;
    try done; rewrite <- (IH _ _ Hs1 Hr1); [|done..].
  destruct (_ =? _); [|done]. destruct (receive_all_app Reassembler_init acc [p]) as [_ ->].
  rewrite <- Hr, <- app_assoc. f_equal. f_equal. cbn [receive_all].
  by destruct (receive (rx_of s ch) p) as [r [m|]].
Qed.

(** Two messages interleaved packet by packet on two channels. *)
Lemma channels_do_not_splice_witness :
  messages_on kQuery (BleSession_init all_handlers SessionConfig_default)
    [Feed kQuery [32; 4; 19; 0] 1; Feed kCommand [32; 3; 9; 9] 2; Feed kQuery [128; 7; 7] 3;
     Feed kCommand [128; 9] 4] = [[19; 0; 7; 7]] /\
  decodes [[32; 4; 19; 0]; [128; 7; 7]] [[19; 0; 7; 7]].
Proof.
  split; [reflexivity|].
  refine (proj2 (channels_do_not_splice all_handlers SessionConfig_default kQuery
    [Feed kQuery [32; 4; 19; 0] 1; Feed kCommand [32; 3; 9; 9] 2; Feed kQuery [128; 7; 7] 3;
     Feed kCommand [128; 9] 4] _ _ _)).
  - unfold channel_ok, kQuery, kChannelCount; lia.
  - repeat constructor; unfold byte_ok; done.
  - rewrite !not_elem_of_cons. split_and!; try discriminate. apply not_elem_of_nil.
Defined.

(** Readiness is reported exactly when it changes.  Each API call makes one
    [on_ready] callback, carrying the new value, if the gate is not where it
    was, and none otherwise. *)
Theorem ready_reported s c :
  session_ok s -> api_ok c -> has_ready (handlers s) = true ->
  readies (run_events (api c) s) =
    if Bool.eqb (session_ready (run_state (api c) s)) (session_ready s) then []
    else [session_ready (run_state (api c) s)].
Proof.
  intros Hs Hok Hr. pose proof (sok_rx_length s Hs) as Hl.
  unfold session_ready at 1 3. rewrite api_gate by done.
  destruct c as [ch p now|ch m p now|ch f a m p now|now|n|]; cbn [api gate_after];
    try (fold (session_ready s); rewrite Bool.eqb_reflx).
  - destruct Hok as [Hch _]. unfold run_events. rewrite feed_eq by done.
    destruct (receive (rx_of s ch) p) as [r [m|]]; cbn [fst snd].
    + apply (deliver_readies ch m now (with_rx s ch r) Hr).
    + fold (session_ready s). rewrite Bool.eqb_reflx. unfold frame_error_event.
      destruct (BleProtocol.feed _ _).2; try done; by destruct (has_frame_error _).
  - unfold submit. destruct m as [|b m]; [done|]. unfold run_events. rewrite enqueue_eq.
    apply queue_exec_quiet.
  - unfold submit_protobuf, run_events. rewrite enqueue_eq. apply queue_exec_quiet.
  - unfold run_events. rewrite tick_eq. destruct (queue_exec_quiet s (Tick now)) as [H _].
    destruct (queue_exec s (Tick now)) as [s1 ev1]. destruct (negb _); [done|].
    destruct (keep_alive_due s now); [|done].
    match goal with |- context [queue_exec ?s ?c] =>
      destruct (queue_exec_quiet s c) as [H2 _]; destruct (queue_exec s c) end.
    cbn [fst snd] in *. by rewrite readies_app, H, H2.
  - unfold set_att_payload, run_events, modify. by destruct (_ <=? n)%nat.
  - unfold run_events. rewrite on_disconnect_eq. cbn [snd].
    rewrite readies_app, readies_queue_events. destruct (session_ready s); [|done].
    unfold ready_event. by rewrite Hr.
Qed.

(** A status push opens the gate of [demo_session]: one callback. *)
Lemma ready_reported_witness :
  readies (run_events (api (Feed kQuery [8; 147; 0; 8; 1; 0; 10; 1; 0] 50)) demo_session) = [] /\
  readies (run_events (api (Feed kQuery [5; 147; 0; 8; 1; 1] 50)) demo_session) = [false].
Proof.
  assert (forall p, bytes_ok p -> api_ok (Feed kQuery p 50)) as Hok.
  { intros p H. split; [unfold channel_ok, kQuery, kChannelCount; lia | done]. }
  split.
  - apply (ready_reported demo_session (Feed kQuery [8; 147; 0; 8; 1; 0; 10; 1; 0] 50)
      demo_session_ok); [|reflexivity]. apply Hok. repeat constructor; unfold byte_ok; lia.
  - apply (ready_reported demo_session (Feed kQuery [5; 147; 0; 8; 1; 1] 50)
      demo_session_ok); [|reflexivity]. apply Hok. repeat constructor; unfold byte_ok; lia.
Defined.

(** The keep-alive.  When a tick finds the interval elapsed, it sends the
    keep-alive packet, last, whatever the ready gate and whatever is queued, and
    restarts the interval; the one exception is an outstanding command with the
    keep-alive's id, and then the keep-alive is rejected. *)
Theorem keep_alive_on_time s now :
  session_ok s -> has_write (handlers s) = true -> has_response (handlers s) = true ->
  (kMinAttPayload <= att_payload (cfg_ s))%nat -> keep_alive_due s now = true ->
  last_keep_alive_ms_ (run_state (tick now) s) = now /\
  run_events (tick now) s = (queue_exec s (Tick now)).2 ++
    (if is_duplicate (queue_ (queue_exec s (Tick now)).1) keep_alive_id
     then [SResponse keep_alive_id kRejected []]
     else [SWrite kSettings [32; 3; 91; 1; 66]]).
Proof.
  intros Hs Hw Hr Hatt Hdue. unfold run_state, run_events. rewrite tick_eq, Hdue.
  assert (keep_alive_started_ s = true) as -> by (unfold keep_alive_due in Hdue; by to_prop).
  cbn [negb]. destruct (queue_exec_frame s (Tick now)) as (Hcfg & Hh & _).
  assert (queue_part_ok (queue_ (queue_exec s (Tick now)).1)) as (Hok & Hwc & _).
  { pose proof (queue_exec_does s (Tick now)) as [-> _ _].
    destruct (sok_queue s Hs) as (H1 & H2 & H3).
    destruct (run_invariant [Tick now] (queue_ s) H1 H2).
    split_and!; [done..|]. apply run_Forall; [by intros ? e [? [c Hc]]; split; [|by exists c]|by repeat constructor|done]. }
  destruct (queue_exec s (Tick now)) as [s1 ev1]. cbn [fst snd] in *.
  match goal with |- context [queue_exec ?s2 ?c] =>
    destruct (queue_exec_frame s2 c) as (_ & _ & _ & _ & Hlast & _);
    destruct (queue_exec_events s2 c) as (ev & He1 & He2);
    destruct (queue_exec s2 c) as [s3 ev3] end.
  cbn [fst snd] in *. split; [done|]. rewrite He1, He2. f_equal.
  unfold queue_submit. cbn [CommandQueue.exec queue_ anchored set_keep_alive].
  destruct (is_duplicate (queue_ s1) keep_alive_id) eqn:Ed.
  - unfold CommandQueue.submit. rewrite Ed. unfold queue_events; cbn. by rewrite Hh, Hr.
  - rewrite submit_ungated by done. unfold queue_events; cbn -[fragment]. unfold write_packets.
    rewrite app_nil_r. cbn -[fragment]. rewrite Hh, Hw, Hcfg.
    by rewrite fragment_keep_alive.
Qed.

(** [demo_session] after the camera has reported itself busy. *)
Definition busy_session : BleSession := run_state (api (Feed kQuery [5; 147; 0; 8; 1; 1] 50)) demo_session.

Lemma busy_session_ok : session_ok busy_session.
Proof.
  apply api_session_ok; [|apply demo_session_ok].
  split; [unfold channel_ok, kQuery, kChannelCount; lia | repeat constructor; unfold byte_ok; lia].
Qed.

Lemma keep_alive_on_time_witness :
  session_ready busy_session = false /\
  run_events (tick 3000) busy_session = [SWrite kSettings [32; 3; 91; 1; 66]].
Proof.
  split; [reflexivity|].
  refine (eq_trans (proj2 (keep_alive_on_time busy_session 3000 busy_session_ok eq_refl eq_refl _ eq_refl)) _).
  - vm_compute. lia.
  - vm_compute. reflexivity.
Defined.

(** The exception to the keep-alive is real.  Writing the LED setting while
    the camera is not ready queues a command under the keep-alive's own id, and
    until it is given up thirty seconds later every keep-alive is rejected:
    nothing is written although ticks arrive on time. *)
Theorem led_write_starves_keep_alive h cfg v ts :
  keep_alive_interval_ms cfg = 3000 -> queue_options cfg = CommandQueueOptions_default ->
  Forall (fun t => 0 <= t < 30000) ts ->
  let s := run_state (submit kSettings [kLedSettingId; 1; v] kQueued 0) (BleSession_init h cfg) in
  writes (run_events (api_all (TickSession <$> ts)) s) = [] /\
  is_duplicate (queue_ (run_state (api_all (TickSession <$> ts)) s)) keep_alive_id = true.
Proof.
  intros Hint Hopt Hts s.
  set (e := mkEntry keep_alive_id [kLedSettingId; 1; v] kQueued (Some keep_alive_id) 0 0).
  set (q := mkCommandQueue CommandQueueOptions_default false [e] []).
  assert (queue_ s = q) as Hq.
  { unfold s, q. rewrite <- Hopt. done. }
  clearbody s. clear Hint Hopt. revert s Hq.
  induction Hts as [|t ts Ht Hts IH]; intros s Hq.
  { split; [done|]. change (is_duplicate (queue_ s) keep_alive_id = true). by rewrite Hq. }
  cbn [fmap list_fmap]. destruct (api_all_cons (TickSession t) (TickSession <$> ts) s) as [-> ->].
  rewrite writes_app.
  assert (CommandQueue.exec q (Tick t) = (q, [])) as Htick.
  { assert (queue_expired q t e = false) as Hexp.
    { unfold queue_expired. rewrite u64_sub_small by (cbn; lia). cbn.
      destruct (_ <=? _) eqn:?; to_prop; [lia|done]. }
    cbn [CommandQueue.exec]. unfold CommandQueue.tick, expired, drop_expired.
    change (pending_ q) with [e]. change (in_flight_ q) with (@nil (Entry CorrelationId)).
    cbn [List.filter app]. rewrite Hexp. reflexivity. }
  assert (CommandQueue.exec q (queue_submit keep_alive_id keep_alive_payload kKeepAlive t) =
    (q, [Completed keep_alive_id kRejected []])) as Hka by done.
  pose proof (tick_does t s) as [H1 H2 _]. cbn [queue_calls] in H1, H2. rewrite Hq in H1, H2.
  cbn [api]. rewrite <- (writes_queue_part (run_events (tick t) s)), H2.
  assert (queue_ (run_state (tick t) s) = q /\
    writes (queue_events s (run q (Tick t :: (if keep_alive_due s t
      then [queue_submit keep_alive_id keep_alive_payload kKeepAlive t] else []))).2) = []) as [H3 ->].
  { rewrite H1. cbn [run]. rewrite Htick.
    destruct (keep_alive_due s t); cbn [run]; [rewrite Hka|done]. cbn. split; [done|].
    unfold queue_events; cbn. by destruct (has_response _). }
  by apply IH.
Qed.

Lemma led_write_starves_keep_alive_witness :
  writes (run_events (api_all (TickSession <$> [0; 3000; 6000; 9000; 12000]))
    (run_state (submit kSettings [kLedSettingId; 1; 2] kQueued 0)
       (BleSession_init all_handlers SessionConfig_default))) = [].
Proof.
  refine (proj1 (led_write_starves_keep_alive all_handlers SessionConfig_default 2
    [0; 3000; 6000; 9000; 12000] eq_refl eq_refl _)).
  repeat constructor; lia.
Defined.

(** Teardown.  Disconnecting reports every outstanding command cancelled,
    once and in order, tells the caller if the camera was ready, and leaves
    nothing behind: idle reassemblers, an empty queue, a shut gate, and a
    keep-alive timer that restarts with the next tick. *)
Theorem disconnect_clears s :
  session_ok s -> has_response (handlers s) = true ->
  let s' := run_state on_disconnect s in
  run_events on_disconnect s =
    ((fun e => SResponse (CommandQueue.id e) kCanceled []) <$> outstanding s) ++
    (if session_ready s then ready_event s false else []) /\
  Forall (fun r => r = Reassembler_init) (rx_ s') /\ outstanding s' = [] /\
  session_ready s' = false /\ CommandQueue.ready (queue_ s') = false /\
  (forall now, run_events (tick now) s' = [] /\ keep_alive_due (run_state (tick now) s') now =
     (keep_alive_interval_ms (cfg_ s) <=? 0)).
Proof.
  intros Hs Hr. cbv zeta. unfold run_state at 1 2 3 4, run_events at 1. rewrite on_disconnect_eq.
  cbn [fst snd]. destruct (sok_queue s Hs) as (_ & _ & Hent). fold (outstanding s) in *.
  split_and!; [|by apply Forall_replicate|done|done|done|].
  - f_equal. unfold complete_all. induction Hent as [|e l [He _] Hl IH]; [done|].
    cbn [fmap list_fmap concat]. rewrite He, queue_events_app. cbn [invoke fmap list_fmap].
    rewrite IH. unfold queue_events; cbn. by rewrite Hr.
  - intros now. unfold run_state, run_events. rewrite on_disconnect_eq. cbn [fst snd].
    rewrite tick_eq. cbn. split; [done|]. unfold keep_alive_due. cbn. by rewrite u64_sub_diag.
Qed.

Lemma disconnect_clears_witness :
  run_events on_disconnect demo_session =
    [SResponse 1 kCanceled []; SResponse 16974469 kCanceled []] ++ [SReady false].
Proof.
  refine (eq_trans (proj1 (disconnect_clears demo_session demo_session_ok eq_refl)) _).
  vm_compute. reflexivity.
Defined.

(** A command as the caller submitted it: channel and payload. *)
Definition command_of (e : Entry CorrelationId) : Channel * bytes :=
  (channel_of_correlation (CommandQueue.id e), payload e).

(** The channel of an entry of the session is the one it was submitted on. *)
Lemma entry_channel e :
  entry_of_session e ->
  channel_ok (command_of e).1 /\ bytes_ok (command_of e).2 /\ (command_of e).2 <> [].
Proof.
  intros [_ (c & Hc & Hid & Hok)]. unfold command_of; cbn [fst snd].
  assert (channel_of_correlation (CommandQueue.id e) = c /\ payload e <> []) as [-> ?].
  { destruct (payload e) as [|b m]; [done|]. split; [|done].
    apply Forall_cons in Hok as [Hb Hm]. unfold channel_ok, kChannelCount in Hc.
    destruct Hid as [->|(a & m' & Heq & ->)].
    - rewrite correlation_of_sum by done. apply channel_of_narrow; [lia|done].
    - injection Heq as ->. apply Forall_cons in Hm as [Ha _].
      rewrite correlation_of_protobuf_sum by (done || lia).
      apply channel_of_wide; [lia|done|]. unfold byte_ok in *; lia. }
  done.
Qed.

Lemma run_written (P : Entry CorrelationId -> Prop) cs : forall q,
  (forall now e, P e -> P (stamp now e)) ->
  Forall (fun c => match c with Submit i data p d now => P (mkEntry i data p d now 0) | _ => True end) cs ->
  Forall P (in_flight_ q ++ pending_ q) ->
  Forall (fun w => exists e, P e /\ w = (CommandQueue.id e, payload e)) (written (run q cs).2).
Proof.
  induction cs as [|c cs IH]; intros q Hst Hcs Hq; [constructor|].
  apply Forall_cons in Hcs as [Hc Hcs]. cbn [run].
  pose proof (exec_Forall P q c Hst Hc Hq) as H1. pose proof (exec_written P q c Hc Hq) as H2.
  destruct (CommandQueue.exec q c) as [q1 ev1]. specialize (IH q1 Hst Hcs H1).
  destruct (run q1 cs) as [q2 ev2]. cbn [snd] in *. rewrite written_app. by apply Forall_app.
Qed.

(** ** Commands on the air *)

(** The packet size is changed by its setter only. *)
Definition same_cfg (s : BleSession) (ev : list SEvent) (s' : BleSession) : Prop := cfg_ s' = cfg_ s.

#[export] Instance same_cfg_order : TraceOrder same_cfg.
Proof. split; unfold same_cfg; congruence. Qed.

Ltac same_cfg_atom :=
  unfold along, same_cfg, run_state, queue_on_response, queue_set_ready, queue_tick, queue_cancel_all, gate_apply,
    rx_feed, rx_take, enqueue;
  repeat case_match; simplify_eq; try done.

Lemma same_cfg_fold_push m now s : along same_cfg (fold_push m now) s.
Proof.
  unfold fold_push, call_on_ready. destruct (parse_query m) as [res parsed]. along; same_cfg_atom.
Qed.

Lemma same_cfg_fold_reply m now s : along same_cfg (fold_reply m now) s.
Proof.
  unfold fold_reply, call_on_ready. destruct (parse_query m) as [res parsed]. along; same_cfg_atom.
Qed.

Lemma same_cfg_deliver ch m now s : along same_cfg (deliver ch m now) s.
Proof.
  unfold deliver, call_on_push.
  along; try first [apply same_cfg_fold_reply | apply same_cfg_fold_push]; same_cfg_atom.
Qed.

Lemma same_cfg_feed ch p now s : along same_cfg (feed ch p now) s.
Proof.
  unfold feed, call_on_frame_error. along; [same_cfg_atom|].
  destruct (run_result _ _); along; first [apply same_cfg_deliver | same_cfg_atom].
Qed.

(** The packet size in force after a call. *)
Definition next_size (n : nat) (c : api_call) : nat :=
  match c with SetAttPayload k => if (kMinAttPayload <=? k)%nat then k else n | _ => n end.

Lemma api_size c s : att_payload (cfg_ (run_state (api c) s)) = next_size (att_payload (cfg_ s)) c.
Proof.
  assert (along same_cfg (api c) s -> cfg_ (run_state (api c) s) = cfg_ s) as Hc by done.
  destruct c as [ch p now|ch m p now|ch f a m p now|now|n|]; cbn [next_size].
  5: { cbn [api]. unfold set_att_payload, run_state, modify. by destruct (kMinAttPayload <=? n)%nat. }
  all: rewrite Hc; [done|]; cbn [api].
  - apply same_cfg_feed.
  - unfold submit. destruct m; along; same_cfg_atom.
  - unfold submit_protobuf. along; same_cfg_atom.
  - unfold tick, submit. along; same_cfg_atom.
  - unfold on_disconnect, call_on_ready. along; same_cfg_atom.
Qed.

(** The packet size in force at each of some calls. *)
Fixpoint sizes (n : nat) (cs : list api_call) : list nat :=
  match cs with
  | [] => []
  | c :: cs => n :: sizes (next_size n c) cs
  end.

Lemma sizes_bound cs : forall n, (kMinAttPayload <= n)%nat -> Forall (fun k => (kMinAttPayload <= k)%nat) (sizes n cs).
Proof.
  induction cs as [|c cs IH]; intros n Hn; [constructor|]. constructor; [done|]. apply IH.
  destruct c; cbn [next_size]; try done. by destruct (kMinAttPayload <=? n0)%nat eqn:E; [apply Nat.leb_le in E|].
Qed.

(** The commands a call hands over, as its caller sees them: the channel, and the
    bytes to go out there.  A tick may hand over a keep-alive. *)
Definition commands_of (c : api_call) : list (Channel * bytes) :=
  match c with
  | SubmitCommand ch (b :: m) _ _ => [(ch, b :: m)]
  | SubmitProtobuf ch f a m _ _ => [(ch, f :: a :: m)]
  | TickSession _ => [(kSettings, keep_alive_payload)]
  | _ => []
  end.

(** A command under its id. *)
Definition command_at (x : CorrelationId * bytes) : Channel * bytes := (channel_of_correlation x.1, x.2).

Definition waiting_commands (s : BleSession) : list (Channel * bytes) :=
  (fun e => command_at (written_form e)) <$> pending_ (queue_ s).

(** The packets of a command. *)
Definition packets (n : nat) (x : Channel * bytes) : list (Channel * bytes) := pair x.1 <$> fragment x.2 n.

Lemma calls_given s c :
  api_ok c -> command_at <$> concat (given <$> queue_calls s c) ⊆+ commands_of c.
Proof.
  intros Hok. destruct c as [ch p now|ch m p now|ch f a m p now|now|n|]; cbn [queue_calls commands_of]; try done.
  - destruct (receive _ _).2; [|done]. unfold deliver_calls. by destruct (gate_flips _ _).
  - destruct m as [|b m]; [done|]. destruct Hok as [Hc Hm]. apply Forall_cons in Hm as [Hb _].
    unfold channel_ok, kChannelCount in Hc. cbn. unfold command_at. cbn [fst snd].
    rewrite correlation_of_sum, channel_of_narrow by (done || lia). done.
  - destruct Hok as (Hc & Hf & Ha & _). unfold channel_ok, kChannelCount in Hc. cbn. unfold command_at. cbn [fst snd].
    rewrite correlation_of_protobuf_sum, channel_of_wide by (done || lia || (unfold byte_ok in *; lia)). done.
  - destruct (keep_alive_due s now); [done|apply submseteq_nil_l].
Qed.

(** The commands the queue transmits in a call, and in each of some calls. *)
Definition transmitted (s : BleSession) (c : api_call) : list (Channel * bytes) :=
  command_at <$> written (run (queue_ s) (queue_calls s c)).2.

Fixpoint transmitted_all (s : BleSession) (cs : list api_call) : list (list (Channel * bytes)) :=
  match cs with
  | [] => []
  | c :: cs => transmitted s c :: transmitted_all (run_state (api c) s) cs
  end.

Lemma length_transmitted_all cs : forall s, length (transmitted_all s cs) = length cs.
Proof. induction cs as [|c cs IH]; intros s; [done|]. cbn. by rewrite IH. Qed.

(** One call: what it writes, and what it takes that from. *)
Lemma api_commands c s :
  api_ok c -> session_ok s -> has_write (handlers s) = true ->
  let commands := transmitted s c in
    writes (run_events (api c) s) = concat (packets (att_payload (cfg_ s)) <$> commands) /\
    commands ++ waiting_commands (run_state (api c) s) ⊆+ commands_of c ++ waiting_commands s /\
    Forall (fun x => channel_ok x.1 /\ bytes_ok x.2 /\ x.2 <> []) commands.
Proof.
  intros Hok Hs Hw. destruct (api_does c s (sok_rx_length s Hs) Hok) as [Hq He _].
  destruct (sok_queue s Hs) as (_ & _ & Hent). unfold transmitted. cbv zeta. split_and!.
  - rewrite <- writes_queue_part, He, writes_queue_events by done. by rewrite <- list_fmap_compose.
  - unfold waiting_commands. rewrite Hq. pose proof (run_given (queue_calls s c) (queue_ s)) as H.
    apply (fmap_submseteq command_at) in H. rewrite !fmap_app, <- !list_fmap_compose in H.
    etransitivity; [exact H|]. apply submseteq_skips_r, calls_given, Hok.
  - apply Forall_fmap. eapply Forall_impl.
    + apply (run_written entry_of_session); [|by apply queue_calls_ok|exact Hent].
      intros now e [He1 (ch & Hch)]. split; [done | by exists ch].
    + intros w (e & Hent1 & ->). exact (entry_channel e Hent1).
Qed.

Lemma all_commands cs : forall s,
  Forall api_ok cs -> session_ok s -> has_write (handlers s) = true ->
  let sent := transmitted_all s cs in
    writes (run_events (api_all cs) s) =
      concat (zip_with (fun n commands => concat (packets n <$> commands)) (sizes (att_payload (cfg_ s)) cs) sent) /\
    (forall k, concat (firstn k sent) ⊆+ concat (commands_of <$> firstn k cs) ++ waiting_commands s) /\
    Forall (fun x => channel_ok x.1 /\ bytes_ok x.2 /\ x.2 <> []) (concat sent).
Proof.
  induction cs as [|c cs IH]; intros s Hok Hs Hw.
  { split_and!; [done| |constructor]. intros k. rewrite !firstn_nil. apply submseteq_nil_l. }
  apply Forall_cons in Hok as [Hc Hok]. destruct (api_commands c s Hc Hs Hw) as (W & Sub & Wf).
  pose proof (api_handlers c s (sok_rx_length s Hs) Hc) as Hh.
  destruct (IH (run_state (api c) s)) as (Ws & Subs & Wfs); [done|by apply api_session_ok|by rewrite Hh|].
  cbn [transmitted_all]. rewrite api_size in Ws. split_and!.
  - destruct (api_all_cons c cs s) as [_ ->]. rewrite writes_app, W, Ws. done.
  - intros [|k]; cbn [firstn concat fmap list_fmap]; [apply submseteq_nil_l|].
    etransitivity; [apply submseteq_skips_l, Subs|]. rewrite Permutation_app_swap_app.
    etransitivity; [apply submseteq_skips_l, Sub|]. by rewrite Permutation_app_swap_app, app_assoc.
  - cbn [concat]. by apply Forall_app.
Qed.

(** C24: what goes out is whole commands, each one submitted.  Over the life of a
    session the packets written are, call by call and in order, the complete
    fragmentations of the commands its queue transmits, at the packet size then in
    force, packets of different commands never interleaved, and none missing.  Up to
    any point these commands are among
    those submitted so far (a tick submits at most its keep-alive), with their
    channels and their bytes, none more often than it was submitted.  A receiver on
    the channel, whatever it was doing, gets exactly the command, if that is of a
    length the framing can express; a longer one writes nothing. *)
Theorem writes_are_framed h cfg cs :
  Forall api_ok cs -> has_write h = true -> (kMinAttPayload <= att_payload cfg)%nat ->
  let sent := transmitted_all (BleSession_init h cfg) cs in
    writes (run_events (api_all cs) (BleSession_init h cfg)) =
      concat (zip_with (fun n commands => concat (packets n <$> commands))
                (sizes (att_payload cfg) cs) sent) /\
    (forall k, concat (firstn k sent) ⊆+ concat (commands_of <$> firstn k cs)) /\
    (forall n ch m, n ∈ sizes (att_payload cfg) cs -> (ch, m) ∈ concat sent ->
       if (length m <=? kMaxMessageLen)%nat
       then forall r, receive_all r (fragment m n) = (Reassembler_init, [m])
       else fragment m n = []).
Proof.
  intros Hok Hw Hatt.
  destruct (all_commands cs (BleSession_init h cfg) Hok (init_session_ok h cfg) Hw) as (W & Sub & Wf).
  cbv zeta. split_and!.
  - exact W.
  - intros k. specialize (Sub k). change (waiting_commands (BleSession_init h cfg)) with (@nil (Channel * bytes)) in Sub.
    by rewrite app_nil_r in Sub.
  - intros n ch m Hn Hm. rewrite Forall_forall in Wf. destruct (Wf _ Hm) as (Hc & Hb & Hne). cbn [fst snd] in *.
    pose proof (sizes_bound cs _ Hatt) as Hs. rewrite Forall_forall in Hs. specialize (Hs n Hn).
    destruct (length m <=? kMaxMessageLen)%nat eqn:E.
    + apply Nat.leb_le in E. intros r. apply accepts_receive_all, well_framed_accepted; [by apply fragment_bytes_ok|].
      apply fragment_well_framed; [done..|]. rewrite length_first_hdr.
      unfold kMinAttPayload in Hs. destruct (_ <? _); lia.
    + apply Nat.leb_gt in E. unfold fragment. by rewrite (proj2 (Nat.ltb_lt _ _) E), orb_true_r.
Qed.

(** A command is cut at the packet size set before it; a keep-alive follows. *)
Definition framed_calls : list api_call :=
  [SetAttPayload 23; SubmitCommand kQuery (83 :: repeat 7 40) kFastpass 9; TickSession 10; TickSession 4000].

Lemma writes_are_framed_witness :
  let sent := transmitted_all (BleSession_init all_handlers SessionConfig_default) framed_calls in
    writes (run_events (api_all framed_calls) (BleSession_init all_handlers SessionConfig_default)) =
      concat (zip_with (fun n commands => concat (packets n <$> commands)) [20; 23; 23; 23]%nat sent) /\
    concat sent ⊆+ [(kQuery, 83 :: repeat 7 40); (kSettings, [91; 1; 66]); (kSettings, [91; 1; 66])].
Proof.
  destruct (writes_are_framed all_handlers SessionConfig_default framed_calls) as (W & Sub & _).
  - unfold framed_calls. repeat apply Forall_cons_2; try exact I; [|apply Forall_nil_2].
    split; [unfold channel_ok, kQuery, kChannelCount; lia|]. repeat constructor; unfold byte_ok; lia.
  - reflexivity.
  - vm_compute. lia.
  - split; [exact W|]. specialize (Sub 4%nat). by rewrite firstn_all2 in Sub by (rewrite length_transmitted_all; cbn; lia).
Defined.

(** ** What modelling showed *)

(** A reply to a plain command opens the ready gate when its leading byte looks
    like a status query's: [deliver] folds readiness from every channel. *)
Example gate_opened_from_command_channel :
  let s := run_state (submit kCommand [19; 1] kFastpass 0) (BleSession_init all_handlers SessionConfig_default) in
  run_events (feed kCommand [8; 19; 0; 8; 1; 0; 10; 1; 0] 1) s =
    [SResponse 19 kResponded [19; 0; 8; 1; 0; 10; 1; 0]; SReady true].
Proof. vm_compute. reflexivity. Qed.

(** A one-byte and a two-byte id can be in flight together, and one reply fits
    both; the protobuf command takes it. *)
Example both_widths_in_flight :
  let s := run_state (api_all [SubmitCommand kNetwork [2; 9] kFastpass 0;
                               SubmitProtobuf kNetwork 2 5 [] kFastpass 0])
             (BleSession_init all_handlers SessionConfig_default) in
  (fun e => CommandQueue.id e) <$> in_flight_ (queue_ s) =
    [correlation_of kNetwork 2; correlation_of_protobuf kNetwork 2 5] /\
  run_events (feed kNetwork [3; 2; 133; 0] 1) s =
    [SResponse (correlation_of_protobuf kNetwork 2 5) kResponded [2; 133; 0]].
Proof. vm_compute. done. Qed.

(** A command longer than the framing can express is accepted, occupies its id,
    writes nothing, and ends as a time-out. *)
Example oversized_command_times_out :
  let s := BleSession_init all_handlers SessionConfig_default in
  let m := 7 :: repeat 0 65534 in
  (submit kCommand m kFastpass 0 s).1.1 = true /\
  run_events (submit kCommand m kFastpass 0) s = [] /\
  run_events (tick 5000) (run_state (submit kCommand m kFastpass 0) s) =
    [SResponse 7 kTimedOut []].
Proof. vm_compute. done. Qed.
