(* ===== verification/BleLink.v ===== *)
(** * The BLE connection state machine
    ([native/include/ble_link.h], [native/src/ble_link.cpp])

    [LinkMachine] names the stages between "a camera is advertising" and "its
    control plane is usable", says what to do at each, notices when one stalls,
    and spaces the retries.  The caller supplies what it observes and the time;
    times are [uint64_t], durations and counters [uint32_t], and their
    arithmetic wraps as the code's does. *)

From stdpp Require Import strings.
From S2P Require Import Prelude.
Local Open Scope Z_scope.

(** ** The enumerations *)

Module LinkState.
Inductive t := kAbsent | kAdvertising | kConnected | kServicesResolved | kEncrypted | kReady.

#[global] Instance eq_dec : EqDecision t.
Proof. solve_decision. Defined.

(** The underlying [uint8_t]. *)
Definition val (s : t) : Z :=
  match s with
  | kAbsent => 0 | kAdvertising => 1 | kConnected => 2
  | kServicesResolved => 3 | kEncrypted => 4 | kReady => 5
  end.

Definition to_string (s : t) : string :=
  match s with
  | kAbsent => "absent"
  | kAdvertising => "advertising"
  | kConnected => "connected"
  | kServicesResolved => "services-resolved"
  | kEncrypted => "encrypted"
  | kReady => "ready"
  end.
End LinkState.

Module LinkAction.
Inductive t := kNone | kScan | kDisconnectClassic | kConnect | kWaitForServices | kPair | kSubscribe.

#[global] Instance eq_dec : EqDecision t.
Proof. solve_decision. Defined.

Definition val (a : t) : Z :=
  match a with
  | kNone => 0 | kScan => 1 | kDisconnectClassic => 2 | kConnect => 3
  | kWaitForServices => 4 | kPair => 5 | kSubscribe => 6
  end.

Definition to_string (a : t) : string :=
  match a with
  | kNone => "none"
  | kScan => "scan"
  | kDisconnectClassic => "disconnect-classic"
  | kConnect => "connect"
  | kWaitForServices => "wait-for-services"
  | kPair => "pair"
  | kSubscribe => "subscribe"
  end.
End LinkAction.

Module StallReason.
Inductive t :=
| kNone | kNoAdvertisement | kClassicBlocking | kConnectFailed
| kServicesNeverAppeared | kWrongDevice | kNotEncrypted | kSubscribeFailed.

#[global] Instance eq_dec : EqDecision t.
Proof. solve_decision. Defined.

Definition val (r : t) : Z :=
  match r with
  | kNone => 0 | kNoAdvertisement => 1 | kClassicBlocking => 2 | kConnectFailed => 3
  | kServicesNeverAppeared => 4 | kWrongDevice => 5 | kNotEncrypted => 6 | kSubscribeFailed => 7
  end.

Definition to_string (r : t) : string :=
  match r with
  | kNone => "none"
  | kNoAdvertisement => "no-advertisement"
  | kClassicBlocking => "classic-blocking"
  | kConnectFailed => "connect-failed"
  | kServicesNeverAppeared => "services-never-appeared"
  | kWrongDevice => "wrong-device"
  | kNotEncrypted => "not-encrypted"
  | kSubscribeFailed => "subscribe-failed"
  end.
End StallReason.

Import LinkState (kAbsent, kAdvertising, kConnected, kServicesResolved, kEncrypted, kReady).

(** ** The data *)

Record LinkObservation := mkObservation {
  le_candidate_present : bool;
  classic_link_up : bool;
  connected : bool;
  bonded_flag : bool;
  attribute_count : Z;
  control_chars_found : bool;
  notify_succeeded : bool;
  subscribed_count : Z;
  required_subscriptions : Z;
}.

(** The members' initialisers. *)
Definition LinkObservation_default : LinkObservation :=
  mkObservation false false false false 0 false false 0 1.

Record LinkAdvice := mkAdvice {
  state : LinkState.t;
  action : LinkAction.t;
  stall : StallReason.t;
  detail : string;
  retry_at_ms : Z;
}.

Record LinkConfig := mkLinkConfig {
  connect_timeout_ms : Z;
  services_timeout_ms : Z;
  encrypt_timeout_ms : Z;
  subscribe_timeout_ms : Z;
  backoff_initial_ms : Z;
  backoff_max_ms : Z;
}.

Definition LinkConfig_default : LinkConfig := mkLinkConfig 10000 15000 60000 10000 1000 30000.

Record LinkMachine := mkLinkMachine {
  cfg_ : LinkConfig;
  state_ : LinkState.t;
  state_since_ms_ : Z;
  last_failure_ms_ : Z;
  attempts_ : Z;
  seen_bonded_without_encryption_ : bool;
}.

Definition LinkMachine_init (cfg : LinkConfig) : LinkMachine :=
  mkLinkMachine cfg kAbsent 0 0 0 false.

Definition reset (m : LinkMachine) : LinkMachine := LinkMachine_init (cfg_ m).

(** ** Backoff *)

(** The [for] loop of [backoff_ms], [n] iterations left. *)
Fixpoint backoff_loop (n : nat) (max ms : Z) : Z :=
  match n with
  | O => ms
  | S n => if ms <? max then backoff_loop n max (wrap 64 (ms * 2)) else ms
  end.

Definition backoff_ms (m : LinkMachine) : Z :=
  if attempts_ m =? 0 then 0
  else
    wrap 32 (Z.min (backoff_loop (Z.to_nat (attempts_ m - 1)) (backoff_max_ms (cfg_ m))
                      (backoff_initial_ms (cfg_ m)))
                   (backoff_max_ms (cfg_ m))).

Definition note_attempt_failed (m : LinkMachine) (now_ms : Z) : LinkMachine :=
  mkLinkMachine (cfg_ m) (state_ m) (state_since_ms_ m) now_ms (wrap 32 (attempts_ m + 1))
    (seen_bonded_without_encryption_ m).

(** ** Stages *)

Definition classify (obs : LinkObservation) : LinkState.t :=
  if negb (connected obs) then
    if le_candidate_present obs then kAdvertising else kAbsent
  else if (attribute_count obs =? 0) || negb (control_chars_found obs) then kConnected
  else if negb (notify_succeeded obs) then kServicesResolved
  else if subscribed_count obs <? required_subscriptions obs then kEncrypted
  else kReady.

(** The [if (next != state_)] block. *)
Definition enter (m : LinkMachine) (next : LinkState.t) (now_ms : Z) : LinkMachine :=
  if bool_decide (next = state_ m) then m
  else mkLinkMachine (cfg_ m) next now_ms 0 0 (seen_bonded_without_encryption_ m).

Definition note_bond (m : LinkMachine) (obs : LinkObservation) : LinkMachine :=
  if bonded_flag obs && negb (notify_succeeded obs) && bool_decide (state_ m = kServicesResolved)
  then mkLinkMachine (cfg_ m) (state_ m) (state_since_ms_ m) (last_failure_ms_ m) (attempts_ m) true
  else m.

(** The messages, word for word. *)
Definition dquote : string := String (Ascii.ascii_of_nat 34) EmptyString.

Definition detail_classic : string :=
  "A BR-EDR link to this camera is up. Classic suppresses LE " +:+
  "advertising, so the LE transport cannot be found until it is " +:+
  "disconnected. Removing the Classic bond stops it reconnecting.".

Definition detail_no_advertisement : string :=
  "Nothing advertising the Control & Query service. The camera is " +:+
  "asleep, powered off, or has wireless disabled.".

Definition detail_connect_failed : string :=
  "The LE link is not establishing. Aborts during service discovery " +:+
  "(le-connection-abort-by-local) are typical when the camera is " +:+
  "dropping the link.".

Definition detail_wrong_device : string :=
  "Attributes are exposed but the Control & Query characteristics " +:+
  "are absent. This is probably the BR-EDR object rather than the " +:+
  "LE one -- check the address type.".

Definition detail_no_services : string :=
  "Connected but no GATT attributes appeared. Note that BlueZ may " +:+
  "report ServicesResolved=true regardless; the attribute count is " +:+
  "the reliable signal. A disconnect and reconnect usually clears " +:+
  "it.".

Definition detail_bonded : string :=
  "Discovery works but StartNotify is refused. The Bonded flag " +:+
  "is set, which is misleading -- a BR-EDR bond does not " +:+
  "encrypt the LE link. An LE bond is required: put the camera " +:+
  "in pairing mode and pair the random-address device.".

Definition detail_not_paired : string :=
  "Discovery works but StartNotify is refused (" +:+ dquote +:+ "Not " +:+
  "paired" +:+ dquote +:+ "). " +:+
  "The Control & Query characteristics need an encrypted link. " +:+
  "Put the camera in pairing mode and pair over LE.".

Definition detail_subscribe_failed : string :=
  "The link is encrypted but not every required characteristic is " +:+
  "subscribed.".

(** The [switch]: action, stall and its message, for a machine that has folded
    the observation in and has been [in_state] milliseconds in its stage. *)
Definition advise (m : LinkMachine) (obs : LinkObservation) (in_state : Z)
    : LinkAction.t * StallReason.t * string :=
  match state_ m with
  | kAbsent =>
      if classic_link_up obs then
        (LinkAction.kDisconnectClassic, StallReason.kClassicBlocking, detail_classic)
      else if connect_timeout_ms (cfg_ m) <=? in_state then
        (LinkAction.kScan, StallReason.kNoAdvertisement, detail_no_advertisement)
      else (LinkAction.kScan, StallReason.kNone, EmptyString)
  | kAdvertising =>
      if (0 <? attempts_ m) && (connect_timeout_ms (cfg_ m) <=? in_state) then
        (LinkAction.kConnect, StallReason.kConnectFailed, detail_connect_failed)
      else (LinkAction.kConnect, StallReason.kNone, EmptyString)
  | kConnected =>
      if services_timeout_ms (cfg_ m) <=? in_state then
        if (0 <? attribute_count obs) && negb (control_chars_found obs) then
          (LinkAction.kWaitForServices, StallReason.kWrongDevice, detail_wrong_device)
        else (LinkAction.kWaitForServices, StallReason.kServicesNeverAppeared, detail_no_services)
      else (LinkAction.kWaitForServices, StallReason.kNone, EmptyString)
  | kServicesResolved =>
      if encrypt_timeout_ms (cfg_ m) <=? in_state then
        (LinkAction.kPair, StallReason.kNotEncrypted,
         if seen_bonded_without_encryption_ m then detail_bonded else detail_not_paired)
      else (LinkAction.kPair, StallReason.kNone, EmptyString)
  | kEncrypted =>
      if subscribe_timeout_ms (cfg_ m) <=? in_state then
        (LinkAction.kSubscribe, StallReason.kSubscribeFailed, detail_subscribe_failed)
      else (LinkAction.kSubscribe, StallReason.kNone, EmptyString)
  | kReady => (LinkAction.kNone, StallReason.kNone, EmptyString)
  end.

Definition retry_at (m : LinkMachine) : Z :=
  match state_ m with
  | kReady => 0
  | _ => if 0 <? attempts_ m then u64_add (last_failure_ms_ m) (backoff_ms m) else 0
  end.

Definition fold_observation (m : LinkMachine) (obs : LinkObservation) (now_ms : Z) : LinkMachine :=
  note_bond (enter m (classify obs) now_ms) obs.

Definition update (m : LinkMachine) (obs : LinkObservation) (now_ms : Z) : LinkMachine * LinkAdvice :=
  let m := fold_observation m obs now_ms in
  let '(a, r, d) := advise m obs (u64_sub now_ms (state_since_ms_ m)) in
  (m, mkAdvice (state_ m) a r d (retry_at m)).

(** Accessors: [state()] is [state_], [attempts()] is [attempts_]. *)

(** ** Runs *)

Inductive link_call :=
| Update (obs : LinkObservation) (now_ms : Z)
| AttemptFailed (now_ms : Z)
| ResetLink.

Definition exec_link (m : LinkMachine) (c : link_call) : LinkMachine * list LinkAdvice :=
  match c with
  | Update obs now => let '(m', a) := update m obs now in (m', [a])
  | AttemptFailed now => (note_attempt_failed m now, [])
  | ResetLink => (reset m, [])
  end.

Fixpoint run_link (m : LinkMachine) (cs : list link_call) : LinkMachine * list LinkAdvice :=
  match cs with
  | [] => (m, [])
  | c :: cs =>
      let '(m1, a1) := exec_link m c in
      let '(m2, a2) := run_link m1 cs in (m2, a1 ++ a2)
  end.

(** ** What the machine promises *)

(** The stage an observation proves, stated without reference to the code's
    order of tests. *)
Definition stage_holds (obs : LinkObservation) (s : LinkState.t) : Prop :=
  let discovered := attribute_count obs <> 0 /\ control_chars_found obs = true in
  match s with
  | kAbsent => connected obs = false /\ le_candidate_present obs = false
  | kAdvertising => connected obs = false /\ le_candidate_present obs = true
  | kConnected => connected obs = true /\ ~ discovered
  | kServicesResolved => connected obs = true /\ discovered /\ notify_succeeded obs = false
  | kEncrypted => connected obs = true /\ discovered /\ notify_succeeded obs = true /\
      subscribed_count obs < required_subscriptions obs
  | kReady => connected obs = true /\ discovered /\ notify_succeeded obs = true /\
      required_subscriptions obs <= subscribed_count obs
  end.

(** How long a stage may last before it is a stall; [None] for the ready stage,
    which never is. *)
Definition stage_timeout (cfg : LinkConfig) (s : LinkState.t) : option Z :=
  match s with
  | kAbsent | kAdvertising => Some (connect_timeout_ms cfg)
  | kConnected => Some (services_timeout_ms cfg)
  | kServicesResolved => Some (encrypt_timeout_ms cfg)
  | kEncrypted => Some (subscribe_timeout_ms cfg)
  | kReady => None
  end.

(** The machine's clock and counters after a history of calls (most recent
    last): when the current stage began, and the failures recorded since. *)
Record stage_history := mkHistory {
  h_state : LinkState.t;
  h_since : Z;
  h_failures : list Z;  (** most recent first *)
}.

Definition history_step (h : stage_history) (c : link_call) : stage_history :=
  match c with
  | Update obs now =>
      if bool_decide (classify obs = h_state h) then h else mkHistory (classify obs) now []
  | AttemptFailed now => mkHistory (h_state h) (h_since h) (now :: h_failures h)
  | ResetLink => mkHistory kAbsent 0 []
  end.

Definition history (cs : list link_call) : stage_history :=
  foldl history_step (mkHistory kAbsent 0 []) cs.

(** ** Lemmas *)

Lemma classify_spec obs s : classify obs = s <-> stage_holds obs s.
Proof.
  unfold classify, stage_holds.
  destruct (connected obs), (le_candidate_present obs), (control_chars_found obs),
    (notify_succeeded obs); cbn;
    destruct (attribute_count obs =? 0) eqn:Ea; cbn; to_prop;
    destruct (subscribed_count obs <? required_subscriptions obs) eqn:Es; cbn; to_prop;
    destruct s; split; intros H; try done; try (destruct_and?; done || lia);
    split_and?; try done; try lia; try (intros [? ?]; done).
Qed.

Lemma backoff_loop_min n max ms :
  0 <= ms -> 0 <= max < 2 ^ 32 ->
  Z.min (backoff_loop n max ms) max = Z.min (ms * 2 ^ Z.of_nat n) max.
Proof.
  intros H0 Hmax. revert ms H0. induction n as [|n IH]; intros ms H0; cbn [backoff_loop].
  { rewrite Z.pow_0_r. f_equal. lia. }
  assert (0 < 2 ^ Z.of_nat n) by (apply Z.pow_pos_nonneg; lia).
  rewrite Nat2Z.inj_succ, Z.pow_succ_r by lia.
  destruct (ms <? max) eqn:E; to_prop.
  - rewrite wrap_small by lia. rewrite IH by lia. f_equal. lia.
  - rewrite !Z.min_r; [done| |lia]. nia.
Qed.

Lemma machine_after cs : forall cfg h m,
  cfg_ m = cfg -> state_ m = h_state h -> state_since_ms_ m = h_since h ->
  attempts_ m = wrap 32 (Z.of_nat (length (h_failures h))) ->
  last_failure_ms_ m = hd 0 (h_failures h) ->
  let m' := (run_link m cs).1 in
  let h' := foldl history_step h cs in
  cfg_ m' = cfg /\ state_ m' = h_state h' /\ state_since_ms_ m' = h_since h' /\
  attempts_ m' = wrap 32 (Z.of_nat (length (h_failures h'))) /\
  last_failure_ms_ m' = hd 0 (h_failures h').
Proof.
  induction cs as [|c cs IH]; intros cfg h m H1 H2 H3 H4 H5; [done|].
  cbn [run_link foldl]. destruct (exec_link m c) as [m1 a1] eqn:E.
  specialize (IH cfg (history_step h c) m1).
  destruct (run_link m1 cs) as [m2 a2]. cbn [fst] in *.
  assert (m1 = (exec_link m c).1) as -> by by rewrite E. clear E.
  destruct c as [obs now|now|]; cbn [exec_link history_step] in *.
  - assert ((let '(m', a) := update m obs now in (m', [a])).1 = fold_observation m obs now) as Hm.
    { unfold update. by destruct (advise _ _ _) as [[? ?] ?]. }
    rewrite Hm in IH. unfold fold_observation, note_bond, enter in IH. rewrite H2 in IH.
    destruct (bool_decide (classify obs = h_state h)); apply IH; by destruct (_ && _).
  - apply IH; cbn; try done. rewrite H4. unfold wrap. lia.
  - apply IH; done.
Qed.

Lemma update_machine m obs now : (update m obs now).1 = fold_observation m obs now.
Proof. unfold update. by destruct (advise _ _ _) as [[? ?] ?]. Qed.

Lemma fold_observation_state m obs now : state_ (fold_observation m obs now) = classify obs.
Proof.
  unfold fold_observation, note_bond, enter.
  destruct (bool_decide (classify obs = state_ m)) eqn:E; to_prop; destruct (_ && _); done.
Qed.

Lemma update_advice m obs now :
  let m' := fold_observation m obs now in
  let a := advise m' obs (u64_sub now (state_since_ms_ m')) in
  (update m obs now).2 = mkAdvice (classify obs) a.1.1 a.1.2 a.2 (retry_at m').
Proof.
  cbv zeta. unfold update.
  destruct (advise _ _ _) as [[? ?] ?]. cbn. by rewrite fold_observation_state.
Qed.

(** What a machine built by [cs] looks like once it has folded [obs] in. *)
Lemma folded_after cfg cs obs now :
  let m := fold_observation (run_link (LinkMachine_init cfg) cs).1 obs now in
  let h := history (cs ++ [Update obs now]) in
  cfg_ m = cfg /\ state_ m = h_state h /\ state_since_ms_ m = h_since h /\
  attempts_ m = wrap 32 (Z.of_nat (length (h_failures h))) /\
  last_failure_ms_ m = hd 0 (h_failures h).
Proof.
  cbv zeta.
  assert (forall m, (run_link m (cs ++ [Update obs now])).1 = fold_observation (run_link m cs).1 obs now) as H.
  { induction cs as [|c cs IH]; intros m; cbn [app run_link exec_link].
    - pose proof (update_machine m obs now) as H. by destruct (update m obs now).
    - destruct (exec_link m c) as [m1 a1]. specialize (IH m1).
      destruct (run_link m1 (cs ++ _)), (run_link m1 cs). exact IH. }
  rewrite <- H. by apply machine_after.
Qed.

Lemma failures_bounded cs : (length (h_failures (history cs)) <= length cs)%nat.
Proof.
  unfold history. induction cs as [|c cs IH] using rev_ind; [done|].
  rewrite foldl_app, length_app. cbn [foldl length].
  destruct c; cbn; [destruct (bool_decide _); cbn|..]; lia.
Qed.

Lemma history_state cs obs now : h_state (history (cs ++ [Update obs now])) = classify obs.
Proof.
  unfold history. rewrite foldl_app. cbn. by destruct (bool_decide _) eqn:E; to_prop.
Qed.

Definition u32_config (cfg : LinkConfig) : Prop :=
  in_range 32 (connect_timeout_ms cfg) /\ in_range 32 (services_timeout_ms cfg) /\
  in_range 32 (encrypt_timeout_ms cfg) /\ in_range 32 (subscribe_timeout_ms cfg) /\
  in_range 32 (backoff_initial_ms cfg) /\ in_range 32 (backoff_max_ms cfg).

Lemma backoff_closed m :
  u32_config (cfg_ m) -> 0 < attempts_ m ->
  backoff_ms m = Z.min (backoff_initial_ms (cfg_ m) * 2 ^ (attempts_ m - 1)) (backoff_max_ms (cfg_ m)).
Proof.
  intros (_ & _ & _ & _ & Hi & Hmax) Ha. unfold in_range in *. unfold backoff_ms.
  destruct (attempts_ m =? 0) eqn:E; to_prop; [lia|].
  rewrite backoff_loop_min by lia. rewrite Z2Nat.id by lia.
  apply wrap_small. assert (0 < 2 ^ (attempts_ m - 1)) by (apply Z.pow_pos_nonneg; lia). nia.
Qed.

(** Two machines, and two observations, that differ in nothing but the bond. *)
Definition forget_bond (m : LinkMachine) : LinkMachine :=
  mkLinkMachine (cfg_ m) (state_ m) (state_since_ms_ m) (last_failure_ms_ m) (attempts_ m) false.

Definition unbonded (obs : LinkObservation) : LinkObservation :=
  mkObservation (le_candidate_present obs) (classic_link_up obs) (connected obs) false
    (attribute_count obs) (control_chars_found obs) (notify_succeeded obs)
    (subscribed_count obs) (required_subscriptions obs).

Definition without_bond (c : link_call) : link_call :=
  match c with Update obs now => Update (unbonded obs) now | c => c end.

(** Everything in an advice except the wording. *)
Definition verdict (a : LinkAdvice) : LinkState.t * LinkAction.t * StallReason.t * Z :=
  (state a, action a, stall a, retry_at_ms a).

Lemma advise_without_bond m obs t :
  (advise (forget_bond m) (unbonded obs) t).1 = (advise m obs t).1.
Proof. unfold advise; cbn. repeat split_match; done. Qed.

Lemma exec_without_bond m m' c :
  forget_bond m = forget_bond m' ->
  forget_bond (exec_link m c).1 = forget_bond (exec_link m' (without_bond c)).1 /\
  verdict <$> (exec_link m c).2 = verdict <$> (exec_link m' (without_bond c)).2.
Proof.
  intros Hm. assert (forall m, forget_bond (forget_bond m) = forget_bond m) as Hff by done.
  destruct m as [cf s since lf att seen], m' as [cf' s' since' lf' att' seen'].
  injection Hm as <- <- <- <- <-. destruct c as [obs now|now|]; cbn [exec_link without_bond]; try done.
  set (m := mkLinkMachine cf s since lf att seen). set (m' := mkLinkMachine cf s since lf att seen').
  assert (forget_bond (fold_observation m obs now) =
          forget_bond (fold_observation m' (unbonded obs) now)) as Hf.
  { unfold fold_observation, note_bond, enter. cbn [unbonded bonded_flag andb].
    change (classify (unbonded obs)) with (classify obs). subst m m'. cbn [state_].
    destruct (bool_decide (classify obs = s)); destruct (_ && _); done. }
  unfold update. pose proof (advise_without_bond (fold_observation m obs now) obs) as H1.
  pose proof (advise_without_bond (fold_observation m' (unbonded obs) now) (unbonded obs)) as H2.
  change (unbonded (unbonded obs)) with (unbonded obs) in H2. rewrite <- Hf in H2.
  assert (state_since_ms_ (fold_observation m obs now) =
          state_since_ms_ (fold_observation m' (unbonded obs) now)) as Hs by exact (f_equal state_since_ms_ Hf).
  rewrite <- Hs in *. specialize (H1 (u64_sub now (state_since_ms_ (fold_observation m obs now)))).
  specialize (H2 (u64_sub now (state_since_ms_ (fold_observation m obs now)))). rewrite H1 in H2.
  destruct (advise (fold_observation m obs now) obs _) as [[a r] d].
  destruct (advise (fold_observation m' (unbonded obs) now) _ _) as [[a' r'] d'].
  cbn in H2. injection H2 as <- <-. split; [exact Hf|]. unfold verdict; cbn -[fold_observation].
  assert (retry_at (fold_observation m obs now) = retry_at (fold_observation m' (unbonded obs) now)) as ->.
  { change (retry_at (forget_bond (fold_observation m obs now)) =
            retry_at (forget_bond (fold_observation m' (unbonded obs) now))). by rewrite Hf. }
  by rewrite !fold_observation_state.
Qed.

(** ** Properties *)

(** The stage.  Whatever came before, an update reports the stage its
    observation proves, and only that one: ready means connected, attributes
    actually exposed with the control characteristics among them, a
    notification subscribed, and every required subscription in place. *)
Theorem link_stage m obs now s : state (update m obs now).2 = s <-> stage_holds obs s.
Proof. rewrite update_advice. apply classify_spec. Qed.

(** Stalls.  After any history of calls, an update reports a stall exactly
    when the stage it is in has lasted its time-out — counted from the update
    that entered the stage — or a Classic link blocks advertising; connecting
    stalls only if an attempt has failed.  An explanation is given exactly
    with a stall. *)
Theorem link_stall cfg cs obs now :
  Z.of_nat (length cs) < 2 ^ 32 - 1 ->
  let adv := (update (run_link (LinkMachine_init cfg) cs).1 obs now).2 in
  let h := history (cs ++ [Update obs now]) in
  let late := exists t, stage_timeout cfg (h_state h) = Some t /\ t <= u64_sub now (h_since h) in
  (stall adv <> StallReason.kNone <->
     match h_state h with
     | kAbsent => classic_link_up obs = true \/ late
     | kAdvertising => h_failures h <> [] /\ late
     | _ => late
     end) /\
  (detail adv = EmptyString <-> stall adv = StallReason.kNone).
Proof.
  intros Hlen adv h late. subst adv.
  rewrite update_advice. cbn [stall detail].
  destruct (folded_after cfg cs obs now) as (H1 & H2 & H3 & H4 & _). fold h in H2, H3, H4.
  pose proof (failures_bounded (cs ++ [Update obs now])) as Hb. fold h in Hb.
  rewrite length_app in Hb. cbn [length] in Hb. rewrite wrap_small in H4 by lia.
  set (m := fold_observation _ obs now) in *. rewrite H3. unfold late. clear late.
  unfold advise. rewrite H1, H2, H4. set (t := u64_sub now (h_since h)).
  assert (forall x, (exists y, Some x = Some y /\ y <= t) <-> x <= t) as Hlate.
  { intros x. split; [by intros (y & [= ->] & ?)|by exists x]. }
  assert (0 <? Z.of_nat (length (h_failures h)) = negb (bool_decide (h_failures h = []))) as ->
    by by destruct (h_failures h).
  destruct (h_state h); cbn [stage_timeout]; rewrite ?Hlate; try done.
  - destruct (classic_link_up obs); [by intuition|]. destruct (_ <=? t) eqn:E; to_prop; cbn; intuition (done || lia).
  - destruct (bool_decide _) eqn:Ef; to_prop; cbn; [by intuition|].
    destruct (_ <=? t) eqn:E; to_prop; cbn; intuition (done || lia).
  - destruct (_ <=? t) eqn:E; to_prop; [destruct (_ && _)|]; cbn; intuition (done || lia).
  - destruct (_ <=? t) eqn:E; to_prop; [destruct (seen_bonded_without_encryption_ m)|];
      cbn; intuition (done || lia).
  - destruct (_ <=? t) eqn:E; to_prop; cbn; intuition (done || lia).
  - cbn. split; [|done]. split; [done|by intros (? & ? & ?)].
Qed.

(** The link up and discovered, but not encrypted. *)
Definition unencrypted : LinkObservation := mkObservation true false true true 34 true false 0 1.

Definition pairing_history : list link_call :=
  [Update (mkObservation true false false false 0 false false 0 1) 100;
   Update unencrypted 500; AttemptFailed 900; AttemptFailed 2500; Update unencrypted 3000].

Lemma link_stall_witness :
  stall (update (run_link (LinkMachine_init LinkConfig_default) pairing_history).1 unencrypted 60499).2
    = StallReason.kNone /\
  stall (update (run_link (LinkMachine_init LinkConfig_default) pairing_history).1 unencrypted 60500).2
    <> StallReason.kNone.
Proof.
  split.
  - apply (proj2 (link_stall LinkConfig_default pairing_history unencrypted 60499 eq_refl)).
    vm_compute. reflexivity.
  - apply (proj1 (link_stall LinkConfig_default pairing_history unencrypted 60500 eq_refl)).
    exists 60000. split; [reflexivity|]. vm_compute. discriminate.
Defined.

(** Retries.  After any history of calls, with [n] failures recorded since
    the stage began, the retry time is "now" if [n] is zero or the link is
    ready, and otherwise the last failure plus the initial backoff doubled
    [n - 1] times, capped at the maximum. *)
Theorem link_retry cfg cs obs now :
  u32_config cfg -> Z.of_nat (length cs) < 2 ^ 32 - 1 ->
  let h := history (cs ++ [Update obs now]) in
  let n := Z.of_nat (length (h_failures h)) in
  retry_at_ms (update (run_link (LinkMachine_init cfg) cs).1 obs now).2 =
    match h_failures h with
    | [] => 0
    | last :: _ =>
        if bool_decide (h_state h = kReady) then 0
        else u64_add last (Z.min (backoff_initial_ms cfg * 2 ^ (n - 1)) (backoff_max_ms cfg))
    end.
Proof.
  intros Hcfg Hlen h n. rewrite update_advice. cbn [retry_at_ms].
  destruct (folded_after cfg cs obs now) as (H1 & H2 & _ & H4 & H5). fold h in H2, H4, H5.
  pose proof (failures_bounded (cs ++ [Update obs now])) as Hb. fold h in Hb.
  rewrite length_app in Hb. cbn [length] in Hb. fold n in H4. rewrite wrap_small in H4 by lia.
  unfold retry_at. set (m := fold_observation _ obs now) in *. rewrite H2, H5.
  destruct (h_failures h) as [|last l] eqn:Ef; cbn in n; subst n; rewrite H4.
  { by destruct (h_state h). }
  rewrite backoff_closed by (rewrite ?H1, ?H4; done || lia). rewrite H1, H4. cbn [hd].
  destruct (0 <? _) eqn:E; to_prop; [|lia].
  by destruct (bool_decide (h_state h = kReady)) eqn:Es; to_prop; destruct (h_state h).
Qed.

Lemma link_retry_witness :
  retry_at_ms (update (run_link (LinkMachine_init LinkConfig_default) pairing_history).1 unencrypted 3001).2
    = 4500.
Proof.
  refine (eq_trans (link_retry LinkConfig_default pairing_history unencrypted 3001 _ eq_refl) _).
  - unfold u32_config, in_range; cbn; lia.
  - vm_compute. reflexivity.
Defined.

(** The bond flag never gates.  Over any sequence of calls, hiding BlueZ's
    bonded flag from the machine changes no stage, no action, no stall and no
    retry time: only the wording of an explanation can depend on it. *)
Theorem bonded_never_gates cfg cs :
  verdict <$> (run_link (LinkMachine_init cfg) cs).2 =
  verdict <$> (run_link (LinkMachine_init cfg) (without_bond <$> cs)).2.
Proof.
  assert (forall m m', forget_bond m = forget_bond m' ->
    verdict <$> (run_link m cs).2 = verdict <$> (run_link m' (without_bond <$> cs)).2) as H.
  2: { by apply H. }
  induction cs as [|c cs IH]; intros m m' Hm; [done|]. cbn [fmap list_fmap run_link].
  destruct (exec_without_bond m m' c Hm) as [H1 H2].
  destruct (exec_link m c) as [m1 a1], (exec_link m' (without_bond c)) as [m1' a1'].
  specialize (IH m1 m1' H1). fold (fmap without_bond cs) in *. cbn in H2.
  destruct (run_link m1 cs), (run_link m1' (without_bond <$> cs)). cbn [snd] in *.
  by rewrite !fmap_app, H2, IH.
Qed.

(** The stage clock starts at zero, not at the first update.  A fresh (or
    reset) machine whose first observation is an absent camera reports it
    asleep at once if the caller's clock has passed the time-out; and a clock
    that has run backwards past the start of the stage has the same effect,
    because the elapsed time wraps. *)
Theorem stage_clock_origin cfg m obs now :
  u32_config cfg -> cfg_ m = cfg -> stage_holds obs kAbsent -> classic_link_up obs = false ->
  (stall (update (LinkMachine_init cfg) obs now).2 = StallReason.kNoAdvertisement <->
     connect_timeout_ms cfg <= u64_sub now 0) /\
  (state_ m = kAbsent -> 0 <= now < state_since_ms_ m -> state_since_ms_ m < 2 ^ 64 - 2 ^ 32 ->
   stall (update m obs now).2 = StallReason.kNoAdvertisement).
Proof.
  intros Hcfg Hm Hobs Hcl. rewrite !update_advice. cbn [stall].
  apply classify_spec in Hobs. unfold fold_observation, enter, note_bond. rewrite Hobs.
  cbn [state_ LinkMachine_init]. rewrite (bool_decide_eq_true_2 (kAbsent = kAbsent)) by done.
  rewrite !(bool_decide_eq_false_2 (kAbsent = kServicesResolved)) by done. rewrite !andb_false_r.
  split.
  - unfold advise. cbn -[u64_sub]. rewrite Hcl. destruct (_ <=? _) eqn:E; to_prop; cbn; intuition (done || lia).
  - intros Hs Hlt Hsm. rewrite Hs, (bool_decide_eq_true_2 (kAbsent = kAbsent)) by done.
    rewrite Hs, !(bool_decide_eq_false_2 (kAbsent = kServicesResolved)) by done. rewrite !andb_false_r.
    unfold advise. rewrite Hs, Hcl, Hm, u64_sub_backwards by lia.
    destruct Hcfg as [Hc _]. unfold in_range in Hc. destruct (_ <=? _) eqn:E; to_prop; [done|lia].
Qed.

Lemma stage_clock_origin_witness :
  stall (update (LinkMachine_init LinkConfig_default) LinkObservation_default 1700000000000).2
    = StallReason.kNoAdvertisement.
Proof.
  refine (proj2 (proj1 (stage_clock_origin LinkConfig_default (LinkMachine_init LinkConfig_default)
    LinkObservation_default 1700000000000 _ eq_refl _ eq_refl)) _).
  - unfold u32_config, in_range; cbn; lia.
  - done.
  - vm_compute. discriminate.
Defined.
