(* ===== verification/LinkBridge.v ===== *)
(** * The C ABI of the link machine
    ([native/include/link_bridge.h], [native/src/link_bridge.cpp])

    A handle is [None] for [nullptr] and otherwise the [LinkContext] it points
    to; a function that mutates the context returns it.  Handles that were
    destroyed or not made by [gopro_link_create] are not modelled. *)

From stdpp Require Import strings.
From S2P Require Import Prelude BleLink.
Local Open Scope Z_scope.

Record LinkContext := mkLinkContext {
  machine : LinkMachine;
  detail : string;
  retry_at_ms : Z;
}.

Abbreviation handle := (option LinkContext).

Definition kGoProLinkCandidatePresent : Z := Z.shiftl 1 0.
Definition kGoProLinkClassicUp : Z := Z.shiftl 1 1.
Definition kGoProLinkConnected : Z := Z.shiftl 1 2.
Definition kGoProLinkBonded : Z := Z.shiftl 1 3.
Definition kGoProLinkControlCharsFound : Z := Z.shiftl 1 4.
Definition kGoProLinkNotifySucceeded : Z := Z.shiftl 1 5.

(** One [if (x != 0) cfg.y = x;]. *)
Definition override (x dflt : Z) : Z := if negb (x =? 0) then x else dflt.

Definition gopro_link_create (connect services encrypt subscribe backoff_initial backoff_max : Z)
    : handle :=
  let cfg := LinkConfig_default in
  Some (mkLinkContext
    (LinkMachine_init
       (mkLinkConfig (override connect (connect_timeout_ms cfg))
                     (override services (services_timeout_ms cfg))
                     (override encrypt (encrypt_timeout_ms cfg))
                     (override subscribe (subscribe_timeout_ms cfg))
                     (override backoff_initial (backoff_initial_ms cfg))
                     (override backoff_max (backoff_max_ms cfg))))
    EmptyString 0).

(** [delete] of a null handle is harmless; of any other, the context is gone. *)
Definition gopro_link_destroy (h : handle) : handle := None.

Definition has_flag (flags mask : Z) : bool := negb (Z.land flags mask =? 0).

(** The observation a call describes. *)
Definition observation_of (flags attribute_count subscribed_count required : Z) : LinkObservation :=
  mkObservation
    (has_flag flags kGoProLinkCandidatePresent)
    (has_flag flags kGoProLinkClassicUp)
    (has_flag flags kGoProLinkConnected)
    (has_flag flags kGoProLinkBonded)
    attribute_count
    (has_flag flags kGoProLinkControlCharsFound)
    (has_flag flags kGoProLinkNotifySucceeded)
    subscribed_count
    (if required =? 0 then 1 else required).

Definition packed_advice (a : LinkAdvice) : Z :=
  Z.lor (Z.lor (Z.shiftl (LinkState.val (state a)) 16)
               (Z.shiftl (LinkAction.val (action a)) 8))
        (StallReason.val (stall a)).

Definition gopro_link_update (h : handle) (flags attribute_count subscribed_count required now_ms : Z)
    : handle * Z :=
  match h with
  | None => (None, 0)
  | Some ctx =>
      let obs := observation_of flags attribute_count subscribed_count required in
      let '(m, advice) := update (machine ctx) obs now_ms in
      (Some (mkLinkContext m (BleLink.detail advice) (BleLink.retry_at_ms advice)),
       packed_advice advice)
  end.

Definition gopro_link_retry_at (h : handle) : Z :=
  match h with None => 0 | Some ctx => retry_at_ms ctx end.

Definition gopro_link_detail (h : handle) : string :=
  match h with None => EmptyString | Some ctx => detail ctx end.

Definition gopro_link_note_failure (h : handle) (now_ms : Z) : handle :=
  match h with
  | None => None
  | Some ctx => Some (mkLinkContext (note_attempt_failed (machine ctx) now_ms) (detail ctx) (retry_at_ms ctx))
  end.

Definition gopro_link_attempts (h : handle) : Z :=
  match h with None => 0 | Some ctx => attempts_ (machine ctx) end.

Definition gopro_link_reset (h : handle) : handle :=
  match h with
  | None => None
  | Some ctx => Some (mkLinkContext (reset (machine ctx)) EmptyString 0)
  end.

(** ** Reading the packed advice

    The caller's side of the contract in [link_bridge.h]: each enumerator is
    found by its value in its byte. *)

Definition state_of_val (v : Z) : option LinkState.t :=
  List.find (fun s => LinkState.val s =? v)
    [LinkState.kAbsent; LinkState.kAdvertising; LinkState.kConnected;
     LinkState.kServicesResolved; LinkState.kEncrypted; LinkState.kReady].

Definition action_of_val (v : Z) : option LinkAction.t :=
  List.find (fun a => LinkAction.val a =? v)
    [LinkAction.kNone; LinkAction.kScan; LinkAction.kDisconnectClassic; LinkAction.kConnect;
     LinkAction.kWaitForServices; LinkAction.kPair; LinkAction.kSubscribe].

Definition stall_of_val (v : Z) : option StallReason.t :=
  List.find (fun r => StallReason.val r =? v)
    [StallReason.kNone; StallReason.kNoAdvertisement; StallReason.kClassicBlocking;
     StallReason.kConnectFailed; StallReason.kServicesNeverAppeared; StallReason.kWrongDevice;
     StallReason.kNotEncrypted; StallReason.kSubscribeFailed].

Definition unpack_advice (v : Z)
    : option LinkState.t * option LinkAction.t * option StallReason.t :=
  (state_of_val (Z.shiftr v 16), action_of_val (Z.land (Z.shiftr v 8) 255),
   stall_of_val (Z.land v 255)).

(** The flags word a caller builds. *)
Definition flag_bit (b : bool) (mask : Z) : Z := if b then mask else 0.

Definition flags_of (obs : LinkObservation) : Z :=
  flag_bit (le_candidate_present obs) kGoProLinkCandidatePresent +
  flag_bit (classic_link_up obs) kGoProLinkClassicUp +
  flag_bit (connected obs) kGoProLinkConnected +
  flag_bit (bonded_flag obs) kGoProLinkBonded +
  flag_bit (control_chars_found obs) kGoProLinkControlCharsFound +
  flag_bit (notify_succeeded obs) kGoProLinkNotifySucceeded.

Lemma unpack_packed a :
  unpack_advice (packed_advice a) = (Some (state a), Some (action a), Some (stall a)).
Proof. unfold packed_advice. destruct (state a), (action a), (stall a); reflexivity. Qed.

Lemma observation_of_flags obs :
  required_subscriptions obs <> 0 ->
  observation_of (flags_of obs) (attribute_count obs) (subscribed_count obs)
    (required_subscriptions obs) = obs.
Proof.
  intros H. unfold observation_of. destruct (required_subscriptions obs =? 0) eqn:E; to_prop; [done|].
  destruct obs as [c1 c2 c3 c4 n c5 c6 s r]. unfold flags_of.
  cbn [le_candidate_present classic_link_up connected bonded_flag control_chars_found notify_succeeded
       attribute_count subscribed_count required_subscriptions].
  destruct c1, c2, c3, c4, c5, c6; reflexivity.
Qed.

(** ** Properties *)

(** The ABI is the machine.  For every observation with a non-zero number
    of required subscriptions, passing it as flags and counts to
    [gopro_link_update] and unpacking the answer gives exactly the machine's
    stage, action and stall, and the explanation and retry time read back
    afterwards are that advice's. *)
Theorem link_abi_update ctx obs now :
  required_subscriptions obs <> 0 ->
  let '(h, packed) := gopro_link_update (Some ctx) (flags_of obs) (attribute_count obs)
                        (subscribed_count obs) (required_subscriptions obs) now in
  let '(m, adv) := update (machine ctx) obs now in
  option_map machine h = Some m /\
  unpack_advice packed = (Some (state adv), Some (action adv), Some (stall adv)) /\
  0 <= packed < 2 ^ 32 /\
  gopro_link_detail h = BleLink.detail adv /\ gopro_link_retry_at h = BleLink.retry_at_ms adv.
Proof.
  intros H. unfold gopro_link_update. rewrite observation_of_flags by done.
  destruct (update (machine ctx) obs now) as [m adv]. cbn [option_map machine].
  split_and!; try done; try apply unpack_packed;
    unfold packed_advice; destruct (state adv), (action adv), (stall adv); done.
Qed.

Lemma link_abi_update_witness :
  unpack_advice (gopro_link_update (gopro_link_create 0 0 0 0 0 0)
      (flags_of unencrypted) 34 0 1 5).2
    = (Some LinkState.kServicesResolved, Some LinkAction.kPair, Some StallReason.kNone).
Proof.
  refine (proj1 (proj2 (link_abi_update
    (mkLinkContext (LinkMachine_init LinkConfig_default) EmptyString 0) unencrypted 5 _))).
  discriminate.
Defined.

(** What the ABI substitutes.  A null handle is answered with zeros and an
    empty string and never created; a zero time-out means the default, and any
    other value is taken as it is; zero required subscriptions are read as one,
    where the machine itself would be ready with none. *)
Theorem link_abi_defaults a b c d e f flags attrs subs now :
  (gopro_link_update None flags attrs subs 0 now = (None, 0) /\
   gopro_link_retry_at None = 0 /\ gopro_link_detail None = EmptyString /\
   gopro_link_attempts None = 0 /\ gopro_link_note_failure None now = None /\
   gopro_link_reset None = None) /\
  (exists ctx, gopro_link_create a b c d e f = Some ctx /\
     (forall x get, In (x, get) [(a, connect_timeout_ms); (b, services_timeout_ms); (c, encrypt_timeout_ms);
                                 (d, subscribe_timeout_ms); (e, backoff_initial_ms); (f, backoff_max_ms)] ->
        get (cfg_ (machine ctx)) = if x =? 0 then get LinkConfig_default else x)) /\
  observation_of flags attrs subs 0 = observation_of flags attrs subs 1 /\
  (forall m, stage_holds (mkObservation true false true false 1 true true 0 0)
               (BleLink.state (update m (mkObservation true false true false 1 true true 0 0) now).2) /\
     BleLink.state (update m (mkObservation true false true false 1 true true 0 0) now).2 = LinkState.kReady).
Proof.
  split_and!; try done.
  - eexists. split; [reflexivity|]. intros x get Hin. unfold override. cbn in Hin.
    destruct_or? Hin; try done; injection Hin as <- <-; cbn; by destruct (_ =? 0).
  - intros m. rewrite update_advice. split; [by apply classify_spec | done].
Qed.
