(* ===== verification/BleBridge.v ===== *)
(** * The C ABI of a BLE session
    ([native/include/ble_bridge.h], [native/src/ble_bridge.cpp], and the decoder
    of its events, [lib/src/ffi/ble_codec.dart])

    A handle is [None] for [nullptr] and otherwise the [BleContext] it points
    to.  A pointer argument is [None] for [nullptr] and otherwise the bytes it
    points at, of which [len] are read; that there are as many is the caller's
    obligation ([readable]).  [Dart_PostCObject_DL] is outside the library: what
    is modelled of it is the port and the bytes of each call. *)

From stdpp Require Import strings.
From S2P Require Import Prelude BleProtocol QueryParser CommandQueue BleSession.
Local Open Scope Z_scope.

(** ** Events as bytes *)

Definition kGoProBleWrite : byte := 16.
Definition kGoProBleResponse : byte := 17.
Definition kGoProBleReady : byte := 18.
Definition kGoProBlePush : byte := 19.
Definition kGoProBleFrameError : byte := 20.

(** The [for] loop of [append_u64], from bit position [8 * i]. *)
Fixpoint append_u64_loop (n i : nat) (buf : bytes) (v : Z) : bytes :=
  match n with
  | O => buf
  | S n => append_u64_loop n (S i) (buf ++ [Z.land (Z.shiftr v (Z.of_nat i * 8)) 255]) v
  end.

Definition append_u64 (buf : bytes) (v : Z) : bytes := append_u64_loop 8 0 buf v.

Definition u8_of_bool (b : bool) : byte := if b then 1 else 0.

(** What [wire_callbacks] and the write callback of [gopro_ble_create] put in
    the buffer they post. *)
Definition encode_event (e : SEvent) : bytes :=
  match e with
  | SWrite channel packet => kGoProBleWrite :: channel :: packet
  | SResponse id outcome payload =>
      append_u64 [kGoProBleResponse] id ++ [Outcome_val outcome] ++ payload
  | SReady ready => [kGoProBleReady; u8_of_bool ready]
  | SPush channel _ message => kGoProBlePush :: channel :: message
  | SFrameError channel result => [kGoProBleFrameError; channel; FeedResult_val result]
  end.

(** ** The context and the calls *)

Record BleContext := mkBleContext {
  events_port : Z;
  session : BleSession;
}.

Abbreviation handle := (option BleContext).

(** One [Dart_PostCObject_DL]: the port and the typed data. *)
Abbreviation posted := (Z * bytes)%type.

Definition all_wired : Handlers := mkHandlers true true true true true.

Definition override (x dflt : Z) : Z := if negb (x =? 0) then x else dflt.

Definition gopro_ble_create (port keep_alive_ms write_timeout_ms queue_timeout_ms : Z) : handle :=
  let q := CommandQueueOptions_default in
  Some (mkBleContext port (BleSession_init all_wired
    (mkSessionConfig
       (override keep_alive_ms (keep_alive_interval_ms SessionConfig_default))
       (att_payload SessionConfig_default)
       (mkOptions (override write_timeout_ms (CommandQueue.write_timeout_ms q))
                  (override queue_timeout_ms (CommandQueue.queue_timeout_ms q)))))).

(** A call into the session: its callbacks post to the context's port. *)
Definition on_session {A} (ctx : BleContext) (m : act BleSession SEvent A)
    : BleContext * A * list posted :=
  let '(a, s, ev) := m (session ctx) in
  (mkBleContext (events_port ctx) s, a, (fun e => (events_port ctx, encode_event e)) <$> ev).

Definition gopro_ble_destroy (h : handle) : handle * list posted :=
  match h with
  | None => (None, [])
  | Some ctx => let '(_, _, ps) := on_session ctx on_disconnect in (None, ps)
  end.

Definition span (data : option bytes) (len : Z) : bytes :=
  firstn (Z.to_nat len) (default [] data).

Definition is_null {A} (p : option A) : bool := match p with None => true | Some _ => false end.

Definition gopro_ble_feed (h : handle) (channel : byte) (data : option bytes) (len now_ms : Z)
    : handle * list posted :=
  match h with
  | None => (None, [])
  | Some ctx =>
      if (len <? 0) || (is_null data && (0 <? len)) then (h, [])
      else if Z.of_nat kChannelCount <=? channel then (h, [])
      else let '(ctx', _, ps) := on_session ctx (feed channel (span data len) now_ms) in (Some ctx', ps)
  end.

(** [static_cast<Priority>] of a value the guard has checked. *)
Definition Priority_cast (v : Z) : Priority :=
  match v with 0 => kQueued | 1 => kFastpass | _ => kKeepAlive end.

Definition bad_channel_or_priority (channel priority : byte) : bool :=
  (Z.of_nat kChannelCount <=? channel) || (Priority_val kKeepAlive <? priority).

Definition accepted (b : bool) : Z := if b then 1 else 0.

Definition gopro_ble_submit (h : handle) (channel : byte) (payload : option bytes) (len : Z)
    (priority : byte) (now_ms : Z) : handle * Z * list posted :=
  match h with
  | None => (None, 0, [])
  | Some ctx =>
      if is_null payload || (len <=? 0) then (h, 0, [])
      else if bad_channel_or_priority channel priority then (h, 0, [])
      else
        let '(ctx', b, ps) :=
          on_session ctx (BleSession.submit channel (span payload len) (Priority_cast priority) now_ms) in
        (Some ctx', accepted b, ps)
  end.

Definition gopro_ble_submit_protobuf (h : handle) (channel feature_id action_id : byte)
    (message : option bytes) (len : Z) (priority : byte) (now_ms : Z) : handle * Z * list posted :=
  match h with
  | None => (None, 0, [])
  | Some ctx =>
      if (len <? 0) || (is_null message && (0 <? len)) then (h, 0, [])
      else if bad_channel_or_priority channel priority then (h, 0, [])
      else
        let '(ctx', b, ps) :=
          on_session ctx (submit_protobuf channel feature_id action_id (span message len)
                            (Priority_cast priority) now_ms) in
        (Some ctx', accepted b, ps)
  end.

Definition gopro_ble_protobuf_correlation (channel feature_id action_id : byte) : Z :=
  if Z.of_nat kChannelCount <=? channel then 0
  else correlation_of_protobuf channel feature_id action_id.

Definition gopro_ble_tick (h : handle) (now_ms : Z) : handle * list posted :=
  match h with
  | None => (None, [])
  | Some ctx => let '(ctx', _, ps) := on_session ctx (BleSession.tick now_ms) in (Some ctx', ps)
  end.

Definition gopro_ble_set_att_payload (h : handle) (n : Z) : handle :=
  match h with
  | None => None
  | Some ctx => let '(ctx', _, _) := on_session ctx (set_att_payload (Z.to_nat n)) in Some ctx'
  end.

Definition gopro_ble_disconnect (h : handle) : handle * list posted :=
  match h with
  | None => (None, [])
  | Some ctx => let '(ctx', _, ps) := on_session ctx on_disconnect in (Some ctx', ps)
  end.

Definition gopro_ble_ready (h : handle) : Z :=
  match h with None => 0 | Some ctx => if session_ready (session ctx) then 1 else 0 end.

(** ** The decoder: [BleCodec.decode] *)

Inductive BleEvent :=
| BleWriteRequest (channel : Channel) (data : bytes)
| BleResponse (correlationId : Z) (outcome : Outcome) (payload : bytes)
| BleReadyChanged (ready : bool)
| BlePush (channel : Channel) (message : bytes)
| BleFrameErrorEvent (channel : Channel) (error : FeedResult).

(** [BleChannel.fromByte]. *)
Definition channel_from_byte (b : byte) : option Channel :=
  List.find (fun c => c =? b) [kCommand; kSettings; kQuery; kNetwork].

Definition outcome_values : list Outcome := [kResponded; kTimedOut; kCanceled; kRejected].

(** [BleFrameError.values], which names the same values. *)
Definition frame_error_values : list FeedResult :=
  [kNeedMore; kComplete; kEmptyPacket; kTruncatedHdr; kReservedHdr; kStrayCont; kOverflow; kZeroLength].

(** [ByteData.getUint64(1, Endian.little)]: a Dart [int] is signed. *)
Definition getUint64 (data : bytes) : Z :=
  let v := le_value (firstn 8 (skipn 1 data)) in
  if v <? 2 ^ 63 then v else v - 2 ^ 64.

Definition decode (data : bytes) : option BleEvent :=
  match data with
  | [] => None
  | b0 :: rest =>
      if b0 =? 16 then
        match rest with
        | c :: payload => channel ← channel_from_byte c; Some (BleWriteRequest channel payload)
        | [] => None
        end
      else if b0 =? 17 then
        if (length data <? 10)%nat then None
        else
          o ← outcome_values !! Z.to_nat (nth 9 data 0);
          Some (BleResponse (getUint64 data) o (skipn 10 data))
      else if b0 =? 18 then
        match rest with b :: _ => Some (BleReadyChanged (negb (b =? 0))) | [] => None end
      else if b0 =? 19 then
        match rest with
        | c :: payload => channel ← channel_from_byte c; Some (BlePush channel payload)
        | [] => None
        end
      else if b0 =? 20 then
        match rest with
        | c :: x :: _ =>
            channel ← channel_from_byte c;
            e ← frame_error_values !! Z.to_nat x;
            Some (BleFrameErrorEvent channel e)
        | _ => None
        end
      else None
  end.

(** What a decoder should make of a session's callback. *)
Definition seen (e : SEvent) : BleEvent :=
  match e with
  | SWrite c p => BleWriteRequest c p
  | SResponse i o p => BleResponse i o p
  | SReady b => BleReadyChanged b
  | SPush c _ m => BlePush c m
  | SFrameError c r => BleFrameErrorEvent c r
  end.

Definition event_ok (e : SEvent) : Prop :=
  match e with
  | SWrite c _ | SPush c _ _ | SFrameError c _ => channel_ok c
  | SResponse i _ _ => 0 <= i < 2 ^ 63
  | SReady _ => True
  end.

(** ** Calls over the ABI, with their raw arguments *)

Inductive abi_call :=
| AFeed (channel : byte) (data : option bytes) (len now_ms : Z)
| ASubmit (channel : byte) (payload : option bytes) (len : Z) (priority : byte) (now_ms : Z)
| ASubmitProtobuf (channel feature_id action_id : byte) (message : option bytes) (len : Z)
    (priority : byte) (now_ms : Z)
| ATick (now_ms : Z)
| ASetAttPayload (n : Z)
| ADisconnect.

Definition abi (h : handle) (c : abi_call) : handle * list posted :=
  match c with
  | AFeed ch d len now => gopro_ble_feed h ch d len now
  | ASubmit ch d len p now => let '(h', _, ps) := gopro_ble_submit h ch d len p now in (h', ps)
  | ASubmitProtobuf ch f a d len p now =>
      let '(h', _, ps) := gopro_ble_submit_protobuf h ch f a d len p now in (h', ps)
  | ATick now => gopro_ble_tick h now
  | ASetAttPayload n => (gopro_ble_set_att_payload h n, [])
  | ADisconnect => gopro_ble_disconnect h
  end.

Fixpoint abi_all (h : handle) (cs : list abi_call) : handle * list posted :=
  match cs with
  | [] => (h, [])
  | c :: cs =>
      let '(h1, p1) := abi h c in
      let '(h2, p2) := abi_all h1 cs in (h2, p1 ++ p2)
  end.

(** The C types of the arguments, and the caller's obligation. *)
Definition readable (d : option bytes) (len : Z) : Prop :=
  match d with None => True | Some l => bytes_ok l /\ len <= Z.of_nat (length l) end.

Definition abi_typed (c : abi_call) : Prop :=
  match c with
  | AFeed ch d len _ => byte_ok ch /\ readable d len
  | ASubmit ch d len p _ => byte_ok ch /\ byte_ok p /\ readable d len
  | ASubmitProtobuf ch f a d len p _ =>
      byte_ok ch /\ byte_ok f /\ byte_ok a /\ byte_ok p /\ readable d len
  | _ => True
  end.

(** What the guards let through, as calls on the session. *)
Definition api_of (c : abi_call) : list api_call :=
  match c with
  | AFeed ch d len now =>
      if (0 <=? len) && (ch <? 4) && (negb (is_null d) || (len =? 0)) then [Feed ch (span d len) now] else []
  | ASubmit ch d len p now =>
      if (0 <? len) && (ch <? 4) && (p <? 3) && negb (is_null d)
      then [SubmitCommand ch (span d len) (Priority_cast p) now] else []
  | ASubmitProtobuf ch f a d len p now =>
      if (0 <=? len) && (ch <? 4) && (p <? 3) && (negb (is_null d) || (len =? 0))
      then [SubmitProtobuf ch f a (span d len) (Priority_cast p) now] else []
  | ATick now => [TickSession now]
  | ASetAttPayload n => [SetAttPayload (Z.to_nat n)]
  | ADisconnect => [Disconnect]
  end.

(** ** Encoding lemmas *)

Arguments channel_from_byte : simpl never.

Lemma append_u64_loop_le n : forall i buf v,
  0 <= v -> append_u64_loop n i buf v = buf ++ le_bytes n (v / 256 ^ Z.of_nat i).
Proof.
  induction n as [|n IH]; intros i buf v Hv; cbn [append_u64_loop le_bytes]; [by rewrite app_nil_r|].
  assert (0 < 256 ^ Z.of_nat i) by (apply Z.pow_pos_nonneg; lia).
  rewrite IH, <- app_assoc by done. cbn [app]. f_equal. f_equal.
  - rewrite land_255, Z.shiftr_div_pow2 by lia. f_equal. f_equal.
    rewrite (Z.mul_comm (Z.of_nat i)), Z.pow_mul_r by lia. done.
  - f_equal. rewrite Nat2Z.inj_succ, Z.pow_succ_r, (Z.mul_comm 256) by lia.
    rewrite <- Z.div_div by lia. done.
Qed.

Lemma append_u64_le buf v : 0 <= v -> append_u64 buf v = buf ++ le_bytes 8 v.
Proof. intros. unfold append_u64. rewrite append_u64_loop_le by done. by rewrite Z.div_1_r. Qed.

Lemma channel_from_byte_ok c : channel_ok c -> channel_from_byte c = Some c.
Proof.
  intros H. unfold channel_ok, kChannelCount in H.
  assert (c = 0 \/ c = 1 \/ c = 2 \/ c = 3) as [->|[->|[->| ->]]] by lia; done.
Qed.

Lemma getUint64_append i rest :
  0 <= i < 2 ^ 63 -> getUint64 (kGoProBleResponse :: le_bytes 8 i ++ rest) = i.
Proof.
  intros Hi. unfold getUint64. change (skipn 1 (?b :: ?l)) with l.
  rewrite (take_app_length' (le_bytes 8 i) rest 8) by by rewrite length_le_bytes.
  rewrite le_value_le_bytes by (change (256 ^ Z.of_nat 8) with (2 ^ 64); lia).
  destruct (i <? 2 ^ 63) eqn:E; to_prop; [done|lia].
Qed.

Lemma decode_encode e : event_ok e -> decode (encode_event e) = Some (seen e).
Proof.
  destruct e as [c p|i o p|c r m|b|c r]; cbn [event_ok encode_event seen]; intros H.
  - cbn. by rewrite channel_from_byte_ok.
  - rewrite append_u64_le by lia. cbn [app].
    set (data := kGoProBleResponse :: le_bytes 8 i ++ Outcome_val o :: p).
    assert (decode data = o' ← outcome_values !! Z.to_nat (nth 9 data 0);
              Some (BleResponse (getUint64 data) o' (skipn 10 data))) as ->.
    { unfold decode. assert ((length data <? 10)%nat = false) as -> by done. reflexivity. }
    assert (nth 9 data 0 = Outcome_val o) as -> by done.
    unfold data at 1. rewrite getUint64_append by done.
    assert (skipn 10 data = p) as -> by done. by destruct o.
  - cbn. by rewrite channel_from_byte_ok.
  - by destruct b.
  - cbn. rewrite channel_from_byte_ok by done. by destruct r.
Qed.

(** ** The callbacks of a session are in the decoder's range *)

Lemma session_id_range e : entry_of_session e -> 0 <= CommandQueue.id e < 2 ^ 63.
Proof.
  intros [_ (c & Hc & Hid & Hok)]. destruct (payload e) as [|b m]; [done|].
  apply Forall_cons in Hok as [Hb Hm]. unfold channel_ok, kChannelCount in Hc.
  destruct Hid as [->|(a & m' & Heq & ->)].
  - rewrite correlation_of_sum by done. unfold byte_ok in *. lia.
  - injection Heq as ->. apply Forall_cons in Hm as [Ha _].
    rewrite correlation_of_protobuf_sum by (done || lia). unfold byte_ok in *. lia.
Qed.

Lemma queue_events_ok s qs :
  queue_part_ok (queue_ s) ->
  Forall (fun c => match c with
                   | Submit i data p d now => entry_of_session (mkEntry i data p d now 0)
                   | _ => True end) qs ->
  Forall event_ok (queue_events s (run (queue_ s) qs).2).
Proof.
  intros (_ & _ & Hent) Hqs.
  pose proof (run_written entry_of_session qs (queue_ s)) as Hw.
  specialize (Hw ltac:(intros now e [? (ch & Hch)]; split; [done | by exists ch]) Hqs Hent).
  pose proof (run_owed qs (queue_ s)) as Hown.
  assert (Forall (fun i => 0 <= i < 2 ^ 63) (completed (run (queue_ s) qs).2)) as Hc.
  { apply Forall_forall. intros i Hi.
    assert (i ∈ omap handed qs ++ owed (queue_ s)) as Hin by (rewrite <- Hown; set_solver).
    apply elem_of_app in Hin as [Hin|Hin]; apply list_elem_of_omap in Hin as (x & Hx & Hd).
    - rewrite Forall_forall in Hqs. specialize (Hqs x Hx). destruct x; cbn in Hd; try done. subst.
      pose proof (session_id_range _ Hqs) as Hr. destruct Hqs as [[= Hd] _]. cbn in Hr. by rewrite Hd.
    - rewrite Forall_forall in Hent. specialize (Hent x Hx).
      pose proof (session_id_range _ Hent) as Hr. destruct Hent as [Hd' _]. congruence. }
  clear Hown. unfold queue_events. apply Forall_concat, Forall_fmap.
  induction (run (queue_ s) qs).2 as [|e ev IH]; [constructor|].
  destruct e as [i m|i o m].
  - change (written (Written i m :: ev)) with ((i, m) :: written ev) in Hw.
    change (completed (Written i m :: ev)) with (completed ev) in Hc.
    apply Forall_cons in Hw as [(e & He & [= -> ->]) Hw]. constructor; [|by apply IH].
    cbn. unfold write_packets. destruct (has_write _); [|constructor].
    apply Forall_fmap, Forall_true. intros p. by apply (entry_channel e).
  - change (written (Completed i o m :: ev)) with (written ev) in Hw.
    change (completed (Completed i o m :: ev)) with (i :: completed ev) in Hc.
    apply Forall_cons in Hc as [Hi Hc]. constructor; [|by apply IH].
    cbn. destruct (has_response _); repeat constructor; lia.
Qed.

Definition other_ok (ev : list SEvent) : Prop :=
  Forall (fun e => is_queue_event e = false -> event_ok e) ev.

Lemma other_ok_queue_events s ev : other_ok (queue_events s ev).
Proof.
  unfold other_ok, queue_events. apply Forall_concat, Forall_fmap, Forall_true.
  intros [i m|i o m]; cbn.
  - unfold write_packets. destruct (has_write _); [|constructor]. by apply Forall_fmap, Forall_true.
  - destruct (has_response _); by repeat constructor.
Qed.

Lemma other_ok_exec s c : other_ok (queue_exec s c).2.
Proof. destruct (queue_exec_events s c) as (ev & -> & _). apply other_ok_queue_events. Qed.

Lemma other_ok_ready s b : other_ok (ready_event s b).
Proof. unfold ready_event. destruct (has_ready _); by repeat constructor. Qed.

Lemma other_ok_deliver ch m now s :
  channel_ok ch -> other_ok (run_events (deliver ch m now) s).
Proof.
  intros Hch. unfold run_events. rewrite deliver_eq.
  assert (other_ok (flip_event s m)).
  { unfold flip_event. destruct (gate_flips _ _); [apply other_ok_ready | constructor]. }
  assert (forall s, other_ok (gate_told s m now).2).
  { intros s'. unfold gate_told. destruct (gate_flips _ _); [apply other_ok_exec | constructor]. }
  destruct (answers s ch m); cbn -[queue_exec]; unfold other_ok; rewrite !Forall_app; split_and!; try done; try apply H0.
  - apply other_ok_exec.
  - unfold push_event. destruct (has_push (handlers s)); [|constructor].
    by apply Forall_cons_2; [intros _|constructor].
Qed.

Lemma other_ok_api c s :
  length (rx_ s) = kChannelCount -> api_ok c -> other_ok (run_events (api c) s).
Proof.
  intros Hl Hok. destruct c as [ch p now|ch m p now|ch f a m p now|now|n|]; cbn [api].
  - destruct Hok as [Hch _]. unfold run_events. rewrite feed_eq by done.
    destruct (receive (rx_of s ch) p) as [r [m|]]; [by apply other_ok_deliver|].
    cbn. unfold frame_error_event. destruct (BleProtocol.feed _ _).2; try by constructor.
    all: destruct (has_frame_error _); [by apply Forall_cons_2; [intros _|constructor] | constructor].
  - unfold BleSession.submit. destruct m; [constructor|]. unfold run_events. rewrite enqueue_eq.
    apply other_ok_exec.
  - unfold submit_protobuf, run_events. rewrite enqueue_eq. apply other_ok_exec.
  - unfold run_events. rewrite tick_eq. pose proof (other_ok_exec s (Tick now)) as H1.
    destruct (queue_exec s (Tick now)) as [s1 ev1]. destruct (negb _); [done|].
    destruct (keep_alive_due s now); [|done].
    match goal with |- context [queue_exec ?s ?c] =>
      pose proof (other_ok_exec s c) as H2; destruct (queue_exec s c) end.
    by apply Forall_app.
  - unfold set_att_payload, run_events, modify. constructor.
  - unfold run_events. rewrite on_disconnect_eq. cbn [snd]. apply Forall_app. split.
    + apply other_ok_queue_events.
    + destruct (session_ready s); [apply other_ok_ready | constructor].
Qed.

Lemma api_events_ok c s : session_ok s -> api_ok c -> Forall event_ok (run_events (api c) s).
Proof.
  intros Hs Hok. pose proof (sok_rx_length s Hs) as Hl.
  destruct (api_does c s Hl Hok) as [_ He _].
  pose proof (queue_events_ok s (queue_calls s c) (sok_queue s Hs) (queue_calls_ok s c Hok)) as Hq.
  rewrite <- He in Hq. pose proof (other_ok_api c s Hl Hok) as Ho. unfold other_ok in Ho.
  rewrite Forall_forall in *. intros e Hin. destruct (is_queue_event e) eqn:E; [|by apply Ho].
  apply Hq, elem_of_lfilter. done.
Qed.

Lemma api_all_events_ok cs : forall s,
  Forall api_ok cs -> session_ok s -> Forall event_ok (run_events (api_all cs) s).
Proof.
  induction cs as [|c cs IH]; intros s Hok Hs; [constructor|].
  apply Forall_cons in Hok as [Hc Hok]. destruct (api_all_cons c cs s) as [_ ->].
  apply Forall_app. split; [by apply api_events_ok|]. apply IH; [done|]. by apply api_session_ok.
Qed.

(** ** The guards *)

Lemma span_null len : span None len = [].
Proof. apply take_nil. Qed.

(** A call is the session calls its guards let through, posted. *)
Lemma abi_is_api ctx c :
  abi_typed c ->
  let '(_, s, ev) := api_all (api_of c) (session ctx) in
  abi (Some ctx) c =
    (Some (mkBleContext (events_port ctx) s), (fun e => (events_port ctx, encode_event e)) <$> ev).
Proof.
  intros Hty. assert (forall c s, api_all [c] s = api c s) as H1.
  { intros c' s. cbn. unfold bind, ret. destruct (api c' s) as [[[] s'] ev]. by rewrite app_nil_r. }
  destruct c as [ch d len now|ch d len p now|ch f a d len p now|now|n|]; cbn [abi api_of].
  - unfold gopro_ble_feed. change (Z.of_nat kChannelCount) with 4.
    destruct (0 <=? len) eqn:E1, (len <? 0) eqn:E2; to_prop; try lia; cbn [andb orb]; [|by destruct ctx].
    rewrite (Z.ltb_antisym 4 ch). destruct (4 <=? ch) eqn:E3; cbn [negb andb orb].
    { by destruct ctx, (_ && _). }
    destruct d as [d|]; cbn [is_null negb orb andb].
    + rewrite H1. unfold on_session. cbn [api]. by destruct (feed _ _ _ _) as [[? ?] ?].
    + destruct (len =? 0) eqn:E4, (0 <? len) eqn:E5; to_prop; try lia; [|by destruct ctx].
      rewrite H1. unfold on_session. cbn [api]. by destruct (feed _ _ _ _) as [[? ?] ?].
  - unfold gopro_ble_submit, bad_channel_or_priority. change (Z.of_nat kChannelCount) with 4.
    change (Priority_val kKeepAlive) with 2. destruct Hty as (_ & Hp & _).
    rewrite (Z.leb_antisym 0 len), (Z.leb_antisym ch 4).
    replace (2 <? p) with (negb (p <? 3)) by (destruct (2 <? p) eqn:?, (p <? 3) eqn:?; to_prop; try done; lia).
    destruct (0 <? len), (ch <? 4), (p <? 3), (is_null d); cbn [negb andb orb]; try by destruct ctx.
    rewrite H1. unfold on_session. cbn [api]. unfold bind.
    destruct (BleSession.submit _ _ _ _ _) as [[? ?] ?]. cbn. by rewrite app_nil_r.
  - unfold gopro_ble_submit_protobuf, bad_channel_or_priority. change (Z.of_nat kChannelCount) with 4.
    change (Priority_val kKeepAlive) with 2.
    rewrite (Z.leb_antisym ch 4).
    replace (2 <? p) with (negb (p <? 3)) by (destruct (2 <? p) eqn:?, (p <? 3) eqn:?; to_prop; try done; lia).
    destruct (0 <=? len) eqn:E1, (len <? 0) eqn:E2; to_prop; try lia; cbn [andb orb]; [|by destruct ctx].
    assert (is_null d && (0 <? len) = negb (negb (is_null d) || (len =? 0))) as ->.
    { destruct (is_null d), (0 <? len) eqn:?, (len =? 0) eqn:?; to_prop; try done; lia. }
    destruct (negb (is_null d) || (len =? 0)), (ch <? 4), (p <? 3); cbn [negb andb orb]; try by destruct ctx.
    rewrite H1. unfold on_session. cbn [api]. unfold bind.
    destruct (submit_protobuf _ _ _ _ _ _ _) as [[? ?] ?]. cbn. by rewrite app_nil_r.
  - rewrite H1. unfold gopro_ble_tick, on_session. cbn [api]. by destruct (BleSession.tick _ _) as [[? ?] ?].
  - rewrite H1. unfold gopro_ble_set_att_payload, on_session. done.
  - rewrite H1. unfold gopro_ble_disconnect, on_session. cbn [api]. by destruct (on_disconnect _) as [[? ?] ?].
Qed.

Lemma span_ok d len : readable d len -> bytes_ok (span d len).
Proof.
  unfold span. destruct d as [l|]; cbn; [|by rewrite take_nil]. intros [H _]. by apply Forall_take.
Qed.

Lemma api_of_ok c : abi_typed c -> Forall api_ok (api_of c).
Proof.
  assert (forall ch, byte_ok ch -> ch < 4 -> channel_ok ch) as Hch.
  { intros ch Hb H. unfold channel_ok, kChannelCount, byte_ok in *. lia. }
  destruct c as [ch d len now|ch d len p now|ch f a d len p now|now|n|]; cbn [api_of abi_typed]; intros H.
  - destruct H as [Hc Hd]. destruct (_ && _) eqn:E; [|constructor]. to_prop.
    apply Forall_cons_2; [|constructor]. split; [by apply Hch | by apply span_ok].
  - destruct H as (Hc & _ & Hd). destruct (_ && _) eqn:E; [|constructor]. to_prop.
    apply Forall_cons_2; [|constructor]. split; [by apply Hch | by apply span_ok].
  - destruct H as (Hc & Hf & Ha & _ & Hd). destruct (_ && _) eqn:E; [|constructor]. to_prop.
    apply Forall_cons_2; [|constructor]. split_and!; [by apply Hch | done | done | by apply span_ok].
  - by repeat constructor.
  - by repeat constructor.
  - by repeat constructor.
Qed.

(** A run of ABI calls on a context is the run of the session calls the guards
    let through, with every callback posted. *)
Definition session_calls (cs : list abi_call) : list api_call := concat (api_of <$> cs).

Lemma abi_run cs : forall ctx,
  Forall abi_typed cs -> session_ok (session ctx) ->
  let s' := run_state (api_all (session_calls cs)) (session ctx) in
  let ev := run_events (api_all (session_calls cs)) (session ctx) in
  abi_all (Some ctx) cs =
    (Some (mkBleContext (events_port ctx) s'), (fun e => (events_port ctx, encode_event e)) <$> ev) /\
  Forall event_ok ev /\ session_ok s'.
Proof.
  induction cs as [|c cs IH]; intros ctx Hty Hs.
  { split_and!; [by destruct ctx | constructor | done]. }
  apply Forall_cons in Hty as [Hc Hty]. cbn [abi_all]. unfold session_calls. cbn [fmap list_fmap concat].
  pose proof (api_of_ok c Hc) as Hok. pose proof (abi_is_api ctx c Hc) as Habi.
  destruct (api_all_app (api_of c) (session_calls cs) (session ctx)) as [E1 E2].
  unfold session_calls in E1, E2. cbv zeta. rewrite E1, E2. clear E1 E2.
  pose proof (api_all_session_ok (api_of c) (session ctx) Hok Hs) as Hs1.
  pose proof (api_all_events_ok (api_of c) (session ctx) Hok Hs) as Hev.
  assert (abi (Some ctx) c =
    (Some (mkBleContext (events_port ctx) (run_state (api_all (api_of c)) (session ctx))),
     (fun e => (events_port ctx, encode_event e)) <$> run_events (api_all (api_of c)) (session ctx))) as ->.
  { unfold run_state, run_events. destruct (api_all (api_of c) (session ctx)) as [[u s1] ev1]. exact Habi. }
  set (s1 := run_state (api_all (api_of c)) (session ctx)) in *.
  destruct (IH (mkBleContext (events_port ctx) s1) Hty Hs1) as (I1 & I2 & I3).
  cbn [session events_port] in *. unfold session_calls in *.
  rewrite I1. split_and!; [by rewrite fmap_app | by apply Forall_app | done].
Qed.

(** The ids of the responses among some posts, as the decoder reads them. *)
Definition answered (ps : list posted) : list CorrelationId :=
  omap (fun p => match decode p.2 with Some (BleResponse i _ _) => Some i | _ => None end) ps.

Lemma answered_posts port ev :
  Forall event_ok ev ->
  answered ((fun e => (port, encode_event e)) <$> ev) = (fun r => r.1.1) <$> responses ev.
Proof.
  unfold answered, responses. induction 1 as [|e ev He Hev IH]; [done|].
  cbn [fmap list_fmap omap list_omap snd]. rewrite decode_encode by done.
  destruct e; cbn [seen fmap list_fmap]; cbn in *; by rewrite IH.
Qed.

(** One ABI call's share of the account: what it hands over is answered in its
    posts or outstanding after it. *)
Definition answering (ctx : BleContext) : Prop :=
  session_ok (session ctx) /\ has_response (handlers (session ctx)) = true.

Lemma abi_account ctx c :
  abi_typed c -> answering ctx ->
  exists ctx' ps, abi (Some ctx) c = (Some ctx', ps) /\ answering ctx' /\
    answered ps ++ (CommandQueue.id <$> outstanding (session ctx')) ≡ₚ
    submitted_all (session ctx) (api_of c) ++ (CommandQueue.id <$> outstanding (session ctx)).
Proof.
  intros Hty [Hs Hr]. pose proof (abi_is_api ctx c Hty) as Habi. pose proof (api_of_ok c Hty) as Hok.
  pose proof (api_all_account (api_of c) (session ctx) Hok Hs Hr) as Hacc.
  pose proof (api_all_session_ok (api_of c) (session ctx) Hok Hs) as Hs'.
  pose proof (api_all_events_ok (api_of c) (session ctx) Hok Hs) as Hev.
  pose proof (api_all_handlers (api_of c) (session ctx) Hok Hs) as Hh.
  unfold run_state, run_events in *. destruct (api_all (api_of c) (session ctx)) as [[u s] ev].
  cbn in *. eexists _, _. split; [exact Habi|]. cbn. rewrite answered_posts by done.
  split; [split; cbn; [done | by rewrite Hh]|done].
Qed.

(** ** Properties *)

(** C25: the event encoding is faithful.  Whatever the calls made over the ABI on
    a fresh session, with whatever arguments of their C types, every message
    posted decodes to the callback it stands for, in order, and goes to the
    session's port: no event is dropped by the decoder or read as another. *)
Theorem posts_decode port ka wt qt cs :
  Forall abi_typed cs ->
  let h := gopro_ble_create port ka wt qt in
  exists ctx, h = Some ctx /\
    let ps := (abi_all h cs).2 in
    let ev := run_events (api_all (session_calls cs)) (session ctx) in
    Forall (fun p => p.1 = port) ps /\ decode ∘ snd <$> ps = Some ∘ seen <$> ev.
Proof.
  intros Hty. cbv zeta. eexists. split; [reflexivity|].
  unfold gopro_ble_create. match goal with |- context [abi_all (Some ?c)] => set (ctx := c) end.
  destruct (abi_run cs ctx Hty (init_session_ok _ _)) as (-> & Hev & _). cbn [snd]. split.
  - by apply Forall_fmap, Forall_true.
  - rewrite <- list_fmap_compose. apply list_fmap_ext. intros i e He. cbn. apply decode_encode.
    by eapply Forall_lookup_1 in Hev.
Qed.

Definition demo_abi : list abi_call :=
  [ATick 0; ASubmit 2 (Some [19; 8; 10]) 3 1 5; ASubmit 0 (Some [1; 1; 1]) 3 0 6;
   ASubmit 9 (Some [1]) 1 0 6; AFeed 2 (Some [8; 19; 0; 8; 1; 0; 10; 1; 0]) 9 10;
   AFeed 1 (Some [128; 7]) 2 11].

Lemma demo_abi_typed : Forall abi_typed demo_abi.
Proof.
  unfold demo_abi. repeat apply Forall_cons_2; try exact I; try apply Forall_nil_2;
    cbn; unfold byte_ok; split_and!; try lia; repeat constructor; lia.
Qed.

Lemma posts_decode_witness :
  exists ctx, gopro_ble_create 77 0 0 0 = Some ctx /\
    Forall (fun p => p.1 = 77) (abi_all (gopro_ble_create 77 0 0 0) demo_abi).2 /\
    (decode ∘ snd <$> (abi_all (gopro_ble_create 77 0 0 0) demo_abi).2) =
      [Some (BleWriteRequest 2 [32; 3; 19; 8; 10]);
       Some (BleResponse 531 kResponded [19; 0; 8; 1; 0; 10; 1; 0]);
       Some (BleReadyChanged true);
       Some (BleWriteRequest 0 [32; 3; 1; 1; 1]);
       Some (BleFrameErrorEvent 1 kStrayCont)].
Proof.
  destruct (posts_decode 77 0 0 0 demo_abi demo_abi_typed) as (ctx & H1 & H2 & H3).
  exists ctx. split_and!; [done|done|]. rewrite H3. injection H1 as <-. vm_compute. reflexivity.
Defined.

(** C6: every command is answered once.  Over the life of a session — created,
    called in any way, destroyed — the response events posted carry exactly the
    ids of the commands handed over, each once per submission: teardown leaves
    no caller without an outcome. *)
Theorem lifetime_settled port ka wt qt cs :
  Forall abi_typed cs ->
  exists ctx, gopro_ble_create port ka wt qt = Some ctx /\
    let '(h, ps) := abi_all (Some ctx) cs in
    let '(_, ps') := gopro_ble_destroy h in
    answered (ps ++ ps') ≡ₚ submitted_all (session ctx) (session_calls cs).
Proof.
  intros Hty. eexists. split; [reflexivity|].
  match goal with |- context [abi_all (Some ?c)] => set (ctx := c) end.
  assert (Forall abi_typed (cs ++ [ADisconnect])) as Hty' by (apply Forall_app; by repeat constructor).
  assert (session_ok (session ctx)) as Hs by apply init_session_ok.
  destruct (abi_run cs ctx Hty Hs) as (-> & Hev & Hs1).
  assert (Forall api_ok (session_calls cs)) as Hok.
  { unfold session_calls. apply Forall_concat, Forall_fmap. eapply Forall_impl; [exact Hty|]. apply api_of_ok. }
  pose proof (api_all_account (session_calls cs ++ [Disconnect]) (session ctx)) as Hacc.
  specialize (Hacc ltac:(apply Forall_app; by repeat constructor) Hs eq_refl).
  destruct (api_all_app (session_calls cs) [Disconnect] (session ctx)) as [E1 E2].
  rewrite E1, E2 in Hacc. set (s1 := run_state (api_all (session_calls cs)) (session ctx)) in *.
  pose proof (api_events_ok Disconnect s1 Hs1 I) as Hev2.
  destruct (api_all_cons Disconnect [] s1) as [E3 E4].
  change (run_state (api_all []) ?s) with s in E3.
  change (run_events (api_all []) ?s) with (@nil SEvent) in E4. rewrite app_nil_r in E4.
  rewrite E3, E4 in Hacc. cbn [api] in *. clear E1 E2 E3 E4.
  unfold gopro_ble_destroy, on_session. cbn [session].
  pose proof (disconnect_outstanding s1) as Hout. unfold run_state, run_events in Hacc, Hev2, Hout.
  destruct (on_disconnect s1) as [[u s2] ev2]. cbn [fst snd events_port] in *.
  rewrite <- fmap_app, answered_posts by (by apply Forall_app).
  rewrite Hout, submitted_all_app, app_nil_r in Hacc. cbn in Hacc. rewrite !app_nil_r in Hacc. exact Hacc.
Qed.

Lemma lifetime_settled_witness :
  exists ctx, gopro_ble_create 77 0 0 0 = Some ctx /\
    submitted_all (session ctx) (session_calls demo_abi) = [531; 1] /\
    let '(h, ps) := abi_all (Some ctx) demo_abi in
    let '(_, ps') := gopro_ble_destroy h in answered (ps ++ ps') ≡ₚ [531; 1].
Proof.
  destruct (lifetime_settled 77 0 0 0 demo_abi demo_abi_typed) as (ctx & H1 & H2).
  exists ctx. injection H1 as <-. split_and!; [reflexivity|vm_compute; reflexivity|]. exact H2.
Defined.

(** The guards.  A call over the ABI is exactly the session call its
    arguments describe, with every callback posted, when its arguments are
    sound: a handle, a channel below four, a known priority, a non-negative
    length (positive for a plain submit) and a pointer if there is anything to
    read.  Otherwise nothing happens at all. *)
Theorem abi_guards ctx c :
  abi_typed c ->
  abi None c = (None, []) /\
  match api_of c with
  | [] => abi (Some ctx) c = (Some ctx, [])
  | call :: _ =>
      abi (Some ctx) c =
        (Some (mkBleContext (events_port ctx) (run_state (api call) (session ctx))),
         (fun e => (events_port ctx, encode_event e)) <$> run_events (api call) (session ctx)) /\
      api_ok call
  end.
Proof.
  intros Hty. split; [by destruct c|].
  pose proof (abi_is_api ctx c Hty) as H. pose proof (api_of_ok c Hty) as Hok.
  assert (api_of c = [] \/ exists call, api_of c = [call]) as [E|[call E]].
  { destruct c; cbn [api_of]; try (right; by eexists); destruct (_ && _); ((by left) || (right; by eexists)). }
  - rewrite E in *. cbn in H. by destruct ctx.
  - rewrite E in *. cbn [api_all] in H. unfold bind, ret, run_state, run_events in *.
    destruct (api call (session ctx)) as [[u s] ev]. rewrite app_nil_r in H.
    split; [done|]. by apply Forall_cons in Hok as [? _].
Qed.

Lemma abi_guards_witness :
  abi (Some (mkBleContext 7 (BleSession_init all_wired SessionConfig_default)))
    (ASubmit 3 (Some [1; 2]) 2 4 0) =
  (Some (mkBleContext 7 (BleSession_init all_wired SessionConfig_default)), []).
Proof.
  refine (proj2 (abi_guards (mkBleContext 7 (BleSession_init all_wired SessionConfig_default))
    (ASubmit 3 (Some [1; 2]) 2 4 0) _)).
  cbn. unfold byte_ok. split_and!; try lia. repeat constructor; lia.
Defined.

(** ** What modelling showed *)

(** A keep-alive rejected because an LED write is waiting is posted as a
    response with the LED write's correlation id: the caller that matches
    responses by id takes it for the outcome of its own command, which is
    still outstanding. *)
Example keep_alive_rejection_answers_led_write :
  let h := (abi_all (gopro_ble_create 7 0 0 0) [ATick 0; ASubmit 1 (Some [91; 1; 2]) 3 0 10]).1 in
  decode ∘ snd <$> (abi h (ATick 3000)).2 = [Some (BleResponse 347 kRejected [])] /\
  (fun s => (fun e => (CommandQueue.id e, payload e)) <$> outstanding (session s)) <$> (abi h (ATick 3000)).1 =
    Some [(347, [91; 1; 2])].
Proof. vm_compute. done. Qed.
