(* ===== verification/BleTransport.v ===== *)
(** * The Dart camera on top of a BLE session
    ([lib/src/ble_transport.dart], class [GoProBleCamera], and
    [lib/src/ffi/ble_bindings.dart])

    The client of [BleBridge].  An isolate runs one turn of its event loop at a
    time, so the state changes between [await]s are atomic: [action] lists the
    turns, [exec] runs one, and any sequence of them is an interleaving.  Native
    calls are those of [BleBridge]; what they post waits in [_port] until the
    event loop delivers it.  A [Completer] is a number.  A native call on a
    handle that was destroyed is undefined; it is recorded as [UseAfterFree] and
    changes nothing.  Cancelling a subscription and closing a controller take
    effect when they are called, and do not fail.  Awaiting [_detach], [_attach] or
    [close] itself is no turn of its own: the caller goes on where they end.
    BlueZ is outside: what it reports and answers are the actions' arguments. *)

From S2P Require Import Prelude BleProtocol QueryParser CommandQueue BleSession BleBridge.
Local Open Scope Z_scope.

(** ** State *)

(** [CameraLink]. *)
Inductive CameraLink := up | reconnecting | down.

#[export] Instance CameraLink_eq_dec : EqDecision CameraLink.
Proof. solve_decision. Defined.

Abbreviation completer := nat.

(** What [_bringUp] produced: the channels with a write characteristic, and those
    with a notify characteristic and its MTU. *)
Record Attached := mkAttached {
  writes : list Channel;
  notifies : list (Channel * Z);
}.

(** The subscriptions in [_watch]. *)
Inductive Watch := propertiesChanged | deviceRemoved.

#[export] Instance Watch_eq_dec : EqDecision Watch.
Proof. solve_decision. Defined.

(** The stream controllers, in the order [close] closes them. *)
Inductive Stream := pushes | readyChanges | faults | linkChanges.

#[export] Instance Stream_eq_dec : EqDecision Stream.
Proof. solve_decision. Defined.

Definition all_streams : list Stream := [pushes; readyChanges; faults; linkChanges].

(** The [await] at which [close] is suspended. *)
Inductive close_pc :=
| CWatch                        (** the cancelling of a watch *)
| CSubs                         (** in [_detach], the cancelling of a subscription *)
| CStop (rest : list Channel)   (** in [_detach], a [stopNotify], before the rest *)
| CTurn                         (** [Future.delayed(Duration.zero)] *)
| CStreams                      (** the closing of a stream *)
| CDone
| CFailed.                      (** a [stopNotify] threw *)

(** The [await] at which [_onDrop] is suspended. *)
Inductive drop_pc := DDetach | DBringUp.

Record Camera := mkCamera {
  _session : option BleContext;          (** [None]: destroyed *)
  _link : bool;                          (** the link handle is alive *)
  _port : list bytes;                    (** posted, not yet delivered *)
  _events : bool;                        (** the [ReceivePort] is open *)
  _state : CameraLink;
  _pending : list (Z * completer);       (** a Dart map keeps insertion order *)
  _completers : completer;               (** the next fresh one *)
  _writes : list Channel;
  _notifies : list Channel;
  _subs : list Channel;                  (** subscriptions not cancelled *)
  _watch : list Watch;                   (** those not cancelled *)
  _ticker : bool;
  _streams : list Stream;                (** the controllers not closed *)
  _reconnectTimeout : Z;
  closing : option close_pc;
  dropping : option drop_pc;
}.

Inductive Effect :=
| Returned (k : completer) (id : Z)                    (** [send] returned this future *)
| Threw                                                (** [send] threw *)
| Done (k : completer) (o : Outcome) (payload : bytes) (** [complete] on it *)
| GattWrite (ch : Channel) (data : bytes)
| ReadyChanged (b : bool)
| Pushed (ch : Channel) (m : bytes)
| Fault
| LinkChanged (s : CameraLink)
| UseAfterFree
| CloseThrew                                           (** the future of [close] fails *)
| Unhandled.                                           (** an error nobody catches *)

Abbreviation dart := (act Camera Effect).

(** *** Updates of one member *)

Definition set_native (h : option BleContext) (port : list bytes) (c : Camera) : Camera :=
  mkCamera h (_link c) port (_events c) (_state c) (_pending c) (_completers c) (_writes c) (_notifies c)
    (_subs c) (_watch c) (_ticker c) (_streams c) (_reconnectTimeout c) (closing c) (dropping c).

(** [linkDestroy] and closing the port. *)
Definition close_port (c : Camera) : Camera :=
  mkCamera (_session c) false [] false (_state c) (_pending c) (_completers c) (_writes c) (_notifies c)
    (_subs c) (_watch c) (_ticker c) (_streams c) (_reconnectTimeout c) (closing c) (dropping c).

Definition set_state (s : CameraLink) (c : Camera) : Camera :=
  mkCamera (_session c) (_link c) (_port c) (_events c) s (_pending c) (_completers c) (_writes c)
    (_notifies c) (_subs c) (_watch c) (_ticker c) (_streams c) (_reconnectTimeout c) (closing c) (dropping c).

Definition set_pending (p : list (Z * completer)) (next : completer) (c : Camera) : Camera :=
  mkCamera (_session c) (_link c) (_port c) (_events c) (_state c) p next (_writes c)
    (_notifies c) (_subs c) (_watch c) (_ticker c) (_streams c) (_reconnectTimeout c) (closing c) (dropping c).

Definition set_chars (ws ns subs : list Channel) (c : Camera) : Camera :=
  mkCamera (_session c) (_link c) (_port c) (_events c) (_state c) (_pending c) (_completers c) ws
    ns subs (_watch c) (_ticker c) (_streams c) (_reconnectTimeout c) (closing c) (dropping c).

Definition set_timers (watch : list Watch) (ticker : bool) (c : Camera) : Camera :=
  mkCamera (_session c) (_link c) (_port c) (_events c) (_state c) (_pending c) (_completers c) (_writes c)
    (_notifies c) (_subs c) watch ticker (_streams c) (_reconnectTimeout c) (closing c) (dropping c).

Definition set_streams (open : list Stream) (c : Camera) : Camera :=
  mkCamera (_session c) (_link c) (_port c) (_events c) (_state c) (_pending c) (_completers c) (_writes c)
    (_notifies c) (_subs c) (_watch c) (_ticker c) open (_reconnectTimeout c) (closing c) (dropping c).

Definition set_pcs (cl : option close_pc) (dr : option drop_pc) (c : Camera) : Camera :=
  mkCamera (_session c) (_link c) (_port c) (_events c) (_state c) (_pending c) (_completers c) (_writes c)
    (_notifies c) (_subs c) (_watch c) (_ticker c) (_streams c) (_reconnectTimeout c) cl dr.

Definition set_closing (pc : close_pc) (c : Camera) : Camera := set_pcs (Some pc) (dropping c) c.
Definition set_dropping (pc : option drop_pc) (c : Camera) : Camera := set_pcs (closing c) pc c.

(** ** Native calls *)

(** A call with its result, zero where there is none. *)
Definition invoke_abi (h : option BleContext) (k : abi_call) : option BleContext * Z * list (Z * bytes) :=
  match k with
  | ASubmit ch d len p now => gopro_ble_submit h ch d len p now
  | ASubmitProtobuf ch f a d len p now => gopro_ble_submit_protobuf h ch f a d len p now
  | _ => let '(h', ps) := abi h k in (h', 0, ps)
  end.

(** What is posted goes to the port, unless it was closed. *)
Definition ffi (k : abi_call) : dart Z := fun c =>
  match _session c with
  | None => (0, c, [UseAfterFree])
  | Some _ =>
      let '(h, r, ps) := invoke_abi (_session c) k in
      (r, set_native h (if _events c then _port c ++ (snd <$> ps) else _port c) c, [])
  end.

(** Storing a Dart integer in a [Uint8List], or passing it as a [Uint8]. *)
Definition to_u8 (x : Z) : byte := wrap 8 x.

Definition BlePriority_value : Priority -> Z := Priority_val.

Definition ffi_feed (ch : Channel) (data : list Z) (now_ms : Z) : dart unit :=
  if bool_decide (data = []) then ret tt
  else (_ <~ ffi (AFeed ch (Some (to_u8 <$> data)) (Z.of_nat (length data)) now_ms) ;; ret tt)%act.

Definition ffi_submit (ch : Channel) (payload : list Z) (p : Priority) (now_ms : Z) : dart bool :=
  if bool_decide (payload = []) then ret false
  else
    (r <~ ffi (ASubmit ch (Some (to_u8 <$> payload)) (Z.of_nat (length payload)) (BlePriority_value p) now_ms) ;;
     ret (negb (r =? 0)))%act.

(** The buffer has one byte when the message is empty. *)
Definition ffi_submitProtobuf (ch : Channel) (featureId actionId : Z) (message : list Z) (p : Priority)
    (now_ms : Z) : dart bool :=
  let buf := if bool_decide (message = []) then [0] else to_u8 <$> message in
  (r <~ ffi (ASubmitProtobuf ch (to_u8 featureId) (to_u8 actionId) (Some buf)
               (Z.of_nat (length message)) (BlePriority_value p) now_ms) ;;
   ret (negb (r =? 0)))%act.

Definition protobufCorrelation (ch : Channel) (featureId actionId : Z) : Z :=
  gopro_ble_protobuf_correlation ch (to_u8 featureId) (to_u8 actionId).

Definition ffi_destroy : dart unit := fun c =>
  match _session c with
  | None => (tt, c, [UseAfterFree])
  | Some _ =>
      let '(h, ps) := gopro_ble_destroy (_session c) in
      (tt, set_native h (if _events c then _port c ++ (snd <$> ps) else _port c) c, [])
  end.

(** The calls of [_bringUp] on the link handle. *)
Definition link_calls : dart unit := fun c =>
  (tt, c, if _link c then [] else [UseAfterFree]).

(** [BleCodec.correlationOf]. *)
Definition correlationOf (ch : Channel) (leadingByte : Z) : Z := Z.lor (Z.shiftl ch 8) leadingByte.

(** ** Operations *)

Local Open Scope act_scope.

(** [final completer = Completer(); _pending[id] = completer;] *)
Definition register (id : Z) : dart completer := fun c =>
  (_completers c, set_pending (dict_put id (_completers c) (_pending c)) (S (_completers c)) c, []).

Definition forget (id : Z) : dart unit :=
  modify (fun c => set_pending (dict_del id (_pending c)) (_completers c) c).

Definition is_up (c : Camera) : bool := bool_decide (_state c = up).

(** The part [send] and [sendProtobuf] share; [None] when they throw. *)
Definition submit_once (id : Z) (submit : dart bool) : dart (option completer) :=
  taken <~ gets (fun c => dict_has id (_pending c)) ;;
  if taken : bool then (emit [Threw] ;;; ret None)
  else
    k <~ register id ;;
    ok <~ submit ;;
    if ok : bool then (emit [Returned k id] ;;; ret (Some k))
    else (forget id ;;; emit [Threw] ;;; ret None).

Definition default_priority (ch : Channel) : Priority := if ch =? kQuery then kFastpass else kQueued.

Definition send (ch : Channel) (payload : list Z) (priority : option Priority) (now_ms : Z)
    : dart (option completer) :=
  usable <~ gets is_up ;;
  if negb usable then (emit [Threw] ;;; ret None)
  else
    match payload with
    | [] => emit [Threw] ;;; ret None
    | b :: _ =>
        submit_once (correlationOf ch b)
          (ffi_submit ch payload (default (default_priority ch) priority) now_ms)
    end.

Definition sendProtobuf (featureId actionId : Z) (message : list Z) (ch : Channel) (priority : Priority)
    (now_ms : Z) : dart (option completer) :=
  usable <~ gets is_up ;;
  if negb usable then (emit [Threw] ;;; ret None)
  else
    submit_once (protobufCorrelation ch featureId actionId)
      (ffi_submitProtobuf ch featureId actionId message priority now_ms).

Definition kBusyStatusId : Z := 8.
Definition kEncodingStatusId : Z := 10.

Definition queryStatuses (statusIds : list Z) (now_ms : Z) : dart (option completer) :=
  send kQuery (19 :: statusIds) None now_ms.

(** [!isClosed] of a controller. *)
Definition is_open (s : Stream) (c : Camera) : bool := bool_decide (s ∈ _streams c).

(** [_setState]. *)
Definition setState (next : CameraLink) : dart unit := fun c =>
  if bool_decide (_state c = next) then (tt, c, [])
  else (tt, set_state next c, if is_open linkChanges c then [LinkChanged next] else []).

(** [_faults.add]; [false] when it throws because the controller is closed. *)
Definition faults_add : dart bool := fun c =>
  if is_open faults c then (true, c, [Fault]) else (false, c, [Unhandled]).

(** [_resolvePending]. *)
Definition resolvePending : dart unit :=
  p <~ gets _pending ;;
  emit ((fun x => Done x.2 kCanceled []) <$> p) ;;;
  modify (fun c => set_pending [] (_completers c) c).

(** [a == 0 || b < a ? b : a], folded from zero. *)
Definition min_mtu (mtus : list Z) : Z :=
  fold_left (fun a b => if (a =? 0) || (b <? a) then b else a) mtus 0.

(** [_attach]; [false] when it throws: [queryStatuses] throws before a future
    exists for [catchError] to watch. *)
Definition attach (a : Attached) (now_ms : Z) : dart bool :=
  modify (fun c => set_chars (writes a) (notifies a).*1 (_subs c) c) ;;;
  let mtu := min_mtu (notifies a).*2 in
  when (3 <? mtu) (_ <~ ffi (ASetAttPayload (wrap 32 (mtu - 3))) ;; ret tt) ;;;
  modify (fun c => set_chars (_writes c) (_notifies c) (_subs c ++ _notifies c) c) ;;;
  k <~ queryStatuses [kBusyStatusId; kEncodingStatusId] now_ms ;;
  match k with
  | None => ret false
  | Some _ =>
      modify (fun c => set_timers (_watch c ++ [propertiesChanged; deviceRemoved]) (_ticker c) c) ;;;
      ret true
  end.

(** The loops of [close], each from one [await] to the next.  [_detach] over
    [_notifies]: *)
Definition stop_notifies (rest : list Channel) : dart unit :=
  match rest with
  | _ :: rest => modify (set_closing (CStop rest))
  | [] => modify (set_chars [] [] []) ;;; modify (set_closing CTurn)
  end.

(** [_detach(stopNotify: true)] over [_subs]. *)
Definition detach_subs : dart unit :=
  subs <~ gets _subs ;;
  notifies <~ gets _notifies ;;
  match subs with
  | _ :: subs =>
      modify (fun c => set_chars (_writes c) (_notifies c) subs c) ;;;
      modify (set_closing CSubs)
  | [] => stop_notifies notifies
  end.

(** Over [_watch], and what follows it. *)
Definition cancel_watches : dart unit :=
  watch <~ gets _watch ;;
  match watch with
  | _ :: watch =>
      modify (fun c => set_timers watch (_ticker c) c) ;;;
      modify (set_closing CWatch)
  | [] =>
      _ <~ ffi ADisconnect ;;
      detach_subs
  end.

(** The [close] of each controller. *)
Definition close_stream : dart unit :=
  open <~ gets _streams ;;
  match open with
  | _ :: open => modify (set_streams open) ;;; modify (set_closing CStreams)
  | [] => modify (set_closing CDone)
  end.

(** [close], up to its first [await]. *)
Definition close : dart unit :=
  s <~ gets _state ;;
  if bool_decide (s = down) then ret tt
  else
    (setState down ;;;
     modify (fun c => set_timers (_watch c) false c) ;;;
     cancel_watches).

(** The rest of [close], from [await] to [await].  [threw]: the [stopNotify] it
    is suspended at throws something other than a [BlueZException]. *)
Definition close_step (threw : bool) : dart unit :=
  pc <~ gets closing ;;
  match pc with
  | Some CWatch => cancel_watches
  | Some CSubs => detach_subs
  | Some (CStop rest) =>
      if threw then emit [CloseThrew] ;;; modify (set_closing CFailed) else stop_notifies rest
  | Some CTurn =>
      resolvePending ;;;
      ffi_destroy ;;;
      modify close_port ;;;
      close_stream
  | Some CStreams => close_stream
  | Some CDone | Some CFailed | None => ret tt
  end.

(** [_detach(stopNotify: false)] in [_onDrop], from one [await] to the next. *)
Definition drop_detach : dart unit :=
  subs <~ gets _subs ;;
  match subs with
  | _ :: subs =>
      modify (fun c => set_chars (_writes c) (_notifies c) subs c) ;;;
      modify (set_dropping (Some DDetach))
  | [] =>
      modify (set_chars [] [] []) ;;;
      resolvePending ;;;
      link_calls ;;;
      modify (set_dropping (Some DBringUp))
  end.

(** [_onDrop], up to its first [await]. *)
Definition onDrop : dart unit :=
  usable <~ gets is_up ;;
  if negb usable then ret tt
  else
    patience <~ gets _reconnectTimeout ;;
    if patience =? 0 then (_ <~ faults_add ;; close)
    else
      (setState reconnecting ;;;
       _ <~ faults_add ;;
       _ <~ ffi ADisconnect ;;
       drop_detach).

(** The [catch] of [_onDrop]: if adding the fault throws, nothing more happens. *)
Definition abandon : dart unit := ok <~ faults_add ;; when ok close.

(** The rest of [_onDrop].  [result] is what [_bringUp] comes back with, if it
    does in this turn: the attachment, or [None] when it throws. *)
Definition drop_step (result : option (option Attached)) (now_ms : Z) : dart unit :=
  pc <~ gets dropping ;;
  match pc with
  | Some DDetach => drop_detach
  | Some DBringUp =>
      link_calls ;;;
      match result with
      | None => ret tt
      | Some r =>
          modify (set_dropping None) ;;;
          match r with
          | None => abandon
          | Some a => ok <~ attach a now_ms ;; if ok : bool then setState up else abandon
          end
      end
  | None => ret tt
  end.

(** [_onEvent]. *)
Definition onEvent (message : bytes) : dart unit :=
  match decode message with
  | None => ret tt
  | Some (BleWriteRequest ch data) =>
      ws <~ gets _writes ;;
      emit (if bool_decide (ch ∈ ws) then [GattWrite ch data] else [])
  | Some (BleResponse id o data) =>
      p <~ gets _pending ;;
      forget id ;;;
      emit (match dict_get id p with Some k => [Done k o data] | None => [] end)
  | Some (BleReadyChanged b) => s <~ gets (is_open readyChanges) ;; emit (if s : bool then [ReadyChanged b] else [])
  | Some (BlePush ch m) => s <~ gets (is_open pushes) ;; emit (if s : bool then [Pushed ch m] else [])
  | Some (BleFrameErrorEvent _ _) => s <~ gets (is_open faults) ;; emit (if s : bool then [Fault] else [])
  end.

(** One turn of the event loop. *)
Inductive action :=
| ASend (ch : Channel) (payload : list Z) (priority : option Priority) (now_ms : Z)
| ASendProtobuf (featureId actionId : Z) (message : list Z) (ch : Channel) (p : Priority) (now_ms : Z)
| ANotify (ch : Channel) (data : list Z) (now_ms : Z)  (** the characteristic notified *)
| ATimer (now_ms : Z) (connected : bool)               (** the periodic timer fired *)
| ADeliver                                             (** the port delivers a message *)
| ADropSeen (w : Watch)                                (** a watch reports the link gone *)
| AClose
| ACloseStep (threw : bool)
| ADropStep (result : option (option Attached)) (now_ms : Z).

Definition exec (a : action) : dart unit :=
  match a with
  | ASend ch payload p now => _ <~ send ch payload p now ;; ret tt
  | ASendProtobuf f x m ch p now => _ <~ sendProtobuf f x m ch p now ;; ret tt
  | ANotify ch data now =>
      subs <~ gets _subs ;;
      when (bool_decide (ch ∈ subs)) (ffi_feed ch data now)
  | ATimer now connected =>
      on <~ gets _ticker ;;
      when on
        (_ <~ ffi (ATick now) ;;
         usable <~ gets is_up ;;
         when (usable && negb connected) onDrop)
  | ADeliver =>
      port <~ gets _port ;;
      match port with
      | [] => ret tt
      | m :: port => modify (fun c => set_native (_session c) port c) ;;; onEvent m
      end
  | ADropSeen w => watch <~ gets _watch ;; when (bool_decide (w ∈ watch)) onDrop
  | AClose => close
  | ACloseStep threw => close_step threw
  | ADropStep r now => drop_step r now
  end.

Fixpoint exec_all (l : list action) : dart unit :=
  match l with
  | [] => ret tt
  | a :: l => exec a ;;; exec_all l
  end.

(** [GoProBleTransport.connect], once bring-up has succeeded. *)
Definition new_camera (port keepAlive reconnectTimeout : Z) : Camera :=
  mkCamera (gopro_ble_create port keepAlive 0 0) true [] true up [] 0 [] [] [] [] false all_streams
    reconnectTimeout None None.

Definition connect (a : Attached) (now_ms : Z) : dart unit :=
  _ <~ attach a now_ms ;; modify (fun c => set_timers (_watch c) true c).

(** The getter [ready]. *)
Definition camera_ready (c : Camera) : bool := is_up c && negb (gopro_ble_ready (_session c) =? 0).

(** ** Runs *)

Lemma exec_all_app l l' c :
  run_state (exec_all (l ++ l')) c = run_state (exec_all l') (run_state (exec_all l) c) /\
  run_events (exec_all (l ++ l')) c =
    run_events (exec_all l) c ++ run_events (exec_all l') (run_state (exec_all l) c).
Proof.
  revert c. induction l as [|a l IH]; intros c; [done|]. cbn [app exec_all].
  destruct (run_bind (exec a) (fun _ => exec_all (l ++ l')) c) as (_ & -> & ->).
  destruct (run_bind (exec a) (fun _ => exec_all l) c) as (_ & -> & ->).
  destruct (IH (run_state (exec a) c)) as [-> ->]. by rewrite app_assoc.
Qed.

Lemma exec_all_cons a l c :
  run_state (exec_all (a :: l)) c = run_state (exec_all l) (run_state (exec a) c) /\
  run_events (exec_all (a :: l)) c =
    run_events (exec a) c ++ run_events (exec_all l) (run_state (exec a) c).
Proof. cbn [exec_all]. by destruct (run_bind (exec a) (fun _ => exec_all l) c) as (_ & -> & ->). Qed.

Lemma along_all (R : Camera -> list Effect -> Camera -> Prop) `{!TraceOrder R} l :
  (forall a c, along R (exec a) c) -> forall c, along R (exec_all l) c.
Proof.
  intros H. induction l as [|a l IH]; intros c; [apply along_ret; apply _|].
  cbn [exec_all]. apply along_bind; [apply _|apply H|apply IH].
Qed.

(** ** A native call changes the session and the port only *)

Lemma ffi_frame k c : exists h port ev,
  ffi k c = (run_result (ffi k) c, set_native h port c, ev) /\ ev ⊆ [UseAfterFree].
Proof.
  unfold ffi, run_result. destruct (_session c) as [ctx|] eqn:E.
  - destruct (invoke_abi _ _) as [[h r] ps]. eexists _, _, _. split; [reflexivity|set_solver].
  - exists (_session c), (_port c), [UseAfterFree]. split; [|done]. cbn. by destruct c.
Qed.

Lemma set_native_twice h p h' p' c : set_native h p (set_native h' p' c) = set_native h p c.
Proof. done. Qed.

(** Code that touches the session and the port only, and has no effect on a
    session that is alive. *)
Definition native_only {A} (m : dart A) : Prop := forall c, exists h port ev,
  run_state m c = set_native h port c /\ run_events m c = ev /\ ev ⊆ [UseAfterFree].

Lemma native_only_ffi k : native_only (ffi k).
Proof.
  intros c. destruct (ffi_frame k c) as (h & port & ev & H & Hev). exists h, port, ev.
  unfold run_state, run_events. by rewrite H.
Qed.

Lemma native_only_ret {A} (a : A) : native_only (ret a).
Proof. intros c. exists (_session c), (_port c), []. split_and!; [by destruct c|done|set_solver]. Qed.

Lemma native_only_bind {A B} (m : dart A) (k : A -> dart B) :
  native_only m -> (forall a, native_only (k a)) -> native_only (bind m k).
Proof.
  intros Hm Hk c. destruct (run_bind m k c) as (_ & -> & ->).
  destruct (Hm c) as (h & p & ev & -> & -> & H1).
  destruct (Hk (run_result m c) (set_native h p c)) as (h' & p' & ev' & -> & -> & H2).
  rewrite set_native_twice. exists h', p', (ev ++ ev'). split_and!; [done|done|]. set_solver.
Qed.

Lemma native_only_feed ch data now : native_only (ffi_feed ch data now).
Proof.
  unfold ffi_feed. case_bool_decide; auto using native_only_ret, native_only_bind, native_only_ffi.
Qed.

Lemma native_only_submit ch d p now : native_only (ffi_submit ch d p now).
Proof.
  unfold ffi_submit. case_bool_decide; auto using native_only_ret, native_only_bind, native_only_ffi.
Qed.

Lemma native_only_submitProtobuf ch f a d p now : native_only (ffi_submitProtobuf ch f a d p now).
Proof. unfold ffi_submitProtobuf. auto using native_only_ret, native_only_bind, native_only_ffi. Qed.

Lemma native_only_destroy : native_only ffi_destroy.
Proof.
  intros c. unfold ffi_destroy, run_state, run_events. destruct (_session c) eqn:E.
  - destruct (gopro_ble_destroy _). eexists _, _, _. split_and!; [reflexivity|reflexivity|set_solver].
  - exists (_session c), (_port c), [UseAfterFree]. split_and!; [by destruct c|done|done].
Qed.

(** ** [send] *)

Arguments dict_has : simpl never.
Arguments dict_del : simpl never.
Arguments dict_get : simpl never.
Arguments is_up : simpl never.

(** What became of a submission: refused here, refused natively, or accepted. *)
Inductive submitted_as (id : Z) (c : Camera) : option completer -> Camera -> list Effect -> Prop :=
| sub_taken : id ∈ (_pending c).*1 -> submitted_as id c None c [Threw]
| sub_refused h port ev : id ∉ (_pending c).*1 -> ev ⊆ [UseAfterFree] ->
    submitted_as id c None (set_native h port (set_pending (_pending c) (S (_completers c)) c))
      (ev ++ [Threw])
| sub_accepted h port ev : id ∉ (_pending c).*1 -> ev ⊆ [UseAfterFree] ->
    submitted_as id c (Some (_completers c))
      (set_native h port (set_pending (_pending c ++ [(id, _completers c)]) (S (_completers c)) c))
      (ev ++ [Returned (_completers c) id]).

Lemma submit_once_as id submit c :
  native_only submit ->
  submitted_as id c (run_result (submit_once id submit) c) (run_state (submit_once id submit) c)
    (run_events (submit_once id submit) c).
Proof.
  intros Hs. unfold submit_once.
  destruct (run_bind (gets (fun c => dict_has id (_pending c))) (fun taken : bool =>
    if taken then (emit [Threw] ;;; ret None) else
    k <~ register id ;; ok <~ submit ;;
    if ok : bool then (emit [Returned k id] ;;; ret (Some k))
    else (forget id ;;; emit [Threw] ;;; ret None)) c) as (-> & -> & ->). cbn.
  destruct (dict_has id _) eqn:Ek; [apply bool_decide_eq_true in Ek; by apply sub_taken|].
  apply bool_decide_eq_false in Ek. set (c1 := set_pending (_pending c ++ [(id, _completers c)]) (S (_completers c)) c).
  destruct (run_bind (register id) (fun k => ok <~ submit ;;
    if ok : bool then (emit [Returned k id] ;;; ret (Some k))
    else (forget id ;;; emit [Threw] ;;; ret None)) c) as (-> & -> & ->). cbn.
  rewrite dict_put_fresh by done. fold c1.
  destruct (run_bind submit (fun ok : bool =>
    if ok then (emit [Returned (_completers c) id] ;;; ret (Some (_completers c)))
    else (forget id ;;; emit [Threw] ;;; ret None)) c1) as (-> & -> & ->). cbn.
  destruct (Hs c1) as (h & port & ev & E1 & E2 & Hev). rewrite E1, E2.
  destruct (run_result submit c1); cbn; [by apply sub_accepted|].
  rewrite dict_del_last by done. by apply sub_refused.
Qed.

(** What [send] and [sendProtobuf] may do. *)
Definition sends_as (m : dart (option completer)) : Prop := forall c,
  (run_result m c = None /\ run_state m c = c /\ run_events m c = [Threw]) \/
  (_state c = up /\ exists id, submitted_as id c (run_result m c) (run_state m c) (run_events m c)).

Lemma send_as ch payload p now : sends_as (send ch payload p now).
Proof.
  intros c. unfold send, run_result, run_state, run_events. rewrite bind_gets.
  destruct (is_up c) eqn:Eu; cbn [negb]; [|by left]. destruct payload as [|b payload]; [by left|].
  right. split; [by apply bool_decide_eq_true in Eu|]. exists (correlationOf ch b).
  apply submit_once_as, native_only_submit.
Qed.

Lemma sendProtobuf_as f a m ch p now : sends_as (sendProtobuf f a m ch p now).
Proof.
  intros c. unfold sendProtobuf, run_result, run_state, run_events. rewrite bind_gets.
  destruct (is_up c) eqn:Eu; cbn [negb]; [|by left].
  right. split; [by apply bool_decide_eq_true in Eu|]. exists (protobufCorrelation ch f a).
  apply submit_once_as, native_only_submitProtobuf.
Qed.

(** ** The ledger of futures *)

Definition returns (ev : list Effect) : list completer :=
  omap (fun e => match e with Returned k _ => Some k | _ => None end) ev.

Definition dones (ev : list Effect) : list completer :=
  omap (fun e => match e with Done k _ _ => Some k | _ => None end) ev.

Arguments returns : simpl never.
Arguments dones : simpl never.

Lemma returns_app ev ev' : returns (ev ++ ev') = returns ev ++ returns ev'.
Proof. apply omap_app. Qed.

Lemma dones_app ev ev' : dones (ev ++ ev') = dones ev ++ dones ev'.
Proof. apply omap_app. Qed.

(** Keys are unique; futures returned are new and distinct, and each of them is
    completed or still registered. *)
Record ledger_ok (c : Camera) (ev : list Effect) (c' : Camera) : Prop := {
  ledger_keys : NoDup (_pending c').*1;
  ledger_futures : dones ev ++ (_pending c').*2 ≡ₚ returns ev ++ (_pending c).*2;
  ledger_next : (_completers c <= _completers c')%nat;
  ledger_new : Forall (fun k => (_completers c <= k < _completers c')%nat) (returns ev);
  ledger_distinct : NoDup (returns ev);
}.

Definition ledger c ev c' : Prop := NoDup (_pending c).*1 -> ledger_ok c ev c'.

#[export] Instance ledger_order : TraceOrder ledger.
Proof.
  split.
  - intros c Hk. split; [done..|constructor|constructor].
  - intros c ev c' ev' c'' H1 H2 Hk. destruct (H1 Hk) as [K1 F1 N1 W1 D1].
    destruct (H2 K1) as [K2 F2 N2 W2 D2]. split.
    + done.
    + rewrite dones_app, returns_app, <- !app_assoc, F2, (app_assoc (dones ev)).
      rewrite (Permutation_app_comm (dones ev)), <- app_assoc, F1, !app_assoc.
      by apply Permutation_app_tail, Permutation_app_comm.
    + lia.
    + rewrite returns_app, Forall_app.
      split; eapply Forall_impl; try eassumption; intros k; cbn; lia.
    + rewrite returns_app. apply NoDup_app. split_and!; [done| |done].
      intros k Hk1 Hk2. rewrite Forall_forall in W1, W2. specialize (W1 k Hk1). specialize (W2 k Hk2). lia.
Qed.

(** Steps that leave the futures alone. *)
Lemma ledger_same c ev c' :
  _pending c' = _pending c -> _completers c' = _completers c -> returns ev = [] -> dones ev = [] ->
  ledger c ev c'.
Proof. intros Hp Hc Hr Hd Hk. split; rewrite ?Hp, ?Hc, ?Hr, ?Hd; [done..|constructor|constructor]. Qed.

Lemma quiet_effects ev : ev ⊆ [UseAfterFree] -> returns ev = [] /\ dones ev = [].
Proof.
  unfold returns, dones. induction ev as [|e ev IH]; intros H; [done|].
  assert (e = UseAfterFree) as -> by set_solver. apply IH. set_solver.
Qed.

Lemma ledger_native {A} (m : dart A) c : native_only m -> along ledger m c.
Proof.
  intros Hm. destruct (Hm c) as (h & p & ev & Hs & He & Hev). unfold along. rewrite Hs, He.
  destruct (quiet_effects ev Hev). by apply ledger_same.
Qed.

Lemma ledger_submitted id c r c' ev : submitted_as id c r c' ev -> ledger c ev c'.
Proof.
  intros [Hin|h port ev' Hn Hev|h port ev' Hn Hev] Hk.
  - by apply ledger_same.
  - destruct (quiet_effects ev' Hev) as [Hr Hd].
    split; cbn; rewrite ?returns_app, ?dones_app, ?Hr, ?Hd; try done; try lia; constructor.
  - destruct (quiet_effects ev' Hev) as [Hr Hd].
    assert (returns [Returned (_completers c) id] = [_completers c]) as Hone by done.
    split; cbn; rewrite ?returns_app, ?dones_app, ?Hr, ?Hd, ?Hone; try lia.
    + rewrite fmap_app. apply NoDup_app. split_and!; [done| |apply NoDup_singleton].
      intros i Hi [->|[]%not_elem_of_nil]%elem_of_cons. done.
    + rewrite fmap_app. apply (Permutation_app_comm _ [_completers c]).
    + apply Forall_singleton. lia.
    + apply NoDup_singleton.
Qed.

Lemma ledger_sends (m : dart (option completer)) c : sends_as m -> along ledger m c.
Proof.
  intros Hm. unfold along. destruct (Hm c) as [(_ & -> & ->)|(_ & id & H)]; [by apply ledger_same|].
  by eapply ledger_submitted.
Qed.

Lemma ledger_resolve c : along ledger resolvePending c.
Proof.
  intros Hk. unfold resolvePending, run_events, run_state. rewrite bind_gets. cbn. rewrite app_nil_r.
  assert (forall p : list (Z * completer),
            returns ((fun x => Done x.2 kCanceled []) <$> p) = [] /\
            dones ((fun x => Done x.2 kCanceled []) <$> p) = p.*2) as Hp.
  { induction p as [|x p [IH1 IH2]]; [done|]. split; [exact IH1|].
    change (x.2 :: dones ((fun x => Done x.2 kCanceled []) <$> p) = x.2 :: p.*2). by rewrite IH2. }
  destruct (Hp (_pending c)) as [H1 H2].
  split; cbn; rewrite ?H1, ?H2; try done; try lia; try constructor. by rewrite app_nil_r.
Qed.

Lemma ledger_response id o d c :
  along ledger (p <~ gets _pending ;; forget id ;;;
    emit (match dict_get id p with Some k => [Done k o d] | None => [] end)) c.
Proof.
  intros Hk. unfold run_events, run_state, forget. rewrite bind_gets, bind_modify. cbn.
  pose proof (dict_take id (_pending c) Hk) as Hl.
  destruct (dict_get id (_pending c)) as [k|]; split; cbn; try lia; try constructor;
    try by apply dict_del_NoDup.
  - destruct Hl as [_ Hl]. symmetry; exact (fmap_Permutation snd _ _ Hl).
  - by destruct Hl as [-> _].
Qed.

Lemma ledger_event m c : along ledger (onEvent m) c.
Proof.
  unfold onEvent. destruct (decode m) as [[ch d|id o d|b|ch d|ch x]|];
    [|by apply ledger_response|..]; along; try (case_bool_decide || case_match);
    by apply ledger_same.
Qed.

Ltac ledger_atom :=
  first [ by apply ledger_same
        | apply ledger_native; first [apply native_only_ffi | apply native_only_destroy | apply native_only_feed]
        | apply ledger_resolve
        | apply ledger_sends; first [apply send_as | apply sendProtobuf_as] ].

Lemma ledger_setState s c : along ledger (setState s) c.
Proof.
  unfold setState, along, run_events, run_state. case_bool_decide; [by apply ledger_same|].
  by destruct (is_open linkChanges c); apply ledger_same.
Qed.

Lemma ledger_faults c : along ledger faults_add c.
Proof. unfold faults_add, along, run_events, run_state. by destruct (is_open faults c); apply ledger_same. Qed.

(** The cases of the loops of [close]. *)
Ltac close_loops :=
  unfold close_step, cancel_watches, detach_subs, close_stream, stop_notifies; along;
  repeat (lazymatch goal with
          | |- along _ (match ?x with _ => _ end) _ => destruct x eqn:?
          end; along).

Lemma ledger_watches c : along ledger cancel_watches c.
Proof. close_loops; ledger_atom. Qed.

Lemma ledger_close c : along ledger close c.
Proof. unfold close. along; try ledger_atom; [apply ledger_setState | apply ledger_watches]. Qed.

Lemma ledger_abandon c : along ledger abandon c.
Proof. unfold abandon. along; [apply ledger_faults | apply ledger_close]. Qed.

Lemma ledger_attach a now c : along ledger (attach a now) c.
Proof.
  unfold attach. along; ledger_atom.
Qed.

Lemma ledger_close_step threw c : along ledger (close_step threw) c.
Proof. close_loops; ledger_atom. Qed.

Lemma ledger_link_calls c : along ledger link_calls c.
Proof. unfold along, link_calls, run_events, run_state. by destruct (_link c); apply ledger_same. Qed.

Lemma ledger_drop_detach c : along ledger drop_detach c.
Proof. unfold drop_detach. along. destruct (_subs c); along; try ledger_atom. apply ledger_link_calls. Qed.

Lemma ledger_onDrop c : along ledger onDrop c.
Proof.
  unfold onDrop. along; try ledger_atom; try apply ledger_faults; try apply ledger_close;
    [apply ledger_setState | apply ledger_drop_detach].
Qed.

Lemma ledger_drop_step r now c : along ledger (drop_step r now) c.
Proof.
  unfold drop_step. along. destruct (dropping c) as [[]|]; along; try ledger_atom.
  - apply ledger_drop_detach.
  - apply ledger_link_calls.
  - destruct r as [[a|]|]; along; try ledger_atom; try apply ledger_abandon; try apply ledger_attach.
    all: first [apply ledger_setState | apply ledger_abandon].
Qed.

Lemma ledger_exec a c : along ledger (exec a) c.
Proof.
  destruct a; cbn [exec]; along; try ledger_atom; try apply ledger_onDrop.
  - destruct (_port c); along; [ledger_atom | apply ledger_event].
  - apply ledger_close.
  - apply ledger_close_step.
  - apply ledger_drop_step.
Qed.

(** ** The life of the link *)

(** [close] has destroyed the handles. *)
Definition released (pc : option close_pc) : Prop := pc = Some CStreams \/ pc = Some CDone.

(** [close] runs with the link down and ends with no future registered; [_onDrop]
    is never suspended with the link up. *)
Record course (c : Camera) : Prop := {
  course_down : closing c <> None -> _state c = down;
  course_dropping : dropping c <> None -> _state c <> up;
  course_settled : released (closing c) -> _pending c = [];
}.

(** A link that is not up stays so, a link that is down stays down. *)
Definition one_way (c : Camera) (ev : list Effect) (c' : Camera) : Prop :=
  (_state c <> up -> _state c' <> up) /\ (_state c = down -> _state c' = down) /\
  (course c -> course c').

#[export] Instance one_way_order : TraceOrder one_way.
Proof. split; unfold one_way; naive_solver. Qed.

Lemma one_way_same c ev c' :
  _state c' = _state c -> closing c' = closing c -> _pending c' = _pending c ->
  dropping c' = dropping c \/ dropping c' = None -> one_way c ev c'.
Proof.
  intros H1 H2 H3 H4. unfold one_way. rewrite H1. split_and!; [done..|]. intros [K1 K2 K3].
  split; rewrite ?H1, ?H2, ?H3; [done| |done]. intros Hd. apply K2. destruct H4; congruence.
Qed.

Lemma one_way_same' c ev c' :
  _state c' = _state c -> closing c' = closing c -> _pending c' = _pending c -> dropping c' = dropping c ->
  one_way c ev c'.
Proof. intros. apply one_way_same; auto. Qed.

Lemma one_way_native {A} (m : dart A) c : native_only m -> along one_way m c.
Proof.
  intros Hm. destruct (Hm c) as (h & p & ev & Hs & He & _). unfold along. rewrite Hs, He.
  by apply one_way_same'.
Qed.

Lemma one_way_sends (m : dart (option completer)) c : sends_as m -> along one_way m c.
Proof.
  intros Hm. unfold along. destruct (Hm c) as [(_ & -> & ->)|(Hup & id & H)]; [by apply one_way_same'|].
  unfold one_way. assert (_state (run_state m c) = up) as -> by (destruct H; done).
  split_and!; [congruence..|]. intros [K1 K2 _].
  assert (closing (run_state m c) = None) as Hcl.
  { assert (closing (run_state m c) = closing c) as -> by (destruct H; done).
    destruct (closing c); [|done]. by rewrite K1 in Hup. }
  assert (dropping (run_state m c) = dropping c) as Hdr by (destruct H; done).
  split; rewrite ?Hcl, ?Hdr; [done| |by intros []]. intros Hd. by destruct (K2 Hd).
Qed.

(** The members a submission leaves alone. *)
Definition same_life (c c' : Camera) : Prop :=
  _state c' = _state c /\ dropping c' = dropping c /\ closing c' = closing c /\ _streams c' = _streams c.

Lemma sends_frame (m : dart (option completer)) c :
  sends_as m -> same_life c (run_state m c) /\ (_state c <> up -> run_result m c = None).
Proof.
  intros Hm. destruct (Hm c) as [(-> & -> & _)|(Hup & id & H)]; [done|].
  split; [by destruct H|]. congruence.
Qed.

Lemma run_modify (f : Camera -> Camera) c : run_state (modify (E := Effect) f) c = f c.
Proof. done. Qed.

Lemma setState_state s c : _state (run_state (setState s) c) = s.
Proof. unfold run_state, setState. by case_bool_decide. Qed.

Lemma setState_frame s c :
  closing (run_state (setState s) c) = closing c /\ _pending (run_state (setState s) c) = _pending c /\
  dropping (run_state (setState s) c) = dropping c.
Proof. unfold run_state, setState. by case_bool_decide. Qed.

Lemma one_way_setState s c :
  (_state c <> up -> s <> up) -> (_state c = down -> s = down) -> (course c -> closing c <> None -> s = down) ->
  (course c -> dropping c <> None -> s <> up) -> along one_way (setState s) c.
Proof.
  intros H1 H2 H3 H4. unfold along, one_way. rewrite setState_state. split_and!; [done..|].
  intros K. destruct (setState_frame s c) as (Ec & Ep & Ed).
  split; rewrite ?Ec, ?Ep, ?Ed, ?setState_state; [auto..|]. apply K.
Qed.

Lemma faults_state c : run_state faults_add c = c.
Proof. unfold faults_add, run_state. by destruct (is_open faults c). Qed.

Lemma one_way_faults c : along one_way faults_add c.
Proof. unfold faults_add, along, run_events, run_state. by destruct (is_open faults c); apply one_way_same'. Qed.

Lemma one_way_resolve c : along one_way resolvePending c.
Proof.
  unfold resolvePending. along; [by apply one_way_same'|]. split_and!; [done..|].
  intros [K1 K2 K3]. by split.
Qed.

Ltac one_way_atom :=
  first [ by apply one_way_same'
        | apply one_way_native; first [apply native_only_ffi | apply native_only_destroy | apply native_only_feed]
        | apply one_way_resolve | apply one_way_faults
        | apply one_way_sends; first [apply send_as | apply sendProtobuf_as] ].

Lemma one_way_set_closing pc c :
  closing c <> None \/ _state c = down -> (released (Some pc) -> course c -> _pending c = []) ->
  one_way c [] (set_closing pc c).
Proof.
  intros Hc Hp. unfold one_way. split_and!; [done..|]. intros K. pose proof K as [K1 K2 _].
  split; cbn; [intros _; destruct Hc as [Hc|Hc]; [by apply K1|done] | exact K2 |]. intros H. by apply Hp.
Qed.

Lemma one_way_stop rest c : closing c <> None \/ _state c = down -> along one_way (stop_notifies rest) c.
Proof.
  intros Hc. unfold stop_notifies. destruct rest; along; try one_way_atom;
    (apply one_way_set_closing; [exact Hc | by intros []]).
Qed.

Lemma one_way_detach c : closing c <> None \/ _state c = down -> along one_way detach_subs c.
Proof.
  intros Hc. unfold detach_subs. along. destruct (_subs c); [by apply one_way_stop|]. along; [one_way_atom|].
  apply one_way_set_closing; [exact Hc | by intros []].
Qed.

Lemma one_way_watches c : closing c <> None \/ _state c = down -> along one_way cancel_watches c.
Proof.
  intros Hc. unfold cancel_watches. along. destruct (_watch c); along; try one_way_atom.
  - apply one_way_detach. by destruct (native_only_ffi ADisconnect c) as (h & p & ev & -> & _).
  - apply one_way_set_closing; [exact Hc | by intros []].
Qed.

Lemma one_way_close_stream c :
  closing c <> None -> _pending c = [] \/ released (closing c) -> along one_way close_stream c.
Proof.
  intros Hc Hp. unfold close_stream. along. destruct (_streams c); along; try one_way_atom;
    (apply one_way_set_closing; [by left|]; intros _ K; destruct Hp; [done | by apply (course_settled _ K)]).
Qed.

Lemma one_way_close c : along one_way close c.
Proof.
  unfold close. along; try one_way_atom.
  - apply one_way_setState; try done; congruence.
  - apply one_way_watches. right. rewrite run_modify. cbn -[run_state]. by rewrite setState_state.
Qed.

Lemma one_way_abandon c : along one_way abandon c.
Proof. unfold abandon. along; [apply one_way_faults | apply one_way_close]. Qed.

Lemma one_way_attach a now c : along one_way (attach a now) c.
Proof. unfold attach. along; one_way_atom. Qed.

(** [_attach] throws unless the link is already up: its query goes through
    [send]. *)
Lemma attach_frame a now c :
  same_life c (run_state (attach a now) c) /\
  (_state c <> up -> run_result (attach a now) c = false).
Proof.
  unfold attach. set (mtu := min_mtu _).
  match goal with |- context [bind (modify ?f) ?k] =>
    destruct (run_bind (modify f) k c) as (-> & -> & _) end. rewrite run_modify. cbn [run_result modify].
  match goal with |- context [bind (when ?b ?m) ?k] => set (nat := when b m);
    destruct (run_bind nat k (set_chars (writes a) (notifies a).*1 (_subs c) c)) as (-> & -> & _) end.
  assert (native_only nat) as Hn.
  { unfold nat, when. destruct (3 <? mtu); auto using native_only_ret, native_only_bind, native_only_ffi. }
  destruct (Hn (set_chars (writes a) (notifies a).*1 (_subs c) c)) as (h & p & ev & -> & _).
  match goal with |- context [bind (modify ?f) ?k] =>
    destruct (run_bind (modify f) k (set_native h p (set_chars (writes a) (notifies a).*1 (_subs c) c)))
      as (-> & -> & _) end. rewrite run_modify. cbn [run_result modify].
  set (c2 := set_chars _ _ _ _). assert (_state c2 = _state c) as E2 by done.
  match goal with |- context [bind (queryStatuses ?i ?n) ?k] =>
    destruct (run_bind (queryStatuses i n) k c2) as (-> & -> & _);
    destruct (sends_frame (queryStatuses i n) c2 (send_as _ _ _ _)) as (H1 & H3) end.
  rewrite E2 in *. split.
  - by destruct (run_result _ _).
  - intros H. by rewrite (H3 H).
Qed.

Lemma one_way_close_turn c :
  closing c <> None -> along one_way (resolvePending ;;; ffi_destroy ;;; modify close_port ;;; close_stream) c.
Proof.
  intros Hc. along; try one_way_atom.
  destruct (native_only_destroy (run_state resolvePending c)) as (h & p & ev & -> & _).
  apply one_way_close_stream; [done | by left].
Qed.

Lemma one_way_close_step threw c : along one_way (close_step threw) c.
Proof.
  unfold close_step. along. destruct (closing c) as [pc|] eqn:Hpc; [|along].
  assert (closing c <> None) as Hc by congruence.
  destruct pc; [| | |by apply one_way_close_turn|..]; along.
  - apply one_way_watches. by left.
  - apply one_way_detach. by left.
  - by apply one_way_same'.
  - apply one_way_set_closing; [by left | by intros []].
  - apply one_way_stop. by left.
  - apply one_way_close_stream; [done|]. right. rewrite Hpc. by left.
Qed.

Lemma one_way_set_dropping pc c :
  pc = None \/ _state c <> up \/ dropping c <> None -> one_way c [] (set_dropping pc c).
Proof.
  intros H. unfold one_way. split_and!; [done..|]. intros [K1 K2 K3]. split; cbn; [done| |done].
  intros Hd. destruct H as [->|[H|H]]; auto.
Qed.

Lemma one_way_drop_detach c : _state c <> up \/ dropping c <> None -> along one_way drop_detach c.
Proof.
  intros Hs. unfold drop_detach. along. destruct (_subs c); along; try one_way_atom;
    apply one_way_set_dropping; by right.
Qed.

Lemma one_way_onDrop c : along one_way onDrop c.
Proof.
  unfold onDrop. along; try one_way_atom; try apply one_way_close.
  all: apply negb_false_iff, bool_decide_eq_true in Heqb.
  - apply one_way_setState; [congruence..| |done]. intros K H. apply (course_down c K) in H. congruence.
  - destruct (native_only_ffi ADisconnect (run_state faults_add (run_state (setState reconnecting) c)))
      as (h & p & ev & -> & _).
    apply one_way_drop_detach. left. cbn -[run_state]. by rewrite faults_state, setState_state.
Qed.

Lemma one_way_drop_step r now c : along one_way (drop_step r now) c.
Proof.
  unfold drop_step. along. destruct (dropping c) as [pc|] eqn:Hd; [|along].
  destruct pc; [|destruct r as [[a|]|]]; along.
  all: try one_way_atom; try apply one_way_abandon; try apply one_way_attach.
  all: try (apply one_way_drop_detach; right; congruence).
  all: try (apply one_way_set_dropping; by left).
  - match goal with H : run_result (attach _ _) ?c2 = true |- _ =>
      destruct (attach_frame a now c2) as ((E1 & E2 & _) & E3);
      destruct (decide (_state c2 = up)) as [Hup|Hup]; [|rewrite E3 in H by exact Hup; discriminate] end.
    rewrite Hup in E1. apply one_way_setState; [congruence..| |by rewrite E2].
    intros K H. apply (course_down _ K) in H. congruence.
Qed.

Lemma one_way_event m c : along one_way (onEvent m) c.
Proof.
  unfold onEvent. destruct (decode m) as [[ch d|id o d|b|ch d|ch x]|]; along; try by apply one_way_same'.
  unfold one_way. split_and!; [done..|]. intros [K1 K2 K3]. split; [exact K1|exact K2|].
  cbn. intros H. by rewrite (K3 H).
Qed.

Lemma one_way_exec a c : along one_way (exec a) c.
Proof.
  destruct a; cbn [exec]; along; try one_way_atom; try apply one_way_onDrop.
  - destruct (_port c); along; [one_way_atom | apply one_way_event].
  - apply one_way_close.
  - apply one_way_close_step.
  - apply one_way_drop_step.
Qed.

(** ** Handles *)

Record alive (c : Camera) : Prop := {
  alive_native : ~ released (closing c) -> _session c <> None /\ _link c = true;
  alive_closing : closing c <> None -> _state c = down /\ _ticker c = false /\ dropping c = None;
  alive_dropping : dropping c <> None -> _state c = reconnecting;
  alive_subs : released (closing c) \/ closing c = Some CTurn -> _subs c = [];
  alive_streams : ~ released (closing c) -> _streams c = all_streams;
  alive_down : _state c = down -> closing c <> None;
  alive_gone : released (closing c) -> _session c = None /\ _link c = false;
}.

(** No undefined native call, and no error that nobody catches. *)
Definition sound_effects (ev : list Effect) : Prop := UseAfterFree ∉ ev /\ Unhandled ∉ ev.

Definition safe (c : Camera) (ev : list Effect) (c' : Camera) : Prop :=
  alive c -> alive c' /\ sound_effects ev.

#[export] Instance safe_order : TraceOrder safe.
Proof.
  split.
  - intros c H. split; [done|]. split; apply not_elem_of_nil.
  - intros c ev c' ev' c'' H1 H2 H. destruct (H1 H) as [K1 [U1 V1]]. destruct (H2 K1) as [K2 [U2 V2]].
    split; [done|]. split; rewrite elem_of_app; tauto.
Qed.

Lemma sound_nil : sound_effects [].
Proof. split; apply not_elem_of_nil. Qed.

Lemma sound_list ev :
  Forall (fun e => match e with UseAfterFree | Unhandled => False | _ => True end) ev -> sound_effects ev.
Proof. rewrite Forall_forall. intros H. split; intros Hin; exact (H _ Hin). Qed.

Lemma alive_open c : alive c -> _state c <> down -> closing c = None /\ _session c <> None /\ _link c = true /\
  _streams c = all_streams.
Proof.
  intros H Hd. assert (closing c = None) as E.
  { destruct (closing c) eqn:E; [|done]. destruct Hd. apply (alive_closing c H). congruence. }
  split; [done|]. assert (~ released (closing c)) as Hr by (rewrite E; intros []; discriminate).
  destruct (alive_native c H Hr) as [H1 H2]. split_and!; [done..|]. by apply (alive_streams c H).
Qed.

Lemma invoke_abi_alive ctx k : exists ctx' r ps, invoke_abi (Some ctx) k = (Some ctx', r, ps).
Proof.
  destruct k; cbn [invoke_abi abi]; unfold gopro_ble_submit, gopro_ble_submit_protobuf, gopro_ble_feed,
    gopro_ble_tick, gopro_ble_set_att_payload, gopro_ble_disconnect, on_session.
  all: repeat case_match; simplify_eq; eauto.
Qed.

(** A native call on a live session. *)
Lemma ffi_alive k c ctx : _session c = Some ctx -> exists ctx' r port,
  ffi k c = (r, set_native (Some ctx') port c, []).
Proof.
  intros H. unfold ffi. rewrite H. destruct (invoke_abi_alive ctx k) as (ctx' & r & ps & ->). eauto.
Qed.

(** Updates that touch none of what [alive] is about. *)
Lemma safe_same c ev c' :
  _session c' = _session c -> _link c' = _link c -> closing c' = closing c -> dropping c' = dropping c ->
  _state c' = _state c -> _ticker c' = _ticker c -> (_subs c = [] -> _subs c' = []) -> _streams c' = _streams c ->
  sound_effects ev -> safe c ev c'.
Proof.
  intros E1 E2 E3 E4 E5 E6 E7 E8 He [A1 A2 A3 A4 A5 A6 A7]. split; [|exact He].
  split; rewrite ?E1, ?E2, ?E3, ?E4, ?E5, ?E6, ?E8; auto.
Qed.

Definition native_alive {A} (m : dart A) : Prop := forall c ctx, _session c = Some ctx ->
  exists ctx' r port, m c = (r, set_native (Some ctx') port c, []).

Lemma native_alive_ffi k : native_alive (ffi k).
Proof. intros c ctx. apply ffi_alive. Qed.

Lemma native_alive_then {A B} (m : dart A) (f : A -> B) :
  native_alive m -> native_alive (r <~ m ;; ret (f r)).
Proof.
  intros Hm c ctx H. destruct (Hm c ctx H) as (ctx' & r & port & E). unfold bind. rewrite E. cbn. eauto.
Qed.

Lemma native_alive_ret {A} (a : A) : native_alive (ret a).
Proof. intros c ctx H. exists ctx, a, (_port c). unfold ret. rewrite <- H. by destruct c. Qed.

Lemma safe_native {A} (m : dart A) c : native_alive m -> ~ released (closing c) -> along safe m c.
Proof.
  intros Hm Hr H. destruct (alive_native c H Hr) as [Hs _]. destruct (_session c) as [ctx|] eqn:E; [|done].
  destruct (Hm c ctx E) as (ctx' & r & port & Hf). unfold run_state, run_events. rewrite Hf. cbn.
  split; [|apply sound_nil]. destruct H as [A1 A2 A3 A4 A5 A6 A7].
  split; cbn; [|done..|by intros ?%Hr]. intros Hr'. by destruct (A1 Hr').
Qed.

(** Sending on a live session. *)
Definition live (c : Camera) (ev : list Effect) (c' : Camera) : Prop :=
  _session c <> None -> _session c' <> None /\ sound_effects ev.

#[export] Instance live_order : TraceOrder live.
Proof.
  split.
  - intros c H. split; [done | apply sound_nil].
  - intros c ev c' ev' c'' H1 H2 H. destruct (H1 H) as [K1 [U1 V1]]. destruct (H2 K1) as [K2 [U2 V2]].
    split; [done|]. split; rewrite elem_of_app; tauto.
Qed.

Lemma live_submit id submit c : native_alive submit -> along live (submit_once id submit) c.
Proof.
  intros Hs. assert (forall c' e c'', _session c'' = _session c' -> sound_effects e -> live c' e c'') as Hsame.
  { intros c' e c'' E He H. by rewrite E. }
  unfold submit_once. along; try (apply Hsame; [done|apply sound_list; by repeat constructor]).
  intros H. destruct (_session (run_state (register id) c)) as [ctx|] eqn:E; [|done].
  destruct (Hs _ ctx E) as (ctx' & r & port & Hf). unfold run_state at 1, run_events. rewrite Hf.
  split; [done | apply sound_nil].
Qed.

Lemma native_alive_submit ch b d p now : native_alive (ffi_submit ch (b :: d) p now).
Proof. apply (native_alive_then _ (fun r => negb (r =? 0))), native_alive_ffi. Qed.

Lemma native_alive_submitProtobuf ch f a d p now : native_alive (ffi_submitProtobuf ch f a d p now).
Proof. apply (native_alive_then _ (fun r => negb (r =? 0))), native_alive_ffi. Qed.

Lemma native_alive_feed ch d now : native_alive (ffi_feed ch d now).
Proof.
  unfold ffi_feed. case_bool_decide; [apply native_alive_ret|].
  apply (native_alive_then _ (fun _ => tt)), native_alive_ffi.
Qed.

Lemma live_send ch payload p now c : along live (send ch payload p now) c.
Proof.
  unfold send. along; try (intros H; split; [done|apply sound_list; by repeat constructor]).
  destruct payload; along; try (intros H; split; [done|apply sound_list; by repeat constructor]).
  apply live_submit, native_alive_submit.
Qed.

Lemma live_sendProtobuf f a m ch p now c : along live (sendProtobuf f a m ch p now) c.
Proof.
  unfold sendProtobuf. along; try (intros H; split; [done|apply sound_list; by repeat constructor]).
  apply live_submit, native_alive_submitProtobuf.
Qed.

Lemma safe_sends (m : dart (option completer)) c :
  sends_as m -> (forall c, along live m c) -> along safe m c.
Proof.
  intros Hm Hl Ha. destruct (Hm c) as [(_ & -> & ->)|(Hup & id & H)].
  { split; [done|]. apply sound_list. by repeat constructor. }
  destruct (alive_open c Ha) as (Hc & Hs & _); [congruence|].
  destruct (Hl c Hs) as [Hs' He]. split; [|exact He]. destruct Ha as [A1 A2 A3 A4 A5 A6 A7].
  assert (_link (run_state m c) = _link c /\ closing (run_state m c) = closing c /\
    dropping (run_state m c) = dropping c /\ _state (run_state m c) = _state c /\
    _ticker (run_state m c) = _ticker c /\ _subs (run_state m c) = _subs c /\
    _streams (run_state m c) = _streams c) as (E1 & E2 & E3 & E4 & E5 & E6 & E7) by (destruct H; done).
  split; rewrite ?E1, ?E2, ?E3, ?E4, ?E5, ?E6, ?E7; auto.
  - intros Hr. split; [done|]. by apply A1.
  - rewrite Hc. by intros [].
Qed.

(** [close] is at work, and the handles are still there. *)
Record shutting (c : Camera) : Prop := {
  sh_native : _session c <> None;
  sh_link : _link c = true;
  sh_state : _state c = down;
  sh_ticker : _ticker c = false;
  sh_dropping : dropping c = None;
  sh_streams : _streams c = all_streams;
}.

(** It is suspended before the handles go. *)
Definition suspended (c : Camera) : Prop :=
  shutting c /\ closing c <> None /\ ~ released (closing c) /\ (closing c = Some CTurn -> _subs c = []).

Lemma suspended_alive c : suspended c -> alive c.
Proof. intros ([H1 H2 H3 H4 H5 H6] & Hc & Hr & Hs). split; try done. intros [?|?]; [done | auto]. Qed.

Lemma alive_shutting c : alive c -> closing c <> None -> ~ released (closing c) -> shutting c.
Proof.
  intros Ha Hc Hr. destruct (alive_native c Ha Hr), (alive_closing c Ha Hc) as (? & ? & ?).
  split; [done..|]. by apply (alive_streams c Ha).
Qed.

Lemma shutting_chars ws ns subs c : shutting c -> shutting (set_chars ws ns subs c).
Proof. intros []. by split. Qed.

Lemma suspended_at pc c :
  shutting c -> ~ released (Some pc) -> (pc = CTurn -> _subs c = []) -> suspended (set_closing pc c).
Proof. intros [] Hr Hs. split_and!; [by split|done|done|]. intros [= ->]. by apply Hs. Qed.

Lemma stop_suspends rest c :
  shutting c -> suspended (run_state (stop_notifies rest) c) /\ run_events (stop_notifies rest) c = [].
Proof.
  intros Hc. split; [|by destruct rest].
  destruct rest; apply suspended_at; try done; by (apply shutting_chars || intros []).
Qed.

Lemma detach_suspends c :
  shutting c -> suspended (run_state detach_subs c) /\ run_events detach_subs c = [].
Proof.
  intros Hc. unfold detach_subs, run_state, run_events. rewrite !bind_gets.
  destruct (_subs c); [by apply stop_suspends|]. split; [|done].
  apply suspended_at; [by apply shutting_chars | by intros [] | done].
Qed.

Lemma watches_suspends c :
  shutting c -> suspended (run_state cancel_watches c) /\ run_events cancel_watches c = [].
Proof.
  intros Hc. unfold cancel_watches, run_state, run_events. rewrite !bind_gets. destruct (_watch c).
  - destruct (_session c) as [ctx|] eqn:E; [|by destruct (sh_native c Hc)].
    destruct (ffi_alive ADisconnect c ctx E) as (ctx' & r & port & Hf).
    unfold bind. rewrite Hf. cbn [app].
    assert (shutting (set_native (Some ctx') port c)) as Hs by (destruct Hc; by split).
    destruct (detach_suspends _ Hs) as [H1 H2]. unfold run_state, run_events in H1, H2.
    by destruct (detach_subs _) as [[u c'] ev].
  - split; [|done]. apply suspended_at; [by destruct Hc; split | by intros [] | done].
Qed.

Lemma close_eq c :
  run_state close c = (if bool_decide (_state c = down) then c
                       else run_state cancel_watches (set_timers (_watch c) false (set_state down c))) /\
  run_events close c = (if bool_decide (_state c = down) then []
    else (if is_open linkChanges c then [LinkChanged down] else []) ++
         run_events cancel_watches (set_timers (_watch c) false (set_state down c))).
Proof.
  unfold close, run_state, run_events. rewrite bind_gets. case_bool_decide; [done|].
  unfold bind, setState, modify. rewrite bool_decide_eq_false_2 by done.
  cbn -[cancel_watches]. by destruct (cancel_watches _) as [[u c'] ev].
Qed.

Lemma safe_close c : dropping c = None -> along safe close c.
Proof.
  intros Hd Ha. destruct (close_eq c) as [-> ->]. case_bool_decide as Hs.
  { split; [done | apply sound_nil]. }
  destruct (alive_open c Ha Hs) as (Hc & Hss & Hl & Hst).
  destruct (watches_suspends (set_timers (_watch c) false (set_state down c))) as [H ->]; [by split|].
  split; [by apply suspended_alive|]. rewrite app_nil_r.
  destruct (is_open _ c); apply sound_list; by repeat constructor.
Qed.

Lemma safe_setState s c :
  s <> down -> (alive c -> (closing c <> None -> s = down) /\ (dropping c <> None -> s = reconnecting)) ->
  along safe (setState s) c.
Proof.
  intros Hnd Hs Ha. destruct (Hs Ha) as [H1 H2]. unfold setState, run_state, run_events. case_bool_decide.
  { split; [done | apply sound_nil]. }
  destruct Ha as [A1 A2 A3 A4 A5 A6 A7].
  split; cbn; [|destruct (is_open _ c); [by apply sound_list; repeat constructor | apply sound_nil]].
  split; cbn; auto. intros Hc. split_and!; [auto|by apply A2..].
Qed.

Lemma safe_faults c : _state c <> down -> along safe faults_add c.
Proof.
  intros Hd Ha. destruct (alive_open c Ha Hd) as (_ & _ & _ & Hst).
  assert (is_open faults c = true) as Ho by (unfold is_open; rewrite Hst; done).
  unfold faults_add, run_state, run_events. rewrite Ho. cbn. split; [done|]. apply sound_list. by repeat constructor.
Qed.

Lemma safe_abandon c : _state c <> down -> dropping c = None -> along safe abandon c.
Proof.
  intros H1 H2. unfold abandon. along; [by apply safe_faults|]. rewrite faults_state. by apply safe_close.
Qed.

Lemma safe_resolve c : along safe resolvePending c.
Proof.
  unfold resolvePending. along.
  - apply safe_same; try done. apply sound_list. by apply Forall_fmap, Forall_true.
  - apply safe_same; try done. apply sound_nil.
Qed.

(** The link is about to be up again or for the first time: nothing is closing. *)
Lemma safe_attach a now c : closing c = None -> along safe (attach a now) c.
Proof.
  intros Hc. assert (forall ws ns subs c', closing c' = None -> safe c' [] (set_chars ws ns subs c')) as Hset.
  { intros ws ns subs c' E [A1 A2 A3 A4 A5 A6 A7]. split; [|apply sound_nil].
    split; cbn; auto. rewrite E. unfold released. intros [[]|]; discriminate. }
  unfold attach. along.
  - by apply Hset.
  - apply (safe_native _ _ (native_alive_ffi _)).
    unfold run_state, modify. cbn. rewrite Hc. intros []; discriminate.
  - set (m := when _ _). assert (closing (run_state m (set_chars (writes a) (notifies a).*1 (_subs c) c)) = None) as E.
    { assert (native_only m) as Hn.
      { unfold m, when. destruct (3 <? _); auto using native_only_ret, native_only_bind, native_only_ffi. }
      destruct (Hn (set_chars (writes a) (notifies a).*1 (_subs c) c)) as (h & p & ev & -> & _). done. }
    by apply Hset.
  - apply safe_sends; [apply send_as|]. intros. apply live_send.
  - set (c1 := run_state (queryStatuses _ _) _). intros [A1 A2 A3 A4 A5 A6 A7]. split; [|apply sound_nil].
    split; cbn; auto.
Qed.

Lemma ffi_destroy_alive c ctx : _session c = Some ctx -> exists port,
  ffi_destroy c = (tt, set_native None port c, []).
Proof.
  intros H. unfold ffi_destroy. rewrite H. cbn. destruct (on_session ctx on_disconnect) as [[c' u] ps]. eauto.
Qed.

Lemma along_alive {A} (m : dart A) c : (alive c -> along safe m c) -> along safe m c.
Proof. intros H Ha. exact (H Ha Ha). Qed.

(** Once the handles are gone. *)
Lemma released_alive pc c :
  released (Some pc) -> _state c = down -> _ticker c = false -> dropping c = None -> _subs c = [] ->
  _session c = None -> _link c = false -> alive (set_closing pc c).
Proof. intros Hr H1 H2 H3 H4 H5 H6. split; cbn; try done. Qed.

Lemma safe_close_stream c : released (closing c) -> along safe close_stream c.
Proof.
  intros Hr Ha. assert (closing c <> None) as Hc by (by destruct Hr as [-> | ->]).
  destruct (alive_closing c Ha Hc) as (H1 & H2 & H3). pose proof (alive_subs c Ha (or_introl Hr)) as H4.
  destruct (alive_gone c Ha Hr) as [H5 H6].
  unfold close_stream, run_state, run_events. rewrite !bind_gets.
  destruct (_streams c); (split; [|apply sound_nil]); apply released_alive; try done; first [by left | by right].
Qed.

(** The turn of [close] that settles the futures and frees the handles. *)
Lemma safe_close_turn c :
  closing c = Some CTurn ->
  along safe (resolvePending ;;; ffi_destroy ;;; modify close_port ;;; close_stream) c.
Proof.
  intros E Ha. destruct (alive_native c Ha) as [Hs _]; [rewrite E; intros []; discriminate|].
  destruct (alive_closing c Ha) as (H1 & H2 & H3); [congruence|].
  pose proof (alive_subs c Ha (or_intror E)) as H4. destruct (_session c) as [ctx|] eqn:Es; [|done].
  destruct (ffi_destroy_alive (set_pending [] (_completers c) c) ctx Es) as [port Hf].
  unfold resolvePending, close_stream, run_state, run_events, bind, gets, emit, modify. cbn -[ffi_destroy].
  rewrite Hf. cbn. rewrite !app_nil_r.
  destruct (_streams c); cbn; rewrite ?app_nil_r; (split; [|by apply sound_list, Forall_fmap, Forall_true]);
    apply released_alive; try done; first [by left | by right].
Qed.

Lemma safe_cancel_sub c ws ns x subs :
  _subs c = x :: subs -> safe c [] (set_chars ws ns subs c).
Proof. intros E. apply safe_same; try done. - by rewrite E. - apply sound_nil. Qed.

Lemma safe_link_calls c : (alive c -> _state c <> down) -> along safe link_calls c.
Proof.
  intros Hd Ha. destruct (alive_open c Ha (Hd Ha)) as (_ & _ & Hl & _).
  unfold link_calls, run_events, run_state. rewrite Hl. split; [done | apply sound_nil].
Qed.

Lemma link_calls_state c : run_state link_calls c = c.
Proof. done. Qed.

Lemma safe_set_dropping pc c : _state c = reconnecting \/ pc = None -> safe c [] (set_dropping pc c).
Proof.
  intros Hd Ha. split; [|apply sound_nil]. destruct Ha as [A1 A2 A3 A4 A5 A6 A7]. split; cbn; auto.
  - intros Hc. destruct (A2 Hc) as (H1 & H2 & H3). split_and!; [done..|]. destruct Hd; congruence.
  - intros Hp. by destruct Hd.
Qed.

Lemma safe_drop_detach c : _state c = reconnecting -> along safe drop_detach c.
Proof.
  intros Hs. unfold drop_detach. along. destruct (_subs c) as [|x subs] eqn:Es; along.
  - apply safe_same; try done. apply sound_nil.
  - apply safe_resolve.
  - apply safe_link_calls. intros _. change (_state c <> down). congruence.
  - rewrite link_calls_state. apply safe_set_dropping. by left.
  - by apply (safe_cancel_sub _ _ _ x).
  - apply safe_set_dropping. by left.
Qed.

Lemma safe_close_step threw c : along safe (close_step threw) c.
Proof.
  apply along_alive. intros Ha. unfold close_step. along. destruct (closing c) as [pc|] eqn:E; [|along].
  assert (~ released (closing c) -> shutting c) as Hsh by (apply alive_shutting; congruence).
  assert (forall m : dart unit, ~ released (Some pc) ->
            (shutting c -> suspended (run_state m c) /\ run_events m c = []) -> along safe m c) as Hsusp.
  { intros m Hr Hm _. rewrite E in Hsh. destruct (Hm (Hsh Hr)) as [H ->].
    split; [by apply suspended_alive | apply sound_nil]. }
  destruct pc as [| |rest| | | |]; [| | |by apply safe_close_turn|apply safe_close_stream; rewrite E; by left|along..].
  - apply Hsusp; [by intros []|apply watches_suspends].
  - apply Hsusp; [by intros []|apply detach_suspends].
  - destruct threw; [|apply Hsusp; [by intros []|apply stop_suspends]].
    intros _. split; [|apply sound_list; by repeat constructor]. apply suspended_alive, suspended_at; [|by intros []|done].
    apply Hsh. rewrite E. by intros [].
Qed.

Lemma not_released_open c : alive c -> _state c <> down -> ~ released (closing c).
Proof. intros Ha Hd. destruct (alive_open c Ha Hd) as [-> _]. intros []; discriminate. Qed.

Lemma safe_onDrop c : along safe onDrop c.
Proof.
  unfold onDrop. along; apply negb_false_iff, bool_decide_eq_true in Heqb.
  - apply safe_faults. congruence.
  - intros Ha. rewrite faults_state in *. refine (safe_close c _ Ha).
    destruct (dropping c) eqn:Ed; [|done].
    assert (_state c = reconnecting) by (apply (alive_dropping c Ha); congruence). congruence.
  - apply safe_setState; [done|]. intros Ha. split; [|done]. intros H.
    destruct (alive_closing c Ha H) as [? _]. congruence.
  - apply safe_faults. by rewrite setState_state.
  - rewrite faults_state. intros Ha. refine (safe_native _ _ (native_alive_ffi _) _ Ha).
    apply not_released_open; [done|]. by rewrite setState_state.
  - rewrite faults_state.
    destruct (native_only_ffi ADisconnect (run_state (setState reconnecting) c)) as (h & p & ev & -> & _).
    apply safe_drop_detach. apply (setState_state reconnecting c).
Qed.

Lemma safe_bring_up_result r now c :
  _state c = reconnecting -> dropping c = None ->
  along safe (match r with
              | None => abandon
              | Some a => ok <~ attach a now ;; if ok : bool then setState up else abandon
              end) c.
Proof.
  intros Hs Hd. destruct r as [a|]; [|apply safe_abandon; congruence].
  destruct (attach_frame a now c) as ((E1 & E2 & _) & E3).
  assert (run_result (attach a now) c = false) as E4 by (apply E3; by rewrite Hs). along.
  - intros Ha. destruct (alive_open c Ha) as [Hc _]; [congruence|]. exact (safe_attach a now c Hc Ha).
  - congruence.
  - apply safe_abandon; congruence.
Qed.

Lemma safe_drop_step r now c : along safe (drop_step r now) c.
Proof.
  apply along_alive. intros Ha. unfold drop_step. along. destruct (dropping c) as [pc|] eqn:E; [|along].
  assert (dropping c <> None) as Hd by congruence. pose proof (alive_dropping c Ha Hd) as Hs. destruct pc.
  - by apply safe_drop_detach.
  - apply along_bind; [apply _|apply safe_link_calls; intros _; congruence|].
    rewrite link_calls_state. destruct r as [r|]; [|along]. apply along_bind; [apply _|..].
    + apply along_modify, safe_set_dropping. by right.
    + by apply safe_bring_up_result.
Qed.

Lemma safe_event m c : along safe (onEvent m) c.
Proof.
  unfold onEvent. destruct (decode m) as [[ch d|id o d|b|ch d|ch x]|]; along;
    apply safe_same; try done; try apply sound_nil; try (case_match; apply sound_list; by repeat constructor).
Qed.

(** What the owner of a camera may not do for the rest to hold. *)
Definition polite (c : Camera) (a : action) : Prop :=
  match a with AClose => _state c <> reconnecting | _ => True end.

Lemma safe_exec a c : polite c a -> along safe (exec a) c.
Proof.
  intros Hp. apply along_alive. intros Ha. destruct a; cbn [exec].
  - along. apply safe_sends; [apply send_as|]. intros. apply live_send.
  - along. apply safe_sends; [apply sendProtobuf_as|]. intros. apply live_sendProtobuf.
  - along. apply safe_native; [apply native_alive_feed|]. intros Hr.
    apply bool_decide_eq_true in Hwhen. rewrite (alive_subs c Ha) in Hwhen by by left.
    by apply not_elem_of_nil in Hwhen.
  - along; [|apply safe_onDrop]. apply safe_native; [apply native_alive_ffi|]. intros Hr.
    destruct (alive_closing c Ha) as (_ & Ht & _); [|congruence]. by destruct Hr as [-> | ->].
  - along. destruct (_port c); along; [|apply safe_event]. apply safe_same; try done. apply sound_nil.
  - along. apply safe_onDrop.
  - apply safe_close. destruct (dropping c) eqn:E; [|done]. destruct Hp. apply (alive_dropping c Ha). congruence.
  - apply safe_close_step.
  - apply safe_drop_step.
Qed.

(** ** Commands and futures *)

(** The ids of the responses waiting in the port. *)
Definition in_port (port : list bytes) : list Z :=
  omap (fun m => match decode m with Some (BleResponse i _ _) => Some i | _ => None end) port.

(** All ids but the one the session's keep-alives share with the setting of the
    LED. *)
Definition not_keep_alive (l : list Z) : list Z := List.filter (fun i => negb (i =? keep_alive_id)) l.

(** The commands of a session that are outstanding or answered but not delivered
    are those whose futures are registered. *)
Record paired (c : Camera) (ctx : BleContext) : Prop := {
  paired_session : _session c = Some ctx;
  paired_answering : answering ctx;
  paired_open : _events c = true;
  paired_keys : NoDup (_pending c).*1;
  paired_ids : not_keep_alive ((CommandQueue.id <$> outstanding (session ctx)) ++ in_port (_port c)) ≡ₚ
    not_keep_alive (_pending c).*1;
}.

Definition matched (c : Camera) : Prop := _state c = up -> exists ctx, paired c ctx.

Lemma not_keep_alive_app l l' : not_keep_alive (l ++ l') = not_keep_alive l ++ not_keep_alive l'.
Proof. apply List.filter_app. Qed.

Lemma elem_of_not_keep_alive i l : i ∈ not_keep_alive l <-> i ∈ l /\ i <> keep_alive_id.
Proof. unfold not_keep_alive. rewrite elem_of_lfilter, negb_true_iff, Z.eqb_neq. done. Qed.

#[export] Instance not_keep_alive_perm : Proper ((≡ₚ) ==> (≡ₚ)) not_keep_alive.
Proof.
  intros l l' H. unfold not_keep_alive. induction H as [|x l l' H IH|x y l|]; cbn; [done|..].
  - destruct (negb _); by rewrite ?IH.
  - destruct (negb (x =? _)), (negb (y =? _)); [constructor | done..].
  - etransitivity; eassumption.
Qed.

Lemma in_port_app p p' : in_port (p ++ p') = in_port p ++ in_port p'.
Proof. apply omap_app. Qed.

Lemma in_port_answered ps : in_port (snd <$> ps) = answered ps.
Proof.
  unfold in_port, answered. induction ps as [|p ps IH]; [done|]. cbn.
  destruct (decode p.2) as [[]|]; cbn; by rewrite IH.
Qed.

Lemma invoke_abi_abi h k :
  (invoke_abi h k).1.1 = (abi h k).1 /\ (invoke_abi h k).2 = (abi h k).2.
Proof. destruct k; cbn; repeat case_match; simplify_eq; done. Qed.

(** What a call hands over. *)
Definition handed_over (ctx : BleContext) (k : abi_call) : list Z := submitted_all (session ctx) (api_of k).

Lemma ffi_account k c ctx :
  _session c = Some ctx -> answering ctx -> _events c = true -> abi_typed k ->
  exists ctx' r port, ffi k c = (r, set_native (Some ctx') port c, []) /\
    r = (invoke_abi (Some ctx) k).1.2 /\ answering ctx' /\
    (CommandQueue.id <$> outstanding (session ctx')) ++ in_port port ≡ₚ
    handed_over ctx k ++ (CommandQueue.id <$> outstanding (session ctx)) ++ in_port (_port c).
Proof.
  intros Hs Ha He Hty. destruct (abi_account ctx k Hty Ha) as (ctx' & ps & Habi & Ha' & Hacc).
  destruct (invoke_abi_abi (Some ctx) k) as [E1 E2]. unfold ffi. rewrite Hs, He.
  destruct (invoke_abi (Some ctx) k) as [[h r] qs]. rewrite Habi in *. cbn in E1, E2. subst.
  eexists _, _, _. split_and!; [reflexivity|done|done|].
  rewrite in_port_app, in_port_answered, (Permutation_app_comm (in_port _)), app_assoc.
  rewrite (Permutation_app_comm (_ <$> _)), Hacc. by rewrite app_assoc.
Qed.

Lemma to_u8_ok x : byte_ok (to_u8 x).
Proof. unfold to_u8, byte_ok. pose proof (wrap_range 8 x). unfold in_range in *. lia. Qed.

Lemma to_u8_byte b : byte_ok b -> to_u8 b = b.
Proof. intros H. apply wrap_small. exact H. Qed.

Lemma to_u8_all l : bytes_ok (to_u8 <$> l).
Proof. apply Forall_fmap, Forall_true. intros x. apply to_u8_ok. Qed.

Lemma readable_all l : readable (Some (to_u8 <$> l)) (Z.of_nat (length l)).
Proof. cbn. rewrite length_fmap. split; [apply to_u8_all | lia]. Qed.

Lemma span_all l : span (Some (to_u8 <$> l)) (Z.of_nat (length l)) = to_u8 <$> l.
Proof. unfold span. cbn. rewrite Nat2Z.id. apply take_ge. by rewrite length_fmap. Qed.

Lemma channel_byte ch : channel_ok ch -> byte_ok ch /\ (ch <? 4) = true.
Proof. unfold channel_ok, kChannelCount, byte_ok. intros. split; lia. Qed.

Lemma priority_byte p : byte_ok (Priority_val p) /\ (Priority_val p <? 3) = true /\
  Priority_cast (Priority_val p) = p.
Proof. destruct p; split_and!; try done; unfold byte_ok; cbn; lia. Qed.

(** Calls that hand over nothing, or a keep-alive. *)
Definition hands_nothing (k : abi_call) : Prop := forall ctx, not_keep_alive (handed_over ctx k) = [].

Lemma feed_hands_nothing ch d len now : hands_nothing (AFeed ch d len now).
Proof.
  intros ctx. unfold handed_over. cbn [api_of]. destruct (_ && _); [|done]. cbn.
  unfold submitted. cbn [queue_calls]. destruct (_.2) as [m|]; [|done]. unfold deliver_calls.
  by destruct (gate_flips _ _).
Qed.

Lemma tick_hands_nothing now : hands_nothing (ATick now).
Proof.
  intros ctx. unfold handed_over, submitted_all, submitted. cbn [api_of queue_calls].
  by destruct (keep_alive_due _ now).
Qed.

(** What a submission hands over and answers. *)
Lemma submit_hands ctx ch b l p now :
  channel_ok ch ->
  let k := ASubmit ch (Some (to_u8 <$> b :: l)) (Z.of_nat (length (b :: l))) (Priority_val p) now in
  let id := correlation_of ch (to_u8 b) in
  abi_typed k /\ handed_over ctx k = [id] /\
  (invoke_abi (Some ctx) k).1.2 = accepted (negb (is_duplicate (queue_ (session ctx)) id)).
Proof.
  intros Hch. destruct (channel_byte ch Hch) as [Hb Hlt]. destruct (priority_byte p) as (Hp & Hp3 & Hcast).
  cbv zeta. set (data := b :: l). split_and!.
  - cbn [abi_typed]. split_and!; [done..|]. apply readable_all.
  - unfold handed_over. cbn [api_of is_null negb]. rewrite Hlt, Hp3, span_all. done.
  - cbn [invoke_abi]. unfold gopro_ble_submit, bad_channel_or_priority. cbn [is_null orb].
    assert ((Z.of_nat (length data) <=? 0) = false) as -> by done.
    change (Z.of_nat kChannelCount) with 4. rewrite (Z.leb_antisym ch 4), Hlt. change (Priority_val kKeepAlive) with 2.
    assert ((2 <? Priority_val p) = false) as -> by by destruct p.
    cbn [negb orb]. rewrite span_all. unfold data. cbn [fmap list_fmap]. unfold on_session, BleSession.submit.
    by rewrite enqueue_exec.
Qed.

Lemma submitProtobuf_hands ctx ch f a l p now :
  channel_ok ch ->
  let buf := if bool_decide (l = []) then [0] else to_u8 <$> l in
  let k := ASubmitProtobuf ch (to_u8 f) (to_u8 a) (Some buf) (Z.of_nat (length l)) (Priority_val p) now in
  let id := protobufCorrelation ch f a in
  abi_typed k /\ handed_over ctx k = [id] /\
  (invoke_abi (Some ctx) k).1.2 = accepted (negb (is_duplicate (queue_ (session ctx)) id)).
Proof.
  intros Hch. destruct (channel_byte ch Hch) as [Hb Hlt]. destruct (priority_byte p) as (Hp & Hp3 & Hcast).
  cbv zeta. set (buf := if bool_decide (l = []) then [0] else to_u8 <$> l).
  assert (protobufCorrelation ch f a = correlation_of_protobuf ch (to_u8 f) (to_u8 a)) as ->.
  { unfold protobufCorrelation, gopro_ble_protobuf_correlation. change (Z.of_nat kChannelCount) with 4.
    by rewrite (Z.leb_antisym ch 4), Hlt. }
  split_and!.
  - cbn [abi_typed]. split_and!; auto using to_u8_ok. unfold buf. case_bool_decide as E; [|apply readable_all].
    rewrite E. split; [by apply Forall_singleton | done].
  - unfold handed_over. cbn [api_of is_null negb]. rewrite Hlt, Hp3.
    assert ((0 <=? Z.of_nat (length l)) = true) as -> by (apply Z.leb_le; lia). done.
  - cbn [invoke_abi]. unfold gopro_ble_submit_protobuf, bad_channel_or_priority. cbn [is_null orb andb].
    assert ((Z.of_nat (length l) <? 0) = false) as -> by (apply Z.ltb_ge; lia).
    change (Z.of_nat kChannelCount) with 4. rewrite (Z.leb_antisym ch 4), Hlt. change (Priority_val kKeepAlive) with 2.
    assert ((2 <? Priority_val p) = false) as -> by by destruct p.
    cbn [negb orb andb]. unfold on_session, submit_protobuf. by rewrite enqueue_exec.
Qed.

Definition submission (k : abi_call) : dart bool := (r <~ ffi k ;; ret (negb (r =? 0)))%act.

(** The id is new, and not the keep-alive's: the session takes it. *)
Lemma paired_fresh c ctx id :
  paired c ctx -> id ∉ (_pending c).*1 -> id <> keep_alive_id -> is_duplicate (queue_ (session ctx)) id = false.
Proof.
  intros [_ _ _ _ Hp] Hn Hk. apply is_duplicate_false. intros Hin. apply Hn.
  apply (elem_of_not_keep_alive id). rewrite <- Hp. apply elem_of_not_keep_alive. split; [|done].
  apply elem_of_app. by left.
Qed.

Lemma submit_once_paired c ctx id k :
  paired c ctx -> id ∉ (_pending c).*1 -> abi_typed k -> handed_over ctx k = [id] ->
  (invoke_abi (Some ctx) k).1.2 = accepted (negb (is_duplicate (queue_ (session ctx)) id)) ->
  let m := submit_once id (submission k) in
  (exists ctx', paired (run_state m c) ctx') /\
  (id <> keep_alive_id -> run_result m c = Some (_completers c) /\
     run_events m c = [Returned (_completers c) id]).
Proof.
  intros Hpair Hn Hty Hh Hr. cbv zeta. pose proof (paired_fresh c ctx id Hpair Hn) as Hfresh.
  destruct Hpair as [Hs Ha He Hk Hp].
  set (c1 := set_pending (_pending c ++ [(id, _completers c)]) (S (_completers c)) c).
  destruct (ffi_account k c1 ctx Hs Ha He Hty) as (ctx' & r & port & Hf & -> & Ha' & Hacc).
  rewrite Hr in Hf. rewrite Hh in Hacc. cbn [_port c1 set_pending] in Hacc.
  assert (not_keep_alive ((CommandQueue.id <$> outstanding (session ctx')) ++ in_port port) ≡ₚ
            not_keep_alive (id :: (_pending c).*1)) as Hids.
  { rewrite Hacc, (not_keep_alive_app [id]), Hp. by rewrite <- not_keep_alive_app. }
  unfold submit_once, submission, run_state, run_result, run_events.
  rewrite bind_gets. unfold dict_has. rewrite bool_decide_eq_false_2 by done. unfold bind, register. rewrite dict_put_fresh by done. fold c1. rewrite Hf.
  cbn. destruct (is_duplicate (queue_ (session ctx)) id) eqn:Ed; cbn.
  - assert (id = keep_alive_id) as ->.
    { destruct (decide (id = keep_alive_id)) as [|Hka]; [done|]. specialize (Hfresh Hka). congruence. }
    split; [|by intros []]. rewrite dict_del_last by done. exists ctx'. split; cbn; [done..|].
    rewrite Hids. done.
  - split; [|done]. exists ctx'. split; cbn; [done..| |].
    + rewrite fmap_app. apply NoDup_app. split_and!; [done| |apply NoDup_singleton].
      intros i Hi [->|[]%not_elem_of_nil]%elem_of_cons. done.
    + rewrite Hids, fmap_app. apply not_keep_alive_perm. cbn. by rewrite <- Permutation_cons_append.
Qed.

Definition kept (c : Camera) (ev : list Effect) (c' : Camera) : Prop := matched c -> matched c'.

#[export] Instance kept_order : TraceOrder kept.
Proof. split; unfold kept; auto. Qed.

Lemma kept_down c ev c' : _state c' <> up -> kept c ev c'.
Proof. intros H _ Hup. by destruct H. Qed.

Lemma kept_same c ev c' :
  _session c' = _session c -> _port c' = _port c -> _events c' = _events c -> _pending c' = _pending c ->
  _state c' = _state c -> kept c ev c'.
Proof.
  intros E1 E2 E3 E4 E5 H Hup. rewrite E5 in Hup. destruct (H Hup) as [ctx [P1 P2 P3 P4 P5]].
  exists ctx. split; rewrite ?E1, ?E2, ?E3, ?E4; done.
Qed.

Lemma kept_quiet k c : abi_typed k -> hands_nothing k -> along kept (ffi k) c.
Proof.
  intros Hty Hq. destruct (native_only_ffi k c) as (h & p & ev & Es & _). intros H Hup.
  assert (_state c = up) as Hup' by by rewrite Es in Hup. destruct (H Hup') as [ctx [P1 P2 P3 P4 P5]].
  destruct (ffi_account k c ctx P1 P2 P3 Hty) as (ctx' & r & port & Hf & _ & Ha & Hacc).
  unfold run_state. rewrite Hf. exists ctx'. split; cbn; [done..|].
  by rewrite Hacc, not_keep_alive_app, (Hq ctx), P5.
Qed.

(** [send] and [sendProtobuf] on a link that is up. *)
Lemma send_up ch b l p now c :
  _state c = up ->
  send ch (b :: l) p now c =
    submit_once (correlationOf ch b)
      (submission (ASubmit ch (Some (to_u8 <$> b :: l)) (Z.of_nat (length (b :: l)))
         (Priority_val (default (default_priority ch) p)) now)) c.
Proof. intros H. unfold send. rewrite bind_gets. unfold is_up. by rewrite bool_decide_eq_true_2. Qed.

Lemma sendProtobuf_up f a l ch p now c :
  _state c = up ->
  sendProtobuf f a l ch p now c =
    submit_once (protobufCorrelation ch f a)
      (submission (ASubmitProtobuf ch (to_u8 f) (to_u8 a)
         (Some (if bool_decide (l = []) then [0] else to_u8 <$> l)) (Z.of_nat (length l)) (Priority_val p) now)) c.
Proof. intros H. unfold sendProtobuf. rewrite bind_gets. unfold is_up. by rewrite bool_decide_eq_true_2. Qed.

Lemma kept_submit_once id k c :
  _state c = up -> abi_typed k -> (forall ctx, handed_over ctx k = [id] /\
    (invoke_abi (Some ctx) k).1.2 = accepted (negb (is_duplicate (queue_ (session ctx)) id))) ->
  along kept (submit_once id (submission k)) c.
Proof.
  intros Hup Hty Hk H _. destruct (H Hup) as [ctx Hp]. destruct (Hk ctx) as [Hh Hr].
  destruct (dict_has id (_pending c)) eqn:E.
  - exists ctx. unfold run_state, submit_once. rewrite bind_gets, E. exact Hp.
  - apply bool_decide_eq_false in E. by destruct (submit_once_paired c ctx id k Hp E Hty Hh Hr) as [? _].
Qed.

Lemma kept_send ch payload p now c :
  channel_ok ch -> match payload with b :: _ => byte_ok b | [] => True end ->
  along kept (send ch payload p now) c.
Proof.
  intros Hch Hb. destruct (sends_frame (send ch payload p now) c (send_as _ _ _ _)) as ((E & _) & _).
  destruct (decide (_state c = up)) as [Hup|Hup]; [|apply kept_down; by rewrite E].
  destruct payload as [|b l].
  - apply kept_same; unfold run_state, send; rewrite bind_gets; unfold is_up; by rewrite bool_decide_eq_true_2.
  - unfold along, run_state, run_events. rewrite send_up by done.
    set (pr := default _ p). apply kept_submit_once; [done|..].
    + by apply (submit_hands (mkBleContext 0 (BleSession_init all_wired SessionConfig_default)) ch b l pr now).
    + intros ctx. destruct (submit_hands ctx ch b l pr now Hch) as (_ & H1 & H2).
      by rewrite to_u8_byte in H1, H2.
Qed.

Lemma kept_sendProtobuf f a l ch p now c : channel_ok ch -> along kept (sendProtobuf f a l ch p now) c.
Proof.
  intros Hch. destruct (sends_frame (sendProtobuf f a l ch p now) c (sendProtobuf_as _ _ _ _ _ _)) as ((E & _) & _).
  destruct (decide (_state c = up)) as [Hup|Hup]; [|apply kept_down; by rewrite E].
  unfold along, run_state, run_events. rewrite sendProtobuf_up by done. apply kept_submit_once; [done|..].
  - by apply (submitProtobuf_hands (mkBleContext 0 (BleSession_init all_wired SessionConfig_default)) ch f a l p now).
  - intros ctx. by destruct (submitProtobuf_hands ctx ch f a l p now Hch) as (_ & H1 & H2).
Qed.

Lemma attach_set_hands n : hands_nothing (ASetAttPayload n).
Proof. done. Qed.

Lemma kept_attach a now c : along kept (attach a now) c.
Proof.
  unfold attach. along; try by apply kept_same.
  - by apply kept_quiet.
  - apply kept_send; [done|]. unfold byte_ok. lia.
Qed.

(** *** Delivery *)

Lemma not_keep_alive_cons i l :
  not_keep_alive (i :: l) = if i =? keep_alive_id then not_keep_alive l else i :: not_keep_alive l.
Proof. unfold not_keep_alive. cbn. by destruct (i =? _). Qed.

(** A response waiting in the port is for a registered future. *)
Lemma paired_head c ctx m port i o d :
  paired c ctx -> _port c = m :: port -> decode m = Some (BleResponse i o d) -> i <> keep_alive_id ->
  i ∈ (_pending c).*1.
Proof.
  intros [_ _ _ _ Hp] Hport Hm Hi. apply (elem_of_not_keep_alive i). rewrite <- Hp, Hport.
  apply elem_of_not_keep_alive. split; [|done]. apply elem_of_app. right. unfold in_port. cbn. rewrite Hm. left.
Qed.

Lemma paired_response c ctx m port i o d :
  paired c ctx -> _port c = m :: port -> decode m = Some (BleResponse i o d) ->
  paired (set_pending (dict_del i (_pending c)) (_completers c) (set_native (_session c) port c)) ctx.
Proof.
  intros Hpair Hport Hm. pose proof (paired_head c ctx m port i o d Hpair Hport Hm) as Hhead.
  destruct Hpair as [P1 P2 P3 P4 P5]. split; cbn; [done..|by apply dict_del_NoDup|].
  assert (in_port (_port c) = i :: in_port port) as Hin by (rewrite Hport; unfold in_port; cbn; by rewrite Hm).
  rewrite Hin, <- Permutation_middle, not_keep_alive_cons in P5.
  destruct (decide (i ∈ (_pending c).*1)) as [Hmem|Hmem].
  - pose proof (dict_take i (_pending c) P4) as Htake.
    destruct (dict_get i (_pending c)) as [k|]; [|by destruct Htake].
    destruct Htake as [_ Htake%(fmap_Permutation fst)]. rewrite fmap_cons in Htake. cbn [fst] in Htake.
    rewrite Htake, not_keep_alive_cons in P5.
    destruct (i =? keep_alive_id); [done|]. by apply Permutation_cons_inv in P5.
  - rewrite dict_del_fresh by done. destruct (i =? keep_alive_id) eqn:E; [done|].
    apply Z.eqb_neq in E. destruct Hmem. by apply Hhead.
Qed.

Lemma matched_deliver m port c :
  _port c = m :: port -> matched c ->
  matched (run_state (onEvent m) (set_native (_session c) port c)).
Proof.
  intros Hport H. set (c1 := set_native (_session c) port c).
  assert ((exists i o d, decode m = Some (BleResponse i o d)) \/
          run_state (onEvent m) c1 = c1 /\ in_port (_port c) = in_port port) as [(i & o & d & Hm)|[-> Hin]].
  { unfold onEvent, run_state. rewrite Hport. unfold in_port. cbn [omap list_omap].
    destruct (decode m) as [[]|]; [right|left; eauto|right..]; done. }
  - intros Hup. unfold onEvent in Hup |- *. rewrite Hm in Hup |- *.
    assert (_state c = up) as Hup' by exact Hup. destruct (H Hup') as [ctx Hp]. exists ctx.
    by apply (paired_response c ctx m port i o d).
  - intros Hup. destruct (H Hup) as [ctx [P1 P2 P3 P4 P5]]. exists ctx.
    split; cbn -[in_port]; [done..|]. by rewrite <- Hin.
Qed.

(** Sound arguments of the owner's calls. *)
Definition action_typed (a : action) : Prop :=
  match a with
  | ASend ch payload _ _ => channel_ok ch /\ match payload with b :: _ => byte_ok b | [] => True end
  | ASendProtobuf _ _ _ ch _ _ => channel_ok ch
  | ANotify ch _ _ => channel_ok ch
  | _ => True
  end.

Definition same_state (c : Camera) (ev : list Effect) (c' : Camera) : Prop := _state c' = _state c.

#[export] Instance same_state_order : TraceOrder same_state.
Proof. split; unfold same_state; congruence. Qed.

Lemma same_state_native {A} (m : dart A) c : native_only m -> along same_state m c.
Proof. intros Hm. unfold along, same_state. by destruct (Hm c) as (h & p & ev & -> & _). Qed.

Lemma same_state_watches c : along same_state cancel_watches c.
Proof. close_loops; first [done | apply same_state_native, native_only_ffi]. Qed.

Lemma same_state_drop_detach c : along same_state drop_detach c.
Proof. unfold drop_detach. along. destruct (_subs c); along; done. Qed.

Lemma close_not_up c : _state (run_state close c) = down.
Proof.
  destruct (close_eq c) as [-> _]. case_bool_decide; [done|].
  by rewrite (same_state_watches (set_timers (_watch c) false (set_state down c))).
Qed.

Lemma onDrop_not_up c : _state (run_state onDrop c) <> up.
Proof.
  unfold onDrop, run_state. rewrite bind_gets. unfold is_up. case_bool_decide as H; cbn [negb]; [|done].
  rewrite bind_gets. destruct (_reconnectTimeout c =? 0).
  - change (_state (run_state (bind faults_add (fun _ => close)) c) <> up).
    destruct (run_bind faults_add (fun _ => close) c) as (_ & -> & _). by rewrite faults_state, close_not_up.
  - match goal with |- context [bind ?m ?k c] => change (_state (run_state (bind m k) c) <> up);
      destruct (run_bind m k c) as (_ & -> & _); set (rest := k (run_result m c)) end.
    assert (along same_state rest (run_state (setState reconnecting) c)) as Hrest.
    { unfold rest. along; try done.
      - unfold along, same_state. by rewrite faults_state.
      - apply same_state_native, native_only_ffi.
      - apply same_state_drop_detach. }
    unfold along, same_state in Hrest. by rewrite Hrest, setState_state.
Qed.

(** One turn keeps commands and futures paired. *)
Lemma matched_step a c :
  action_typed a -> course c -> matched c -> matched (run_state (exec a) c).
Proof.
  intros Hty Hc Hm. destruct a as [ch d p now|f x m ch p now|ch d now|now b| |w| |threw|r now]; cbn [exec] in *.
  - revert Hm. change (along kept (_ <~ send ch d p now ;; ret tt) c). along. apply kept_send; apply Hty.
  - revert Hm. change (along kept (_ <~ sendProtobuf f x m ch p now ;; ret tt) c). along. by apply kept_sendProtobuf.
  - revert Hm. match goal with |- matched c -> matched (run_state ?m c) => change (along kept m c) end. along.
    unfold ffi_feed. along. destruct (channel_byte ch Hty) as [Hb _].
    apply kept_quiet; [|apply feed_hands_nothing]. split; [done|apply readable_all].
  - revert Hm. match goal with |- matched c -> matched (run_state ?m c) => change (along kept m c) end. along.
    + apply kept_quiet; [done|apply tick_hands_nothing].
    + apply kept_down, onDrop_not_up.
  - unfold run_state. rewrite bind_gets. destruct (_port c) as [|m port] eqn:E; [done|].
    rewrite bind_modify. by apply matched_deliver.
  - revert Hm. match goal with |- matched c -> matched (run_state ?m c) => change (along kept m c) end. along.
    apply kept_down, onDrop_not_up.
  - intros Hup. by rewrite close_not_up in Hup.
  - destruct (closing c) as [pc|] eqn:E.
    + intros Hup. destruct (one_way_close_step threw c) as (_ & Hd & _). rewrite Hd in Hup; [done|].
      apply (course_down c Hc). congruence.
    + assert (run_state (close_step threw) c = c) as ->; [|done].
      unfold run_state, close_step. by rewrite !bind_gets, E.
  - destruct (dropping c) as [pc|] eqn:E.
    + intros Hup. destruct (one_way_drop_step r now c) as (Hd & _). destruct Hd; [|done].
      apply (course_dropping c Hc). congruence.
    + assert (run_state (drop_step r now) c = c) as ->; [|done].
      unfold run_state, drop_step. by rewrite !bind_gets, E.
Qed.

(** ** From connection on *)

Definition life (a : Attached) (now : Z) (l : list action) : dart unit := (connect a now ;;; exec_all l)%act.

Lemma along_life (R : Camera -> list Effect -> Camera -> Prop) `{!TraceOrder R} a now l c :
  (forall a now c, along R (attach a now) c) ->
  (forall c, R c [] (set_timers (_watch c) true c)) ->
  (forall x c, along R (exec x) c) -> along R (life a now l) c.
Proof.
  intros Ha Ht Hx. unfold life, connect. along; [apply Ha|apply Ht|by apply along_all].
Qed.

Lemma life_state a now l c :
  run_state (life a now l) c = run_state (exec_all l) (run_state (connect a now) c).
Proof. apply (run_bind (connect a now) (fun _ => exec_all l) c). Qed.

Lemma new_camera_course p ka rt : course (new_camera p ka rt).
Proof. split; cbn; [done|done|]. by intros []. Qed.

Lemma new_camera_alive p ka rt : alive (new_camera p ka rt).
Proof. split; cbn; (done || by intros []). Qed.

Lemma new_camera_paired p ka rt : exists ctx, paired (new_camera p ka rt) ctx.
Proof.
  eexists. split; [reflexivity| |done|constructor|done]. split; [apply init_session_ok|done].
Qed.

Lemma matched_all l : forall c,
  Forall action_typed l -> course c -> matched c -> matched (run_state (exec_all l) c).
Proof.
  induction l as [|x l IH]; intros c Hty Hc Hm; [done|]. apply Forall_cons in Hty as [Hx Hty].
  destruct (exec_all_cons x l c) as [-> _]. apply IH; [done| |by apply matched_step].
  by apply (one_way_exec x c).
Qed.

Lemma matched_life p ka rt a now l :
  Forall action_typed l -> matched (run_state (life a now l) (new_camera p ka rt)).
Proof.
  intros Hty. rewrite life_state. set (c0 := new_camera p ka rt).
  assert (along kept (connect a now) c0) as Hk.
  { unfold connect. along; [apply kept_attach | by apply kept_same]. }
  assert (along one_way (connect a now) c0) as Ho.
  { unfold connect. along; [apply one_way_attach | by apply one_way_same']. }
  apply matched_all; [done|by apply Ho, new_camera_course|].
  apply Hk. intros _. apply new_camera_paired.
Qed.

(** No call of [close] while [_onDrop] is at work. *)
Fixpoint polite_all (c : Camera) (l : list action) : Prop :=
  match l with
  | [] => True
  | x :: l => polite c x /\ polite_all (run_state (exec x) c) l
  end.

Lemma safe_all l : forall c, polite_all c l -> along safe (exec_all l) c.
Proof.
  induction l as [|x l IH]; intros c Hp; [apply along_ret; apply _|]. destruct Hp as [Hx Hp]. cbn [exec_all].
  apply along_bind; [apply _|by apply safe_exec|by apply IH].
Qed.

(** ** Closing *)

(** The resumptions [close] still needs, one for each [await] it comes to. *)
Definition close_left (c : Camera) : nat :=
  match closing c with
  | None => 0
  | Some CWatch => 1 + length (_watch c) + length (_subs c) + length (_notifies c) + (1 + length (_streams c))
  | Some CSubs => 1 + length (_subs c) + length (_notifies c) + (1 + length (_streams c))
  | Some (CStop rest) => 1 + length rest + (1 + length (_streams c))
  | Some CTurn | Some CStreams => 1 + length (_streams c)
  | Some CDone | Some CFailed => 0
  end.

Lemma stop_left rest c :
  let c' := run_state (stop_notifies rest) c in
  closing c' <> None /\ closing c' <> Some CFailed /\ close_left c' = (length rest + (1 + length (_streams c)))%nat.
Proof. by destruct rest. Qed.

Lemma detach_left c :
  let c' := run_state detach_subs c in
  closing c' <> None /\ closing c' <> Some CFailed /\
  close_left c' = (length (_subs c) + length (_notifies c) + (1 + length (_streams c)))%nat.
Proof.
  cbv zeta. unfold detach_subs, run_state. rewrite !bind_gets.
  destruct (_subs c); [by destruct (stop_left (_notifies c) c) | done].
Qed.

Lemma watches_left c :
  let c' := run_state cancel_watches c in
  closing c' <> None /\ closing c' <> Some CFailed /\
  close_left c' = (length (_watch c) + length (_subs c) + length (_notifies c) + (1 + length (_streams c)))%nat.
Proof.
  cbv zeta. unfold cancel_watches. destruct (run_bind (gets _watch) (fun watch => match watch with
    | _ :: watch => modify (fun c => set_timers watch (_ticker c) c) ;;; modify (set_closing CWatch)
    | [] => _ <~ ffi ADisconnect ;; detach_subs end) c) as (_ & -> & _). cbn [run_result run_state gets fst snd].
  destruct (_watch c); [|done].
  destruct (run_bind (ffi ADisconnect) (fun _ => detach_subs) c) as (_ & -> & _).
  destruct (native_only_ffi ADisconnect c) as (h & p & ev & -> & _). by destruct (detach_left (set_native h p c)).
Qed.

Lemma stream_left c :
  let c' := run_state close_stream c in
  closing c' <> None /\ closing c' <> Some CFailed /\ close_left c' = length (_streams c).
Proof. cbv zeta. unfold close_stream, run_state. rewrite !bind_gets. by destruct (_streams c). Qed.

Lemma close_step_progress c :
  closing c <> None -> closing c <> Some CFailed ->
  let c' := run_state (close_step false) c in
  closing c' <> None /\ closing c' <> Some CFailed /\ close_left c' = (close_left c - 1)%nat.
Proof.
  intros Hc Hf. cbv zeta. unfold close_step, run_state. rewrite !bind_gets. unfold close_left at 2.
  destruct (closing c) as [pc|] eqn:E; [clear Hc|done]. destruct pc as [| |rest| | | |]; try done.
  - destruct (watches_left c) as (H1 & H2 & H3). unfold run_state in *. split_and!; [done..|lia].
  - destruct (detach_left c) as (H1 & H2 & H3). unfold run_state in *. split_and!; [done..|lia].
  - destruct (stop_left rest c) as (H1 & H2 & H3). unfold run_state in *. split_and!; [done..|lia].
  - match goal with |- context [bind resolvePending ?k c] =>
      change ((bind resolvePending k c).1.2) with (run_state (bind resolvePending k) c);
      destruct (run_bind resolvePending k c) as (_ & -> & _) end.
    set (c1 := run_state resolvePending c).
    match goal with |- context [run_state (?f ?a) c1] => change (f a) with (ffi_destroy ;;; modify close_port ;;; close_stream) end.
    destruct (run_bind ffi_destroy (fun _ => modify close_port ;;; close_stream) c1) as (_ & -> & _).
    destruct (native_only_destroy c1) as (h & p & ev & -> & _).
    destruct (stream_left (close_port (set_native h p c1))) as (H1 & H2 & H3).
    unfold run_state in *. rewrite bind_modify. split_and!; [done..|]. rewrite H3. cbn. lia.
  - destruct (stream_left c) as (H1 & H2 & H3). unfold run_state in *. split_and!; [done..|lia].
  - cbn. unfold close_left. by rewrite E.
Qed.

(** Everything else that can happen meanwhile leaves it alone. *)
Lemma closing_undisturbed x c :
  alive c -> closing c <> None -> (forall threw, x <> ACloseStep threw) ->
  let c' := run_state (exec x) c in closing c' = closing c /\ close_left c' = close_left c.
Proof.
  intros Ha Hc Hx. destruct (alive_closing c Ha Hc) as (Hd & Ht & Hdr). cbv zeta.
  assert (forall (m : dart unit), native_only m ->
    closing (run_state m c) = closing c /\ close_left (run_state m c) = close_left c) as Hn.
  { intros m Hm. by destruct (Hm c) as (h & p & ev & -> & _). }
  assert (is_up c = false) as Hup by (unfold is_up; rewrite Hd; done).
  assert (forall A (m : dart A), run_state (_ <~ m ;; ret tt)%act c = run_state m c) as Hign.
  { intros A m. by destruct (run_bind m (fun _ => ret tt) c) as (_ & -> & _). }
  destruct x as [ch d p now|f y m ch p now|ch d now|now b| |w| |threw|r now]; cbn [exec];
    rewrite ?Hign; unfold run_state; try done.
  - unfold send. by rewrite bind_gets, Hup.
  - unfold sendProtobuf. by rewrite bind_gets, Hup.
  - rewrite bind_gets. unfold when. case_bool_decide; [|done]. apply Hn, native_only_feed.
  - by rewrite bind_gets, Ht.
  - rewrite bind_gets. destruct (_port c) as [|m port]; [done|]. rewrite bind_modify.
    unfold onEvent. by destruct (decode m) as [[]|].
  - rewrite bind_gets. unfold when. case_bool_decide; [|done]. unfold onDrop. by rewrite bind_gets, Hup.
  - destruct (close_eq c) as [E _]. unfold run_state in E. rewrite E. by rewrite bool_decide_eq_true_2.
  - by destruct (Hx threw).
  - unfold drop_step. by rewrite !bind_gets, Hdr.
Qed.

Definition is_close_step (x : action) : bool := match x with ACloseStep _ => true | _ => false end.

Lemma drains l : forall c,
  alive c -> polite_all c l -> ACloseStep true ∉ l -> closing c <> None -> closing c <> Some CFailed ->
  let c' := run_state (exec_all l) c in
  closing c' <> None /\ closing c' <> Some CFailed /\
  close_left c' = (close_left c - length (List.filter is_close_step l))%nat.
Proof.
  induction l as [|x l IH]; intros c Ha Hp Ht Hc Hf; cbv zeta; [split_and!; [done..| cbn; lia]|].
  destruct Hp as [Hx Hp]. destruct (exec_all_cons x l c) as [-> _].
  destruct (safe_exec x c Hx Ha) as [Ha' _]. apply not_elem_of_cons in Ht as [Hxt Ht].
  assert (closing (run_state (exec x) c) <> None /\ closing (run_state (exec x) c) <> Some CFailed /\
    close_left (run_state (exec x) c) = (close_left c - length (List.filter is_close_step [x]))%nat)
    as (Hc' & Hf' & Hl).
  { destruct (is_close_step x) eqn:E.
    - destruct x as [| | | | | | |[]|]; try done. exact (close_step_progress c Hc Hf).
    - destruct (closing_undisturbed x c Ha Hc) as [E1 E2]; [by intros threw ->|].
      rewrite E1, E2. split_and!; [done..|]. cbn. rewrite E. cbn. lia. }
  destruct (IH _ Ha' Hp Ht Hc' Hf') as (H1 & H2 & H3). split_and!; [done..|].
  cbn [List.filter] in *. destruct (is_close_step x); cbn [length] in *; lia.
Qed.

Lemma polite_all_app l l' c :
  polite_all c (l ++ l') -> polite_all c l /\ polite_all (run_state (exec_all l) c) l'.
Proof.
  revert c. induction l as [|x l IH]; intros c Hp; [done|].
  destruct Hp as [Hx Hp]. destruct (exec_all_cons x l c) as [-> _]. by destruct (IH _ Hp).
Qed.

Lemma ledger_life p ka rt a now l :
  ledger_ok (new_camera p ka rt) (run_events (life a now l) (new_camera p ka rt))
    (run_state (life a now l) (new_camera p ka rt)).
Proof.
  apply (along_life ledger); [apply ledger_attach|by intros; apply ledger_same|apply ledger_exec|constructor].
Qed.

Lemma course_life p ka rt a now l : course (run_state (life a now l) (new_camera p ka rt)).
Proof.
  apply (along_life one_way); [apply one_way_attach|by intros; apply one_way_same'|apply one_way_exec|].
  apply new_camera_course.
Qed.

Lemma settled_life p ka rt a now l :
  let c := run_state (life a now l) (new_camera p ka rt) in
  let ev := run_events (life a now l) (new_camera p ka rt) in
  released (closing c) -> _pending c = [] /\ dones ev ≡ₚ returns ev.
Proof.
  cbv zeta. intros Hr. destruct (ledger_life p ka rt a now l) as [_ F _ _ _].
  pose proof (course_settled _ (course_life p ka rt a now l) Hr) as E. split; [done|].
  rewrite E in F. cbn in F. by rewrite !app_nil_r in F.
Qed.

Lemma connect_alive p ka rt a now :
  let c := run_state (connect a now) (new_camera p ka rt) in
  alive c /\ sound_effects (run_events (connect a now) (new_camera p ka rt)).
Proof.
  assert (along safe (connect a now) (new_camera p ka rt)) as H.
  { unfold connect. along; [by apply safe_attach|].
    destruct (attach_frame a now (new_camera p ka rt)) as ((_ & _ & E & _) & _).
    change (closing (new_camera p ka rt)) with (@None close_pc) in E.
    intros [A1 A2 A3 A4 A5 A6 A7]. split; [|apply sound_nil]. rewrite E in *. split; cbn; rewrite ?E; done. }
  apply H, new_camera_alive.
Qed.

(** ** Properties *)

(** C7: every future is settled exactly once.  Whatever the owner, the camera,
    BlueZ and the event loop do after [connect], in whatever order, the futures
    that [send] and [sendProtobuf] returned are distinct, each has been completed
    once or is still registered, and once [close] has released the handles none
    is registered: every one has been completed exactly once. *)
Theorem futures_settle p ka rt a now l :
  let c := run_state (life a now l) (new_camera p ka rt) in
  let ev := run_events (life a now l) (new_camera p ka rt) in
  NoDup (returns ev) /\ dones ev ++ (_pending c).*2 ≡ₚ returns ev /\
  (released (closing c) -> _pending c = [] /\ dones ev ≡ₚ returns ev).
Proof.
  cbv zeta. destruct (ledger_life p ka rt a now l) as [_ F _ _ D]. cbn in F. rewrite app_nil_r in F.
  split_and!; [done|done|apply settled_life].
Qed.

(** A camera that stopped being up never is again.  [_onDrop] brings the
    link up and calls [_attach] while the state is still [reconnecting], but
    [_attach] asks for the statuses with [send], which throws in that state: the
    exception ends in [_onDrop]'s [catch], which closes the camera.  So every
    reconnection that succeeds is thrown away, whatever bring-up found. *)
Theorem drop_is_final c l att now :
  (_state c <> up -> _state (run_state (exec_all l) c) <> up) /\
  (_state c = reconnecting -> dropping c = Some DBringUp -> is_open faults c = true ->
     let c' := run_state (exec (ADropStep (Some (Some att)) now)) c in
     _state c' = down /\ closing c' <> None).
Proof.
  split.
  - exact (proj1 (along_all one_way l one_way_exec c)).
  - intros Hs Hd Hst. cbv zeta. cbn [exec]. unfold drop_step, run_state. rewrite !bind_gets, Hd.
    match goal with |- context [bind link_calls ?k c] =>
      change ((bind link_calls k c).1.2) with (run_state (bind link_calls k) c);
      destruct (run_bind link_calls k c) as (_ & -> & _) end.
    rewrite link_calls_state. unfold run_state. rewrite bind_modify. set (c1 := set_dropping None c).
    match goal with |- context [bind (attach att now) ?k c1] =>
      change ((bind (attach att now) k c1).1.2) with (run_state (bind (attach att now) k) c1);
      destruct (run_bind (attach att now) k c1) as (_ & -> & _) end.
    destruct (attach_frame att now c1) as ((E1 & _ & _ & E2) & E3).
    assert (_state c1 <> up) as Hup by (change (_state c <> up); congruence). rewrite (E3 Hup).
    set (c2 := run_state (attach att now) c1) in *. change (_state c2 = _state c) in E1.
    assert (is_open faults c2 = true) as Hst2 by (unfold is_open in *; by rewrite E2).
    unfold abandon. destruct (run_bind faults_add (fun ok => when ok close) c2) as (_ & -> & _).
    rewrite faults_state. assert (run_result faults_add c2 = true) as -> by (unfold run_result, faults_add; by rewrite Hst2).
    unfold when. split; [apply close_not_up|]. destruct (close_eq c2) as [-> _].
    rewrite bool_decide_eq_false_2 by congruence. apply watches_left.
Qed.

(** C29: no native call on a freed handle.  If [close] is not called while a drop
    is being handled, then whatever else happens after [connect] no call reaches
    a session or link that was destroyed, and no error escapes but what [stopNotify]
    throws in [close], which fails its future ([CloseThrew]).  The hypothesis
    is needed: see [close_while_reconnecting]. *)
Theorem no_use_after_free p ka rt a now l :
  polite_all (run_state (connect a now) (new_camera p ka rt)) l ->
  let ev := run_events (life a now l) (new_camera p ka rt) in
  UseAfterFree ∉ ev /\ Unhandled ∉ ev.
Proof.
  intros Hp. cbv zeta. unfold life.
  destruct (run_bind (connect a now) (fun _ => exec_all l) (new_camera p ka rt)) as (_ & _ & ->).
  destruct (connect_alive p ka rt a now) as [Ha [U1 V1]].
  destruct (safe_all l _ Hp Ha) as [_ [U2 V2]]. split; rewrite elem_of_app; tauto.
Qed.

(** C28: [close] completes.  However the isolate interleaves it with deliveries,
    notifications, timers and further calls, if [close] is not called while a drop
    is being handled and no [stopNotify] throws anything but a [BlueZException],
    then the [close] of a camera that is up finishes with exactly the resumptions
    of its [await]s: one per watch, per subscription and per notify characteristic,
    one for the turn it waits, and one per stream.  Then the handles are released,
    no future is registered and each one ever returned was completed once. *)
Theorem close_completes p ka rt a now l l' :
  let c0 := new_camera p ka rt in
  let c1 := run_state (life a now l) c0 in
  let c2 := run_state (life a now (l ++ AClose :: l')) c0 in
  let ev := run_events (life a now (l ++ AClose :: l')) c0 in
  polite_all (run_state (connect a now) c0) (l ++ AClose :: l') ->
  ACloseStep true ∉ l' -> _state c1 = up ->
  (closing c2 = Some CDone <->
     (length (_watch c1) + length (_subs c1) + length (_notifies c1) + 1 + 4 <=
        length (List.filter is_close_step l'))%nat) /\
  (closing c2 = Some CDone -> _session c2 = None /\ _link c2 = false /\ _pending c2 = [] /\ dones ev ≡ₚ returns ev).
Proof.
  cbv zeta. rewrite !life_state. intros Hp Ht Hup.
  destruct (connect_alive p ka rt a now) as [Ha0 _].
  set (c0 := run_state (connect a now) (new_camera p ka rt)) in *. apply polite_all_app in Hp as [Hp1 Hp2].
  destruct (safe_all l c0 Hp1 Ha0) as [Ha1 _].
  destruct (exec_all_app l (AClose :: l') c0) as [-> _]. set (c1 := run_state (exec_all l) c0) in *.
  destruct Hp2 as [Hx Hp2]. destruct (safe_exec AClose c1 Hx Ha1) as [Ha2 _].
  destruct (exec_all_cons AClose l' c1) as [-> _].
  assert (run_state (exec AClose) c1 = run_state cancel_watches (set_timers (_watch c1) false (set_state down c1))) as E.
  { cbn [exec]. destruct (close_eq c1) as [-> _]. by rewrite bool_decide_eq_false_2 by congruence. }
  destruct (watches_left (set_timers (_watch c1) false (set_state down c1))) as (H1 & H2 & H3).
  rewrite <- E in H1, H2, H3. cbn [_watch _subs _notifies _streams set_timers set_state] in H3.
  destruct (alive_open c1 Ha1) as (_ & _ & _ & Hst); [congruence|]. rewrite Hst in H3.
  set (c2 := run_state (exec AClose) c1) in *.
  destruct (drains l' c2 Ha2 Hp2 Ht H1 H2) as (D1 & D2 & D3). destruct (safe_all l' c2 Hp2 Ha2) as [Ha3 _].
  rewrite H3 in D3. cbn [length all_streams] in D3. set (c3 := run_state (exec_all l') c2) in *. split.
  - transitivity (close_left c3 = 0%nat); [|lia].
    unfold close_left in D3 |- *. destruct (closing c3) as [[]|]; try done; (split; [discriminate|lia]).
  - intros Hd. assert (released (closing c3)) as Hr by (by right).
    destruct (alive_gone c3 Ha3 Hr). do 2 (split; [done|]).
    pose proof (settled_life p ka rt a now (l ++ AClose :: l')) as Hs. cbv zeta in Hs.
    rewrite life_state in Hs. fold c0 in Hs. destruct (exec_all_app l (AClose :: l') c0) as [Es _].
    fold c1 in Es. destruct (exec_all_cons AClose l' c1) as [Es' _]. rewrite Es' in Es. fold c2 c3 in Es.
    rewrite Es in Hs. by apply Hs.
Qed.

(** C11: replies reach their callers, all but those under one id.  The session's
    keep-alives go out under the id of a write of the LED setting
    ([keep_alive_id]); every clause leaves that id aside, since a keep-alive has no
    future and the answer to one completes that of such a write (Example
    [keep_alive_completes_led_future]).  For the other ids, while the link is up,
    the commands of the session that are outstanding, or answered and not yet
    delivered, are exactly those whose futures are registered, one each.  So a
    delivered response under another id finds the future of its own command and
    completes it with the session's outcome, and a submission under another id that
    [send] lets through is never refused by the session. *)
Theorem replies_reach_callers p ka rt a now l :
  Forall action_typed l ->
  let c := run_state (life a now l) (new_camera p ka rt) in
  _state c = up ->
  exists ctx, _session c = Some ctx /\
    NoDup (not_keep_alive ((CommandQueue.id <$> outstanding (session ctx)) ++ in_port (_port c))) /\
    not_keep_alive ((CommandQueue.id <$> outstanding (session ctx)) ++ in_port (_port c)) ≡ₚ
      not_keep_alive (_pending c).*1 /\
    (forall m port i o d,
       _port c = m :: port -> decode m = Some (BleResponse i o d) -> i <> keep_alive_id ->
       exists k, (i, k) ∈ _pending c /\ run_events (exec ADeliver) c = [Done k o d]) /\
    (forall ch b data pr t,
       channel_ok ch -> byte_ok b -> correlationOf ch b ∉ (_pending c).*1 ->
       correlationOf ch b <> keep_alive_id ->
       run_events (exec (ASend ch (b :: data) pr t)) c = [Returned (_completers c) (correlationOf ch b)]).
Proof.
  cbv zeta. intros Hty Hup. destruct (matched_life p ka rt a now l Hty Hup) as [ctx Hp].
  set (c := run_state (life a now l) (new_camera p ka rt)) in *. exists ctx.
  pose proof Hp as [P1 P2 P3 P4 P5]. split_and!; [done| |done|..].
  - rewrite P5. eapply sublist_NoDup; [exact P4|]. apply lfilter_sublist.
  - intros m port i o d Hport Hm Hi. pose proof (paired_head c ctx m port i o d Hp Hport Hm Hi) as Hin.
    pose proof (dict_take i (_pending c) P4) as Hl.
    destruct (dict_get i (_pending c)) as [k|] eqn:E; [|by destruct Hl].
    exists k. split; [apply Hl|]. unfold run_events. cbn [exec]. rewrite bind_gets, Hport, bind_modify.
    unfold onEvent. rewrite Hm, bind_gets. unfold forget. rewrite bind_modify. cbn. by rewrite E.
  - intros ch b data pr t Hch Hb Hn Hka. cbn [exec].
    destruct (run_bind (send ch (b :: data) pr t) (fun _ => ret tt) c) as (_ & _ & ->).
    unfold run_events. rewrite send_up by done. set (pr' := default _ pr).
    destruct (submit_hands ctx ch b data pr' t Hch) as (Hk & Hh & Hr). rewrite to_u8_byte in Hh, Hr by done.
    destruct (submit_once_paired c ctx (correlationOf ch b) _ Hp Hn Hk Hh Hr) as [_ Hres].
    destruct (Hres Hka) as [_ Hev]. unfold run_events in Hev. rewrite Hev. done.
Qed.

(** ** Witnesses *)

Definition four_channels : Attached :=
  mkAttached [0; 1; 2; 3] [(0, 517); (1, 517); (2, 517); (3, 517)].

(** The statuses are asked for and answered, a command goes out. *)
Definition demo_life : list action :=
  [ADeliver; ANotify 2 [8; 19; 0; 8; 1; 0; 10; 1; 0] 10; ASend 0 [1; 1; 1] None 20].

Lemma demo_life_typed : Forall action_typed demo_life.
Proof.
  unfold demo_life. repeat apply Forall_cons_2; try apply Forall_nil_2; cbn;
    unfold channel_ok, kChannelCount, byte_ok; lia.
Qed.

Abbreviation demo_camera := (run_state (life four_channels 0 demo_life) (new_camera 7 0 300)).

Lemma demo_camera_is :
  _state demo_camera = up /\ _completers demo_camera = 2%nat /\
  _pending demo_camera = [(531, 0%nat); (1, 1%nat)] /\
  _port demo_camera = [[17; 19; 2; 0; 0; 0; 0; 0; 0; 0; 19; 0; 8; 1; 0; 10; 1; 0]; [18; 1];
                       [16; 0; 32; 3; 1; 1; 1]].
Proof. vm_compute. done. Qed.

Lemma replies_reach_callers_witness :
  run_events (exec ADeliver) demo_camera = [Done 0 kResponded [19; 0; 8; 1; 0; 10; 1; 0]] /\
  run_events (exec (ASend 0 [2; 1] None 30)) demo_camera = [Returned 2 2].
Proof.
  destruct demo_camera_is as (Hup & Hnext & Hpend & Hport).
  pose proof (replies_reach_callers 7 0 300 four_channels 0 demo_life demo_life_typed) as H.
  cbv zeta in H. destruct (H Hup) as (ctx & _ & _ & _ & Hdeliver & Hsend). clear H. split.
  - destruct (Hdeliver _ _ 531 kResponded [19; 0; 8; 1; 0; 10; 1; 0] Hport) as (k & Hk & ->); [by clear..|].
    rewrite Hpend in Hk. apply elem_of_cons in Hk as [[= ->]|Hk]; [done|].
    by apply list_elem_of_singleton in Hk as [= ->].
  - rewrite (Hsend 0 2 [1] None 30); [by rewrite Hnext|by clear|clear; unfold byte_ok; lia| |by clear].
    rewrite Hpend. clear. set_solver.
Defined.

(** A command is in flight when the owner closes; its reply is on the way, the
    timer fires and someone sends in between. *)
Definition closing_life : list action :=
  [ANotify 2 [8; 19; 0; 8; 1; 0; 10; 1; 0] 30; ACloseStep false; ADeliver; ATimer 500 false; ACloseStep false;
   ASend 0 [5] None 510; ADropSeen deviceRemoved; ADeliver] ++ replicate 13 (ACloseStep false).

Lemma close_completes_witness :
  let l := demo_life ++ AClose :: closing_life in
  let c2 := run_state (life four_channels 0 l) (new_camera 7 0 300) in
  closing c2 = Some CDone /\ _session c2 = None /\ _link c2 = false /\ _pending c2 = [] /\
  dones (run_events (life four_channels 0 l) (new_camera 7 0 300)) ≡ₚ
    returns (run_events (life four_channels 0 l) (new_camera 7 0 300)).
Proof.
  cbv zeta. destruct (close_completes 7 0 300 four_channels 0 demo_life closing_life) as [Hdone Hsettled].
  - vm_compute. repeat split; discriminate.
  - intros H%list_elem_of_In. vm_compute in H. intuition discriminate.
  - apply demo_camera_is.
  - assert (closing (run_state (life four_channels 0 (demo_life ++ AClose :: closing_life)) (new_camera 7 0 300)) =
      Some CDone) as H by (apply Hdone; vm_compute; lia).
    split; [exact H|]. exact (Hsettled H).
Defined.

Lemma no_use_after_free_witness :
  let ev := run_events (life four_channels 0 (demo_life ++ AClose :: closing_life)) (new_camera 7 0 300) in
  UseAfterFree ∉ ev /\ Unhandled ∉ ev.
Proof. apply no_use_after_free. vm_compute. repeat split; discriminate. Defined.

(** The link drops and BlueZ brings it up again. *)
Definition dropped : list action :=
  demo_life ++ [ADropSeen propertiesChanged; ADropStep None 0; ADropStep None 0; ADropStep None 0; ADropStep None 0].

Lemma drop_is_final_witness :
  let c := run_state (life four_channels 0 dropped) (new_camera 7 0 300) in
  _state c = reconnecting /\
  _state (run_state (exec (ADropStep (Some (Some four_channels)) 60000)) c) = down.
Proof.
  cbv zeta. split; [vm_compute; done|].
  apply (drop_is_final (run_state (life four_channels 0 dropped) (new_camera 7 0 300)) [] four_channels 60000);
    vm_compute; done.
Defined.

(** ** What modelling showed *)

(** A camera is asked for the statuses that open the gate as soon as it is
    attached; the write is the first thing delivered. *)
Example connect_asks_for_statuses :
  decode <$> _port (run_state (connect four_channels 0) (new_camera 7 0 300)) =
    [Some (BleWriteRequest 2 [32; 3; 19; 8; 10])].
Proof. vm_compute. done. Qed.

(** [close] while a drop is being handled: bring-up goes on polling the link
    machine that [close] has destroyed. *)
Example close_while_reconnecting :
  UseAfterFree ∈ run_events (life four_channels 0
    (dropped ++ AClose :: [ACloseStep false; ACloseStep false; ACloseStep false; ADropStep None 0])) (new_camera 7 0 300).
Proof. vm_compute. repeat (first [left | right]). Qed.

(** A [stopNotify] that throws anything but a [BlueZException] ends [close] before
    the handles are released, and a second [close] returns at once. *)
Example stop_notify_throws :
  let c := run_state (life four_channels 0
    (AClose :: replicate 6 (ACloseStep false) ++ ACloseStep true :: replicate 9 (ACloseStep false) ++ [AClose]))
    (new_camera 7 0 300) in
  closing c = Some CFailed /\ bool_decide (_session c = None) = false /\ _link c = true /\ _streams c = all_streams.
Proof. vm_compute. done. Qed.

(** A setting of the LED that waits for the gate is completed by the rejection of
    a keep-alive, while it is still waiting. *)
Example keep_alive_completes_led_future :
  let r := life four_channels 0 [ASend 1 [91; 1; 2] None 10; ATimer 100 true; ATimer 3200 true; ADeliver; ADeliver] in
  let c := run_state r (new_camera 7 0 300) in
  Done 1 kRejected [] ∈ run_events r (new_camera 7 0 300) /\
  (fun s => CommandQueue.id <$> outstanding (session s)) <$> _session c = Some [531; 347].
Proof. vm_compute. split; [|done]. repeat (first [left | right]). Qed.

(** The smallest MTU, but for one that is not known: what comes before an unknown
    MTU is forgotten, and if the last is unknown none is set. *)
Example mtu_order_matters : min_mtu [185; 0; 517] = 517 /\ min_mtu [517; 185; 0] = 0 /\ min_mtu [0; 517; 185] = 185.
Proof. done. Qed.
