(* ===== verification/BleStack.v ===== *)
(** * A command's way to the camera and back

    The BLE half of the library as one path: [send] of [ble_transport.dart], the
    C ABI, the session, its queue and its fragments, the Dart port, the GATT
    writes, a camera that reassembles them by the same framing and cuts its
    answer any way the framing allows, the notifications, the session again, and
    the caller's future.  Nothing is modelled here: the theorems compose those of
    [BleProtocol], [CommandQueue], [BleSession], [BleBridge] and [BleTransport]. *)

From S2P Require Import Prelude BleProtocol QueryParser CommandQueue BleSession BleBridge BleTransport.
Local Open Scope Z_scope.
Open Scope act_scope.

(** ** What never changes in a session

    The handlers are those [wire_callbacks] sets, and the ATT payload never
    falls below the minimum; so every accepted command has a fragmentation. *)

Definition wired (s : BleSession) : Prop :=
  handlers s = all_wired /\ (kMinAttPayload <= att_payload (cfg_ s))%nat.

Definition stays_wired (s : BleSession) (ev : list SEvent) (s' : BleSession) : Prop := wired s -> wired s'.

#[export] Instance stays_wired_order : TraceOrder stays_wired.
Proof. split; unfold stays_wired; auto. Qed.

Lemma wired_same s ev s' : handlers s' = handlers s -> cfg_ s' = cfg_ s -> stays_wired s ev s'.
Proof. intros E1 E2 [H1 H2]. split; by rewrite ?E1, ?E2. Qed.

Lemma wired_queue s c : wired s -> wired (queue_exec s c).1.
Proof. intros H. destruct (queue_exec_frame s c) as (E1 & E2 & _). by apply (wired_same s []). Qed.

Lemma wired_gate_told s m now : wired s -> wired (gate_told s m now).1.
Proof. intros H. unfold gate_told. by destruct (gate_flips s m); [apply (wired_queue (folded s m))|]. Qed.

Lemma wired_deliver ch m now s : wired s -> wired (run_state (deliver ch m now) s).
Proof.
  intros H. unfold run_state. rewrite deliver_eq. destruct (answers s ch m); cbn; apply wired_gate_told; [|done].
  by apply wired_queue.
Qed.

Lemma wired_feed ch p now s : wired s -> wired (run_state (feed ch p now) s).
Proof.
  intros H. cut (along stays_wired (feed ch p now) s); [by intros Hs; apply Hs|].
  unfold feed. destruct (_ <=? _)%nat; along.
  - unfold along, rx_feed, run_state, run_events. destruct (BleProtocol.feed _ _). by apply wired_same.
  - destruct (run_result _ _); try apply along_ret; try apply _; try (unfold call_on_frame_error; along; by apply wired_same).
    along; [|intros ?; by apply wired_deliver].
    unfold along, rx_take, run_state, run_events. destruct (BleProtocol.take _). by apply wired_same.
Qed.

Lemma wired_api c s : wired s -> wired (run_state (api c) s).
Proof.
  intros H. destruct c as [ch p now|ch m p now|ch f a m p now|now|n|]; cbn [api].
  - by apply wired_feed.
  - destruct m as [|b m]; [done|]. unfold submit, run_state. rewrite enqueue_eq. by apply wired_queue.
  - unfold submit_protobuf, run_state. rewrite enqueue_eq. by apply wired_queue.
  - unfold run_state. rewrite tick_eq. pose proof (wired_queue s (Tick now) H) as H1.
    destruct (queue_exec s (Tick now)) as [s1 ev1]. cbn [fst] in H1.
    assert (wired (anchored s1 now)) as H2 by exact H1.
    destruct (negb _); [done|]. destruct (keep_alive_due s now); [|done].
    pose proof (wired_queue _ (queue_submit keep_alive_id keep_alive_payload kKeepAlive now) H2).
    by destruct (queue_exec _ _).
  - destruct H as [H1 H2]. unfold set_att_payload, run_state, modify. cbn [fst snd].
    destruct (kMinAttPayload <=? n)%nat eqn:E; [|done]. by apply Nat.leb_le in E.
  - unfold run_state. rewrite on_disconnect_eq. cbv zeta. cbn [fst snd].
    refine (wired_queue (set_gate _ _) _ _). by apply (wired_queue (set_rx s _)).
Qed.

Lemma wired_api_all cs : forall s, wired s -> wired (run_state (api_all cs) s).
Proof.
  induction cs as [|c cs IH]; intros s H; [done|]. destruct (api_all_cons c cs s) as [-> _].
  by apply IH, wired_api.
Qed.

(** *** Over the C ABI and in the Dart camera *)

Lemma wired_on_session {A} ctx (m : act BleSession SEvent A) :
  (wired (session ctx) -> wired (run_state m (session ctx))) ->
  wired (session ctx) -> wired (session (on_session ctx m).1.1).
Proof. intros Hm H. unfold on_session. apply Hm in H. unfold run_state in H. by destruct (m _) as [[??] ?]. Qed.

Definition handle_wired (h : option BleContext) : Prop := forall ctx, h = Some ctx -> wired (session ctx).

Lemma wired_some ctx : wired (session ctx) -> handle_wired (Some ctx).
Proof. by intros H ? [= <-]. Qed.

Lemma run_state_then {S E A B} (m : act S E A) (f : A -> B) (s : S) :
  run_state (r <~ m ;; ret (f r)) s = run_state m s.
Proof. unfold run_state, bind. by destruct (m s) as [[??] ?]. Qed.

Lemma wired_submit ch m p now s : wired s -> wired (run_state (submit ch m p now) s).
Proof. intros H. rewrite <- (run_state_then _ (fun _ => tt)). by apply (wired_api (SubmitCommand ch m p now)). Qed.

Lemma wired_submit_protobuf ch f a m p now s : wired s -> wired (run_state (submit_protobuf ch f a m p now) s).
Proof. intros H. rewrite <- (run_state_then _ (fun _ => tt)). by apply (wired_api (SubmitProtobuf ch f a m p now)). Qed.

Lemma wired_invoke_abi h k : handle_wired h -> handle_wired (invoke_abi h k).1.1.
Proof.
  intros H. destruct h as [ctx|]; [|by destruct k]. pose proof (H ctx eq_refl) as Hw.
  assert (forall A (m : act BleSession SEvent A),
    (forall s, wired s -> wired (run_state m s)) -> handle_wired (Some (on_session ctx m).1.1)) as Hon.
  { intros A m Hm. apply wired_some, wired_on_session; [apply Hm | done]. }
  destruct k as [ch d len now|ch d len p now|ch f a d len p now|now|n|]; cbn [invoke_abi abi].
  - pose proof (Hon _ _ (wired_feed ch (span d len) now)) as Hf. cbn [gopro_ble_feed].
    destruct (_ || _); [done|]. destruct (_ <=? _); [done|]. by destruct (on_session _ _) as [[??] ?].
  - pose proof (Hon _ _ (wired_submit ch (span d len) (Priority_cast p) now)) as Hf. cbn [gopro_ble_submit].
    destruct (_ || _); [done|]. destruct (bad_channel_or_priority _ _); [done|].
    by destruct (on_session _ _) as [[??] ?].
  - pose proof (Hon _ _ (wired_submit_protobuf ch f a (span d len) (Priority_cast p) now)) as Hf.
    cbn [gopro_ble_submit_protobuf].
    destruct (_ || _); [done|]. destruct (bad_channel_or_priority _ _); [done|].
    by destruct (on_session _ _) as [[??] ?].
  - pose proof (Hon _ _ (wired_api (TickSession now))) as Hf. cbn [gopro_ble_tick api] in *.
    by destruct (on_session _ _) as [[??] ?].
  - pose proof (Hon _ _ (wired_api (SetAttPayload (Z.to_nat n)))) as Hf. cbn [gopro_ble_set_att_payload api] in *.
    by destruct (on_session _ _) as [[??] ?].
  - pose proof (Hon _ _ (wired_api Disconnect)) as Hf. cbn [gopro_ble_disconnect api] in *.
    by destruct (on_session _ _) as [[??] ?].
Qed.

Definition fitted (c : Camera) (ev : list Effect) (c' : Camera) : Prop :=
  handle_wired (_session c) -> handle_wired (_session c').

#[export] Instance fitted_order : TraceOrder fitted.
Proof. split; unfold fitted; auto. Qed.

Lemma fitted_same c ev c' : _session c' = _session c -> fitted c ev c'.
Proof. unfold fitted. by intros ->. Qed.

Lemma fitted_ffi k c : along fitted (ffi k) c.
Proof.
  unfold along, ffi, run_state, run_events. destruct (_session c) as [ctx|] eqn:E; [|by apply fitted_same].
  pose proof (wired_invoke_abi (Some ctx) k) as H. destruct (invoke_abi _ _) as [[h r] ps].
  unfold fitted. rewrite E. exact H.
Qed.

Lemma fitted_destroy c : along fitted ffi_destroy c.
Proof.
  unfold along, ffi_destroy, run_state, run_events. destruct (_session c) as [ctx|] eqn:E; [|by apply fitted_same].
  unfold gopro_ble_destroy. destruct (on_session _ _) as [[??] ?]. by intros _ ?.
Qed.

Ltac fitted_atom :=
  first [ by apply fitted_same | apply fitted_ffi | apply fitted_destroy ].

Lemma fitted_then k (f : Z -> bool) c : along fitted (r <~ ffi k ;; ret (f r)) c.
Proof. along. apply fitted_ffi. Qed.

Lemma fitted_feed ch d now c : along fitted (ffi_feed ch d now) c.
Proof. unfold ffi_feed. along. apply fitted_ffi. Qed.

Lemma fitted_submit_once id (m : dart bool) c :
  (forall c, along fitted m c) -> along fitted (submit_once id m) c.
Proof.
  intros Hm. unfold submit_once, register, forget. along; try by apply fitted_same. apply Hm.
Qed.

Lemma fitted_send ch payload p now c : along fitted (send ch payload p now) c.
Proof.
  unfold send. along; [by apply fitted_same|]. destruct payload as [|b l]; along; [by apply fitted_same|].
  apply fitted_submit_once. intros c'. unfold ffi_submit. along. apply fitted_ffi.
Qed.

Lemma fitted_sendProtobuf f a m ch p now c : along fitted (sendProtobuf f a m ch p now) c.
Proof.
  unfold sendProtobuf. along; [by apply fitted_same|].
  apply fitted_submit_once. intros c'. unfold ffi_submitProtobuf. along. apply fitted_ffi.
Qed.

Lemma fitted_setState s c : along fitted (setState s) c.
Proof. unfold along, setState, run_state, run_events. case_bool_decide; by apply fitted_same. Qed.

Lemma fitted_faults c : along fitted faults_add c.
Proof. unfold along, faults_add, run_state, run_events. destruct (is_open faults c); by apply fitted_same. Qed.

Lemma fitted_resolve c : along fitted resolvePending c.
Proof. unfold resolvePending. along; by apply fitted_same. Qed.

Lemma fitted_link_calls c : along fitted link_calls c.
Proof. by apply fitted_same. Qed.

Ltac fitted_step :=
  first [ fitted_atom | apply fitted_feed | apply fitted_send | apply fitted_sendProtobuf
        | apply fitted_setState | apply fitted_faults | apply fitted_resolve | apply fitted_link_calls ].

Lemma fitted_attach a now c : along fitted (attach a now) c.
Proof.
  unfold attach, queryStatuses. along; try fitted_step; destruct (run_result _ _); along; fitted_step.
Qed.

Lemma fitted_close c : along fitted close c.
Proof. unfold close. along; try fitted_step. close_loops; fitted_step. Qed.

Lemma fitted_abandon c : along fitted abandon c.
Proof. unfold abandon. along; [fitted_step | apply fitted_close]. Qed.

Lemma fitted_close_step threw c : along fitted (close_step threw) c.
Proof. close_loops; fitted_step. Qed.

Lemma fitted_drop_detach c : along fitted drop_detach c.
Proof. unfold drop_detach. along. destruct (_subs c); along; fitted_step. Qed.

Lemma fitted_onDrop c : along fitted onDrop c.
Proof. unfold onDrop. along; first [apply fitted_close | apply fitted_drop_detach | fitted_step]. Qed.

Lemma fitted_drop_step r now c : along fitted (drop_step r now) c.
Proof.
  unfold drop_step. along. destruct (dropping c) as [[]|]; along; [| |].
  - apply fitted_drop_detach.
  - fitted_step.
  - destruct r as [[a|]|]; along; first [apply fitted_attach | apply fitted_abandon | fitted_step].
Qed.

Lemma fitted_event m c : along fitted (onEvent m) c.
Proof. unfold onEvent, forget. destruct (decode m) as [[]|]; along; fitted_step. Qed.

Lemma fitted_exec a c : along fitted (exec a) c.
Proof.
  destruct a; cbn [exec]; along; try first [fitted_step | apply fitted_onDrop | apply fitted_close
    | apply fitted_close_step | apply fitted_drop_step].
  destruct (_port c); along; [fitted_step | apply fitted_event].
Qed.

(** Every session the camera ever has is wired. *)
Lemma fitted_life p ka rt a now l :
  handle_wired (_session (run_state (life a now l) (new_camera p ka rt))).
Proof.
  assert (along fitted (life a now l) (new_camera p ka rt)) as H.
  { apply along_life; [apply _|apply fitted_attach|intros; by apply fitted_same|apply fitted_exec]. }
  apply H. cbn. intros ctx [= <-]. split; [done|]. cbn. unfold kMinAttPayload. lia.
Qed.

(** ** Draining the port *)

(** The event loop delivers everything that waits in the port. *)
Definition drain (c : Camera) : list action := replicate (length (_port c)) ADeliver.

Definition pending_after (m : bytes) (p : list (Z * completer)) : list (Z * completer) :=
  match decode m with Some (BleResponse id _ _) => dict_del id p | _ => p end.

Definition event_effects (ws : list Channel) (st : list Stream) (p : list (Z * completer)) (m : bytes) : list Effect :=
  match decode m with
  | None => []
  | Some (BleWriteRequest ch data) => if bool_decide (ch ∈ ws) then [GattWrite ch data] else []
  | Some (BleResponse id o data) => match dict_get id p with Some k => [Done k o data] | None => [] end
  | Some (BleReadyChanged b) => if bool_decide (readyChanges ∈ st) then [ReadyChanged b] else []
  | Some (BlePush ch m) => if bool_decide (pushes ∈ st) then [Pushed ch m] else []
  | Some (BleFrameErrorEvent _ _) => if bool_decide (faults ∈ st) then [Fault] else []
  end.

Fixpoint drained (ws : list Channel) (st : list Stream) (p : list (Z * completer)) (ms : list bytes)
    : list (Z * completer) * list Effect :=
  match ms with
  | [] => (p, [])
  | m :: ms =>
      let '(p', ev) := drained ws st (pending_after m p) ms in (p', event_effects ws st p m ++ ev)
  end.

Definition pending_only (c c' : Camera) : Prop :=
  _writes c' = _writes c /\ _streams c' = _streams c /\ _state c' = _state c /\ _session c' = _session c /\
  _subs c' = _subs c /\ _completers c' = _completers c /\ _events c' = _events c.

Lemma onEvent_eq m c :
  onEvent m c = (tt, set_pending (pending_after m (_pending c)) (_completers c) c,
                 event_effects (_writes c) (_streams c) (_pending c) m).
Proof.
  unfold onEvent, pending_after, event_effects.
  assert (c = set_pending (_pending c) (_completers c) c) as Hc by by destruct c.
  destruct (decode m) as [[ch d|id o d|b|ch d|ch x]|]; [..|by rewrite <- Hc];
    rewrite bind_gets; cbn; rewrite <- ?Hc; try done.
Qed.

Lemma drain_eq ms : forall c,
  _port c = ms ->
  let c' := run_state (exec_all (replicate (length ms) ADeliver)) c in
  _pending c' = (drained (_writes c) (_streams c) (_pending c) ms).1 /\ _port c' = [] /\ pending_only c c' /\
  run_events (exec_all (replicate (length ms) ADeliver)) c =
    (drained (_writes c) (_streams c) (_pending c) ms).2.
Proof.
  induction ms as [|m ms IH]; intros c Hp; cbv zeta.
  { split_and!; [done|exact Hp| |done]. by split_and!. }
  cbn [length replicate drained]. destruct (exec_all_cons ADeliver (replicate (length ms) ADeliver) c) as [-> ->].
  set (c1 := set_pending (pending_after m (_pending c)) (_completers c) (set_native (_session c) ms c)).
  assert (exec ADeliver c = (tt, c1, event_effects (_writes c) (_streams c) (_pending c) m)) as E.
  { cbn [exec]. rewrite bind_gets, Hp, bind_modify, onEvent_eq. done. }
  assert (run_state (exec ADeliver) c = c1) as -> by by unfold run_state; rewrite E.
  assert (run_events (exec ADeliver) c = event_effects (_writes c) (_streams c) (_pending c) m) as ->
    by by unfold run_events; rewrite E.
  destruct (IH c1 eq_refl) as (H1 & H2 & H3 & H4). unfold c1 in H1, H4 |- *.
  cbn [_writes _streams _pending set_pending set_native] in *.
  rewrite H4. destruct (drained _ _ (pending_after m _) ms) as [p' ev]. split_and!; [done|done| |done].
  exact H3.
Qed.

(** The packets written to one characteristic, and those requested in a port. *)
Definition gatt_on (ch : Channel) (ev : list Effect) : list bytes :=
  omap (fun e => match e with GattWrite c d => if c =? ch then Some d else None | _ => None end) ev.

Definition requests_on (ch : Channel) (port : list bytes) : list bytes :=
  omap (fun m => match decode m with
                 | Some (BleWriteRequest c d) => if c =? ch then Some d else None
                 | _ => None end) port.

Lemma gatt_on_app ch ev ev' : gatt_on ch (ev ++ ev') = gatt_on ch ev ++ gatt_on ch ev'.
Proof. apply omap_app. Qed.

Lemma requests_on_app ch p p' : requests_on ch (p ++ p') = requests_on ch p ++ requests_on ch p'.
Proof. apply omap_app. Qed.

(** What is requested of a characteristic that is there is written, in order. *)
Lemma drained_writes ch ws st ms : forall p,
  ch ∈ ws -> gatt_on ch (drained ws st p ms).2 = requests_on ch ms.
Proof.
  induction ms as [|m ms IH]; intros p Hch; [done|]. cbn [drained].
  specialize (IH (pending_after m p) Hch). destruct (drained ws st _ ms) as [p' ev]. cbn [snd] in *.
  rewrite gatt_on_app, IH. unfold event_effects. cbn.
  destruct (decode m) as [[c d|id o d|b|c d|c x]|]; try done.
  - case_bool_decide; cbn; [by destruct (c =? ch)|]. destruct (c =? ch) eqn:E; [|done]. to_prop. by subst.
  - by destruct (dict_get id p).
  - by case_bool_decide.
  - by case_bool_decide.
  - by case_bool_decide.
Qed.

(** Futures whose ids have no response in the port stay registered. *)
Lemma drained_kept ws st i ms : forall p,
  i ∉ in_port ms -> dict_get i (drained ws st p ms).1 = dict_get i p.
Proof.
  induction ms as [|m ms IH]; intros p Hi; [done|]. cbn [drained].
  assert (i ∉ in_port ms /\ dict_get i (pending_after m p) = dict_get i p) as [Hms Hm].
  { unfold in_port in Hi. cbn in Hi. unfold pending_after.
    destruct (decode m) as [[|id o d| | |]|]; try by split.
    apply not_elem_of_cons in Hi as [Hne Hms]. split; [done|]. rewrite dict_get_del.
    by rewrite bool_decide_eq_false_2. }
  specialize (IH (pending_after m p) Hms). destruct (drained ws st _ ms) as [p' ev]. cbn [fst] in *.
  by rewrite IH.
Qed.

Lemma drained_app ws st ms ms' : forall p,
  drained ws st p (ms ++ ms') =
    let '(p1, ev1) := drained ws st p ms in
    let '(p2, ev2) := drained ws st p1 ms' in (p2, ev1 ++ ev2).
Proof.
  induction ms as [|m ms IH]; intros p; cbn [drained app].
  - by destruct (drained ws st p ms').
  - rewrite IH. destruct (drained ws st _ ms) as [p1 ev1]. destruct (drained ws st p1 ms'). by rewrite app_assoc.
Qed.

(** A response that is the first of its id completes the future under that id. *)
Lemma drained_response ws st p pre m post i o d k :
  decode m = Some (BleResponse i o d) -> i ∉ in_port pre -> dict_get i p = Some k ->
  Done k o d ∈ (drained ws st p (pre ++ m :: post)).2.
Proof.
  intros Hm Hi Hk. rewrite drained_app. pose proof (drained_kept ws st i pre p Hi) as Hd.
  destruct (drained ws st p pre) as [p1 ev1]. cbn [fst drained] in *.
  destruct (drained ws st (pending_after m p1) post) as [p2 ev2]. cbn [snd].
  unfold event_effects. rewrite Hm, Hd, Hk. rewrite !elem_of_app. right. left. apply elem_of_cons. by left.
Qed.

(** ** Sending *)

(** A command that goes out as soon as it is submitted. *)
Definition sendable {C} (q : CommandQueue C) (p : Priority) : Prop :=
  p <> kQueued \/ (CommandQueue.ready q = true /\ existsb is_queued (in_flight_ q) = false).

Lemma submit_sendable {C} (q : CommandQueue C) i data p d now :
  queue_ok q -> work_conserving q -> is_duplicate q i = false -> sendable q p ->
  CommandQueue.submit q i data p d now =
    (mkCommandQueue (opts_ q) (ready_ q) (pending_ q)
       (in_flight_ q ++ [mkEntry i data p d now now]), true, [Written i data]).
Proof.
  intros Hq Hw Hd Hs. destruct (decide (p = kQueued)) as [->|Hp]; [|by apply submit_ungated].
  destruct Hs as [Hs|[Hr Hi]]; [done|].
  assert (pending_ q = []) as Hnil.
  { destruct (pending_ q) eqn:E; [done|]. destruct (waiting_are_queued q Hq Hw) as [_ [H|H]];
      [by rewrite E|unfold CommandQueue.ready in Hr; congruence|congruence]. }
  unfold CommandQueue.submit. rewrite Hd. set (e := mkEntry i data kQueued d now 0).
  rewrite (pump_single (enqueue_entry q e) e [] [] now).
  - unfold sent_one, enqueue_entry. cbn. by rewrite Hnil.
  - cbn. by rewrite Hnil.
  - apply can_send_spec. split; cbn.
    + apply is_duplicate_false in Hd. intros Hin. apply Hd. rewrite fmap_app, elem_of_app. by left.
    + intros _. split; [exact Hr|]. by apply Forall_existsb.
  - constructor.
Qed.

Lemma command_channel ch b : channel_ok ch -> byte_ok b -> channel_of_correlation (correlation_of ch b) = ch.
Proof.
  intros Hc Hb. rewrite correlation_of_sum by done. apply channel_of_narrow; [|done].
  unfold channel_ok, kChannelCount in Hc. lia.
Qed.

(** A session submits a sendable command: its packets, and nothing else. *)
Lemma session_submit s ch b l p now :
  session_ok s -> wired s -> channel_ok ch -> byte_ok b ->
  is_duplicate (queue_ s) (correlation_of ch b) = false -> sendable (queue_ s) p ->
  exists s', submit ch (b :: l) p now s =
      (true, s', SWrite ch <$> fragment (b :: l) (att_payload (cfg_ s))) /\
    is_in_flight (queue_ s') (correlation_of ch b) = true.
Proof.
  intros Hs [Hh Ha] Hc Hb Hd Hp. destruct (sok_queue s Hs) as (Hq & Hw & _). unfold submit, enqueue.
  rewrite (submit_sendable _ _ _ _ _ _ Hq Hw Hd Hp). eexists. split.
  - unfold queue_events. cbn. unfold write_packets. rewrite Hh, app_nil_r, (command_channel ch b Hc Hb). done.
  - apply is_in_flight_spec. cbn. rewrite fmap_app, elem_of_app. right. by left.
Qed.

Lemma to_u8_bytes l : bytes_ok l -> BleTransport.to_u8 <$> l = l.
Proof. induction 1 as [|b l Hb Hl IH]; [done|]. cbn. by rewrite IH, to_u8_byte. Qed.

Lemma abi_submit ctx ch b l p now s' ev :
  channel_ok ch -> submit ch (b :: l) p now (session ctx) = (true, s', ev) ->
  invoke_abi (Some ctx) (ASubmit ch (Some (b :: l)) (Z.of_nat (length (b :: l))) (Priority_val p) now) =
    (Some (mkBleContext (events_port ctx) s'), 1, (fun e => (events_port ctx, encode_event e)) <$> ev).
Proof.
  intros Hch Hsub. destruct (channel_byte ch Hch) as [_ Hlt]. destruct (priority_byte p) as (_ & _ & Hcast).
  cbn [invoke_abi]. unfold gopro_ble_submit, bad_channel_or_priority. cbn [is_null orb].
  assert ((Z.of_nat (length (b :: l)) <=? 0) = false) as -> by done.
  change (Z.of_nat kChannelCount) with 4. rewrite (Z.leb_antisym ch 4), Hlt. change (Priority_val kKeepAlive) with 2.
  assert ((2 <? Priority_val p) = false) as -> by by destruct p.
  cbn [negb orb]. rewrite Hcast.
  assert (span (Some (b :: l)) (Z.of_nat (length (b :: l))) = b :: l) as ->.
  { unfold span. rewrite Nat2Z.id. by apply take_ge. }
  unfold on_session. by rewrite Hsub.
Qed.

(** [send] over the ABI: the future is registered, and the command's packets are
    posted as write requests. *)
Lemma send_posts c ctx ch b l pr now :
  _state c = up -> paired c ctx -> wired (session ctx) -> channel_ok ch -> bytes_ok (b :: l) ->
  correlationOf ch b ∉ (_pending c).*1 -> correlationOf ch b <> keep_alive_id ->
  sendable (queue_ (session ctx)) (default (default_priority ch) pr) ->
  exists ctx', exec (ASend ch (b :: l) pr now) c =
      (tt, set_native (Some ctx')
             (_port c ++ (encode_event <$> (SWrite ch <$> fragment (b :: l) (att_payload (cfg_ (session ctx))))))
             (set_pending (_pending c ++ [(correlationOf ch b, _completers c)]) (S (_completers c)) c),
       [Returned (_completers c) (correlationOf ch b)]) /\
    is_in_flight (queue_ (session ctx')) (correlationOf ch b) = true.
Proof.
  intros Hup Hpair Hw Hch Hok Hn Hka Hs. pose proof (paired_fresh c ctx _ Hpair Hn Hka) as Hd.
  apply Forall_cons in Hok as Hb. destruct Hb as [Hb _].
  destruct Hpair as [Es [Hses _] He _ _].
  destruct (session_submit (session ctx) ch b l _ now Hses Hw Hch Hb Hd Hs) as (s' & Hsub & Hin).
  exists (mkBleContext (events_port ctx) s'). split; [|exact Hin]. cbn [exec].
  transitivity ((fun r => (tt, r.1.2, r.2)) (send ch (b :: l) pr now c)).
  { unfold bind, ret. destruct (send _ _ _ _ c) as [[??] ?]. cbn. by rewrite app_nil_r. }
  rewrite send_up, to_u8_bytes by done. unfold submit_once, submission.
  rewrite bind_gets. unfold dict_has. rewrite bool_decide_eq_false_2 by done.
  unfold bind, register. rewrite dict_put_fresh by done. unfold ffi. cbn [_session set_pending]. rewrite Es.
  rewrite (abi_submit _ _ _ _ _ _ _ _ Hch Hsub). cbn [fst snd set_pending _events _port]. rewrite He. cbn.
  by rewrite <- list_fmap_compose.
Qed.

(** ** Answering *)

(** The camera's packets, as the notifications of one characteristic. *)
Definition notes (ch : Channel) (ps : list bytes) (now : Z) : list action :=
  (fun p => ANotify ch p now) <$> ps.

Lemma abi_feed ctx ch p now :
  channel_ok ch -> abi (Some ctx) (AFeed ch (Some p) (Z.of_nat (length p)) now) =
    (Some (mkBleContext (events_port ctx) (run_state (feed ch p now) (session ctx))),
     (fun e => (events_port ctx, encode_event e)) <$> run_events (feed ch p now) (session ctx)).
Proof.
  intros Hch. destruct (channel_byte ch Hch) as [_ Hlt]. cbn [abi gopro_ble_feed is_null andb].
  assert ((Z.of_nat (length p) <? 0) = false) as -> by (apply Z.ltb_ge; lia). cbn [orb].
  change (Z.of_nat kChannelCount) with 4. rewrite (Z.leb_antisym ch 4), Hlt. cbn [negb].
  assert (span (Some p) (Z.of_nat (length p)) = p) as -> by (unfold span; rewrite Nat2Z.id; by apply take_ge).
  unfold on_session, run_state, run_events. by destruct (feed ch p now (session ctx)) as [[[] ?] ?].
Qed.

Lemma notify_one c ctx ch p now :
  _session c = Some ctx -> _events c = true -> ch ∈ _subs c -> channel_ok ch -> bytes_ok p -> p <> [] ->
  exec (ANotify ch p now) c =
    (tt, set_native (Some (mkBleContext (events_port ctx) (run_state (feed ch p now) (session ctx))))
           (_port c ++ (encode_event <$> run_events (feed ch p now) (session ctx))) c, []).
Proof.
  intros Es He Hsub Hch Hok Hne. cbn [exec]. rewrite bind_gets, bool_decide_eq_true_2 by done.
  unfold when, ffi_feed. rewrite bool_decide_eq_false_2, to_u8_bytes by done.
  unfold bind, ffi. rewrite Es. cbn [invoke_abi]. rewrite abi_feed by done. cbn [ret]. rewrite He.
  by rewrite <- list_fmap_compose.
Qed.

Lemma notify_all ch ps now : channel_ok ch -> forall c ctx,
  _session c = Some ctx -> _events c = true -> ch ∈ _subs c ->
  Forall bytes_ok ps -> Forall (fun p => p <> []) ps ->
  exec_all (notes ch ps now) c =
    (tt, set_native (Some (mkBleContext (events_port ctx) (run_state (feeds ch ps now) (session ctx))))
           (_port c ++ (encode_event <$> run_events (feeds ch ps now) (session ctx))) c, []).
Proof.
  intros Hch. induction ps as [|p ps IH]; intros c ctx Es He Hsub Hok Hne.
  { cbn. rewrite app_nil_r. unfold run_state. cbn. destruct ctx, c. cbn in Es. by subst. }
  apply Forall_cons in Hok as [Hp Hok]. apply Forall_cons in Hne as [Hpn Hne].
  cbn [notes fmap list_fmap exec_all]. fold (notes ch ps now). unfold bind at 1.
  rewrite (notify_one c ctx) by done. rewrite (IH _ (mkBleContext (events_port ctx)
    (run_state (feed ch p now) (session ctx)))) by done. cbn [feeds session events_port].
  destruct (run_bind (feed ch p now) (fun _ => feeds ch ps now) (session ctx)) as (_ & -> & ->).
  rewrite fmap_app, app_assoc. done.
Qed.

(** The packets of a well-framed message are not empty. *)
Lemma well_framed_packets m ps : well_framed m ps -> Forall (fun p => p <> []) ps.
Proof.
  intros (h & conts & pl & -> & Hh & Hc & _). constructor; [by intros ->|].
  eapply Forall_impl; [exact Hc|]. by intros p [pl' Hp] ->.
Qed.

(** Response callbacks with other ids, and others, do not look like a response
    with this id once posted. *)
Lemma no_response_posted i ev :
  Forall event_ok ev -> i ∉ (fun r => r.1.1) <$> responses ev -> i ∉ in_port (encode_event <$> ev).
Proof.
  intros Hok Hi. intros Hin. apply Hi. rewrite <- (answered_posts 0) by done.
  rewrite <- in_port_answered, <- list_fmap_compose. exact Hin.
Qed.

Lemma responses_split i o d : forall ev,
  responses ev = [(i, o, d)] -> exists ev1 ev2, ev = ev1 ++ SResponse i o d :: ev2 /\ responses ev1 = [].
Proof.
  induction ev as [|e ev IH]; [done|]. unfold responses. cbn. destruct e; cbn; intros H;
    try (destruct (IH H) as (ev1 & ev2 & -> & H1); eexists (_ :: ev1), ev2; by split).
  injection H as -> -> -> H. by exists [], ev.
Qed.

(** A reply that reaches the session is the response of its command. *)
Lemma reply_posts s ch m ps now id :
  session_ok s -> wired s -> channel_ok ch -> Forall bytes_ok ps -> well_framed m ps ->
  message_id s ch m = id -> is_in_flight (queue_ s) id = true ->
  let ev := run_events (feeds ch ps now) s in
  Forall event_ok ev /\ responses ev = [(id, kResponded, m)].
Proof.
  intros Hs [Hh _] Hch Hok Hw Hid Hin. cbv zeta. split.
  - assert (feeds ch ps now s = api_all ((fun p => Feed ch p now) <$> ps) s) as E.
    { generalize s. clear. induction ps as [|p ps IH]; intros s; [done|].
      cbn [feeds fmap list_fmap api_all api]. unfold bind. destruct (feed ch p now s) as [[[] s'] ev]. by rewrite IH. }
    unfold run_events. rewrite E. apply api_all_events_ok; [|done].
    apply Forall_fmap. eapply Forall_impl; [exact Hok|]. intros p Hp. done.
  - unfold run_events. rewrite (feed_message s ch m ps now (sok_rx_length s Hs) Hch Hok Hw).
    assert (session_ok (with_rx s ch Reassembler_init)) as Hs'.
    { destruct Hs as [H1 H2 H3 H4]. split; try done; [by rewrite length_with_rx|].
      apply Forall_insert; [done | apply reassembler_ok_init]. }
    pose proof (deliver_exclusive (with_rx s ch Reassembler_init) ch m now Hs') as Hd.
    assert (message_id (with_rx s ch Reassembler_init) ch m = id) as Hid' by by rewrite <- Hid.
    cbv zeta in Hd. rewrite Hid' in Hd. cbn [handlers with_rx set_rx queue_] in Hd. rewrite Hh in Hd.
    specialize (Hd eq_refl eq_refl). rewrite Hin in Hd. apply Hd.
Qed.

(** A command whose future is registered and which waits for its reply. *)
Definition awaits (c : Camera) (id : Z) (k : completer) : Prop :=
  _state c = up /\ (id, k) ∈ _pending c /\
  exists ctx, _session c = Some ctx /\ is_in_flight (queue_ (session ctx)) id = true.

Lemma reply_settles c ctx id k ch m ps now :
  paired c ctx -> wired (session ctx) -> awaits c id k -> id <> keep_alive_id ->
  ch ∈ _subs c -> channel_ok ch -> Forall bytes_ok ps -> well_framed m ps ->
  message_id (session ctx) ch m = id ->
  let c' := run_state (exec_all (notes ch ps now)) c in
  Done k kResponded m ∈ run_events (exec_all (drain c')) c'.
Proof.
  intros Hpair Hw (Hup & Hk & ctx' & Es' & Hin) Hka Hsub Hch Hok Hwf Hid.
  destruct Hpair as [Es [Hses Hresp] He Hkeys Hids]. rewrite Es in Es'. injection Es' as <-.
  destruct (reply_posts (session ctx) ch m ps now id Hses Hw Hch Hok Hwf Hid Hin) as [Hev Hr].
  pose proof (notify_all ch ps now Hch c ctx Es He Hsub Hok (well_framed_packets m ps Hwf)) as Hn.
  set (ev := run_events (feeds ch ps now) (session ctx)) in *.
  cbv zeta. unfold run_state. rewrite Hn. cbn [fst snd].
  match goal with |- _ ∈ run_events (exec_all (drain ?c1)) _ => set (c' := c1) end.
  destruct (drain_eq (_port c') c' eq_refl) as (_ & _ & _ & E). unfold drain. rewrite E. clear E.
  destruct (responses_split _ _ _ ev Hr) as (ev1 & ev2 & Eev & Hr1). rewrite Eev in Hev.
  apply Forall_app in Hev as [Hev1 Hev2]. apply Forall_cons in Hev2 as [Hev2 _].
  cbn [c' set_native _port _writes _streams _pending]. rewrite Eev, fmap_app, fmap_cons, app_assoc.
  apply drained_response with (i := id).
  - by apply (decode_encode (SResponse id kResponded m)).
  - rewrite in_port_app, not_elem_of_app. split; [|apply no_response_posted; [done|]; rewrite Hr1; by intros ?%not_elem_of_nil].
    assert (NoDup (not_keep_alive ((CommandQueue.id <$> outstanding (session ctx)) ++ in_port (_port c)))) as Hnd.
    { rewrite Hids. eapply sublist_NoDup; [exact Hkeys|]. apply lfilter_sublist. }
    intros Hp. rewrite not_keep_alive_app in Hnd. apply NoDup_app in Hnd as (_ & Hnd & _).
    apply (Hnd id); apply elem_of_not_keep_alive; split; try done.
    apply is_in_flight_spec in Hin. unfold outstanding. rewrite fmap_app, elem_of_app. by left.
  - by apply dict_get_elem.
Qed.

(** A reply to a plain command: it starts with the command's byte, and no
    two-byte command waits under an id that it would fit too. *)
Definition plain_reply (c : Camera) (ch : Channel) (b : byte) (m : bytes) : Prop :=
  exists m', m = b :: m' /\
    forall ctx, _session c = Some ctx ->
      is_in_flight (queue_ (session ctx)) (protobuf_correlation_of_message ch m) = false.

Lemma plain_reply_id c ctx ch b m :
  plain_reply c ch b m -> _session c = Some ctx -> message_id (session ctx) ch m = correlationOf ch b.
Proof.
  intros (m' & -> & Hw) Es. specialize (Hw ctx Es). unfold message_id. destruct (_ <=? _)%nat; [|done].
  by rewrite Hw.
Qed.

(** A camera drains what [send] posted. *)
Lemma sent_drained c ctx ch b l pr now ctx' att :
  paired c ctx -> ch ∈ _writes c -> channel_ok ch -> correlationOf ch b ∉ (_pending c).*1 ->
  _state c = up -> correlationOf ch b <> keep_alive_id ->
  is_in_flight (queue_ (session ctx')) (correlationOf ch b) = true ->
  bytes_ok (b :: l) ->
  exec (ASend ch (b :: l) pr now) c =
    (tt, set_native (Some ctx') (_port c ++ (encode_event <$> (SWrite ch <$> fragment (b :: l) att)))
           (set_pending (_pending c ++ [(correlationOf ch b, _completers c)]) (S (_completers c)) c),
     [Returned (_completers c) (correlationOf ch b)]) ->
  let c1 := run_state (exec (ASend ch (b :: l) pr now)) c in
  let c2 := run_state (exec_all (drain c1)) c1 in
  gatt_on ch (run_events (exec_all (drain c1)) c1) = requests_on ch (_port c) ++ fragment (b :: l) att /\
  awaits c2 (correlationOf ch b) (_completers c).
Proof.
  intros Hpair Hws Hch Hn Hup Hka Hin Hok E. cbv zeta.
  match type of E with _ = (_, ?x, _) => set (c1 := x) in * end.
  assert (run_state (exec (ASend ch (b :: l) pr now)) c = c1) as -> by (unfold run_state; by rewrite E).
  assert (forall fs, requests_on ch (encode_event <$> (SWrite ch <$> fs)) = fs /\
                     in_port (encode_event <$> (SWrite ch <$> fs)) = []) as Hreq.
  { induction fs as [|f fs [IH1 IH2]]; [done|]. cbn [fmap list_fmap]. unfold requests_on, in_port. cbn [omap list_omap].
    rewrite (decode_encode (SWrite ch f)) by done. cbn [seen]. rewrite Z.eqb_refl. by split; [f_equal|]. }
  destruct (drain_eq (_port c1) c1 eq_refl) as (H1 & _ & (_ & _ & H4 & H5 & _) & Hev). unfold drain. rewrite Hev.
  destruct (Hreq (fragment (b :: l) att)) as [Hr1 Hr2]. split.
  - rewrite drained_writes by exact Hws. cbn [c1 set_native _port]. by rewrite requests_on_app, Hr1.
  - split; [by rewrite H4|]. split; [|exists ctx'; by rewrite H5].
    rewrite H1. cbn [c1 set_native set_pending _pending _writes _streams].
    match goal with |- _ ∈ ?p => assert (dict_get (correlationOf ch b) p = Some (_completers c)) as Hd end.
    { rewrite drained_kept.
      - rewrite <- dict_put_fresh by done. rewrite dict_get_put. by rewrite bool_decide_eq_true_2.
      - cbn [c1 set_native _port]. rewrite in_port_app, Hr2, app_nil_r. intros Hp. apply Hn.
        apply (elem_of_not_keep_alive (correlationOf ch b)). rewrite <- (paired_ids c ctx Hpair).
        apply elem_of_not_keep_alive. split; [|done]. apply elem_of_app. by right. }
    by apply dict_get_Some.
Qed.

(** Any receiver gets a fragmented command. *)
Lemma receive_fragment data att r :
  bytes_ok data -> data <> [] -> (length data <= kMaxMessageLen)%nat -> (kMinAttPayload <= att)%nat ->
  receive_all r (fragment data att) = (Reassembler_init, [data]).
Proof.
  intros Hok Hne Hlen Hatt. apply accepts_receive_all, well_framed_accepted; [by apply fragment_bytes_ok|].
  apply fragment_well_framed; [done..|]. rewrite length_first_hdr. unfold kMinAttPayload in Hatt.
  destruct (_ <? _); lia.
Qed.

(** What follows for a camera with a history. *)
Lemma round_trip c p ka rt a now l ch b data pr t l' reply ps t' :
  Forall action_typed (l ++ l') -> channel_ok ch -> bytes_ok (b :: data) ->
  (length (b :: data) <= kMaxMessageLen)%nat ->
  c = run_state (life a now l) (new_camera p ka rt) ->
  let id := correlationOf ch b in
  let k := _completers c in
  _state c = up -> ch ∈ _writes c -> id ∉ (_pending c).*1 -> id <> keep_alive_id ->
  (forall ctx, _session c = Some ctx ->
     sendable (queue_ (session ctx)) (default (default_priority ch) pr)) ->
  let c1 := run_state (exec (ASend ch (b :: data) pr t)) c in
  let c2 := run_state (exec_all (drain c1)) c1 in
  run_events (exec (ASend ch (b :: data) pr t)) c = [Returned k id] /\
  (forall r, exists earlier,
     receive_all r (gatt_on ch (run_events (exec_all (drain c1)) c1)) =
       (Reassembler_init, earlier ++ [b :: data])) /\
  awaits c2 id k /\
  let c3 := run_state (exec_all l') c2 in
  (awaits c3 id k -> ch ∈ _subs c3 -> plain_reply c3 ch b reply -> Forall bytes_ok ps -> well_framed reply ps ->
   let c4 := run_state (exec_all (notes ch ps t')) c3 in
   Done k kResponded reply ∈ run_events (exec_all (drain c4)) c4).
Proof.
  cbv zeta. intros Hty Hch Hok Hlen -> Hup Hws Hn Hka Hs. apply Forall_app in Hty as [Hty Hty'].
  set (c := run_state (life a now l) (new_camera p ka rt)) in *.
  destruct (matched_life p ka rt a now l Hty Hup) as [ctx Hpair]. fold c in Hpair.
  pose proof (fitted_life p ka rt a now l) as Hfit. fold c in Hfit.
  pose proof (Hfit ctx (paired_session c ctx Hpair)) as Hw.
  destruct (send_posts c ctx ch b data pr t Hup Hpair Hw Hch Hok Hn Hka (Hs ctx (paired_session c ctx Hpair)))
    as (ctx1 & E & Hin).
  destruct (sent_drained c ctx ch b data pr t ctx1 _ Hpair Hws Hch Hn Hup Hka Hin Hok E) as [Hg Haw].
  set (c1 := run_state (exec (ASend ch (b :: data) pr t)) c) in *.
  split; [by unfold run_events; rewrite E|]. split; [|split; [exact Haw|]].
  - intros r. rewrite Hg. exists (receive_all r (requests_on ch (_port c))).2.
    destruct (receive_all_app r (requests_on ch (_port c)) (fragment (b :: data) (att_payload (cfg_ (session ctx)))))
      as [H1 H2].
    rewrite (surjective_pairing (receive_all r (_ ++ _))), H1, H2, receive_fragment; try done. apply Hw.
  - intros Haw3 Hsub Hr Hps Hwf.
    pose (l3 := ASend ch (b :: data) pr t :: drain c1 ++ l').
    assert (run_state (exec_all l') (run_state (exec_all (drain c1)) c1) =
            run_state (life a now (l ++ l3)) (new_camera p ka rt)) as E3.
    { rewrite life_state. destruct (exec_all_app l l3 (run_state (connect a now) (new_camera p ka rt))) as [-> _].
      rewrite <- life_state. fold c. unfold l3.
      destruct (exec_all_cons (ASend ch (b :: data) pr t) (drain c1 ++ l') c) as [-> _]. fold c1.
      by destruct (exec_all_app (drain c1) l' c1) as [-> _]. }
    rewrite E3 in *. set (c3 := run_state (life a now (l ++ l3)) (new_camera p ka rt)) in *.
    assert (Forall action_typed (l ++ l3)) as Hty3.
    { apply Forall_app. split; [done|]. constructor; [split; [done | by apply Forall_cons in Hok as [? _]]|].
      apply Forall_app. split; [|done]. unfold drain. by apply Forall_replicate. }
    destruct (matched_life p ka rt a now (l ++ l3) Hty3 (proj1 Haw3)) as [ctx3 Hpair3]. fold c3 in Hpair3.
    apply (reply_settles c3 ctx3 (correlationOf ch b)); try done.
    + apply (fitted_life p ka rt a now (l ++ l3)). apply (paired_session c3 ctx3 Hpair3).
    + eapply plain_reply_id; [exact Hr|]. apply (paired_session c3 ctx3 Hpair3).
Qed.

(** ** Properties *)

(** C8: the round trip of a command.  After any history that leaves the link up,
    [send] of a plain command that may go out returns a future at once; draining
    the port writes to the command's characteristic packets from which any
    receiver, whatever it was doing, reassembles exactly the command, last; and
    then the command awaits its reply.  Whatever else happens meanwhile, as long
    as it still awaits it, the notifications of any well-framed reply, drained,
    complete that future with exactly the reply. *)
Theorem command_round_trip p ka rt a now l ch b data pr t l' reply ps t' :
  Forall action_typed (l ++ l') -> channel_ok ch -> bytes_ok (b :: data) ->
  (length (b :: data) <= kMaxMessageLen)%nat ->
  let c := run_state (life a now l) (new_camera p ka rt) in
  let id := correlationOf ch b in
  let k := _completers c in
  _state c = up -> ch ∈ _writes c -> id ∉ (_pending c).*1 -> id <> keep_alive_id ->
  (forall ctx, _session c = Some ctx ->
     sendable (queue_ (session ctx)) (default (default_priority ch) pr)) ->
  let c1 := run_state (exec (ASend ch (b :: data) pr t)) c in
  let c2 := run_state (exec_all (drain c1)) c1 in
  run_events (exec (ASend ch (b :: data) pr t)) c = [Returned k id] /\
  (forall r, exists earlier,
     receive_all r (gatt_on ch (run_events (exec_all (drain c1)) c1)) =
       (Reassembler_init, earlier ++ [b :: data])) /\
  awaits c2 id k /\
  let c3 := run_state (exec_all l') c2 in
  (awaits c3 id k -> ch ∈ _subs c3 -> plain_reply c3 ch b reply -> Forall bytes_ok ps -> well_framed reply ps ->
   let c4 := run_state (exec_all (notes ch ps t')) c3 in
   Done k kResponded reply ∈ run_events (exec_all (drain c4)) c4).
Proof. cbv zeta. intros. by apply (round_trip _ p ka rt a now l). Qed.

(** A camera with the smallest MTU; its statuses have opened the gate, an
    ordinary command is in flight. *)
Definition small_mtu : Attached := mkAttached [0; 1; 2; 3] [(0, 23); (1, 23); (2, 23); (3, 23)].

(** The other command is answered and the timer ticks. *)
Definition meanwhile : list action := [ANotify 0 [2; 1; 0] 50; ATimer 60 true; ADeliver].

Lemma meanwhile_typed : Forall action_typed meanwhile.
Proof.
  unfold meanwhile. repeat apply Forall_cons_2; try apply Forall_nil_2; cbn;
    unfold channel_ok, kChannelCount; try lia; done.
Qed.

Abbreviation asked := (run_state (life small_mtu 0 demo_life) (new_camera 7 0 300)).
Abbreviation sent := (run_state (exec (ASend 2 (83 :: repeat 7 30) None 40)) asked).

Definition reply_packets : list bytes := [[64; 0; 3]; [128; 83]; [129; 0; 5]].

Lemma asked_is :
  _state asked = up /\ _writes asked = [0; 1; 2; 3] /\ (_pending asked).*1 = [531; 1].
Proof. vm_compute. done. Qed.

Abbreviation waiting := (run_state (exec_all meanwhile) (run_state (exec_all (drain sent)) sent)).

Lemma waiting_is :
  _state waiting = up /\ _pending waiting = [(595, 2%nat)] /\ _subs waiting = [0; 1; 2; 3] /\
  match _session waiting with
  | Some ctx => is_in_flight (queue_ (session ctx)) 595 &&
      negb (is_in_flight (queue_ (session ctx)) (protobuf_correlation_of_message 2 [83; 0; 5]))
  | None => false
  end = true.
Proof. vm_compute. done. Qed.

Lemma command_round_trip_witness :
  run_events (exec (ASend 2 (83 :: repeat 7 30) None 40)) asked = [Returned 2 595] /\
  let c4 := run_state (exec_all (notes 2 reply_packets 70)) waiting in
  Done 2 kResponded [83; 0; 5] ∈ run_events (exec_all (drain c4)) c4.
Proof.
  destruct asked_is as (H1 & H2 & H3). destruct waiting_is as (H4 & H5 & H6 & H7).
  destruct (_session waiting) as [ctx|] eqn:Es; [|done]. apply andb_true_iff in H7 as [H7 H8].
  apply negb_true_iff in H8.
  assert (_completers asked = 2%nat) as Hk by (vm_compute; done).
  destruct (command_round_trip 7 0 300 small_mtu 0 demo_life 2 83 (repeat 7 30) None 40 meanwhile [83; 0; 5]
    reply_packets 70) as (Hret & _ & _ & Hdone).
  - apply Forall_app. split; [apply demo_life_typed | apply meanwhile_typed].
  - clear. unfold channel_ok, kChannelCount. lia.
  - clear. repeat constructor; unfold byte_ok; lia.
  - clear. apply Nat.leb_le. vm_compute. done.
  - exact H1.
  - rewrite H2. clear. set_solver.
  - rewrite H3. clear. change (correlationOf 2 83) with 595. set_solver.
  - by clear.
  - clear. intros ctx' _. by left.
  - rewrite Hk in Hret, Hdone. split; [exact Hret|]. apply Hdone.
    + split; [exact H4|]. split; [rewrite H5; left|]. exists ctx. split; [exact Es | exact H7].
    + rewrite H6. clear. set_solver.
    + exists [0; 5]. split; [by clear|]. intros ctx' Hc. rewrite Es in Hc. injection Hc as <-. exact H8.
    + clear. repeat constructor; unfold byte_ok; lia.
    + clear. exists [64; 0; 3], [[128; 83]; [129; 0; 5]], []. split_and!; try done.
      * repeat constructor; by eexists.
      * intros i Hi. destruct i as [|[|i]]; cbn in *; lia.
Defined.
