(* ===== verification/BleReplies.v ===== *)
(** * Replies fit their commands

    What completes a future of the Dart camera is a message that was reassembled
    from notifications and whose leading bytes are those the command's id stands
    for.  Proved along the whole path: the queue, the session, the C ABI, the port
    and the turns of the event loop.  The protobuf clients of [lib/src/] rely on
    it when they strip the two leading bytes of a reply. *)

From S2P Require Import Prelude BleProtocol QueryParser CommandQueue BleSession BleBridge BleTransport BleStack.
Local Open Scope Z_scope.
Open Scope act_scope.

(** A message that was received, and an id it may be delivered under. *)
Definition fits (id : Z) (m : bytes) : Prop :=
  bytes_ok m /\ m <> [] /\ exists ch, channel_ok ch /\
    (id = correlation_of_message ch m \/
     ((2 <= length m)%nat /\ id = protobuf_correlation_of_message ch m)).

(** The leading bytes of a message. *)
Definition begins (p m : bytes) : Prop := exists rest, m = p ++ rest.

Lemma message_id_fits s ch m : channel_ok ch -> bytes_ok m -> m <> [] -> fits (message_id s ch m) m.
Proof.
  intros Hch Hok Hne. split; [done|]. split; [done|]. exists ch. split; [done|]. unfold message_id.
  destruct (2 <=? length m)%nat eqn:E; [|by left].
  destruct (is_in_flight _ _); [right; by to_prop | by left].
Qed.

Lemma fits_narrow ch b m : channel_ok ch -> byte_ok b -> fits (correlation_of ch b) m -> exists rest, m = b :: rest.
Proof.
  intros Hch Hb (Hok & Hne & c & Hc & H). unfold channel_ok, kChannelCount in *.
  destruct m as [|x m]; [done|]. apply Forall_cons in Hok as [Hx Hok]. exists m. f_equal.
  rewrite correlation_of_sum in H by done. unfold byte_ok in *. destruct H as [H|[Hl H]].
  - cbn [correlation_of_message] in H. rewrite correlation_of_sum in H by done. lia.
  - destruct m as [|y m]; [cbn in Hl; lia|]. apply Forall_cons in Hok as [Hy _].
    unfold protobuf_correlation_of_message in H. cbn [nth] in H.
    rewrite wide_sum in H by (done || lia). lia.
Qed.

Lemma fits_protobuf ch f a m :
  channel_ok ch -> byte_ok f -> byte_ok a -> fits (correlation_of_protobuf ch f a) m ->
  exists rest, m = f :: protobuf_response_action a :: rest.
Proof.
  intros Hch Hf Ha (Hok & Hne & c & Hc & H). unfold channel_ok, kChannelCount in *.
  rewrite correlation_of_protobuf_sum in H by (done || lia). destruct m as [|x m]; [done|].
  apply Forall_cons in Hok as [Hx Hok]. destruct H as [H|[Hl H]].
  - cbn [correlation_of_message] in H. rewrite correlation_of_sum in H by done. unfold byte_ok in *. lia.
  - destruct m as [|y m]; [cbn in Hl; lia|]. apply Forall_cons in Hok as [Hy _].
    unfold protobuf_correlation_of_message in H. cbn [nth] in H. rewrite wide_sum in H by (done || lia).
    exists m. rewrite protobuf_response_action_sum by done. unfold byte_ok in *. f_equal; [lia|]. f_equal. lia.
Qed.

(** What is received is not empty. *)
Lemma receive_nonempty r p m :
  bytes_ok p -> reassembler_ok r -> (receive r p).2 = Some m -> m <> [].
Proof.
  intros Hp (_ & _ & _ & Hprog). unfold receive. rewrite feed_by_view by done.
  assert (forall r' pl, 0 < remaining_ r' -> (let '(r1, x) := absorb r' pl in
      match x with kComplete => let '(r2, m) := take r1 in (r2, Some m) | _ => (r1, None) end).2 = Some m -> m <> [])
    as Ha.
  { intros r' pl Hr. pose proof (absorb_result r' pl) as H. destruct (absorb r' pl) as [r1 x]. cbn [fst snd] in H.
    destruct x; try done. destruct H as [-> Hl]. cbn. intros [= <-] Hnil.
    apply app_eq_nil in Hnil as [_ ->]. cbn in Hl. lia. }
  destruct (view p) as [|pl| | |d pl] eqn:Ev; cbn [feed_spec]; try done.
  - destruct (in_progress_ r); [|done]. by apply Ha.
  - destruct (d =? 0) eqn:E; [done|]. apply Ha. cbn. to_prop.
    pose proof (view_declared_range p d pl Hp Ev) as [? _]. lia.
Qed.

(** *** In the queue and the session *)

(** A completion that is not a response. *)
Definition unanswered {C} (e : QEvent C) : Prop :=
  match e with Completed _ o _ => o <> kResponded | Written _ _ => True end.

Lemma unanswered_pump {C} (q : CommandQueue C) now : Forall unanswered (pump q now).2.
Proof. destruct (pump_pumped q now) as [sent [_ _ _ -> _ _]]. apply Forall_fmap. by apply Forall_true. Qed.

Lemma unanswered_all {C} o (l : list (Entry C)) : o <> kResponded -> Forall unanswered (complete_all o l).
Proof.
  intros Ho. unfold complete_all. apply Forall_concat, Forall_fmap, Forall_true. intros e.
  unfold compose, invoke. destruct (done e); repeat constructor. exact Ho.
Qed.

Lemma unanswered_exec {C} (q : CommandQueue C) c :
  match c with OnResponse _ _ _ => False | _ => True end -> Forall unanswered (CommandQueue.exec q c).2.
Proof.
  destruct c as [i data p d now|b now|i data now|now|]; intros Hc; cbn; try done.
  - unfold CommandQueue.submit. destruct (is_duplicate q i); cbn; [destruct d; by repeat constructor|].
    pose proof (unanswered_pump (enqueue_entry q (mkEntry i data p d now 0)) now) as H. by destruct (pump _ _).
  - unfold set_ready. destruct b; [apply unanswered_pump | constructor].
  - unfold CommandQueue.tick. pose proof (unanswered_pump (drop_expired q now) now) as H. destruct (pump _ _).
    apply Forall_app. split; [by apply unanswered_all | exact H].
  - by apply unanswered_all.
Qed.

Definition answers_fit (ev : list SEvent) : Prop :=
  Forall (fun r => r.1.2 = kResponded -> fits r.1.1 r.2) (responses ev).

Lemma answers_fit_app ev ev' : answers_fit ev -> answers_fit ev' -> answers_fit (ev ++ ev').
Proof. unfold answers_fit. rewrite responses_app. intros. by apply Forall_app. Qed.

Lemma answers_fit_none ev : responses ev = [] -> answers_fit ev.
Proof. unfold answers_fit. by intros ->. Qed.

Lemma exec_answers s c :
  match c with OnResponse _ _ _ => False | _ => True end -> answers_fit (queue_exec s c).2.
Proof.
  intros Hc. destruct (queue_exec_events s c) as (ev & -> & ->).
  pose proof (unanswered_exec (queue_ s) c Hc) as H. revert H. generalize (CommandQueue.exec (queue_ s) c).2.
  clear. intros ev H. induction H as [|e ev He Hev IH]; [constructor|].
  unfold queue_events. cbn [fmap list_fmap concat]. apply answers_fit_app; [|exact IH].
  destruct e as [i d|i o d]; cbn in *.
  - apply answers_fit_none, responses_write_packets.
  - destruct (has_response _); [|constructor]. apply Forall_singleton. by intros ?.
Qed.

(** Whatever is called, a command is answered with a message that fits it. *)
Lemma api_answers c s : session_ok s -> wired s -> api_ok c -> answers_fit (run_events (api c) s).
Proof.
  intros Hs Hw Hok. destruct c as [ch p now|ch m p now|ch f a m p now|now|n|]; cbn [api api_ok] in *.
  - destruct Hok as [Hch Hp]. unfold run_events. rewrite (feed_eq ch p now s (sok_rx_length s Hs) Hch).
    assert (reassembler_ok (rx_of s ch)) as Hr.
    { apply (proj1 (Forall_nth _ Reassembler_init _) (sok_rx s Hs)). rewrite (sok_rx_length s Hs).
      unfold channel_ok in Hch. lia. }
    destruct (receive_ok (rx_of s ch) p Hp Hr) as [Hrx Hm].
    pose proof (receive_nonempty (rx_of s ch) p) as Hne.
    destruct (receive (rx_of s ch) p) as [r [m|]]; cbn [fst snd] in *.
    + pose proof (deliver_exclusive (with_rx s ch r) ch m now) as Hd. cbv zeta in Hd.
      assert (session_ok (with_rx s ch r)) as Hs'.
      { destruct Hs as [H1 H2 H3 H4]. split; try done; [by rewrite length_with_rx|]. by apply Forall_insert. }
      destruct Hw as [Hh _]. cbn [with_rx set_rx handlers] in Hd. rewrite Hh in Hd.
      specialize (Hd Hs' eq_refl eq_refl). unfold answers_fit. destruct (is_in_flight _ _); destruct Hd as [Hd _];
        unfold run_events in Hd; rewrite Hd; [|constructor].
      apply Forall_singleton. intros _. by apply message_id_fits; auto.
    + apply answers_fit_none. unfold frame_error_event. destruct (BleProtocol.feed _ _) as [? []]; try done;
        cbn; by destruct (has_frame_error _).
  - destruct m as [|b m]; [apply answers_fit_none; done|]. unfold submit, run_events. rewrite enqueue_eq.
    by apply exec_answers.
  - unfold submit_protobuf, run_events. rewrite enqueue_eq. by apply exec_answers.
  - unfold run_events. rewrite tick_eq. pose proof (exec_answers s (Tick now) I) as H1.
    destruct (queue_exec s (Tick now)) as [s1 ev1]. destruct (negb _); [done|]. destruct (keep_alive_due s now); [|done].
    pose proof (exec_answers (anchored s1 now) (queue_submit keep_alive_id keep_alive_payload kKeepAlive now) I) as H2.
    destruct (queue_exec _ _). by apply answers_fit_app.
  - by apply answers_fit_none.
  - unfold run_events. rewrite on_disconnect_eq. cbv zeta. cbn [snd]. apply answers_fit_app.
    + destruct (queue_exec_events s CancelAll) as (ev & E1 & E2). cbn in E2. subst ev. rewrite <- E1.
      by apply exec_answers.
    + apply answers_fit_none. destruct (session_ready s); [|done]. unfold ready_event. by destruct (has_ready _).
Qed.

(** *** In the port and the camera *)

Definition message_fits (m : bytes) : Prop :=
  match decode m with Some (BleResponse i kResponded d) => fits i d | _ => True end.

Lemma posted_fits ev : Forall event_ok ev -> answers_fit ev -> Forall message_fits (encode_event <$> ev).
Proof.
  intros Hok Ha. apply Forall_fmap. induction Hok as [|e ev He Hev IH]; [constructor|].
  change (e :: ev) with ([e] ++ ev) in Ha. unfold answers_fit in Ha. rewrite responses_app in Ha.
  apply Forall_app in Ha as [Ha1 Ha2]. constructor; [|by apply IH].
  unfold compose, message_fits. rewrite decode_encode by done. destruct e as [| i o d | | |]; try done.
  cbn in *. destruct o; try done. rewrite Forall_singleton in Ha1. by apply Ha1.
Qed.

Lemma api_all_answers cs : forall s,
  Forall api_ok cs -> session_ok s -> wired s -> answers_fit (run_events (api_all cs) s).
Proof.
  induction cs as [|c cs IH]; intros s Hok Hs Hw; [constructor|]. apply Forall_cons in Hok as [Hc Hok].
  destruct (api_all_cons c cs s) as [_ ->]. apply answers_fit_app; [by apply api_answers|].
  apply IH; [done | by apply api_session_ok | by apply wired_api].
Qed.

(** The session is sound, and so is every response waiting in the port. *)
Definition session_sound (h : option BleContext) : Prop :=
  forall ctx, h = Some ctx -> session_ok (session ctx) /\ wired (session ctx).

Definition sound (c : Camera) : Prop := session_sound (_session c) /\ Forall message_fits (_port c).

Definition stays_sound (c : Camera) (ev : list Effect) (c' : Camera) : Prop := sound c -> sound c'.

#[export] Instance stays_sound_order : TraceOrder stays_sound.
Proof. split; unfold stays_sound; auto. Qed.

Lemma sound_same c ev c' : _session c' = _session c -> _port c' = _port c -> stays_sound c ev c'.
Proof. unfold stays_sound, sound. by intros -> ->. Qed.

Lemma sound_ffi k c : abi_typed k -> along stays_sound (ffi k) c.
Proof.
  intros Hty. unfold along, ffi, run_state, run_events.
  destruct (_session c) as [ctx|] eqn:Es; [|by apply sound_same].
  intros [Hses Hport]. destruct (Hses ctx Es) as [Hs Hw].
  destruct (abi_run [k] ctx ltac:(by apply Forall_singleton) Hs) as (Habi & Hev & Hs').
  pose proof (api_all_answers (session_calls [k]) (session ctx)) as Ha.
  assert (Forall api_ok (session_calls [k])) as Hcalls.
  { unfold session_calls. cbn. rewrite app_nil_r. by apply api_of_ok. }
  specialize (Ha Hcalls Hs Hw). pose proof (wired_api_all (session_calls [k]) (session ctx) Hw) as Hw'.
  destruct (invoke_abi_abi (Some ctx) k) as [E1 E2].
  cbn [abi_all] in Habi. destruct (abi (Some ctx) k) as [h1 p1]. injection Habi as -> Hp. rewrite app_nil_r in Hp.
  destruct (invoke_abi (Some ctx) k) as [[h r] ps]. cbn in E1, E2. subst. cbn [fst snd]. split.
  - intros ctx' [= <-]. by split.
  - cbn. destruct (_events c); [|done]. apply Forall_app. split; [done|]. rewrite <- list_fmap_compose.
    by apply posted_fits.
Qed.

Lemma sound_destroy c : along stays_sound ffi_destroy c.
Proof.
  unfold along, ffi_destroy, run_state, run_events.
  destruct (_session c) as [ctx|] eqn:Es; [|by apply sound_same].
  intros [Hses Hport]. destruct (Hses ctx Es) as [Hs Hw].
  pose proof (api_answers Disconnect _ Hs Hw I) as Ha. pose proof (api_events_ok Disconnect _ Hs I) as Hok.
  cbn [gopro_ble_destroy]. unfold on_session. cbn [api] in *. unfold run_events in Ha, Hok.
  destruct (on_disconnect (session ctx)) as [[u s] ev]. cbn [fst snd] in *. split; [by intros ?|].
  cbn. destruct (_events c); [|done]. apply Forall_app. split; [done|]. rewrite <- list_fmap_compose.
  by apply posted_fits.
Qed.

Lemma sound_submit_once id k c : abi_typed k -> along stays_sound (submit_once id (submission k)) c.
Proof.
  intros Hty. unfold submit_once, register, forget, submission. along; try by apply sound_same. by apply sound_ffi.
Qed.

Lemma sound_send ch payload p now c :
  channel_ok ch -> along stays_sound (send ch payload p now) c.
Proof.
  intros Hch. destruct (decide (_state c = up)) as [Hup|Hup].
  - destruct payload as [|b l].
    + unfold send. along; by apply sound_same.
    + unfold along, run_events, run_state. rewrite send_up by done.
      apply (sound_submit_once (correlationOf ch b)).
      destruct (submit_hands (mkBleContext 0 (BleSession_init all_wired SessionConfig_default)) ch b l
        (default (default_priority ch) p) now Hch) as [Hty _]. exact Hty.
  - unfold send. along; try by apply sound_same. unfold is_up in *. by rewrite bool_decide_eq_false_2 in *.
Qed.

Lemma sound_sendProtobuf f a m ch p now c :
  channel_ok ch -> along stays_sound (sendProtobuf f a m ch p now) c.
Proof.
  intros Hch. destruct (decide (_state c = up)) as [Hup|Hup].
  - unfold along, run_events, run_state. rewrite sendProtobuf_up by done. apply sound_submit_once.
    destruct (submitProtobuf_hands (mkBleContext 0 (BleSession_init all_wired SessionConfig_default)) ch f a m p now
      Hch) as [Hty _]. exact Hty.
  - unfold sendProtobuf. along; try by apply sound_same. unfold is_up in *. by rewrite bool_decide_eq_false_2 in *.
Qed.

(** A future completed with a reply was returned under an id the reply fits. *)
Record faithful_to (c : Camera) (ev : list Effect) (c' : Camera) : Prop := {
  faithful_done : forall k d, Done k kResponded d ∈ ev ->
    exists id, ((id, k) ∈ _pending c \/ Returned k id ∈ ev) /\ fits id d;
  faithful_pending : forall id k, (id, k) ∈ _pending c' -> (id, k) ∈ _pending c \/ Returned k id ∈ ev;
}.

Definition faithful (c : Camera) (ev : list Effect) (c' : Camera) : Prop :=
  sound c -> sound c' /\ faithful_to c ev c'.

#[export] Instance faithful_order : TraceOrder faithful.
Proof.
  split.
  - intros c Hs. split; [done|]. split; [by intros k d ?%not_elem_of_nil | by left].
  - intros c e c1 e' c2 H1 H2 Hs. destruct (H1 Hs) as [Hs1 [D1 P1]]. destruct (H2 Hs1) as [Hs2 [D2 P2]].
    split; [done|]. split.
    + intros k d [Hd|Hd]%elem_of_app.
      * destruct (D1 k d Hd) as (id & [Hp|Hr] & Hf); exists id; (split; [|done]); [by left|].
        right. apply elem_of_app. by left.
      * destruct (D2 k d Hd) as (id & [Hp|Hr] & Hf); exists id; (split; [|done]).
        -- destruct (P1 id k Hp) as [|Hr]; [by left|]. right. apply elem_of_app. by left.
        -- right. apply elem_of_app. by right.
    + intros id k Hp. destruct (P2 id k Hp) as [Hp1|Hr].
      * destruct (P1 id k Hp1) as [|Hr]; [by left|]. right. apply elem_of_app. by left.
      * right. apply elem_of_app. by right.
Qed.

(** No future is completed with a reply, and none is registered. *)
Definition no_reply (ev : list Effect) : Prop :=
  Forall (fun e => match e with Done _ kResponded _ => False | _ => True end) ev.

Lemma no_reply_elem ev k d : no_reply ev -> Done k kResponded d ∉ ev.
Proof. intros H Hin. by apply (proj1 (Forall_forall _ _) H) in Hin. Qed.

Lemma faithful_same c ev c' :
  _session c' = _session c -> _port c' = _port c -> (_pending c' = _pending c \/ _pending c' = []) ->
  no_reply ev -> faithful c ev c'.
Proof.
  intros E1 E2 E3 Hq Hs. split; [by apply (sound_same c ev c')|]. split.
  - intros k d Hd. by apply (no_reply_elem ev k d Hq) in Hd.
  - intros id k. destruct E3 as [-> | ->]; [by left | by intros ?%not_elem_of_nil].
Qed.

Lemma faithful_native {A} (m : dart A) c : native_only m -> along stays_sound m c -> along faithful m c.
Proof.
  intros Hm Hsound. unfold along. destruct (Hm c) as (h & p & ev & Es & Ee & Hev). intros Hs.
  split; [by apply Hsound|]. rewrite Es, Ee. split; [|by left].
  intros k d Hd. apply Hev in Hd. by apply list_elem_of_singleton in Hd.
Qed.

Lemma faithful_sends (m : dart (option completer)) c :
  sends_as m -> along stays_sound m c -> along faithful m c.
Proof.
  intros Hm Hsound. unfold along. intros Hs. split; [by apply Hsound|].
  destruct (Hm c) as [(_ & -> & ->)|(_ & id & H)].
  { split; [|by left]. by intros k d ?%list_elem_of_singleton. }
  destruct H as [Hin|h port ev Hn Hev|h port ev Hn Hev]; (split; cbn).
  - by intros k d ?%list_elem_of_singleton.
  - by left.
  - intros k d [Hd|Hd]%elem_of_app; [apply Hev in Hd|]; by apply list_elem_of_singleton in Hd.
  - by left.
  - intros k d [Hd|Hd]%elem_of_app; [apply Hev in Hd|]; by apply list_elem_of_singleton in Hd.
  - intros i k [Hi|Hi]%elem_of_app; [by left|]. apply list_elem_of_singleton in Hi as [= -> ->].
    right. apply elem_of_app. right. by apply list_elem_of_singleton.
Qed.

Lemma faithful_ffi k c : abi_typed k -> along faithful (ffi k) c.
Proof. intros Hty. apply faithful_native; [apply native_only_ffi | by apply sound_ffi]. Qed.

Lemma faithful_destroy c : along faithful ffi_destroy c.
Proof. apply faithful_native; [apply native_only_destroy | apply sound_destroy]. Qed.

Lemma faithful_feed ch d now c : channel_ok ch -> along faithful (ffi_feed ch d now) c.
Proof.
  intros Hch. unfold ffi_feed. along. apply faithful_ffi. destruct (channel_byte ch Hch) as [Hb _].
  split; [done | apply readable_all].
Qed.

Lemma faithful_send ch payload p now c : channel_ok ch -> along faithful (send ch payload p now) c.
Proof. intros Hch. apply faithful_sends; [apply send_as | by apply sound_send]. Qed.

Lemma faithful_sendProtobuf f a m ch p now c : channel_ok ch -> along faithful (sendProtobuf f a m ch p now) c.
Proof. intros Hch. apply faithful_sends; [apply sendProtobuf_as | by apply sound_sendProtobuf]. Qed.

Ltac no_reply := by repeat (constructor || case_match).

Ltac faithful_atom :=
  first [ apply faithful_same; [done|done|by left|no_reply]
        | by apply faithful_ffi | apply faithful_destroy | by apply faithful_feed
        | by apply faithful_send | by apply faithful_sendProtobuf ].

Lemma faithful_setState s c : along faithful (setState s) c.
Proof. unfold along, setState, run_state, run_events. case_bool_decide; [|destruct (is_open linkChanges c)]; faithful_atom. Qed.

Lemma faithful_faults c : along faithful faults_add c.
Proof. unfold along, faults_add, run_state, run_events. destruct (is_open faults c); faithful_atom. Qed.

Lemma faithful_link_calls c : along faithful link_calls c.
Proof. unfold along, link_calls, run_state, run_events. destruct (_link c); faithful_atom. Qed.

Lemma faithful_resolve c : along faithful resolvePending c.
Proof.
  unfold resolvePending. along.
  - apply faithful_same; try done; [by left|]. apply Forall_fmap. by apply Forall_true.
  - apply faithful_same; [done|done|by right|constructor].
Qed.

Ltac faithful_step :=
  first [ faithful_atom | apply faithful_setState | apply faithful_faults | apply faithful_resolve
        | apply faithful_link_calls ].

Lemma faithful_attach a now c : along faithful (attach a now) c.
Proof.
  assert (channel_ok kQuery) by (unfold channel_ok, kQuery, kChannelCount; lia).
  unfold attach, queryStatuses. along; try faithful_step.
  all: destruct (run_result _ _); along; faithful_step.
Qed.

Lemma faithful_close c : along faithful close c.
Proof. unfold close. along; try faithful_step. close_loops; faithful_step. Qed.

Lemma faithful_abandon c : along faithful abandon c.
Proof. unfold abandon. along; [faithful_step | apply faithful_close]. Qed.

Lemma faithful_close_step threw c : along faithful (close_step threw) c.
Proof.
  close_loops; try faithful_step.
  all: intros [Hs Hp]; split; [by split|]; split; [by intros k d ?%not_elem_of_nil | by left].
Qed.

Lemma faithful_drop_detach c : along faithful drop_detach c.
Proof. unfold drop_detach. along. destruct (_subs c); along; faithful_step. Qed.

Lemma faithful_onDrop c : along faithful onDrop c.
Proof. unfold onDrop. along; first [apply faithful_close | apply faithful_drop_detach | faithful_step]. Qed.

Lemma faithful_drop_step r now c : along faithful (drop_step r now) c.
Proof.
  unfold drop_step. along. destruct (dropping c) as [[]|]; along; [| |].
  - apply faithful_drop_detach.
  - faithful_step.
  - destruct r as [[a|]|]; along; first [apply faithful_attach | apply faithful_abandon | faithful_step].
Qed.

(** Delivering a message: a response is for the future under its own id. *)
Lemma faithful_deliver c : along faithful (exec ADeliver) c.
Proof.
  cbn [exec]. along. destruct (_port c) as [|m port] eqn:Ep; [apply along_ret; apply _|].
  unfold along, run_state, run_events. rewrite bind_modify, onEvent_eq. cbn [fst snd].
  intros [Hs Hp]. rewrite Ep in Hp. apply Forall_cons in Hp as [Hm Hp]. split; [by split|].
  cbn [_pending _writes _streams set_native set_pending]. unfold event_effects, pending_after, message_fits in *.
  destruct (decode m) as [[ch d|id o d|b|ch d|ch x]|]; split; try (by left); cbn.
  - intros k d' Hd. case_bool_decide; [by apply list_elem_of_singleton in Hd | by apply not_elem_of_nil in Hd].
  - intros k d' Hd. destruct (dict_get id (_pending c)) as [k'|] eqn:E; [|by apply not_elem_of_nil in Hd].
    apply list_elem_of_singleton in Hd as [= <- <- <-]. exists id. split; [|done]. left. by apply dict_get_Some.
  - intros i k Hi. left. by apply elem_of_lfilter in Hi as [Hi _].
  - intros k d' Hd. case_bool_decide; [by apply list_elem_of_singleton in Hd | by apply not_elem_of_nil in Hd].
  - intros k d' Hd. case_bool_decide; [by apply list_elem_of_singleton in Hd | by apply not_elem_of_nil in Hd].
  - intros k d' Hd. case_bool_decide; [by apply list_elem_of_singleton in Hd | by apply not_elem_of_nil in Hd].
  - by intros k d' ?%not_elem_of_nil.
Qed.

Lemma faithful_exec a c : action_typed a -> along faithful (exec a) c.
Proof.
  destruct a; intros Hty; try apply faithful_deliver; cbn [exec action_typed] in *; along;
    try first [faithful_step | apply faithful_onDrop | apply faithful_close | apply faithful_close_step
    | apply faithful_drop_step | apply faithful_send; tauto ].
Qed.

Lemma faithful_all l : forall c, Forall action_typed l -> along faithful (exec_all l) c.
Proof.
  induction l as [|x l IH]; intros c Hty; [apply along_ret; apply _|]. apply Forall_cons in Hty as [Hx Hty].
  cbn [exec_all]. apply along_bind; [apply _|by apply faithful_exec|by apply IH].
Qed.

Lemma faithful_life p ka rt a now l :
  Forall action_typed l ->
  let c := new_camera p ka rt in
  faithful_to c (run_events (life a now l) c) (run_state (life a now l) c).
Proof.
  intros Hty. cbv zeta. set (c := new_camera p ka rt).
  assert (along faithful (life a now l) c) as H.
  { unfold life. apply along_bind; [apply _| |by apply faithful_all]. unfold connect.
    apply along_bind; [apply _|apply faithful_attach|]. apply faithful_same; [done|done|by left|constructor]. }
  apply H. split; [|constructor]. intros ctx [= <-]. split; [apply init_session_ok|].
  split; [done|]. cbn. unfold kMinAttPayload. lia.
Qed.

(** A future is returned once, under one id. *)
Lemma returned_once k id id' ev :
  NoDup (returns ev) -> Returned k id ∈ ev -> Returned k id' ∈ ev -> id = id'.
Proof.
  assert (forall i l, Returned k i ∈ l -> k ∈ returns l) as Hin.
  { intros i l Hi. unfold returns. apply list_elem_of_omap. by exists (Returned k i). }
  induction ev as [|e ev IH]; intros Hn H H'; [by apply not_elem_of_nil in H|].
  change (e :: ev) with ([e] ++ ev) in Hn. rewrite returns_app in Hn. apply NoDup_app in Hn as (_ & Hd & Hn).
  apply elem_of_cons in H as [<-|H], H' as [E|H']; [by injection E| | |by apply IH].
  - destruct (Hd k); [by apply (Hin id), list_elem_of_singleton | by apply Hin in H'].
  - subst e. destruct (Hd k); [by apply (Hin id'), list_elem_of_singleton | by apply Hin in H].
Qed.

(** ** Properties *)

(** C10: a reply fits its command.  Over any life of a camera, a future of a plain
    command is completed only with a message that starts with the command's byte,
    and a future of a protobuf request only with one that starts with its feature
    and its action's response; so what strips those two bytes never fails, and a
    request never gets the reply of another. *)
Theorem replies_fit p ka rt a now l k id d :
  Forall action_typed l ->
  let ev := run_events (life a now l) (new_camera p ka rt) in
  Returned k id ∈ ev -> Done k kResponded d ∈ ev ->
  (forall ch b, channel_ok ch -> byte_ok b -> id = correlationOf ch b -> begins [b] d) /\
  (forall ch f x, channel_ok ch -> byte_ok f -> byte_ok x -> id = protobufCorrelation ch f x ->
     begins [f; protobuf_response_action x] d).
Proof.
  intros Hty ev Hr Hd. destruct (faithful_life p ka rt a now l Hty) as [Hdone _].
  destruct (Hdone k d Hd) as (id' & [Hp|Hr'] & Hf); [by apply not_elem_of_nil in Hp|].
  pose proof (ledger_life p ka rt a now l) as [_ _ _ _ Hn].
  pose proof (returned_once k id id' ev Hn Hr Hr') as <-. split.
  - intros ch b Hch Hb ->. by apply (fits_narrow ch).
  - intros ch f x Hch Hf' Hx ->. apply (fits_protobuf ch); try done. revert Hf.
    unfold protobufCorrelation, gopro_ble_protobuf_correlation. destruct (channel_byte ch Hch) as [_ Hlt].
    change (Z.of_nat kChannelCount) with 4. rewrite (Z.leb_antisym ch 4), Hlt. cbn [negb].
    by rewrite !to_u8_byte.
Qed.

#[export] Instance Effect_eq_dec : EqDecision Effect.
Proof. solve_decision. Defined.

(** A protobuf query for the state of COHN, and two notifications: the first does
    not fit the request, the second does. *)
Definition cohn_query : list action :=
  demo_life ++ [ADeliver; ADeliver; ADeliver; ASendProtobuf 245 111 [8; 0] 2 kFastpass 30;
    ANotify 2 [4; 245; 112; 8; 1] 40; ANotify 2 [4; 245; 239; 8; 1] 50; ADeliver; ADeliver; ADeliver].

Lemma cohn_query_typed : Forall action_typed cohn_query.
Proof.
  unfold cohn_query. apply Forall_app. split; [apply demo_life_typed|].
  repeat apply Forall_cons_2; try apply Forall_nil_2; cbn; unfold channel_ok, kChannelCount; try lia; done.
Qed.

Abbreviation cohn_events := (run_events (life four_channels 0 cohn_query) (new_camera 7 0 300)).

Lemma cohn_events_are :
  Returned 2 (protobufCorrelation 2 245 111) ∈ cohn_events /\ Done 2 kResponded [245; 239; 8; 1] ∈ cohn_events.
Proof.
  assert (existsb (fun e => bool_decide (e = Returned 2 (protobufCorrelation 2 245 111))) cohn_events &&
          existsb (fun e => bool_decide (e = Done 2 kResponded [245; 239; 8; 1])) cohn_events = true) as H
    by (vm_compute; reflexivity).
  apply andb_true_iff in H as [H1 H2]. rewrite existsb_exists in H1, H2.
  destruct H1 as (x & H1 & ->%bool_decide_eq_true). destruct H2 as (y & H2 & ->%bool_decide_eq_true).
  split; apply list_elem_of_In; [exact H1 | exact H2].
Qed.

Lemma replies_fit_witness :
  exists rest, [245; 239; 8; 1] = 245 :: protobuf_response_action 111 :: rest.
Proof.
  destruct cohn_events_are as [H1 H2].
  destruct (replies_fit 7 0 300 four_channels 0 cohn_query 2 _ _ cohn_query_typed H1 H2) as [_ H].
  apply (H 2 245 111); clear; unfold channel_ok, kChannelCount, byte_ok; try lia; done.
Defined.
