(* ===== verification/BringUp.v ===== *)
(** * Bringing a camera up
    ([lib/src/ble_transport.dart], [GoProBleTransport._bringUp] and what it calls,
    and [lib/src/ffi/link_types.dart])

    The client of [LinkBridge]: a loop that looks at what BlueZ exposes, tells the
    link machine, and does what it advises.  BlueZ is outside; one turn of the
    loop is given what BlueZ shows at its start ([Sight]) and how it answers the
    operations of the turn ([Answers]).  Waiting is not modelled: the clock
    readings of each turn are part of its [Sight]. *)

From stdpp Require Import strings.
From S2P Require Import Prelude BleSession BleLink LinkBridge BleTransport.
Local Open Scope Z_scope.

(** ** [link_types.dart] *)

(** The getter [flags]. *)
Definition flags (obs : LinkObservation) : Z :=
  Z.lor (Z.lor (Z.lor (Z.lor (Z.lor
    (if le_candidate_present obs then Z.shiftl 1 0 else 0)
    (if classic_link_up obs then Z.shiftl 1 1 else 0))
    (if connected obs then Z.shiftl 1 2 else 0))
    (if bonded_flag obs then Z.shiftl 1 3 else 0))
    (if control_chars_found obs then Z.shiftl 1 4 else 0))
    (if notify_succeeded obs then Z.shiftl 1 5 else 0).

(** The enumerators, in the order of the Dart enums. *)
Definition LinkState_values : list LinkState.t :=
  [LinkState.kAbsent; LinkState.kAdvertising; LinkState.kConnected; LinkState.kServicesResolved;
   LinkState.kEncrypted; LinkState.kReady].

Definition LinkAction_values : list LinkAction.t :=
  [LinkAction.kNone; LinkAction.kScan; LinkAction.kDisconnectClassic; LinkAction.kConnect;
   LinkAction.kWaitForServices; LinkAction.kPair; LinkAction.kSubscribe].

Definition StallReason_values : list StallReason.t :=
  [StallReason.kNone; StallReason.kNoAdvertisement; StallReason.kClassicBlocking;
   StallReason.kConnectFailed; StallReason.kServicesNeverAppeared; StallReason.kWrongDevice;
   StallReason.kNotEncrypted; StallReason.kSubscribeFailed].

(** [LinkAdvice.unpack]. *)
Definition unpack (packed : Z) (detail : string) (retryAtMs : Z) : option LinkAdvice :=
  s ← LinkState_values !! Z.to_nat (Z.land (Z.shiftr packed 16) 255);
  a ← LinkAction_values !! Z.to_nat (Z.land (Z.shiftr packed 8) 255);
  r ← StallReason_values !! Z.to_nat (Z.land packed 255);
  Some (mkAdvice s a r detail retryAtMs).

(** [BleBindings.linkUpdate]. *)
Definition linkUpdate (h : option LinkContext) (obs : LinkObservation) (now_ms : Z)
    : option LinkContext * option LinkAdvice :=
  let '(h', packed) := gopro_link_update h (flags obs) (attribute_count obs) (subscribed_count obs)
                         (required_subscriptions obs) now_ms in
  (h', unpack packed (gopro_link_detail h') (gopro_link_retry_at h')).

(** ** What BlueZ shows *)

Definition lower_ascii (c : Ascii.ascii) : Ascii.ascii :=
  let n := Ascii.nat_of_ascii c in
  if (65 <=? n)%nat && (n <=? 90)%nat then Ascii.ascii_of_nat (n + 32) else c.

Definition upper_ascii (c : Ascii.ascii) : Ascii.ascii :=
  let n := Ascii.nat_of_ascii c in
  if (97 <=? n)%nat && (n <=? 122)%nat then Ascii.ascii_of_nat (n - 32) else c.

(** Addresses and uuids are ASCII. *)
Fixpoint map_string (f : Ascii.ascii -> Ascii.ascii) (s : string) : string :=
  match s with EmptyString => EmptyString | String c s => String (f c) (map_string f s) end.

Definition toLowerCase : string -> string := map_string lower_ascii.
Definition toUpperCase : string -> string := map_string upper_ascii.

Record Characteristic := mkChar { uuid : string; mtu : Z }.

Record BlueZDevice := mkDevice {
  objectPath : string;
  address : string;
  addressType : string;
  alias : string;
  d_connected : bool;
  paired : bool;
  uuids : list string;
  gattCharacteristics : list Characteristic;
}.

Definition controlQueryService : string := "0000fea6-0000-1000-8000-00805f9b34fb".

Definition gp (short : string) : string := "b5f9" +:+ short +:+ "-aa8d-11e3-9046-0002a5d5c51b".

(** [_characteristics] and [_optionalChars]: channel, write and notify uuid. *)
Definition characteristics : list (Channel * (string * string)) :=
  [(kCommand, (gp "0072", gp "0073")); (kSettings, (gp "0074", gp "0075")); (kQuery, (gp "0076", gp "0077"))].

Definition optionalChars : list (Channel * (string * string)) := [(kNetwork, (gp "0091", gp "0092"))].

Definition is_camera (d : BlueZDevice) : bool :=
  bool_decide (addressType d = "random") &&
  existsb (fun u => bool_decide (toLowerCase u = controlQueryService)) (uuids d).

(** [_candidate]. *)
Definition candidate (wanted : option string) (devices : list BlueZDevice) : option BlueZDevice :=
  List.find (fun d =>
    bool_decide (addressType d = "random") &&
    match wanted with None => true | Some a => bool_decide (toUpperCase (address d) = toUpperCase a) end &&
    existsb (fun u => bool_decide (toLowerCase u = controlQueryService)) (uuids d)) devices.

(** The getter [cameras]. *)
Definition cameras (devices : list BlueZDevice) : list (string * string) :=
  (fun d => (address d, alias d)) <$> List.filter is_camera devices.

Fixpoint startsWith (p s : string) : bool :=
  match p, s with
  | EmptyString, _ => true
  | String a p, String b s => bool_decide (a = b) && startsWith p s
  | String _ _, EmptyString => false
  end.

(** [_classicLink]. *)
Definition classicLink (devices : list BlueZDevice) : option BlueZDevice :=
  List.find (fun d => bool_decide (addressType d = "public") && d_connected d && startsWith "GoPro" (alias d))
    devices.

(** ** One climb *)

(** A Dart map from channels, in insertion order. *)
Abbreviation chars := (list (Channel * Characteristic)).

(** [_complete]. *)
Definition complete (ws ns : chars) : bool :=
  forallb (fun e => bool_decide (e.1 ∈ ws.*1) && bool_decide (e.1 ∈ ns.*1)) characteristics.

(** [_locate]. *)
Definition locate_one (entry : Channel * (string * string)) (m : chars * chars) (c : Characteristic)
    : chars * chars :=
  let u := toLowerCase (uuid c) in
  (if bool_decide (u = entry.2.1) then dict_put entry.1 c m.1 else m.1,
   if bool_decide (u = entry.2.2) then dict_put entry.1 c m.2 else m.2).

Definition locate (cs : list Characteristic) (m : chars * chars) : chars * chars :=
  fold_left (fun m entry => fold_left (locate_one entry) cs m) (characteristics ++ optionalChars) m.

(** The lookup of [readCharacteristic]; the value is BlueZ's. *)
Definition readCharacteristic (link : CameraLink) (cs : list Characteristic) (wanted : string)
    : option Characteristic :=
  if bool_decide (link = up)
  then List.find (fun c => bool_decide (toLowerCase (uuid c) = toLowerCase wanted)) cs
  else None.

(** How BlueZ answers in one turn: whether there is an adapter, whether the
    operations before the subscriptions succeed, the state of [Notifying] and the
    answer to [StartNotify] per channel, and the clock at a failure. *)
Record Answers := mkAnswers {
  a_adapter : bool;
  a_operation : bool;
  a_notifying : Channel -> bool;
  a_start : Channel -> bool;
  a_failed_ms : Z;
}.

Record Sight := mkSight {
  s_check_ms : Z;                (** the clock at the test of the loop *)
  s_devices : list BlueZDevice;
  s_now_ms : Z;                  (** the clock passed to [linkUpdate] *)
  s_answers : Answers;
}.

(** What is asked of BlueZ. *)
Inductive Request :=
| Discover | DisconnectClassic | Connect | Pair
| StopNotify (ch : Channel) | StartNotify (ch : Channel).

(** [_subscribe] over the entries left; [false] when [startNotify] throws. *)
Fixpoint subscribe (ans : Answers) (entries : list Channel) (subscribed : list Channel) (attempted : nat)
    (only : option nat) : list Channel * list Request * bool :=
  match entries with
  | [] => (subscribed, [], true)
  | ch :: entries =>
      if bool_decide (ch ∈ subscribed) then subscribe ans entries subscribed attempted only
      else if match only with Some n => (n <=? attempted)%nat | None => false end then (subscribed, [], true)
      else
        let req := (if a_notifying ans ch then [StopNotify ch] else []) ++ [StartNotify ch] in
        if a_start ans ch then
          let '(s, reqs, ok) := subscribe ans entries (subscribed ++ [ch]) (S attempted) only in
          (s, req ++ reqs, ok)
        else (subscribed, req, false)
  end.

Definition GoProBleException : Type := LinkState.t * StallReason.t * string.

Record Climb := mkClimb {
  link : option LinkContext;
  c_writes : chars;
  c_notifies : chars;
  subscribed : list Channel;
  last : option LinkAdvice;
}.

Definition start_climb (link : option LinkContext) : Climb := mkClimb link [] [] [] None.

(** [linkNoteFailure] when the operation threw a [BlueZException]. *)
Definition note (ok : bool) (ans : Answers) (h : option LinkContext) : option LinkContext :=
  if ok then h else gopro_link_note_failure h (a_failed_ms ans).

(** [_act]: the link, the subscriptions and the requests, or the exception that
    is not BlueZ's. *)
Definition act_on (advice : LinkAdvice) (device classic : option BlueZDevice) (ans : Answers) (c : Climb)
    : (Climb * list Request) + GoProBleException :=
  let with_link h subs := mkClimb h (c_writes c) (c_notifies c) subs (last c) in
  let plain req := inl (with_link (note (a_operation ans) ans (link c)) (subscribed c), req) in
  match BleLink.action advice with
  | LinkAction.kScan =>
      if a_adapter ans then plain [Discover]
      else inr (LinkState.kAbsent, StallReason.kNoAdvertisement, "no Bluetooth adapter is present"%string)
  | LinkAction.kDisconnectClassic =>
      match classic with Some _ => plain [DisconnectClassic] | None => inl (c, []) end
  | LinkAction.kConnect => match device with Some _ => plain [Connect] | None => inl (c, []) end
  | LinkAction.kWaitForServices | LinkAction.kNone => inl (c, [])
  | LinkAction.kPair =>
      let pairing := match device with Some d => negb (paired d) | None => false end in
      if pairing && negb (a_operation ans) then inl (with_link (note false ans (link c)) (subscribed c), [Pair])
      else
        let '(s, reqs, ok) := subscribe ans (c_notifies c).*1 (subscribed c) 0 (Some 1%nat) in
        inl (with_link (note ok ans (link c)) s, (if pairing then [Pair] else []) ++ reqs)
  | LinkAction.kSubscribe =>
      let '(s, reqs, ok) := subscribe ans (c_notifies c).*1 (subscribed c) 0 None in
      inl (with_link (note ok ans (link c)) s, reqs)
  end.

(** What the loop tells the machine. *)
Definition observe (device classic : option BlueZDevice) (c : Climb) : LinkObservation :=
  mkObservation
    (bool_decide (device <> None)) (bool_decide (classic <> None))
    (match device with Some d => d_connected d | None => false end)
    (match device with Some d => paired d | None => false end)
    (match device with Some d => Z.of_nat (length (gattCharacteristics d)) | None => 0 end)
    (complete (c_writes c) (c_notifies c))
    (negb (bool_decide (subscribed c = [])))
    (Z.of_nat (length (subscribed c)))
    (Z.of_nat (length characteristics)).

(** The rescan at the top of the loop. *)
Definition rescan (device : option BlueZDevice) (c : Climb) : Climb :=
  match device with
  | Some d =>
      if d_connected d && negb (complete (c_writes c) (c_notifies c)) then
        let '(ws, ns) := locate (gattCharacteristics d) (c_writes c, c_notifies c) in
        mkClimb (link c) ws ns (subscribed c) (last c)
      else c
  | None => c
  end.

Definition attached_of (c : Climb) : Attached :=
  mkAttached (c_writes c).*1 ((fun e => (e.1, mtu e.2)) <$> c_notifies c).

(** One turn of the loop. *)
Inductive turn :=
| Attach (d : BlueZDevice) (a : Attached) (c : Climb)
| Thrown (e : GoProBleException) (c : Climb)
| Again (c : Climb) (reqs : list Request).

Definition set_link (h : option LinkContext) (adv : option LinkAdvice) (c : Climb) : Climb :=
  mkClimb h (c_writes c) (c_notifies c) (subscribed c) adv.

Definition climb_turn (wanted : option string) (s : Sight) (c : Climb) : turn :=
  let device := candidate wanted (s_devices s) in
  let classic := classicLink (s_devices s) in
  let c := rescan device c in
  let '(h, advice) := linkUpdate (link c) (observe device classic c) (s_now_ms s) in
  match advice with
  | None => Thrown (LinkState.kAbsent, StallReason.kNone, "native and Dart link enums have drifted"%string)
              (set_link h (last c) c)
  | Some adv =>
      let c := set_link h (Some adv) c in
      if bool_decide (BleLink.state adv = LinkState.kReady) then
        match device with
        | Some d => Attach d (attached_of c) c
        | None => Again c []  (* [device!]: excluded by [ready_has_device] *)
        end
      else
        match act_on adv device classic (s_answers s) c with
        | inl (c', reqs) => Again c' reqs
        | inr e => Thrown e c
        end
  end.

(** [_timedOutAt]. *)
Definition timedOutAt (s : LinkState.t) : string :=
  match s with
  | LinkState.kAbsent =>
      "Nothing advertising the Control & Query service. The camera is asleep, " +:+
      "powered off, or has wireless disabled."
  | LinkState.kAdvertising =>
      "The camera is advertising but would not accept a connection. Another " +:+
      "host may already be connected to it."
  | LinkState.kConnected => "Connected, but the camera never exposed its GATT services."
  | LinkState.kServicesResolved =>
      "Connected and enumerated, but the link never became encrypted. The LE " +:+
      "bond is missing or stale: remove the pairing on this host, put the " +:+
      "camera into pairing mode, and try again."
  | LinkState.kEncrypted =>
      "Encrypted, but not every Control & Query characteristic could be " +:+ "subscribed."
  | LinkState.kReady => "Reached ready but bring-up did not complete."
  end.

(** The exception when the time is up. *)
Definition timed_out (c : Climb) : GoProBleException :=
  match last c with
  | Some adv =>
      (BleLink.state adv, stall adv,
       if bool_decide (BleLink.detail adv = EmptyString) then timedOutAt (BleLink.state adv) else BleLink.detail adv)
  | None => (LinkState.kAbsent, StallReason.kNoAdvertisement, timedOutAt LinkState.kAbsent)
  end.

(** [_bringUp], as far as the turns go. *)
Inductive result :=
| Attached_ (d : BlueZDevice) (a : Attached)
| Thrown_ (e : GoProBleException)
| Climbing.

Fixpoint climb (wanted : option string) (timeout_ms : Z) (turns : list Sight) (c : Climb)
    : result * Climb * list Request :=
  match turns with
  | [] => (Climbing, c, [])
  | s :: turns =>
      if s_check_ms s <? timeout_ms then
        match climb_turn wanted s c with
        | Attach d a c => (Attached_ d a, c, [])
        | Thrown e c => (Thrown_ e, c, [])
        | Again c reqs =>
            let '(r, c, reqs') := climb wanted timeout_ms turns c in (r, c, reqs ++ reqs')
        end
      else (Thrown_ (timed_out c), c, [])
  end.

Definition bringUp (link : option LinkContext) (wanted : option string) (timeout_ms : Z) (turns : list Sight)
    : result * Climb * list Request := climb wanted timeout_ms turns (start_climb link).

(** ** The Dart and the native side of the link agree *)

Lemma flags_eq obs : flags obs = flags_of obs.
Proof.
  destruct obs as [c1 c2 c3 c4 n c5 c6 s r]. unfold flags, flags_of. cbn.
  destruct c1, c2, c3, c4, c5, c6; reflexivity.
Qed.

Lemma unpack_advice_packed adv d r :
  unpack (packed_advice adv) d r =
    Some (mkAdvice (BleLink.state adv) (BleLink.action adv) (stall adv) d r).
Proof. unfold unpack, packed_advice. destruct (BleLink.state adv), (BleLink.action adv), (stall adv); reflexivity. Qed.

Lemma linkUpdate_machine ctx obs now :
  required_subscriptions obs <> 0 ->
  let '(m, adv) := update (machine ctx) obs now in
  exists ctx', linkUpdate (Some ctx) obs now = (Some ctx', Some adv) /\ machine ctx' = m.
Proof.
  intros H. unfold linkUpdate, gopro_link_update. rewrite flags_eq, observation_of_flags by done.
  destruct (update (machine ctx) obs now) as [m adv]. eexists. cbn. rewrite unpack_advice_packed.
  split; [by destruct adv|done].
Qed.

(** ** What a climb keeps *)

(** Maps only grow, and only by the known channels. *)
Definition known : list Channel := [kCommand; kSettings; kQuery; kNetwork].

Record grown (m m' : chars) : Prop := {
  grown_unique : NoDup m.*1 -> NoDup m'.*1;
  grown_incl : m.*1 ⊆ m'.*1;
  grown_known : m.*1 ⊆ known -> m'.*1 ⊆ known;
}.

#[export] Instance grown_preorder : PreOrder grown.
Proof. split; [by intros m|]. intros m1 m2 m3 [] []. split; [auto|set_solver|auto]. Qed.

Lemma grown_put ch x m : ch ∈ known -> grown m (dict_put ch x m).
Proof.
  intros H. split; [apply dict_put_NoDup|intros i; apply dict_put_incl|].
  intros Hm i. rewrite dict_put_keys. case_bool_decide; [apply Hm|].
  intros [Hi|Hi%list_elem_of_singleton]%elem_of_app; [by apply Hm | by subst].
Qed.

Lemma grown_locate_one entry m c :
  entry.1 ∈ known -> grown m.1 (locate_one entry m c).1 /\ grown m.2 (locate_one entry m c).2.
Proof.
  intros He. unfold locate_one. cbn. split; (case_bool_decide; [by apply grown_put | reflexivity]).
Qed.

Lemma grown_locate cs m : grown m.1 (locate cs m).1 /\ grown m.2 (locate cs m).2.
Proof.
  assert (forall entry (m : chars * chars), entry.1 ∈ known ->
    grown m.1 (fold_left (locate_one entry) cs m).1 /\ grown m.2 (fold_left (locate_one entry) cs m).2) as Hone.
  { intros entry m0 He. revert m0. induction cs as [|c cs IH]; intros m0; [done|]. cbn [fold_left].
    destruct (IH (locate_one entry m0 c)) as [H1 H2]. destruct (grown_locate_one entry m0 c He) as [H3 H4].
    split; etransitivity; [exact H3|exact H1|exact H4|exact H2]. }
  unfold locate. assert (Forall (fun e => e.1 ∈ known) (characteristics ++ optionalChars)) as Hall.
  { cbn. unfold known. repeat apply Forall_cons_2; try apply Forall_nil_2; cbn; set_solver. }
  revert m. induction Hall as [|e l He Hl IH]; intros m; [done|]. cbn [fold_left].
  destruct (Hone e m He) as [H1 H2]. destruct (IH (fold_left (locate_one e) cs m)) as [H3 H4].
  split; etransitivity; [exact H1|exact H3|exact H2|exact H4].
Qed.

(** What [_subscribe] does: channels are only added, each after a [StartNotify]
    that returned, and with no limit either all are subscribed or it threw. *)
Record subscribes (ans : Answers) (entries subs subs' : list Channel) (reqs : list Request) (ok : bool)
    (only : option nat) : Prop := {
  subs_unique : NoDup subs -> NoDup subs';
  subs_incl : subs ⊆ subs';
  subs_from : forall ch, ch ∈ subs' -> ch ∈ subs \/
    (ch ∈ entries /\ StartNotify ch ∈ reqs /\ a_start ans ch = true);
  subs_all : ok = true -> only = None -> entries ⊆ subs';
  subs_threw : ok = false -> exists ch, ch ∈ entries /\ StartNotify ch ∈ reqs /\ a_start ans ch = false;
}.

Lemma subscribe_spec ans entries : forall subs att only,
  let '(subs', reqs, ok) := subscribe ans entries subs att only in
  subscribes ans entries subs subs' reqs ok only.
Proof.
  induction entries as [|ch entries IH]; intros subs att only; cbn [subscribe].
  { split; [done|done|by left|set_solver|done]. }
  case_bool_decide as Hin.
  { specialize (IH subs att only). destruct (subscribe ans entries subs att only) as [[s r] ok].
    destruct IH as [H1 H2 H3 H4 H5]. split; [done|done| | |].
    - intros x Hx. destruct (H3 x Hx) as [|(? & ? & ?)]; [by left|right; set_solver].
    - intros Ho Hn. specialize (H4 Ho Hn). set_solver.
    - intros Ho. destruct (H5 Ho) as (x & ? & ? & ?). exists x. set_solver. }
  destruct (match only with Some n => (n <=? att)%nat | None => false end) eqn:Elim.
  { split; [done|done|by left|by intros _ ->|done]. }
  set (req := (if a_notifying ans ch then [StopNotify ch] else []) ++ [StartNotify ch]).
  assert (StartNotify ch ∈ req) as Hreq by (apply elem_of_app; right; left).
  destruct (a_start ans ch) eqn:Ea.
  - specialize (IH (subs ++ [ch]) (S att) only).
    destruct (subscribe ans entries (subs ++ [ch]) (S att) only) as [[s r] ok].
    destruct IH as [H1 H2 H3 H4 H5]. split.
    + intros Hn. apply H1, NoDup_app. split_and!; [done| |apply NoDup_singleton].
      intros x Hx ->%list_elem_of_singleton. done.
    + set_solver.
    + intros x Hx. destruct (H3 x Hx) as [[Hs|Hs]%elem_of_app|(? & ? & ?)].
      * by left.
      * apply list_elem_of_singleton in Hs as ->. right. split_and!; [left|apply elem_of_app; by left|done].
      * right. split_and!; [by right|apply elem_of_app; by right|done].
    + intros Ho Hn. specialize (H4 Ho Hn). set_solver.
    + intros Ho. destruct (H5 Ho) as (x & ? & ? & ?). exists x.
      split_and!; [by right|apply elem_of_app; by right|done].
  - split; [done|done|by left|done|]. intros _. exists ch. split_and!; [left|done|done].
Qed.

(** The state of a climb. *)
Record climb_ok (c : Climb) : Prop := {
  ok_link : link c <> None;
  ok_notifies : NoDup (c_notifies c).*1 /\ (c_notifies c).*1 ⊆ known;
  ok_subscribed : NoDup (subscribed c) /\ subscribed c ⊆ (c_notifies c).*1;
}.

(** One turn adds subscriptions it can account for. *)
Record advanced (s : Sight) (c c' : Climb) (reqs : list Request) : Prop := {
  adv_ok : climb_ok c';
  adv_incl : subscribed c ⊆ subscribed c';
  adv_from : forall ch, ch ∈ subscribed c' -> ch ∈ subscribed c \/
    (StartNotify ch ∈ reqs /\ a_start (s_answers s) ch = true);
}.

Lemma rescan_ok d c : climb_ok c -> climb_ok (rescan d c) /\ subscribed (rescan d c) = subscribed c.
Proof.
  intros Hok. unfold rescan. destruct d as [d|]; [|done]. destruct (_ && _); [|done].
  pose proof (grown_locate (gattCharacteristics d) (c_writes c, c_notifies c)) as [_ [H1 H2 H3]].
  destruct (locate _ _) as [ws ns]. split; [|done]. destruct Hok as [L [N K] [S I]].
  split; cbn in *; [done|split; auto|split; [done|set_solver]].
Qed.

Lemma set_link_ok h adv c : h <> None -> climb_ok c -> climb_ok (set_link h adv c).
Proof. intros Hh [L N S]. by split. Qed.

Lemma note_alive ok ans h : h <> None -> note ok ans h <> None.
Proof. unfold note. destruct ok; [done|]. by destruct h. Qed.

Lemma linkUpdate_alive h obs now : h <> None -> (linkUpdate h obs now).1 <> None.
Proof.
  destruct h as [ctx|]; [|done]. intros _. unfold linkUpdate, gopro_link_update.
  by destruct (update _ _ _) as [m adv].
Qed.

Lemma act_on_advances s adv device classic c c' reqs :
  climb_ok c -> act_on adv device classic (s_answers s) c = inl (c', reqs) -> advanced s c c' reqs.
Proof.
  intros Hok. assert (forall h, h <> None -> advanced s c (mkClimb h (c_writes c) (c_notifies c) (subscribed c) (last c)) reqs) as Hplain.
  { intros h Hh. destruct Hok as [L N S]. split; [by split|done|by left]. }
  assert (advanced s c c reqs) as Hnone by (split; [done|done|by left]).
  assert (forall only subs' rs ok h, subscribe (s_answers s) (c_notifies c).*1 (subscribed c) 0 only = (subs', rs, ok) ->
    h <> None -> (forall r, r ∈ rs -> r ∈ reqs) ->
    advanced s c (mkClimb h (c_writes c) (c_notifies c) subs' (last c)) reqs) as Hsub.
  { intros only subs' rs ok h E Hh Hrs. pose proof (subscribe_spec (s_answers s) (c_notifies c).*1 (subscribed c) 0 only) as Hs.
    rewrite E in Hs. destruct Hs as [H1 H2 H3 _ _]. destruct Hok as [L [N K] [U I]]. split; cbn; [|done|].
    - split; cbn; [done|done|]. split; [auto|]. intros x Hx. destruct (H3 x Hx) as [Hi|(Hi & _)]; [by apply I|done].
    - intros ch Hch. destruct (H3 ch Hch) as [|(_ & ? & ?)]; [by left|right; auto]. }
  pose proof (ok_link c Hok) as Hl.
  unfold act_on. destruct (BleLink.action adv).
  - by intros [= <- <-].
  - destruct (a_adapter _); [|done]. intros [= <- <-]. by apply Hplain, note_alive.
  - destruct classic; intros [= <- <-]; [by apply Hplain, note_alive|done].
  - destruct device; intros [= <- <-]; [by apply Hplain, note_alive|done].
  - by intros [= <- <-].
  - destruct (_ && negb _); [intros [= <- <-]; by apply Hplain, (note_alive false (s_answers s))|].
    destruct (subscribe _ _ _ _ _) as [[subs' rs] ok] eqn:E. intros [= <- <-].
    apply (Hsub _ _ _ _ _ E); [by apply note_alive|]. intros r Hr. apply elem_of_app. by right.
  - destruct (subscribe _ _ _ _ _) as [[subs' rs] ok] eqn:E. intros [= <- <-].
    apply (Hsub _ _ _ _ _ E); [by apply note_alive|done].
Qed.

(** The machine behind a live handle. *)
Lemma linkUpdate_ready h obs now h' adv :
  h <> None -> required_subscriptions obs <> 0 -> linkUpdate h obs now = (h', Some adv) ->
  BleLink.state adv = classify obs.
Proof.
  intros Hh Hr E. destruct h as [ctx|]; [|done]. pose proof (linkUpdate_machine ctx obs now Hr) as H.
  pose proof (update_advice (machine ctx) obs now) as Ha. destruct (update (machine ctx) obs now) as [m a].
  destruct H as (ctx' & E' & _). rewrite E' in E. injection E as <- <-. cbn in Ha. by rewrite Ha.
Qed.

(** What it takes for a turn to end the climb. *)
Record reached (wanted : option string) (s : Sight) (c : Climb) (d : BlueZDevice) (a : Attached) (c' : Climb)
    : Prop := {
  reach_device : candidate wanted (s_devices s) = Some d /\ d_connected d = true;
  reach_chars : gattCharacteristics d <> [] /\ complete (c_writes c') (c_notifies c') = true;
  reach_count : (3 <= length (subscribed c'))%nat;
  reach_attached : a = attached_of c';
  reach_ok : climb_ok c' /\ subscribed c' = subscribed c;
}.

Lemma classify_ready obs :
  classify obs = LinkState.kReady ->
  connected obs = true /\ attribute_count obs <> 0 /\ control_chars_found obs = true /\
  required_subscriptions obs <= subscribed_count obs.
Proof. rewrite classify_spec. intros (H1 & [H2 H3] & _ & H4). done. Qed.

Lemma climb_turn_cases wanted s c :
  climb_ok c ->
  match climb_turn wanted s c with
  | Attach d a c' => reached wanted s c d a c'
  | Thrown _ c' => climb_ok c'
  | Again c' reqs => advanced s c c' reqs
  end.
Proof.
  intros Hok. unfold climb_turn. set (dev := candidate wanted (s_devices s)).
  destruct (rescan_ok dev c Hok) as [Hok1 Hsub]. set (c1 := rescan dev c) in *.
  set (cl := classicLink (s_devices s)).
  pose proof (linkUpdate_alive (link c1) (observe dev cl c1) (s_now_ms s) (ok_link c1 Hok1)) as Hal.
  pose proof (linkUpdate_ready (link c1) (observe dev cl c1) (s_now_ms s)) as Hst.
  destruct (linkUpdate _ _ _) as [h advice]. cbn in Hal.
  destruct advice as [adv|]; [|by apply set_link_ok].
  pose proof (set_link_ok h (Some adv) c1 Hal Hok1) as Hok2. set (c2 := set_link h (Some adv) c1) in *.
  specialize (Hst h adv (ok_link c1 Hok1) ltac:(done) eq_refl).
  case_bool_decide as Er.
  - rewrite Er in Hst. symmetry in Hst. apply classify_ready in Hst as (H1 & H2 & H3 & H4). cbn in *.
    destruct dev as [d|] eqn:Ed; [|done]. split; try done.
    + split; [|done]. intros E. by rewrite E in H2.
    + change (subscribed c2) with (subscribed c1). lia.
  - destruct (act_on adv dev cl (s_answers s) c2) as [[c' reqs]|e] eqn:Ea; [|done].
    destruct (act_on_advances s adv dev cl c2 c' reqs Hok2 Ea) as [A1 A2 A3].
    change (subscribed c2) with (subscribed c1) in *. rewrite Hsub in A2, A3. by split.
Qed.

(** Every subscription held was made in this climb. *)
Definition accounted (turns : list Sight) (subs0 subs : list Channel) (reqs : list Request) : Prop :=
  forall ch, ch ∈ subs -> ch ∈ subs0 \/
    (StartNotify ch ∈ reqs /\ exists s, s ∈ turns /\ a_start (s_answers s) ch = true).

Lemma climb_attached wanted timeout turns : forall c0 d a c reqs,
  climb_ok c0 -> climb wanted timeout turns c0 = (Attached_ d a, c, reqs) ->
  (exists s c1, s ∈ turns /\ s_check_ms s < timeout /\ reached wanted s c1 d a c) /\
  accounted turns (subscribed c0) (subscribed c) reqs.
Proof.
  induction turns as [|s turns IH]; intros c0 d a c reqs Hok E; cbn [climb] in E; [done|].
  destruct (s_check_ms s <? timeout) eqn:Et; [|done]. apply Z.ltb_lt in Et.
  pose proof (climb_turn_cases wanted s c0 Hok) as Hturn.
  destruct (climb_turn wanted s c0) as [d' a' c'|e c'|c' reqs'].
  - injection E as <- <- <- <-. split; [exists s, c0; split_and!; [left|done|done]|].
    intros ch Hch. left. by rewrite (proj2 (reach_ok _ _ _ _ _ _ Hturn)) in Hch.
  - done.
  - destruct (climb wanted timeout turns c') as [[r c''] reqs''] eqn:Ec. injection E as -> -> <-.
    destruct Hturn as [A1 A2 A3]. destruct (IH c' d a c reqs'' A1 Ec) as [(s' & c1 & Hs & Ht & Hr) Hacc].
    split; [exists s', c1; split_and!; [by right|done|done]|].
    intros ch Hch. destruct (Hacc ch Hch) as [Hc'|(Hreq & s2 & Hs2 & Hst)].
    + destruct (A3 ch Hc') as [|[Hreq Hst]]; [by left|]. right.
      split; [apply elem_of_app; by left|]. exists s. split; [left|done].
    + right. split; [apply elem_of_app; by right|]. exists s2. split; [by right|done].
Qed.

Lemma complete_spec ws ns ch :
  complete ws ns = true -> ch ∈ [kCommand; kSettings; kQuery] -> ch ∈ ws.*1 /\ ch ∈ ns.*1.
Proof.
  unfold complete. cbn. rewrite !andb_true_iff, !bool_decide_eq_true. set_solver.
Qed.

(** Three distinct channels out of three. *)
Lemma three_channels (l : list Channel) :
  NoDup l -> (3 <= length l)%nat -> l ⊆ [kCommand; kSettings; kQuery] -> [kCommand; kSettings; kQuery] ⊆ l.
Proof.
  intros Hn Hlen Hsub. apply NoDup_submseteq in Hsub; [|done].
  apply submseteq_length_Permutation in Hsub; [|done]. by rewrite Hsub.
Qed.

Lemma start_climb_ok ctx : climb_ok (start_climb (Some ctx)).
Proof. split; cbn; [done| |]; (split; [constructor|set_solver]). Qed.

(** ** Properties *)

(** C32: bring-up returns only a camera that can be used, as far as the machine
    asks.  The device is one BlueZ showed, connected and exposing attributes; the
    three control channels have both characteristics; at least three channels are
    subscribed, each by a [StartNotify] that returned during this climb; and if
    the optional channel was not found, those three are the control channels. *)
Theorem bring_up_sound ctx wanted timeout turns d a c reqs :
  bringUp (Some ctx) wanted timeout turns = (Attached_ d a, c, reqs) ->
  (exists s, s ∈ turns /\ s_check_ms s < timeout /\ candidate wanted (s_devices s) = Some d) /\
  d_connected d = true /\ gattCharacteristics d <> [] /\
  (forall ch, ch ∈ [kCommand; kSettings; kQuery] -> ch ∈ writes a /\ ch ∈ (notifies a).*1) /\
  NoDup (subscribed c) /\ (3 <= length (subscribed c))%nat /\
  (forall ch, ch ∈ subscribed c ->
     StartNotify ch ∈ reqs /\ exists s, s ∈ turns /\ a_start (s_answers s) ch = true) /\
  ((kNetwork ∉ (notifies a).*1) -> [kCommand; kSettings; kQuery] ⊆ subscribed c).
Proof.
  intros E. destruct (climb_attached wanted timeout turns _ d a c reqs (start_climb_ok ctx) E)
    as [(s & c1 & Hs & Ht & [[H1 H2] [H3 H4] H5 H6 [H7 _]]) Hacc].
  destruct H7 as [_ [N K] [U I]].
  assert ((notifies a).*1 = (c_notifies c).*1) as Hn.
  { rewrite H6. cbn. by rewrite <- list_fmap_compose. }
  split_and!; [by exists s|done|done| |done|done| |].
  - intros ch Hch. rewrite Hn, H6. by apply complete_spec.
  - intros ch Hch. destruct (Hacc ch Hch) as [Hno|]; [by apply not_elem_of_nil in Hno|done].
  - rewrite Hn. intros Hnet. apply three_channels; [done|done|].
    intros x Hx. specialize (I x Hx). specialize (K x I). unfold known in K.
    assert (x <> kNetwork) by (intros ->; done). set_solver.
Qed.

(** ** The link handle between climbs *)

(** Nothing of one climb's judgement reaches the next.  The link handle is
    kept across reconnects so that backoff accumulates; but a climb starts with
    no subscription, so the first thing it tells a machine that was ready is that
    it is not, and that change of stage forgets every failure recorded. *)
Theorem reconnect_forgets_backoff m wanted s :
  state_ m = LinkState.kReady ->
  let device := candidate wanted (s_devices s) in
  let classic := classicLink (s_devices s) in
  let c := rescan device (start_climb (Some (mkLinkContext m EmptyString 0))) in
  let m' := (update m (observe device classic c) (s_now_ms s)).1 in
  state_ m' <> LinkState.kReady /\ attempts_ m' = 0 /\ state_since_ms_ m' = s_now_ms s /\
  BleLink.retry_at_ms (update m (observe device classic c) (s_now_ms s)).2 = 0.
Proof.
  intros Hm. cbv zeta. set (c := rescan _ _). set (obs := observe _ _ c).
  assert (classify obs <> LinkState.kReady) as Hne.
  { intros H. apply classify_ready in H as (_ & _ & _ & H). unfold obs in H. cbn in H.
    assert (subscribed c = []) as E.
    { unfold c, rescan. destruct (candidate _ _); [|done]. destruct (_ && _); [|done]. by destruct (locate _ _). }
    rewrite E in H. cbn in H. lia. }
  assert (fold_observation m obs (s_now_ms s) =
    note_bond (mkLinkMachine (cfg_ m) (classify obs) (s_now_ms s) 0 0 (seen_bonded_without_encryption_ m)) obs) as Hf.
  { unfold fold_observation, enter. rewrite bool_decide_eq_false_2; [done|]. by rewrite Hm. }
  rewrite update_machine, update_advice. cbn [BleLink.retry_at_ms]. rewrite Hf. unfold note_bond, retry_at.
  destruct (_ && _); cbn; by destruct (classify obs).
Qed.

(** A loop whose clock reaches the deadline has ended. *)
Theorem bring_up_ends link wanted timeout turns s :
  s ∈ turns -> timeout <= s_check_ms s -> (bringUp link wanted timeout turns).1.1 <> Climbing.
Proof.
  unfold bringUp. generalize (start_climb link). induction turns as [|s' turns IH]; intros c Hs Ht.
  { by apply not_elem_of_nil in Hs. }
  cbn [climb]. destruct (s_check_ms s' <? timeout) eqn:E; [|done].
  apply elem_of_cons in Hs as [->|Hs]; [apply Z.ltb_lt in E; lia|].
  destruct (climb_turn wanted s' c) as [d a c'|e c'|c' reqs]; [done|done|].
  specialize (IH c' Hs Ht). by destruct (climb wanted timeout turns c') as [[r c''] reqs'].
Qed.

(** ** Witnesses *)

Definition pair_of (w n : string) : list Characteristic := [mkChar (gp w) 517; mkChar (gp n) 517].

(** A camera as BlueZ shows it, with some of its channels. *)
Definition camera (is_connected : bool) (cs : list Characteristic) : BlueZDevice :=
  mkDevice "/org/bluez/hci0/dev_1" "C0:00:00:00:00:01" "random" "GoPro 1234" is_connected true
    ["0000FEA6-0000-1000-8000-00805F9B34FB"%string] cs.

Definition control_pairs : list Characteristic :=
  pair_of "0072" "0073" ++ pair_of "0074" "0075" ++ pair_of "0076" "0077".

Definition answering_all (except : list Channel) (now : Z) : Answers :=
  mkAnswers true true (fun _ => false) (fun ch => bool_decide (ch ∉ except)) now.

(** What BlueZ shows at [t], failing [StartNotify] on some channels. *)
Definition at_time (t : Z) (is_connected : bool) (cs : list Characteristic) (except : list Channel) : Sight :=
  mkSight t [camera is_connected cs] t (answering_all except t).

Definition fresh_link : LinkContext :=
  mkLinkContext (LinkMachine_init LinkConfig_default) EmptyString 0.

Definition plain_climb : list Sight :=
  [at_time 0 false [] []; at_time 900 true [] []; at_time 1500 true control_pairs [];
   at_time 2100 true control_pairs []; at_time 2200 true control_pairs []].

Lemma bring_up_sound_witness :
  let '(r, c, reqs) := bringUp (Some fresh_link) None 120000 plain_climb in
  reqs = [Connect; StartNotify 0; StartNotify 1; StartNotify 2] /\ [0; 1; 2] ⊆ subscribed c.
Proof.
  assert ((bringUp (Some fresh_link) None 120000 plain_climb).1.1 =
            Attached_ (camera true control_pairs) (mkAttached [0; 1; 2] [(0, 517); (1, 517); (2, 517)]) /\
          (bringUp (Some fresh_link) None 120000 plain_climb).2 =
            [Connect; StartNotify 0; StartNotify 1; StartNotify 2]) as [E1 E2] by (vm_compute; done).
  destruct (bringUp (Some fresh_link) None 120000 plain_climb) as [[r c] reqs] eqn:E.
  cbn in E1, E2. subst r reqs. split; [done|].
  apply (bring_up_sound fresh_link None 120000 plain_climb _ _ c _ E). clear. cbn. set_solver.
Defined.

Lemma reconnect_forgets_backoff_witness :
  let m := mkLinkMachine LinkConfig_default LinkState.kReady 95000 94000 0 false in
  let c := start_climb (Some (mkLinkContext m EmptyString 0)) in
  state_ (update m (observe None None c) 3).1 = LinkState.kAbsent /\
  state_since_ms_ (update m (observe None None c) 3).1 = 3.
Proof.
  cbv zeta. split; [reflexivity|].
  apply (reconnect_forgets_backoff (mkLinkMachine LinkConfig_default LinkState.kReady 95000 94000 0 false)
    None (mkSight 0 [] 3 (answering_all [] 3))). reflexivity.
Defined.

(** ** What modelling showed *)

(** The optional channel counts as one of the three: with it located before the
    query channel and the query channel refusing, bring-up reports a usable
    camera whose query channel, on which the ready gate depends, is deaf. *)
Definition partial_pairs : list Characteristic :=
  pair_of "0072" "0073" ++ pair_of "0074" "0075" ++ pair_of "0091" "0092".

Definition deaf_climb : list Sight :=
  [at_time 0 true partial_pairs []; at_time 500 true (partial_pairs ++ pair_of "0076" "0077") [];
   at_time 600 true (partial_pairs ++ pair_of "0076" "0077") [kQuery];
   at_time 1700 true (partial_pairs ++ pair_of "0076" "0077") [kQuery]].

Example ready_with_query_deaf :
  let '(r, c, reqs) := bringUp (Some fresh_link) None 120000 deaf_climb in
  (exists d a, r = Attached_ d a) /\ subscribed c = [kCommand; kSettings; kNetwork].
Proof. vm_compute. split; [by do 2 eexists|done]. Qed.

(** Where the optional channel refuses instead, [_subscribe] throws before it
    reaches the query channel, every time: the channel that must not be required
    keeps the camera from being brought up. *)
Example optional_channel_blocks :
  let all := partial_pairs ++ pair_of "0076" "0077" in
  let again t := at_time t true all [kNetwork] in
  let '(r, c, reqs) := bringUp (Some fresh_link) None 120000
    ([at_time 0 true partial_pairs []; at_time 500 true all []] ++ (again <$> [600; 1700; 3800; 7900; 16000; 120000])) in
  r = Thrown_ (LinkState.kEncrypted, StallReason.kSubscribeFailed, BleLink.detail_subscribe_failed) /\
  StartNotify kQuery ∉ reqs.
Proof.
  vm_compute. split; [done|]. intros H. apply list_elem_of_In in H. cbn in H.
  repeat (destruct H as [H|H]; [discriminate|]). done.
Qed.

(** Subscriptions made before the link drops within one climb are still counted
    after it is back: the camera is declared ready at once, with no channel
    subscribed on the link that is up. *)
Example drop_within_climb_is_forgotten :
  let '(r, c, reqs) := bringUp (Some fresh_link) None 120000
    [at_time 0 true control_pairs []; at_time 100 true control_pairs []; at_time 200 false [] [];
     at_time 1000 true control_pairs []] in
  (exists d a, r = Attached_ d a) /\
  reqs = [StartNotify 0; StartNotify 1; StartNotify 2; Connect].
Proof. vm_compute. split; [by do 2 eexists|done]. Qed.
