(* ===== verification/BringUpReady.v ===== *)
(** * A cooperative world is climbed
    ([lib/src/ble_transport.dart], [GoProBleTransport._bringUp])

    [BringUp] says what holds when a climb succeeds; here is when it does.  The
    loop runs against a world that shows something at each turn and reacts to what
    was asked of it.  The world promises little: what the next step needs may have
    to be asked for several times, operations may fail meanwhile, and everything
    may be slow, but asking for the right thing helps, and what has been reached is
    not lost. *)

From stdpp Require Import strings.
From S2P Require Import Prelude BleSession BleLink LinkBridge BleTransport BringUp.
Local Open Scope Z_scope.

(** ** Worlds *)

(** BlueZ and the camera, turn by turn. *)
Class World (E : Type) := {
  shows : E -> Sight;
  reacts : E -> list Request -> E;
}.

(** The device exposes both characteristics of the three control channels. *)
Definition exposes (d : BlueZDevice) : bool :=
  let has u := existsb (fun c => bool_decide (toLowerCase (uuid c) = u)) (gattCharacteristics d) in
  forallb (fun e => has e.2.1 && has e.2.2) characteristics.

(** Nothing is missing: the camera is connected, exposes its channels, can be
    paired if it is not, and lets every channel be subscribed. *)
Definition settled (wanted : option string) (s : Sight) : bool :=
  match candidate wanted (s_devices s) with
  | Some d => d_connected d && exposes d && (paired d || a_operation (s_answers s)) && forallb (a_start (s_answers s)) known
  | None => false
  end.

Definition is_request (r : Request) (reqs : list Request) : bool :=
  existsb (fun r' =>
    match r, r' with
    | Discover, Discover | DisconnectClassic, DisconnectClassic | Connect, Connect => true
    | Pair, (Pair | StartNotify _) => true
    | _, _ => false
    end) reqs.

(** The world was asked for what it lacks first; a camera that exposes its
    channels wants to be paired or subscribed. *)
Definition asked (wanted : option string) (s : Sight) (reqs : list Request) : bool :=
  match candidate wanted (s_devices s), classicLink (s_devices s) with
  | None, Some _ => is_request DisconnectClassic reqs
  | None, None => is_request Discover reqs
  | Some d, _ =>
      if negb (d_connected d) then is_request Connect reqs
      else if exposes d then is_request Pair reqs else true
  end.

(** [rank e]: how many more times the world has to be asked; [pace]: how long a
    turn takes at most. *)
Class Cooperative (wanted : option string) {E : Type} (W : World E) (rank : E -> nat) (pace : Z) := {
  coop_adapter : forall e, a_adapter (s_answers (shows e)) = true;
  coop_progress : forall e reqs, settled wanted (shows e) = false -> asked wanted (shows e) reqs = true ->
    (rank (reacts e reqs) < rank e)%nat;
  coop_settled : forall e reqs, settled wanted (shows e) = true -> settled wanted (shows (reacts e reqs)) = true;
  coop_pace_pos : 0 <= pace;
  coop_pace : forall e reqs, s_check_ms (shows (reacts e reqs)) <= s_check_ms (shows e) + pace;
}.

(** The loop and the world together: what the loop is shown in [n] turns. *)
Fixpoint turns_with {E : Type} `{World E} (wanted : option string) (n : nat) (e : E) (c : Climb) : list Sight :=
  match n with
  | O => []
  | S n =>
      shows e ::
      match climb_turn wanted (shows e) c with
      | Again c' reqs => turns_with wanted n (reacts e reqs) c'
      | _ => []
      end
  end.

(** ** What a turn asks *)

(** The machine's action for a stage. *)
Definition action_of (s : LinkState.t) (classic : bool) : LinkAction.t :=
  match s with
  | LinkState.kAbsent => if classic then LinkAction.kDisconnectClassic else LinkAction.kScan
  | LinkState.kAdvertising => LinkAction.kConnect
  | LinkState.kConnected => LinkAction.kWaitForServices
  | LinkState.kServicesResolved => LinkAction.kPair
  | LinkState.kEncrypted => LinkAction.kSubscribe
  | LinkState.kReady => LinkAction.kNone
  end.

Lemma advise_action m obs t : (advise m obs t).1.1 = action_of (state_ m) (classic_link_up obs).
Proof. unfold advise. destruct (state_ m); cbn; repeat case_match; done. Qed.

Lemma linkUpdate_action ctx obs now :
  required_subscriptions obs <> 0 ->
  exists ctx' adv, linkUpdate (Some ctx) obs now = (Some ctx', Some adv) /\
    BleLink.state adv = classify obs /\ BleLink.action adv = action_of (classify obs) (classic_link_up obs).
Proof.
  intros Hr. pose proof (linkUpdate_machine ctx obs now Hr) as H.
  pose proof (fold_observation_state (machine ctx) obs now) as Hs.
  unfold update in H. pose proof (advise_action (fold_observation (machine ctx) obs now) obs
    (u64_sub now (state_since_ms_ (fold_observation (machine ctx) obs now)))) as Ha.
  destruct (advise _ _ _) as [[a r] d]. cbn in H, Ha. destruct H as (ctx' & E & _).
  eexists ctx', _. split; [exact E|]. cbn. by rewrite Ha, Hs.
Qed.

(** A climb with channels located. *)
Lemma subscribe_asks ans entries : forall subs only,
  (exists ch, ch ∈ entries /\ ch ∉ subs) -> only <> Some 0%nat ->
  is_request Pair (subscribe ans entries subs 0 only).1.2 = true.
Proof.
  induction entries as [|ch entries IH]; intros subs only (x & Hx & Hn) Ho; [by apply not_elem_of_nil in Hx|].
  cbn [subscribe]. case_bool_decide as Hin.
  - apply IH; [|done]. exists x. split; [|done]. by apply elem_of_cons in Hx as [->|].
  - destruct (match only with Some n => (n <=? 0)%nat | None => false end) eqn:E.
    { destruct only as [[|n]|]; try done. }
    assert (forall l, is_request Pair (((if a_notifying ans ch then [StopNotify ch] else []) ++ [StartNotify ch]) ++ l) = true) as H.
    { intros l. unfold is_request. rewrite !existsb_app. cbn. by rewrite orb_true_r. }
    destruct (a_start ans ch); [|specialize (H []); by rewrite app_nil_r in H].
    destruct (subscribe ans entries _ _ _) as [[s r] ok]. apply H.
Qed.

Lemma is_request_app r l l' : is_request r (l ++ l') = is_request r l || is_request r l'.
Proof. apply existsb_app. Qed.

(** Once what is exposed has been looked at, both maps have the control channels. *)
Lemma locate_one_keys entry m c ch :
  (ch ∈ m.1.*1 -> ch ∈ (locate_one entry m c).1.*1) /\ (ch ∈ m.2.*1 -> ch ∈ (locate_one entry m c).2.*1).
Proof.
  unfold locate_one. cbn. split; (case_bool_decide; [apply dict_put_incl | done]).
Qed.

Definition located (entry : Channel * (string * string)) (cs : list Characteristic) (m : chars * chars) : Prop :=
  (existsb (fun c => bool_decide (toLowerCase (uuid c) = entry.2.1)) cs = true -> entry.1 ∈ m.1.*1) /\
  (existsb (fun c => bool_decide (toLowerCase (uuid c) = entry.2.2)) cs = true -> entry.1 ∈ m.2.*1).

Lemma fold_locate_one_keys entry cs ch : forall m,
  (ch ∈ m.1.*1 -> ch ∈ (fold_left (locate_one entry) cs m).1.*1) /\
  (ch ∈ m.2.*1 -> ch ∈ (fold_left (locate_one entry) cs m).2.*1).
Proof.
  induction cs as [|c cs IH]; intros m; [done|]. cbn [fold_left].
  destruct (IH (locate_one entry m c)), (locate_one_keys entry m c ch). split; auto.
Qed.

Lemma dict_put_has {A} (ch : Channel) (x : A) m : ch ∈ (dict_put ch x m).*1.
Proof. rewrite dict_put_keys. case_bool_decide as E; [done|]. apply elem_of_app. right. by left. Qed.

Lemma fold_locate_one_has entry cs : forall m, located entry cs (fold_left (locate_one entry) cs m).
Proof.
  induction cs as [|c cs IH]; intros m; [by split|]. cbn [fold_left]. destruct (IH (locate_one entry m c)) as [H1 H2].
  destruct (fold_locate_one_keys entry cs entry.1 (locate_one entry m c)) as [K1 K2].
  split; cbn [existsb]; intros [Hc|Hc]%orb_true_iff; auto; [apply K1 | apply K2]; unfold locate_one; cbn;
    rewrite Hc; apply dict_put_has.
Qed.

Lemma locate_complete cs ws ns :
  forallb (fun e => existsb (fun c => bool_decide (toLowerCase (uuid c) = e.2.1)) cs &&
                    existsb (fun c => bool_decide (toLowerCase (uuid c) = e.2.2)) cs) characteristics = true ->
  complete (locate cs (ws, ns)).1 (locate cs (ws, ns)).2 = true.
Proof.
  intros H. unfold complete. apply forallb_forall. intros e He. rewrite forallb_forall in H.
  pose proof (H e He) as [E1 E2]%andb_true_iff. unfold locate.
  assert (e ∈ characteristics ++ optionalChars) as Hin by (apply elem_of_app; left; by apply list_elem_of_In).
  clear H He. revert Hin. generalize (ws, ns). induction (characteristics ++ optionalChars) as [|x l IH]; intros m Hin.
  { by apply not_elem_of_nil in Hin. }
  cbn [fold_left]. apply elem_of_cons in Hin as [<-|Hin]; [|by apply IH].
  destruct (fold_locate_one_has e cs m) as [H1 H2]. specialize (H1 E1). specialize (H2 E2).
  clear IH. revert H1 H2. generalize (fold_left (locate_one e) cs m). induction l as [|y l IH]; intros m' H1 H2.
  { cbn [fold_left]. by rewrite !bool_decide_eq_true_2. }
  cbn [fold_left]. destruct (fold_locate_one_keys y cs e.1 m') as [K1 K2]. apply IH; auto.
Qed.

(** ** One turn *)

(** A turn acts for the stage the observation proves, unless that is the last. *)
Lemma climb_turn_stage wanted s c :
  climb_ok c -> a_adapter (s_answers s) = true ->
  let device := candidate wanted (s_devices s) in
  let classic := classicLink (s_devices s) in
  let c1 := rescan device c in
  let st := classify (observe device classic c1) in
  match climb_turn wanted s c with
  | Attach _ _ _ => True
  | Thrown _ _ => False
  | Again c' reqs => st <> LinkState.kReady /\ exists h adv,
      act_on adv device classic (s_answers s) (set_link h (Some adv) c1) = inl (c', reqs) /\
      BleLink.action adv = action_of st (bool_decide (classic <> None))
  end.
Proof.
  intros Hok Had. cbv zeta. unfold climb_turn. set (device := candidate _ _). set (classic := classicLink _).
  destruct (rescan_ok device c Hok) as [[Hl _ _] _]. set (c1 := rescan device c) in *.
  destruct (link c1) as [ctx|]; [|done].
  destruct (linkUpdate_action ctx (observe device classic c1) (s_now_ms s) ltac:(done)) as (ctx' & adv & -> & Hst & Ha).
  case_bool_decide as Er.
  - destruct device as [d|]; [done|]. rewrite Hst in Er. apply classify_ready in Er as [[=] _].
  - destruct (act_on adv device classic (s_answers s) (set_link (Some ctx') (Some adv) c1)) as [[c' reqs]|e] eqn:E.
    + split; [congruence|]. by exists (Some ctx'), adv.
    + unfold act_on in E. rewrite Had in E. repeat case_match; done.
Qed.

(** After a look at a camera that exposes its channels, the machine is past
    discovery. *)
Lemma exposed_stage wanted s c d :
  candidate wanted (s_devices s) = Some d -> d_connected d = true -> exposes d = true ->
  let c1 := rescan (Some d) c in
  complete (c_writes c1) (c_notifies c1) = true /\
  classify (observe (Some d) (classicLink (s_devices s)) c1) =
    (if bool_decide (subscribed c1 = []) then LinkState.kServicesResolved
     else if (length (subscribed c1) <? 3)%nat then LinkState.kEncrypted else LinkState.kReady).
Proof.
  intros Hd Hcon Hex. cbv zeta.
  assert (complete (c_writes (rescan (Some d) c)) (c_notifies (rescan (Some d) c)) = true) as Hc.
  { unfold rescan. rewrite Hcon. destruct (complete (c_writes c) (c_notifies c)) eqn:Ec; [done|]. cbn [andb negb].
    pose proof (locate_complete (gattCharacteristics d) (c_writes c) (c_notifies c) Hex) as H.
    by destruct (locate _ _). }
  split; [done|]. set (c1 := rescan (Some d) c) in *.
  assert (gattCharacteristics d <> []) as Hne by (intros E; unfold exposes in Hex; by rewrite E in Hex).
  unfold classify, observe. cbn [connected attribute_count control_chars_found notify_succeeded subscribed_count required_subscriptions].
  rewrite Hcon, Hc. cbn [negb orb]. rewrite orb_false_r.
  destruct (gattCharacteristics d) as [|x l]; [done|]. replace (Z.of_nat (length (x :: l)) =? 0) with false by (symmetry; apply Z.eqb_neq; cbn [length]; lia).
  case_bool_decide; cbn [negb]; [done|]. change (length characteristics) with 3%nat.
  destruct (Nat.ltb_spec (length (subscribed c1)) 3) as [H1|H1];
    destruct (Z.ltb_spec (Z.of_nat (length (subscribed c1))) (Z.of_nat 3)) as [H2|H2]; try done; lia.
Qed.

(** The three control channels make three subscriptions. *)
Lemma controls_count (subs : list Channel) (w m : chars) :
  complete w m = true -> m.*1 ⊆ subs -> (3 <= length subs)%nat.
Proof.
  intros Hc Hs. assert ([kCommand; kSettings; kQuery] ⊆ subs) as H.
  { intros ch Hch. apply Hs. by apply (complete_spec w m). }
  apply NoDup_submseteq in H; [by apply submseteq_length in H|].
  repeat constructor; set_solver.
Qed.

Lemma forallb_known (f : Channel -> bool) l ch : forallb f known = true -> l ⊆ known -> ch ∈ l -> f ch = true.
Proof. intros H Hl Hch. rewrite forallb_forall in H. apply H, list_elem_of_In, Hl, Hch. Qed.

Lemma turn_asks wanted s c :
  climb_ok c -> a_adapter (s_answers s) = true ->
  match climb_turn wanted s c with
  | Attach _ _ _ => True
  | Thrown _ _ => False
  | Again c' reqs => climb_ok c' /\ asked wanted s reqs = true
  end.
Proof.
  intros Hok Had. pose proof (climb_turn_stage wanted s c Hok Had) as H. pose proof (climb_turn_cases wanted s c Hok) as Hc.
  destruct (climb_turn wanted s c) as [d a c'|e c'|c' reqs]; [done..|]. split; [apply Hc|]. clear Hc.
  destruct H as (Hst & h & adv & Ha & Hact). unfold asked.
  destruct (candidate wanted (s_devices s)) as [d|] eqn:Ed; [destruct (d_connected d) eqn:Ec|]; cbn [negb].
  - destruct (exposes d) eqn:Ex; [|done]. destruct (exposed_stage wanted s c d Ed Ec Ex) as [Hcmp Hcl].
    rewrite Hcl in Hst, Hact. unfold act_on in Ha. destruct (rescan_ok (Some d) c Hok) as [[_ _ [Hnd _]] _].
    set (c1 := rescan (Some d) c) in *.
    assert (forall only, only <> Some 0%nat -> (length (subscribed c1) < 3)%nat ->
      is_request Pair (subscribe (s_answers s) (c_notifies c1).*1 (subscribed c1) 0 only).1.2 = true) as Hsub.
    { intros only Ho Hlen. apply subscribe_asks; [|done].
      destruct (decide (Exists (fun ch => ch ∉ subscribed c1) (c_notifies c1).*1)) as [(x & H1 & H2)%Exists_exists|Hno]; [by exists x|].
      exfalso. enough (3 <= length (subscribed c1))%nat by lia. apply (controls_count _ (c_writes c1) (c_notifies c1) Hcmp).
      intros x Hx. destruct (decide (x ∈ subscribed c1)) as [|Hn]; [done|]. exfalso. apply Hno, Exists_exists. by exists x. }
    case_bool_decide as Es; cbn [action_of] in Hact; rewrite Hact in Ha.
    + destruct (_ && _); [by injection Ha as <- <-|].
      specialize (Hsub (Some 1%nat) ltac:(done) ltac:(rewrite Es; cbn; lia)). cbn [c_notifies subscribed set_link] in Ha.
      destruct (subscribe _ _ _ _ _) as [[s' r] ok]. injection Ha as <- <-. cbn [fst snd] in Hsub.
      rewrite is_request_app, Hsub. apply orb_true_r.
    + destruct (Nat.ltb_spec (length (subscribed c1)) 3) as [Hl|Hl]; [|done]. cbn [action_of] in Ha.
      specialize (Hsub None ltac:(done) Hl). cbn [c_notifies subscribed set_link] in Ha.
      destruct (subscribe _ _ _ _ _) as [[s' r] ok]. injection Ha as <- <-. exact Hsub.
  - unfold observe, classify in Hact. cbn [connected le_candidate_present] in Hact. rewrite Ec in Hact. cbn [negb] in Hact.
    rewrite bool_decide_eq_true_2 in Hact by done. cbn [action_of] in Hact. unfold act_on in Ha. rewrite Hact in Ha.
    by injection Ha as <- <-.
  - unfold observe, classify in Hact. cbn [connected le_candidate_present negb] in Hact.
    rewrite bool_decide_eq_false_2 in Hact by (by intros []). cbn [action_of] in Hact. unfold act_on in Ha. rewrite Hact in Ha.
    destruct (classicLink (s_devices s)) as [k|].
    + rewrite bool_decide_eq_true_2 in Ha by done. by injection Ha as <- <-.
    + rewrite bool_decide_eq_false_2 in Ha by (by intros []). rewrite Had in Ha. by injection Ha as <- <-.
Qed.

(** Turns left once nothing is missing: pair, subscribe the rest, attach. *)
Definition left_to_do (c : Climb) : nat :=
  if bool_decide (subscribed c = []) then 2 else if (length (subscribed c) <? 3)%nat then 1 else 0.

Lemma subscribe_first ans entries :
  entries <> [] -> (forall ch, ch ∈ entries -> a_start ans ch = true) ->
  (subscribe ans entries [] 0 (Some 1%nat)).1.1 <> [].
Proof.
  destruct entries as [|ch entries]; [done|]. intros _ Hs. cbn [subscribe].
  rewrite bool_decide_eq_false_2 by apply not_elem_of_nil. rewrite (Hs ch) by left. cbn [Nat.leb app].
  pose proof (subscribe_spec ans entries [ch] 1 (Some 1%nat)) as H.
  destruct (subscribe ans entries [ch] 1 (Some 1%nat)) as [[s r] ok]. destruct H as [_ Hi _ _ _]. cbn.
  intros ->. specialize (Hi ch ltac:(left)). by apply not_elem_of_nil in Hi.
Qed.

Lemma turn_settles wanted s c :
  climb_ok c -> a_adapter (s_answers s) = true -> settled wanted s = true ->
  match climb_turn wanted s c with
  | Attach _ _ _ => True
  | Thrown _ _ => False
  | Again c' _ => (S (left_to_do c') <= left_to_do c)%nat
  end.
Proof.
  intros Hok Had Hs. pose proof (climb_turn_stage wanted s c Hok Had) as H.
  destruct (climb_turn wanted s c) as [d' a c'|e c'|c' reqs]; [done..|].
  unfold settled in Hs. destruct (candidate wanted (s_devices s)) as [d|] eqn:Ed; [|done].
  rewrite !andb_true_iff in Hs. destruct Hs as [[[Hcon Hex] Hpair] Hstart].
  destruct H as (Hst & h & adv & Ha & Hact). destruct (exposed_stage wanted s c d Ed Hcon Hex) as [Hcmp Hcl].
  rewrite Hcl in Hst, Hact. destruct (rescan_ok (Some d) c Hok) as [[_ [_ Hk] [Hnd _]] Hsub].
  set (c1 := rescan (Some d) c) in *. clearbody c1. rewrite Hsub in *.
  assert (forall ch, ch ∈ (c_notifies c1).*1 -> a_start (s_answers s) ch = true) as Hall.
  { intros ch. by apply forallb_known. }
  unfold left_to_do at 2. unfold act_on in Ha. case_bool_decide as Es; cbn [action_of] in Hact; rewrite Hact in Ha.
  - replace (negb (paired d) && negb (a_operation (s_answers s))) with false in Ha
      by (destruct (paired d), (a_operation (s_answers s)); done).
    cbn [c_notifies subscribed set_link] in Ha. rewrite Hsub, Es in Ha.
    pose proof (subscribe_first (s_answers s) (c_notifies c1).*1) as Hf.
    destruct (subscribe _ _ _ _ _) as [[s' r] ok]. injection Ha as <- _. cbn in Hf. unfold left_to_do. cbn [subscribed].
    rewrite bool_decide_eq_false_2; [destruct (_ <? _)%nat; lia|]. apply Hf; [|done].
    intros E. destruct (complete_spec _ _ kCommand Hcmp ltac:(left)) as [_ Hin]. rewrite E in Hin. by apply not_elem_of_nil in Hin.
  - destruct (length (subscribed c) <? 3)%nat; [|done]. cbn [action_of] in Ha.
    cbn [c_notifies subscribed set_link] in Ha.
    pose proof (subscribe_spec (s_answers s) (c_notifies c1).*1 (subscribed c1) 0 None) as Hspec.
    rewrite Hsub in Hspec, Ha. destruct (subscribe _ _ _ _ _) as [[s' r] ok]. injection Ha as <- _.
    destruct Hspec as [_ _ _ H4 H5]. destruct ok.
    + specialize (H4 eq_refl eq_refl). pose proof (controls_count s' _ _ Hcmp H4) as Hlen. unfold left_to_do. cbn [subscribed].
      destruct (bool_decide_reflect (s' = [])) as [->|_]; [cbn in Hlen; lia|].
      by replace (length s' <? 3)%nat with false by (symmetry; apply Nat.ltb_ge; lia).
    + destruct (H5 eq_refl) as (ch & Hch & _ & Hf). by rewrite Hall in Hf.
Qed.

(** ** The climb *)

Section cooperative.
Context {E : Type} {W : World E} {rank : E -> nat} {pace : Z} (wanted : option string)
  {coop : Cooperative wanted W rank pace}.

(** Turns that are enough. *)
Definition turns_needed (e : E) (c : Climb) : nat :=
  if settled wanted (shows e) then S (left_to_do c) else (rank e + 3)%nat.

Lemma left_to_do_max c : (left_to_do c <= 2)%nat.
Proof. unfold left_to_do. repeat case_match; lia. Qed.

Lemma turns_needed_max e c : (turns_needed e c <= rank e + 3)%nat.
Proof. unfold turns_needed. pose proof (left_to_do_max c). destruct (settled _ _); lia. Qed.

Lemma needed_step e c c' reqs :
  climb_ok c -> climb_turn wanted (shows e) c = Again c' reqs ->
  climb_ok c' /\ (S (turns_needed (reacts e reqs) c') <= turns_needed e c)%nat.
Proof.
  intros Hok Et. pose proof (coop_adapter e) as Had. pose proof (turn_asks wanted _ c Hok Had) as Ha.
  rewrite Et in Ha. destruct Ha as [Hok' Hasked]. split; [done|]. unfold turns_needed.
  destruct (settled wanted (shows e)) eqn:Es.
  - rewrite coop_settled by done. pose proof (turn_settles wanted _ c Hok Had Es) as H. rewrite Et in H. lia.
  - pose proof (coop_progress e reqs Es Hasked). pose proof (left_to_do_max c').
    destruct (settled wanted (shows (reacts e reqs))); lia.
Qed.

Lemma climb_attaches timeout k : forall e c,
  climb_ok c -> (turns_needed e c <= k)%nat -> s_check_ms (shows e) + pace * (Z.of_nat k - 1) < timeout ->
  exists d a c' reqs, climb wanted timeout (turns_with wanted k e c) c = (Attached_ d a, c', reqs).
Proof.
  pose proof (coop_pace_pos (Cooperative := coop)) as Hpos.
  induction k as [|k IH]; intros e c Hok Hk Ht.
  { unfold turns_needed in Hk. destruct (settled _ _); lia. }
  cbn [turns_with climb].
  replace (s_check_ms (shows e) <? timeout) with true by (symmetry; apply Z.ltb_lt; nia).
  pose proof (turn_asks wanted _ c Hok (coop_adapter e)) as Ha. pose proof (needed_step e c) as Hn.
  destruct (climb_turn wanted (shows e) c) as [d a c'|x c'|c' reqs] eqn:Et; [by exists d, a, c', []|done|].
  destruct (Hn c' reqs Hok eq_refl) as [Hok' Hle]. pose proof (coop_pace e reqs) as Hp.
  destruct (IH (reacts e reqs) c' Hok' ltac:(lia)) as (d & a & c'' & reqs' & Eq).
  { destruct k as [|k]; [|nia]. unfold turns_needed in Hle, Hk. destruct (settled wanted (shows (reacts e reqs))); lia. }
  exists d, a, c'', (reqs ++ reqs'). by rewrite Eq.
Qed.

(** C33: in a cooperative world bring-up succeeds.  Whatever the link handle has
    been through, if asking the world for what the next step needs helps within
    [rank e] times, however the operations fail meanwhile, the loop asks for just
    that at every turn, and attaches within three turns more, unless the timeout
    comes first. *)
Theorem bring_up_attaches ctx timeout e :
  s_check_ms (shows e) + pace * (Z.of_nat (rank e) + 2) < timeout ->
  exists d a c reqs,
    bringUp (Some ctx) wanted timeout (turns_with wanted (rank e + 3) e (start_climb (Some ctx))) =
      (Attached_ d a, c, reqs).
Proof.
  intros Ht. apply climb_attaches; [apply start_climb_ok| |].
  - apply turns_needed_max.
  - pose proof (coop_pace_pos (Cooperative := coop)). nia.
Qed.
End cooperative.

(** ** A world that is slow to cooperate *)

(** How many times it will have to be asked, and the clock.  A Classic link is up
    first; then nothing is found for a while; connecting fails once; services come
    late; and pairing is refused once. *)
Definition slow_world : Type := nat * Z.

Definition slow_camera (n : nat) (is_connected : bool) (cs : list Characteristic) : BlueZDevice :=
  mkDevice "/org/bluez/hci0/dev_1" "C0:00:00:00:00:01" "random" "GoPro 1234" is_connected false
    ["0000FEA6-0000-1000-8000-00805F9B34FB"%string] cs.

Definition classic_camera : BlueZDevice :=
  mkDevice "/org/bluez/hci0/dev_2" "D0:00:00:00:00:02" "public" "GoPro 1234" true true [] [].

Definition slow_devices (n : nat) : list BlueZDevice :=
  match n with
  | 0 | 1 => [slow_camera n true control_pairs]
  | 2 => [slow_camera n true []]
  | 3 | 4 => [slow_camera n false []]
  | 5 => []
  | _ => [classic_camera]
  end%nat.

#[export] Instance slow : World slow_world := {
  shows := fun '(n, t) => mkSight t (slow_devices n) t
    (mkAnswers true (negb (bool_decide (n = 1%nat \/ n = 4%nat))) (fun _ => false) (fun _ => true) t);
  reacts := fun '(n, t) reqs =>
    (if asked None (mkSight t (slow_devices n) t (mkAnswers true true (fun _ => false) (fun _ => true) t)) reqs
     then pred n else n, t + 30000);
}.

#[export] Instance slow_cooperates : Cooperative None slow fst 30000.
Proof.
  split.
  - by intros [n t].
  - intros [n t] reqs Hs Ha. cbn in Hs, Ha |- *.
    assert (n <> 0%nat) as Hn by (intros ->; vm_compute in Hs; done).
    unfold asked in *. cbn [s_devices] in *. rewrite Ha. lia.
  - intros [n t] reqs Hs. destruct n as [|n]; [by cbn [reacts slow]; destruct (asked _ _ _)|]. exfalso.
    do 6 (destruct n as [|n]; [vm_compute in Hs; done|]). vm_compute in Hs. done.
  - done.
  - by intros [n t] reqs.
Qed.

Lemma bring_up_attaches_witness :
  exists d a c reqs,
    bringUp (Some fresh_link) None 300000 (turns_with None 9 (6%nat, 0) (start_climb (Some fresh_link))) =
      (Attached_ d a, c, reqs).
Proof. apply (bring_up_attaches (pace := 30000) (rank := fst) None fresh_link 300000 (6%nat, 0)). cbn. lia. Defined.

(** The requests of that run. *)
Example slow_requests :
  (bringUp (Some fresh_link) None 300000 (turns_with None 9 (6%nat, 0) (start_climb (Some fresh_link)))).2 =
    [DisconnectClassic; Discover; Connect; Connect; Pair; Pair; StartNotify kCommand;
     StartNotify kSettings; StartNotify kQuery].
Proof. vm_compute. reflexivity. Qed.
