(* ===== verification/ColdStart.v ===== *)
(** * From nothing to an answer
    ([lib/src/ble_transport.dart], [GoProBleTransport.connect])

    [BringUpReady] and [BleStack] put together: in a cooperative world [connect]
    attaches, the camera it makes is up and has asked for the statuses the ready
    gate needs, and the first command of its owner makes the round trip. *)

From stdpp Require Import strings.
From S2P Require Import Prelude BleProtocol QueryParser CommandQueue BleSession BleBridge BleLink LinkBridge BleTransport BleStack BringUp BringUpReady.
Local Open Scope Z_scope.

(** [_attach] up to its query. *)
Definition attach_channels (a : Attached) : dart unit :=
  modify (fun c => set_chars (writes a) (notifies a).*1 (_subs c) c) ;;;
  when (3 <? min_mtu (notifies a).*2)
    (_ <~ ffi (ASetAttPayload (wrap 32 (min_mtu (notifies a).*2 - 3))) ;; ret tt) ;;;
  modify (fun c => set_chars (_writes c) (_notifies c) (_subs c ++ _notifies c) c).

Lemma native_only_when a : native_only
  (when (3 <? min_mtu (notifies a).*2)
    (_ <~ ffi (ASetAttPayload (wrap 32 (min_mtu (notifies a).*2 - 3))) ;; ret tt)).
Proof.
  unfold when. destruct (3 <? _); auto using native_only_ret, native_only_bind, native_only_ffi.
Qed.

(** What a new camera is after it. *)
Lemma attach_channels_state a c :
  _subs c = [] ->
  exists h p, run_state (attach_channels a) c =
    set_native h p (set_chars (writes a) (notifies a).*1 (notifies a).*1 c).
Proof.
  intros Hs. unfold attach_channels.
  match goal with |- context [bind (modify ?f) ?k] => destruct (run_bind (modify f) k c) as (_ & -> & _) end.
  rewrite run_modify. match goal with |- context [bind ?m ?k] =>
    match goal with |- context [run_state (bind m k) ?x] => destruct (run_bind m k x) as (_ & -> & _) end end.
  destruct (native_only_when a (set_chars (writes a) (notifies a).*1 (_subs c) c)) as (h & p & ev & -> & _).
  exists h, p. cbn [run_result modify]. rewrite run_modify. by rewrite Hs.
Qed.

Lemma attach_split a now c :
  run_state (attach a now) c =
  let c1 := run_state (attach_channels a) c in
  let c2 := run_state (send kQuery [19; kBusyStatusId; kEncodingStatusId] None now) c1 in
  match run_result (send kQuery [19; kBusyStatusId; kEncodingStatusId] None now) c1 with
  | None => c2 | Some _ => set_timers (_watch c2 ++ [propertiesChanged; deviceRemoved]) (_ticker c2) c2 end.
Proof.
  unfold attach, attach_channels, queryStatuses, bind, run_state, run_result, modify.
  destruct (when _ _ _) as [[u c1] ev]. cbn [fst snd].
  match goal with |- context [send ?ch ?l ?p ?t ?x] => destruct (send ch l p t x) as [[[k|] c2] ev2] end; reflexivity.
Qed.

(** *** The camera that [connect] makes *)

Record fresh_camera (a : Attached) (c : Camera) : Prop := {
  fc_up : _state c = up;
  fc_writes : _writes c = writes a;
  fc_subs : _subs c = (notifies a).*1;
  fc_asked : _pending c = [(correlationOf kQuery 19, 0%nat)];
  fc_next : _completers c = 1%nat;
}.

Lemma along_attach_channels (R : Camera -> list Effect -> Camera -> Prop) `{!TraceOrder R} a c :
  (forall ws ns subs c, R c [] (set_chars ws ns subs c)) -> (forall n c, along R (ffi (ASetAttPayload n)) c) ->
  along R (attach_channels a) c.
Proof. intros Hs Hf. unfold attach_channels. along; auto. Qed.

Lemma connected p ka rt a now : fresh_camera a (run_state (life a now []) (new_camera p ka rt)).
Proof.
  rewrite life_state. change (run_state (exec_all []) ?x) with x. set (c0 := new_camera p ka rt).
  destruct (run_bind (attach a now) (fun _ => modify (fun c => set_timers (_watch c) true c)) c0) as (_ & E & _).
  unfold connect. rewrite E, run_modify, attach_split. clear E. cbv zeta.
  destruct (attach_channels_state a c0 eq_refl) as (h & q & E1).
  assert (exists ctx, BleTransport.paired (run_state (attach_channels a) c0) ctx) as [ctx Hp].
  { assert (along kept (attach_channels a) c0) as Hk.
    { apply (along_attach_channels kept); [intros; by apply kept_same|].
      intros n c. by apply kept_quiet. }
    apply Hk; [intros _; apply new_camera_paired|]. by rewrite E1. }
  assert (wired (session ctx)) as Hw.
  { assert (along fitted (attach_channels a) c0) as Hf.
    { apply (along_attach_channels fitted); [intros; by apply fitted_same|intros n c; apply fitted_ffi]. }
    apply Hf; [|by apply paired_session]. cbn. intros x [= <-]. split; [done|]. cbn. unfold kMinAttPayload. lia. }
  set (c1 := run_state (attach_channels a) c0) in *. clearbody c1.
  assert (_state c1 = up /\ _pending c1 = [] /\ _completers c1 = 0%nat /\ _writes c1 = writes a /\
          _subs c1 = (notifies a).*1) as (H1 & H2 & H3 & H4 & H5) by by rewrite E1.
  destruct (send_posts c1 ctx kQuery 19 [kBusyStatusId; kEncodingStatusId] None now) as (ctx' & Es & _); try done.
  - apply Forall_cons_2; [|apply Forall_cons_2; [|apply Forall_cons_2; [|apply Forall_nil_2]]];
      unfold byte_ok, kBusyStatusId, kEncodingStatusId; lia.
  - rewrite H2. apply not_elem_of_nil.
  - by left.
  - cbn [exec] in Es. unfold bind, ret in Es. unfold run_state, run_result.
    destruct (send kQuery _ None now c1) as [[r c2] ev2]. injection Es as Ec _. cbn [fst snd]. subst c2.
    destruct r; (split; cbn; rewrite ?H1, ?H2, ?H3, ?H4, ?H5; done).
Qed.

(** ** Properties *)

Lemma control_channel_ok ch : ch ∈ [kCommand; kSettings; kQuery] -> channel_ok ch.
Proof.
  intros H. rewrite !elem_of_cons in H. unfold channel_ok, kChannelCount.
  destruct_or? H; subst; [by cbn|by cbn|by cbn|by apply not_elem_of_nil in H].
Qed.

(** What a climb attaches has the control channels. *)
Lemma attached_controls ctx wanted timeout turns d a c reqs ch :
  bringUp (Some ctx) wanted timeout turns = (Attached_ d a, c, reqs) ->
  ch ∈ [kCommand; kSettings; kQuery] -> ch ∈ writes a /\ ch ∈ (notifies a).*1.
Proof.
  intros E Hch. destruct (climb_attached wanted timeout turns _ d a c reqs (start_climb_ok ctx) E)
    as [(s & c1 & _ & _ & [_ [_ Hc] _ -> _]) _].
  destruct (complete_spec _ _ ch Hc Hch) as [H1 H2]. split; [done|].
  cbn. by rewrite <- list_fmap_compose.
Qed.

Section cold_start.
Context {E : Type} {W : World E} {rank : E -> nat} {pace : Z} (wanted : option string)
  {coop : Cooperative wanted W rank pace}.

(** C9: from nothing to an answer.  In a cooperative world, whatever the link
    handle has been through, [connect] makes a camera that is up, listens on the
    three control channels and has asked for the statuses of the ready gate.  A
    command its owner sends on one of them, past the gate, returns a future at
    once and reaches the characteristic, and a well-framed reply to it completes
    the future with exactly the reply, whatever happens in between. *)
Theorem cold_start ctx timeout e p ka rt now :
  s_check_ms (shows e) + pace * (Z.of_nat (rank e) + 2) < timeout ->
  exists d a climb reqs,
    bringUp (Some ctx) wanted timeout (turns_with wanted (rank e + 3) e (start_climb (Some ctx))) =
      (Attached_ d a, climb, reqs) /\
    let c := run_state (life a now []) (new_camera p ka rt) in
    fresh_camera a c /\ [kCommand; kSettings; kQuery] ⊆ _subs c /\
    forall ch b data pr t l' reply ps t',
      ch ∈ [kCommand; kSettings; kQuery] -> bytes_ok (b :: data) -> (length (b :: data) <= kMaxMessageLen)%nat ->
      Forall action_typed l' -> default (default_priority ch) pr <> kQueued ->
      let id := correlationOf ch b in
      id <> correlationOf kQuery 19 -> id <> keep_alive_id ->
      let c1 := run_state (exec (ASend ch (b :: data) pr t)) c in
      let c2 := run_state (exec_all (drain c1)) c1 in
      run_events (exec (ASend ch (b :: data) pr t)) c = [Returned 1%nat id] /\
      (forall r, exists earlier, receive_all r (gatt_on ch (run_events (exec_all (drain c1)) c1)) =
         (Reassembler_init, earlier ++ [b :: data])) /\
      let c3 := run_state (exec_all l') c2 in
      (awaits c3 id 1 -> ch ∈ _subs c3 -> plain_reply c3 ch b reply -> Forall bytes_ok ps -> well_framed reply ps ->
       let c4 := run_state (exec_all (notes ch ps t')) c3 in
       Done 1%nat kResponded reply ∈ run_events (exec_all (drain c4)) c4).
Proof.
  intros Ht.
  assert (exists d a climb reqs, bringUp (Some ctx) wanted timeout
    (turns_with wanted (rank e + 3) e (start_climb (Some ctx))) = (Attached_ d a, climb, reqs))
    as (d & a & climb & reqs & Eb).
  { apply (climb_attaches wanted (coop := coop)); [apply start_climb_ok|apply turns_needed_max|].
    pose proof (coop_pace_pos (Cooperative := coop)). nia. }
  exists d, a, climb, reqs. split; [exact Eb|]. cbv zeta.
  pose proof (connected p ka rt a now) as Hf. pose proof Hf as [F1 F2 F3 F4 F5]. set (c := run_state (life a now []) (new_camera p ka rt)) in *.
  assert (forall ch, ch ∈ [kCommand; kSettings; kQuery] -> ch ∈ writes a /\ ch ∈ (notifies a).*1) as Hctl.
  { intros ch. apply (attached_controls _ _ _ _ _ _ _ _ ch Eb). }
  split; [exact Hf|]. split.
  { intros ch Hch. rewrite F3. by apply Hctl. }
  intros ch b data pr t l' reply ps t' Hch Hok Hlen Hty Hpr Hid Hka.
  pose proof (control_channel_ok ch Hch) as Hcok.
  pose proof (round_trip c p ka rt a now [] ch b data pr t l' reply ps t' Hty Hcok Hok Hlen eq_refl F1) as H.
  rewrite F2, F4, F5 in H. cbv zeta in H.
  destruct H as (R1 & R2 & _ & R4); [by apply Hctl| |done|intros; by left|].
  - cbn. rewrite list_elem_of_singleton. exact Hid.
  - by split.
Qed.
End cold_start.

(** ** At a concrete input *)

Abbreviation slow_turns := (turns_with None 9 (6%nat, 0) (start_climb (Some fresh_link))).

Definition three_controls : Attached := mkAttached [0; 1; 2] [(0, 517); (1, 517); (2, 517)].

Lemma slow_attached d a climb reqs :
  bringUp (Some fresh_link) None 300000 slow_turns = (Attached_ d a, climb, reqs) -> a = three_controls.
Proof.
  intros E. assert (match (bringUp (Some fresh_link) None 300000 slow_turns).1.1 with
    | Attached_ _ a => bool_decide (writes a = writes three_controls) && bool_decide (notifies a = notifies three_controls)
    | _ => false end = true) as H by (vm_compute; reflexivity).
  rewrite E in H. cbn [fst] in H. apply andb_true_iff in H as [H1%bool_decide_eq_true H2%bool_decide_eq_true].
  destruct a. cbn in H1, H2. by subst.
Qed.

Abbreviation fresh := (run_state (life three_controls 0 []) (new_camera 7 0 300)).
Abbreviation asking := (run_state (exec (ASend kQuery [18; 2] None 5)) fresh).

(** The statuses arrive. *)
Definition statuses : list action := [ANotify kQuery [8; 19; 0; 8; 1; 0; 10; 1; 0] 8; ADeliver; ADeliver].

Abbreviation waiting := (run_state (exec_all statuses) (run_state (exec_all (drain asking)) asking)).

Definition answer_packets : list bytes := [[32; 4; 18; 0]; [128; 2; 9]].

Lemma cold_waiting_is :
  _state waiting = up /\ _pending waiting = [(530, 1%nat)] /\ _subs waiting = [0; 1; 2] /\
  match _session waiting with
  | Some ctx => is_in_flight (queue_ (session ctx)) 530 &&
      negb (is_in_flight (queue_ (session ctx)) (protobuf_correlation_of_message 2 [18; 0; 2; 9]))
  | None => false
  end = true.
Proof. vm_compute. done. Qed.

Lemma cold_start_witness :
  (exists d climb reqs, bringUp (Some fresh_link) None 300000 slow_turns = (Attached_ d three_controls, climb, reqs)) /\
  run_events (exec (ASend kQuery [18; 2] None 5)) fresh = [Returned 1%nat 530] /\
  let c4 := run_state (exec_all (notes kQuery answer_packets 9)) waiting in
  Done 1%nat kResponded [18; 0; 2; 9] ∈ run_events (exec_all (drain c4)) c4.
Proof.
  destruct (cold_start (rank := fst) (pace := 30000) None fresh_link 300000 (6%nat, 0) 7 0 300 0)
    as (d & a & climb & reqs & Eb & _ & _ & H); [by cbn|].
  pose proof (slow_attached d a climb reqs Eb) as ->. split; [by exists d, climb, reqs|].
  destruct cold_waiting_is as (H4 & H5 & H6 & H7). destruct (_session waiting) as [ctx|] eqn:Es; [|discriminate H7].
  apply andb_true_iff in H7 as [H7 H8]. apply negb_true_iff in H8.
  destruct (H kQuery 18 [2] None 5 statuses [18; 0; 2; 9] answer_packets 9) as (R1 & _ & R2); clear H Eb.
  - right. right. left.
  - clear. repeat apply Forall_cons_2; try apply Forall_nil_2; unfold byte_ok; lia.
  - clear. apply Nat.leb_le. vm_compute. reflexivity.
  - clear. repeat apply Forall_cons_2; try apply Forall_nil_2; cbn; try exact I; unfold channel_ok, kChannelCount, kQuery; lia.
  - discriminate.
  - discriminate.
  - discriminate.
  - split; [exact R1|]. apply R2.
    + split; [exact H4|]. split; [rewrite H5; left|]. exists ctx. split; [exact Es | exact H7].
    + rewrite H6. right. right. left.
    + exists [0; 2; 9]. split; [reflexivity|]. intros ctx' Hc. rewrite Es in Hc. injection Hc as <-. exact H8.
    + clear. repeat apply Forall_cons_2; try apply Forall_nil_2; unfold byte_ok; lia.
    + clear. exists [32; 4; 18; 0], [[128; 2; 9]], [18; 0]. split_and!; try done.
      * repeat constructor; by eexists.
      * intros i Hi. destruct i as [|i]; cbn in *; lia.
Defined.
