(* ===== verification/PairingAgent.v ===== *)
(** * The pairing agent
    ([lib/src/ble_transport.dart], [GoProBleTransport._registerAgent] and the
    pairing of [_act])

    One transport has one agent and one variable [_pairing], and any number of
    climbs: calls of [connect], and reconnections of cameras it has connected.  An
    action is a turn of the event loop: a climb enters or leaves [device.pair()],
    BlueZ asks the agent, or the transport closes.  Which climbs are inside
    [pair()] is kept beside the variable, for the statements. *)

From stdpp Require Import strings.
From S2P Require Import Prelude.
Local Open Scope Z_scope.

Record GoProBleTransport := mkTransport {
  _agent : bool;                       (** the subscription, if the agent could be registered *)
  _pairing : option string;
  climbs : list (nat * string);        (** the climbs inside [pair()], and their devices *)
}.

(** An answer of the agent, and the climbs at the time. *)
Record agent_answer := mkAnswer {
  devicePath : string;
  accepted : bool;
  at_time : list (nat * string);
}.

Inductive action :=
| Pair (climb : nat) (device : option (string * bool))   (** its object path, and [paired] *)
| PairEnds (climb : nat)                         (** with or without an exception *)
| AgentRequest (devicePath : string)
| Close.

(** [start]: registering may fail because another agent holds the name. *)
Definition start (registered : bool) : GoProBleTransport := mkTransport registered None [].

(** [_act]: no device, or one paired already, is skipped. *)
Definition pair_step (t : GoProBleTransport) (i : nat) (device : option (string * bool)) : GoProBleTransport :=
  match device with
  | Some (p, false) => mkTransport (_agent t) (Some p) ((i, p) :: climbs t)
  | _ => t
  end.

(** The [finally]. *)
Definition pair_end (t : GoProBleTransport) (i : nat) : GoProBleTransport :=
  mkTransport (_agent t) None (List.filter (fun e => negb (bool_decide (e.1 = i))) (climbs t)).

(** The listener, while there is one. *)
Definition on_request (t : GoProBleTransport) (d : string) : list agent_answer :=
  let ours := bool_decide (_pairing t = Some d) in
  if _agent t then [mkAnswer d ours (climbs t)] else [].

Definition close (t : GoProBleTransport) : GoProBleTransport := mkTransport false (_pairing t) (climbs t).

Definition exec (t : GoProBleTransport) (a : action) : GoProBleTransport * list agent_answer :=
  match a with
  | Pair i device => (pair_step t i device, [])
  | PairEnds i => (pair_end t i, [])
  | AgentRequest d => (t, on_request t d)
  | Close => (close t, [])
  end.

Fixpoint run (t : GoProBleTransport) (l : list action) : GoProBleTransport * list agent_answer :=
  match l with
  | [] => (t, [])
  | a :: l => let '(t, o) := exec t a in let '(t', o') := run t l in (t', o ++ o')
  end.

(** A climb is a sequential program, so it is in one [pair()] at most, and leaves
    only what it entered. *)
Definition orderly (t : GoProBleTransport) (a : action) : Prop :=
  match a with
  | Pair i _ => i ∉ (climbs t).*1
  | PairEnds i => i ∈ (climbs t).*1
  | _ => True
  end.

(** One climb pairs at a time. *)
Definition serial (t : GoProBleTransport) (a : action) : Prop :=
  match a with Pair _ (Some (_, false)) => climbs t = [] | _ => True end.

Fixpoint all_along (P : GoProBleTransport -> action -> Prop) (t : GoProBleTransport) (l : list action) : Prop :=
  match l with [] => True | a :: l => P t a /\ all_along P (exec t a).1 l end.

(** ** Properties *)

(** The variable names a device being paired. *)
Definition guarded (t : GoProBleTransport) : Prop := forall p, _pairing t = Some p -> p ∈ (climbs t).*2.

(** With one climb at a time it names every one. *)
Definition exact (t : GoProBleTransport) : Prop :=
  (_pairing t = None /\ climbs t = []) \/ exists i p, _pairing t = Some p /\ climbs t = [(i, p)].

Lemma guarded_exec t a : guarded t -> guarded (exec t a).1.
Proof. intros H. destruct a as [i [[q []]|]| | |]; cbn; try done. intros p [= <-]. by left. Qed.

Lemma exact_exec t a : exact t -> orderly t a -> serial t a -> exact (exec t a).1.
Proof.
  intros [[H1 H2]|(i & p & H1 & H2)] Ho Hs; destruct a as [j [[q []]|]|j|q|]; unfold exec, pair_end, close in *; cbn in *.
  - by left.
  - right. exists j, q. by rewrite H2.
  - by left.
  - rewrite H2 in Ho. by apply not_elem_of_nil in Ho.
  - by left.
  - by left.
  - right. by exists i, p.
  - by rewrite H2 in Hs.
  - right. by exists i, p.
  - left. split; [done|]. rewrite H2 in Ho |- *. cbn in *. apply list_elem_of_singleton in Ho as ->.
    by rewrite bool_decide_eq_true_2.
  - right. by exists i, p.
  - right. by exists i, p.
Qed.

(** Whatever the climbs do, the agent accepts only a device that some climb is
    pairing with at that moment; and while at most one pairs at a time, it accepts
    exactly those. *)
Theorem agent_accepts_ours l : forall t,
  guarded t ->
  Forall (fun o => accepted o = true -> devicePath o ∈ (at_time o).*2) (run t l).2 /\
  (exact t -> all_along orderly t l -> all_along serial t l ->
   Forall (fun o => accepted o = bool_decide (devicePath o ∈ (at_time o).*2)) (run t l).2).
Proof.
  induction l as [|a l IH]; intros t Hg; cbn [run]; [by split|].
  pose proof (guarded_exec t a Hg) as Hg'. destruct (IH _ Hg') as [I1 I2].
  destruct (exec t a) as [t' o] eqn:E. cbn [fst] in *. destruct (run t' l) as [t'' o'] eqn:Er. cbn [snd] in *. split.
  - apply Forall_app. split; [|exact I1]. destruct a as [? [[? []]|]| | |]; cbn in E; unfold on_request in E; injection E as <- <-; try constructor.
    destruct (_agent t); repeat constructor. cbn. intros H%bool_decide_eq_true. by apply Hg.
  - intros Hx [Ho Hos] [Hs Hss]. rewrite E in Hos, Hss. cbn [fst] in *.
    pose proof (exact_exec t a Hx Ho Hs) as Hx'. rewrite E in Hx'. apply Forall_app. split; [|by apply I2].
    destruct a as [? [[? []]|]| | |]; cbn in E; unfold on_request in E; injection E as <- <-; try constructor.
    destruct (_agent t); repeat constructor. cbn. apply bool_decide_ext.
    destruct Hx as [[-> ->]|(i & p & -> & ->)]; cbn.
    + split; [done|]. by intros ?%not_elem_of_nil.
    + rewrite list_elem_of_singleton. split; [by intros [= ->] | by intros ->].
Qed.

Lemma start_guarded r : guarded (start r) /\ exact (start r).
Proof. split; [by intros p|by left]. Qed.

Lemma agent_accepts_ours_witness :
  let l := [Pair 0 (Some ("/hci0/dev_A", false)); AgentRequest "/hci0/dev_A"; AgentRequest "/hci0/dev_B"; PairEnds 0;
            AgentRequest "/hci0/dev_A"; Close] in
  accepted <$> (run (start true) l).2 = [true; false; false] /\
  Forall (fun o => accepted o = bool_decide (devicePath o ∈ (at_time o).*2)) (run (start true) l).2.
Proof.
  intros l. split; [reflexivity|]. destruct (start_guarded true) as [Hg Hx].
  apply (proj2 (agent_accepts_ours l (start true) Hg) Hx); cbn; split_and!; try done.
  - by intros ?%not_elem_of_nil.
  - by left.
Defined.

(** ** What modelling showed *)

(** Two climbs share the variable: when the first ends its pairing, the agent
    refuses the device the second still pairs with. *)
Example second_climb_refused :
  accepted <$> (run (start true) [Pair 0 (Some ("/hci0/dev_A", false)); Pair 1 (Some ("/hci0/dev_B", false)); AgentRequest "/hci0/dev_A";
                                  PairEnds 0; AgentRequest "/hci0/dev_B"]).2 = [false; false].
Proof. reflexivity. Qed.
