(* ===== verification/GlazeMeta.v ===== *)
(** * The binary encoding of event records
    ([native/include/glaze_meta.h])

    The overload sets [encode_field] and [decode_field] are the operations of a
    type class, one instance per overload; [glz::meta<T>] is a class giving the
    field descriptors of a struct.  The decoders of the source read a raw
    pointer without bounds checks: reading past the end of the buffer is
    undefined, and is [None] here.  [WireLaw] is what an encoding promises its
    users, and every overload is shown to keep it. *)

From Stdlib Require Import Ascii.
From stdpp Require Import strings.
From S2P Require Import Prelude.
Local Open Scope Z_scope.

(** ** The types that are encoded *)

(** An unsigned integer of [w] bytes. *)
Record uint (w : nat) := U { uval : Z }.
Arguments U {w} _.
Arguments uval {w} _.

Definition uint_ok {w} (x : uint w) : Prop := 0 <= uval x < 256 ^ Z.of_nat w.

(** [int16_t], two's complement. *)
Record int16 := I16 { ival : Z }.

(** [std::map<std::string, std::vector<uint8_t>>]: its entries in key order. *)
Record strmap := Map { entries : list (string * bytes) }.

(** A [char] is a byte. *)
Definition char_byte (a : ascii) : byte := Z.of_nat (nat_of_ascii a).
Definition byte_char (b : byte) : ascii := ascii_of_nat (Z.to_nat b).

Definition string_bytes (s : string) : bytes := char_byte <$> String.list_ascii_of_string s.
Definition bytes_string (l : bytes) : string := String.string_of_list_ascii (byte_char <$> l).

(** ** Raw reads and writes *)

Definition write_bytes (buf : bytes) (data : bytes) : bytes := buf ++ data.

(** [memcpy] of [n] bytes from [offset]. *)
Definition read_bytes (buf : bytes) (offset n : nat) : option (bytes * nat) :=
  if (offset + n <=? length buf)%nat then Some (firstn n (skipn offset buf), (offset + n)%nat)
  else None.

(** ** The overload sets *)

Class WireField (A : Type) := {
  encode_field : bytes -> A -> bytes;
  decode_field : bytes -> nat -> option (A * nat);
}.

(** [uint8_t], [uint16_t], [uint32_t], [uint64_t]: the object representation. *)
#[export] Instance uint_field w : WireField (uint w) := {
  encode_field buf v := write_bytes buf (le_bytes w (uval v));
  decode_field buf offset :=
    '(l, offset) ← read_bytes buf offset w; Some (U (le_value l), offset);
}.

#[export] Instance bool_field : WireField bool := {
  encode_field buf v := write_bytes buf [if v then 1 else 0];
  decode_field buf offset :=
    '(l, offset) ← read_bytes buf offset 1; Some (negb (nth 0 l 0 =? 0), offset);
}.

#[export] Instance int16_field : WireField int16 := {
  encode_field buf v := write_bytes buf (le_bytes 2 (ival v));
  decode_field buf offset :=
    '(l, offset) ← read_bytes buf offset 2;
    let v := le_value l in Some (I16 (if v <? 2 ^ 15 then v else v - 2 ^ 16), offset);
}.

(** [static_cast<uint32_t>(n)] written as the prefix. *)
Definition encode_count (buf : bytes) (n : nat) : bytes :=
  write_bytes buf (le_bytes 4 (wrap 32 (Z.of_nat n))).

Definition decode_count (buf : bytes) (offset : nat) : option (nat * nat) :=
  '(l, offset) ← read_bytes buf offset 4; Some (Z.to_nat (le_value l), offset).

#[export] Instance u8vec_field : WireField bytes := {
  encode_field buf v := write_bytes (encode_count buf (length v)) v;
  decode_field buf offset :=
    '(n, offset) ← decode_count buf offset; read_bytes buf offset n;
}.

#[export] Instance string_field : WireField string := {
  encode_field buf s := write_bytes (encode_count buf (String.length s)) (string_bytes s);
  decode_field buf offset :=
    '(n, offset) ← decode_count buf offset;
    '(l, offset) ← read_bytes buf offset n;
    Some (bytes_string l, offset);
}.

(** The loops over a vector's elements. *)
Definition encode_elems {A} (enc : bytes -> A -> bytes) (buf : bytes) (v : list A) : bytes :=
  foldl enc buf v.

Fixpoint decode_elems {A} (dec : bytes -> nat -> option (A * nat)) (count : nat)
    (buf : bytes) (offset : nat) : option (list A * nat) :=
  match count with
  | O => Some ([], offset)
  | S count =>
      '(x, offset) ← dec buf offset;
      '(l, offset) ← decode_elems dec count buf offset;
      Some (x :: l, offset)
  end.

Definition encode_vector {A} (enc : bytes -> A -> bytes) (buf : bytes) (v : list A) : bytes :=
  encode_elems enc (encode_count buf (length v)) v.

Definition decode_vector {A} (dec : bytes -> nat -> option (A * nat)) (buf : bytes) (offset : nat)
    : option (list A * nat) :=
  '(count, offset) ← decode_count buf offset; decode_elems dec count buf offset.

#[export] Instance strings_field : WireField (list string) := {
  encode_field := encode_vector encode_field;
  decode_field := decode_vector decode_field;
}.

(** A pair of [encode_field]s, as in the body of the map loops. *)
Definition encode_entry (buf : bytes) (e : string * bytes) : bytes :=
  encode_field (encode_field buf e.1) e.2.

Definition decode_entry (buf : bytes) (offset : nat) : option ((string * bytes) * nat) :=
  '(key, offset) ← decode_field buf offset;
  '(val, offset) ← decode_field buf offset;
  Some ((key, val), offset).

(** [m[key] = val] on a map kept in key order: [std::string]'s order compares
    bytes as unsigned. *)
Fixpoint bytes_lt (a b : bytes) : bool :=
  match a, b with
  | [], [] => false
  | [], _ :: _ => true
  | _ :: _, [] => false
  | x :: a, y :: b => (x <? y) || ((x =? y) && bytes_lt a b)
  end.

Definition key_lt (a b : string) : bool := bytes_lt (string_bytes a) (string_bytes b).

Fixpoint map_assign (m : list (string * bytes)) (key : string) (val : bytes)
    : list (string * bytes) :=
  match m with
  | [] => [(key, val)]
  | (k, v) :: m' =>
      if key_lt key k then (key, val) :: m
      else if key_lt k key then (k, v) :: map_assign m' key val
      else (k, val) :: m'
  end.

#[export] Instance map_field : WireField strmap := {
  encode_field buf m := encode_vector encode_entry buf (entries m);
  decode_field buf offset :=
    '(l, offset) ← decode_vector decode_entry buf offset;
    Some (Map (foldl (fun m e => map_assign m e.1 e.2) [] l), offset);
}.

(** ** Structs *)

(** [glz::field(name, &T::member)]. *)
Record FieldDescriptor (T : Type) := field {
  name : string;
  member : Type;
  member_field : WireField member;
  get : T -> member;
  set : member -> T -> T;
}.
Arguments field {T} name {member member_field} get set.
Arguments name {T} _.
Arguments member {T} _.
Arguments member_field {T} _.
Arguments get {T} _ _.
Arguments set {T} _ _ _.

(** [glz::meta<T>]. *)
Class Meta (T : Type) := fields : list (FieldDescriptor T).

Definition encode_impl {T} (fs : list (FieldDescriptor T)) (buf : bytes) (obj : T) : bytes :=
  foldl (fun buf f => @encode_field _ (member_field f) buf (get f obj)) buf fs.

Fixpoint decode_impl {T} (fs : list (FieldDescriptor T)) (buf : bytes) (offset : nat) (obj : T)
    : option (T * nat) :=
  match fs with
  | [] => Some (obj, offset)
  | f :: fs =>
      '(v, offset) ← @decode_field _ (member_field f) buf offset;
      decode_impl fs buf offset (set f v obj)
  end.

Definition encode_struct {T} `{Meta T} (buf : bytes) (obj : T) : bytes := encode_impl fields buf obj.

Definition decode_struct {T} `{Meta T} (buf : bytes) (offset : nat) (obj : T) : option (T * nat) :=
  decode_impl fields buf offset obj.

Definition encode {T} `{Meta T} (obj : T) : bytes := encode_struct [] obj.

Definition decode {T} `{Meta T} (buf : bytes) (offset : nat) (obj : T) : option (T * nat) :=
  decode_struct buf offset obj.

(** [std::vector<T>] of a described struct: [v.resize(count)] makes each element
    a value-initialised [T], which decoding overwrites. *)
Definition struct_vector_field {T} `{Meta T} (init : T) : WireField (list T) := {|
  encode_field := encode_vector encode_struct;
  decode_field := decode_vector (fun buf offset => decode_struct buf offset init);
|}.

(** ** What an encoding promises

    [wire v] are the bytes of [v]; encoding appends them, and decoding finds [v]
    wherever they are in a buffer. *)

Record codec_law {A} (enc : bytes -> A -> bytes) (dec : bytes -> nat -> option (A * nat))
    (valid : A -> Prop) (wire : A -> bytes) : Prop := {
  enc_wire : forall buf v, valid v -> enc buf v = buf ++ wire v;
  wire_ok : forall v, valid v -> bytes_ok (wire v);
  dec_wire : forall pre v post, valid v ->
    dec (pre ++ wire v ++ post) (length pre) = Some (v, (length pre + length (wire v))%nat);
}.

Class WireLaw (A : Type) `{WireField A} := {
  valid : A -> Prop;
  wire : A -> bytes;
  wire_law : codec_law encode_field decode_field valid wire;
}.

(** ** Reading what was written *)

Lemma read_bytes_app pre l post :
  read_bytes (pre ++ l ++ post) (length pre) (length l) = Some (l, (length pre + length l)%nat).
Proof.
  unfold read_bytes. rewrite !length_app.
  destruct (_ <=? _)%nat eqn:E; to_prop; [|lia].
  by rewrite drop_app_length, take_app_length.
Qed.

(** [read_bytes_app] for a length that is known only as an equation. *)
Lemma read_bytes_app' pre l post n :
  length l = n -> read_bytes (pre ++ l ++ post) (length pre) n = Some (l, (length pre + n)%nat).
Proof. intros <-. apply read_bytes_app. Qed.

Lemma decode_count_app pre n post :
  Z.of_nat n < 2 ^ 32 ->
  decode_count (pre ++ le_bytes 4 (wrap 32 (Z.of_nat n)) ++ post) (length pre) =
    Some (n, (length pre + 4)%nat).
Proof.
  intros Hn. unfold decode_count. rewrite read_bytes_app' by apply length_le_bytes.
  cbn [mbind option_bind]. rewrite wrap_small by lia.
  rewrite le_value_le_bytes by (change (256 ^ Z.of_nat 4) with (2 ^ 32); lia).
  by rewrite Nat2Z.id.
Qed.

Lemma char_byte_ok a : byte_ok (char_byte a).
Proof. unfold byte_ok, char_byte. pose proof (nat_ascii_bounded a). lia. Qed.

Lemma string_bytes_ok s : bytes_ok (string_bytes s).
Proof. unfold string_bytes. apply Forall_fmap, Forall_true. intros a. apply char_byte_ok. Qed.

Lemma bytes_string_bytes s : bytes_string (string_bytes s) = s.
Proof.
  unfold bytes_string, string_bytes. rewrite <- list_fmap_compose.
  rewrite (list_fmap_ext _ id).
  - rewrite list_fmap_id. apply String.string_of_list_ascii_of_string.
  - intros _ a _. cbn. unfold byte_char, char_byte. rewrite Nat2Z.id. apply ascii_nat_embedding.
Qed.

Lemma length_string_bytes s : length (string_bytes s) = String.length s.
Proof. unfold string_bytes. rewrite length_fmap. induction s; cbn; by rewrite ?IHs. Qed.

Lemma string_bytes_inj s t : string_bytes s = string_bytes t -> s = t.
Proof. intros H. by rewrite <- (bytes_string_bytes s), <- (bytes_string_bytes t), H. Qed.

(** ** Every overload keeps the promise *)

#[export,refine] Instance uint_law w : WireLaw (uint w) := {
  valid := uint_ok;
  wire v := le_bytes w (uval v);
}.
Proof.
  split; [done|intros v _; apply le_bytes_ok|].
  intros pre [v] post Hv. cbn. rewrite read_bytes_app' by apply length_le_bytes.
  cbn. rewrite length_le_bytes, le_value_le_bytes by exact Hv. done.
Defined.

#[export,refine] Instance bool_law : WireLaw bool := {
  valid _ := True;
  wire v := [if v then 1 else 0];
}.
Proof.
  split; [done|intros [] _; repeat constructor; lia|].
  intros pre v post _. cbn [decode_field bool_field]. rewrite (read_bytes_app' pre [_] post 1) by done.
  by destruct v.
Defined.

#[export,refine] Instance int16_law : WireLaw int16 := {
  valid v := - 2 ^ 15 <= ival v < 2 ^ 15;
  wire v := le_bytes 2 (ival v);
}.
Proof.
  split; [done|intros v _; apply le_bytes_ok|].
  intros pre [v] post Hv. cbn [ival] in Hv. cbn [decode_field int16_field ival].
  rewrite read_bytes_app' by done. cbn [mbind option_bind length]. do 3 f_equal.
  cbn [le_bytes le_value]. destruct (_ <? 2 ^ 15) eqn:E; to_prop; lia.
Defined.

#[export,refine] Instance u8vec_law : WireLaw bytes := {
  valid v := bytes_ok v /\ Z.of_nat (length v) < 2 ^ 32;
  wire v := le_bytes 4 (wrap 32 (Z.of_nat (length v))) ++ v;
}.
Proof.
  split.
  - intros buf v _. unfold encode_field, u8vec_field, encode_count, write_bytes. by rewrite app_assoc.
  - intros v [Hv _]. apply Forall_app. split; [apply le_bytes_ok | done].
  - intros pre v post [_ Hv]. cbn [decode_field u8vec_field]. rewrite <- app_assoc, decode_count_app by done.
    cbn [mbind option_bind]. rewrite length_app, length_le_bytes.
    rewrite app_assoc.
    replace (length pre + 4)%nat with (length (pre ++ le_bytes 4 (wrap 32 (Z.of_nat (length v)))))
      by by rewrite length_app, length_le_bytes.
    rewrite read_bytes_app. f_equal. f_equal. rewrite length_app, length_le_bytes. lia.
Defined.

Lemma decode_string_as_bytes buf offset :
  decode_field (A := string) buf offset =
    '(l, offset) ← decode_field (A := bytes) buf offset; Some (bytes_string l, offset).
Proof. cbn. by destruct (decode_count buf offset) as [[n o]|]. Qed.

#[export,refine] Instance string_law : WireLaw string := {
  valid s := Z.of_nat (String.length s) < 2 ^ 32;
  wire s := wire (string_bytes s);
}.
Proof.
  assert (forall s, Z.of_nat (String.length s) < 2 ^ 32 -> valid (string_bytes s)) as Hvalid.
  { intros s Hs. split; [apply string_bytes_ok | by rewrite length_string_bytes]. }
  split.
  - intros buf s Hs. rewrite <- (enc_wire _ _ _ _ (wire_law (A := bytes))) by by apply Hvalid.
    cbn. by rewrite length_string_bytes.
  - intros s Hs. by apply wire_law, Hvalid.
  - intros pre s post Hs. rewrite decode_string_as_bytes.
    rewrite (dec_wire _ _ _ _ (wire_law (A := bytes))) by by apply Hvalid.
    cbn. by rewrite bytes_string_bytes.
Defined.

(** *** Vectors of anything that keeps it *)

Section vector.
Context {A : Type} (enc : bytes -> A -> bytes) (dec : bytes -> nat -> option (A * nat))
  (val : A -> Prop) (wir : A -> bytes) (L : codec_law enc dec val wir).

Definition vector_wire (v : list A) : bytes :=
  le_bytes 4 (wrap 32 (Z.of_nat (length v))) ++ concat (wir <$> v).

Definition vector_valid (v : list A) : Prop := Z.of_nat (length v) < 2 ^ 32 /\ Forall val v.

Lemma encode_elems_wire v : forall buf, Forall val v -> encode_elems enc buf v = buf ++ concat (wir <$> v).
Proof.
  unfold encode_elems. induction v as [|x v IH]; intros buf Hv; cbn; [by rewrite app_nil_r|].
  apply Forall_cons in Hv as [Hx Hv]. rewrite IH by done.
  by rewrite (enc_wire _ _ _ _ L), app_assoc.
Qed.

Lemma decode_elems_wire v : forall pre post, Forall val v ->
  decode_elems dec (length v) (pre ++ concat (wir <$> v) ++ post) (length pre) =
    Some (v, (length pre + length (concat (wir <$> v)))%nat).
Proof.
  induction v as [|x v IH]; intros pre post Hv; cbn [decode_elems length fmap list_fmap concat].
  { do 2 f_equal. cbn. lia. }
  apply Forall_cons in Hv as [Hx Hv]. rewrite <- app_assoc, (dec_wire _ _ _ _ L) by done.
  cbn [mbind option_bind]. rewrite app_assoc, <- length_app, IH by done.
  cbn [mbind option_bind]. do 2 f_equal. rewrite !length_app. fold (fmap wir v). lia.
Qed.

Lemma vector_law : codec_law (encode_vector enc) (decode_vector dec) vector_valid vector_wire.
Proof.
  split.
  - intros buf v [_ Hv]. unfold encode_vector, vector_wire. rewrite encode_elems_wire by done.
    unfold encode_count, write_bytes. by rewrite app_assoc.
  - intros v [_ Hv]. apply Forall_app. split; [apply le_bytes_ok|].
    apply Forall_concat, Forall_fmap. eapply Forall_impl; [exact Hv|]. apply (wire_ok _ _ _ _ L).
  - intros pre v post [Hn Hv]. unfold decode_vector, vector_wire.
    rewrite <- app_assoc, decode_count_app by done. cbn [mbind option_bind].
    rewrite app_assoc.
    replace (length pre + 4)%nat with (length (pre ++ le_bytes 4 (wrap 32 (Z.of_nat (length v)))))
      by by rewrite length_app, length_le_bytes.
    rewrite decode_elems_wire by done. rewrite !length_app. do 2 f_equal. lia.
Qed.
End vector.

#[export,refine] Instance strings_law : WireLaw (list string) := {
  valid := vector_valid valid;
  wire := vector_wire wire;
}.
Proof. apply vector_law, wire_law. Defined.

(** *** Maps *)

Lemma entry_law : codec_law encode_entry decode_entry
  (fun e => valid e.1 /\ valid e.2) (fun e => wire e.1 ++ wire e.2).
Proof.
  split.
  - intros buf [k v] [Hk Hv]. unfold encode_entry.
    by rewrite !(enc_wire _ _ _ _ wire_law), app_assoc by done.
  - intros [k v] [Hk Hv]. apply Forall_app. split; by apply wire_law.
  - intros pre [k v] post [Hk Hv]. cbn [fst snd] in *. unfold decode_entry.
    rewrite <- app_assoc, (dec_wire _ _ _ _ wire_law) by done.
    cbn [mbind option_bind]. rewrite app_assoc, <- length_app.
    rewrite (dec_wire _ _ _ _ wire_law) by done.
    cbn [mbind option_bind]. rewrite !length_app. do 2 f_equal. lia.
Qed.

Lemma bytes_lt_irrefl a : bytes_lt a a = false.
Proof. induction a as [|x a IH]; cbn; [done|]. rewrite Z.ltb_irrefl, IH. by rewrite andb_false_r. Qed.

Lemma bytes_lt_asym a : forall b, bytes_lt a b = true -> bytes_lt b a = false.
Proof.
  induction a as [|x a IH]; intros [|y b]; cbn; intros H; try done.
  destruct (x <? y) eqn:E; cbn in H.
  - destruct (y <? x) eqn:E2, (y =? x) eqn:E3; to_prop; done || lia.
  - apply andb_true_iff in H as [E3 H]. to_prop. subst. rewrite Z.ltb_irrefl, Z.eqb_refl. cbn. by apply IH.
Qed.

(** A map as [std::map] keeps it: keys strictly increasing. *)
Definition map_sorted (m : list (string * bytes)) : Prop :=
  StronglySorted (fun a b => key_lt a.1 b.1 = true) m.

Lemma map_assign_last m k v :
  Forall (fun e => key_lt e.1 k = true) m -> map_assign m k v = m ++ [(k, v)].
Proof.
  induction 1 as [|[k' v'] m Hk Hm IH]; cbn [map_assign app]; [done|]. cbn [fst] in Hk.
  unfold key_lt in *. rewrite bytes_lt_asym, Hk by done. by rewrite IH.
Qed.

Lemma map_assign_all l : forall m,
  map_sorted (m ++ l) -> foldl (fun m e => map_assign m e.1 e.2) m l = m ++ l.
Proof.
  induction l as [|[k v] l IH]; intros m Hs; cbn; [by rewrite app_nil_r|].
  rewrite map_assign_last.
  - rewrite IH; [by rewrite <- app_assoc|]. by rewrite <- app_assoc.
  - unfold map_sorted in Hs. clear IH. induction m as [|e m IHm]; [constructor|].
    apply StronglySorted_inv in Hs as [Hs He]. constructor; [|by apply IHm].
    apply Forall_app in He as [_ He]. by apply Forall_cons in He as [He _].
Qed.

#[export,refine] Instance map_law : WireLaw strmap := {
  valid m := map_sorted (entries m) /\ vector_valid (fun e => valid e.1 /\ valid e.2) (entries m);
  wire m := vector_wire (fun e => wire e.1 ++ wire e.2) (entries m);
}.
Proof.
  pose proof (vector_law _ _ _ _ entry_law) as [L1 L2 L3]. split.
  - intros buf m [_ Hm]. by apply L1.
  - intros m [_ Hm]. by apply L2.
  - intros pre [m] post [Hs Hm]. cbn [entries] in *. cbn [decode_field map_field].
    rewrite L3 by done. cbn [mbind option_bind]. do 3 f_equal.
    by apply (map_assign_all m []).
Defined.

(** *** Structs *)

(** A field whose encoding keeps the promise. *)
Record described (T : Type) := mkDescribed {
  desc : FieldDescriptor T;
  desc_law : @WireLaw (member desc) (member_field desc);
}.
Arguments desc {T} _.
Arguments desc_law {T} _.
Arguments mkDescribed {T} _ _.

Definition field_valid {T} (obj : T) (d : described T) : Prop :=
  @valid _ _ (desc_law d) (get (desc d) obj).

Definition field_wire {T} (obj : T) (d : described T) : bytes :=
  @wire _ _ (desc_law d) (get (desc d) obj).

(** A description of a struct: its fields keep the promise, and assigning every
    field of [obj] to any other object gives [obj]. *)
Class MetaLaw (T : Type) `{Meta T} := {
  laws : list (described T);
  laws_fields : desc <$> laws = fields;
  fields_cover : forall obj obj0 : T, foldl (fun o f => set f (get f obj) o) obj0 fields = obj;
}.

Section struct.
Context {T : Type} `{MetaLaw T}.

Definition struct_valid (obj : T) : Prop := Forall (field_valid obj) laws.
Definition struct_wire (obj : T) : bytes := concat (field_wire obj <$> laws).

Lemma encode_impl_wire (ds : list (described T)) obj : forall buf,
  Forall (field_valid obj) ds ->
  encode_impl (desc <$> ds) buf obj = buf ++ concat (field_wire obj <$> ds).
Proof.
  unfold encode_impl. induction ds as [|d ds IH]; intros buf Hv; cbn; [by rewrite app_nil_r|].
  apply Forall_cons in Hv as [Hd Hv]. rewrite IH by done.
  rewrite (enc_wire _ _ _ _ (@wire_law _ _ (desc_law d))) by done. by rewrite app_assoc.
Qed.

Lemma decode_impl_wire (ds : list (described T)) obj : forall pre post obj0,
  Forall (field_valid obj) ds ->
  decode_impl (desc <$> ds) (pre ++ concat (field_wire obj <$> ds) ++ post) (length pre) obj0 =
    Some (foldl (fun o f => set f (get f obj) o) obj0 (desc <$> ds),
          (length pre + length (concat (field_wire obj <$> ds)))%nat).
Proof.
  induction ds as [|d ds IH]; intros pre post obj0 Hv; cbn [decode_impl fmap list_fmap concat foldl].
  { do 2 f_equal. cbn. lia. }
  apply Forall_cons in Hv as [Hd Hv]. fold (fmap (desc (T:=T)) ds). fold (fmap (field_wire obj) ds).
  pose proof (dec_wire _ _ _ _ (@wire_law _ _ (desc_law d)) pre (get (desc d) obj)
    (concat (field_wire obj <$> ds) ++ post) Hd) as E. fold (field_wire obj d) in E.
  rewrite <- app_assoc, E. cbn [mbind option_bind].
  rewrite app_assoc, <- length_app, IH by done. do 2 f_equal. rewrite !length_app. lia.
Qed.

(** Decoding overwrites whatever object it is given. *)
Lemma decode_struct_wire pre obj post obj0 :
  struct_valid obj ->
  decode_struct (pre ++ struct_wire obj ++ post) (length pre) obj0 =
    Some (obj, (length pre + length (struct_wire obj))%nat).
Proof.
  intros Hv. unfold decode_struct, struct_wire. rewrite <- laws_fields, decode_impl_wire by done.
  by rewrite laws_fields, fields_cover.
Qed.

Lemma encode_struct_wire buf obj : struct_valid obj -> encode_struct buf obj = buf ++ struct_wire obj.
Proof. intros Hv. unfold encode_struct. rewrite <- laws_fields. by apply encode_impl_wire. Qed.

Lemma struct_wire_ok obj : struct_valid obj -> bytes_ok (struct_wire obj).
Proof.
  intros Hv. apply Forall_concat, Forall_fmap. eapply Forall_impl; [exact Hv|].
  intros d Hd. by apply (wire_ok _ _ _ _ (@wire_law _ _ (desc_law d))).
Qed.

Lemma struct_law init : codec_law encode_struct (fun buf offset => decode_struct buf offset init)
  struct_valid struct_wire.
Proof.
  split; [intros; by apply encode_struct_wire | apply struct_wire_ok | intros; by apply decode_struct_wire].
Qed.

#[export,refine] Instance struct_vector_law (init : T) :
    @WireLaw (list T) (struct_vector_field init) := {
  valid := vector_valid struct_valid;
  wire := vector_wire struct_wire;
}.
Proof. apply vector_law, struct_law. Defined.
End struct.

(** ** Properties *)

(** Fields round-trip.  For every type with an [encode_field] overload, and
    every value of it that fits its prefix, decoding at any offset of any buffer
    that holds the encoding returns the value and the offset just past it. *)
Theorem field_roundtrip (A : Type) `{WireLaw A} pre (v : A) post :
  valid v ->
  decode_field (pre ++ encode_field [] v ++ post) (length pre) =
    Some (v, (length pre + length (encode_field [] v))%nat).
Proof. intros Hv. rewrite (enc_wire _ _ _ _ wire_law) by done. cbn [app]. by apply wire_law. Qed.

Lemma field_roundtrip_witness :
  decode_field ([9; 9] ++ encode_field [] (Map [("a", [1; 2]); ("ab", [])]) ++ [7]) 2 =
    Some (Map [("a", [1; 2]); ("ab", [])], 27%nat) /\
  decode_field ([9] ++ encode_field [] (I16 (-2)) ++ []) 1 = Some (I16 (-2), 3%nat) /\
  decode_field ([] ++ encode_field [] ["x"; EmptyString]%string ++ []) 0 = Some (["x"; EmptyString]%string, 13%nat).
Proof.
  split_and!.
  - refine (eq_trans (field_roundtrip strmap [9; 9] (Map [("a", [1; 2]); ("ab", [])]) [7] _) _);
      [|reflexivity].
    split; [repeat constructor|]. split; [vm_compute; reflexivity|].
    repeat constructor; unfold byte_ok; cbn; lia.
  - refine (eq_trans (field_roundtrip int16 [9] (I16 (-2)) [] _) _); [|reflexivity]. cbn. lia.
  - refine (eq_trans (field_roundtrip (list string) [] ["x"; EmptyString]%string [] _) _); [|reflexivity].
    split; [vm_compute; reflexivity|]. repeat constructor; cbn; lia.
Defined.

(** C26: records round-trip.  For every struct described by a [glz::meta] whose
    fields cover it, [encode] yields bytes, and [decode], at any offset and into
    any object, recovers the struct and stops exactly at its end. *)
Theorem struct_roundtrip (T : Type) `{MetaLaw T} pre (obj : T) post obj0 :
  struct_valid obj ->
  bytes_ok (encode obj) /\
  decode (pre ++ encode obj ++ post) (length pre) obj0 =
    Some (obj, (length pre + length (encode obj))%nat).
Proof.
  intros Hv. unfold encode, decode. rewrite encode_struct_wire by done. cbn [app]. split.
  - by apply struct_wire_ok.
  - by apply decode_struct_wire.
Qed.

(** A struct of two fields, to instantiate the theorem. *)
#[local] Instance pair_meta : Meta (bool * string) := [
  field "first" (fun p => p.1) (fun v p => (v, p.2));
  field "second" (fun p => p.2) (fun v p => (p.1, v))
].

#[local,refine] Instance pair_law : MetaLaw (bool * string) := {
  laws := [mkDescribed (field "first" (fun p => p.1) (fun v p => (v, p.2))) _;
           mkDescribed (field "second" (fun p => p.2) (fun v p => (p.1, v))) _];
}.
Proof.
  - reflexivity.
  - by intros [] [].
Defined.

Lemma struct_roundtrip_witness :
  encode (true, "gp") = [1; 2; 0; 0; 0; 103; 112] /\
  decode ([5] ++ encode (true, "gp") ++ [6]) 1 (false, "old") = Some ((true, "gp"), 8%nat).
Proof.
  split; [reflexivity|].
  refine (eq_trans (proj2 (struct_roundtrip (bool * string) [5] (true, "gp") [6] (false, "old") _)) _);
    [|reflexivity].
  repeat constructor.
Defined.
