(* ===== verification/GoproTypes.v ===== *)
(** * The event records
    ([native/include/gopro_types.h])

    [EventKind], [CameraRecord], and its [glz::meta] description as an instance
    of [Meta], with the law that makes the round trip of [GlazeMeta] hold of it.
    The Dart reader of the same bytes is in [EventCodec]. *)

From stdpp Require Import strings.
From S2P Require Import Prelude GlazeMeta.
Local Open Scope Z_scope.

Inductive EventKind := kSentinel | kUpdate | kLeft.

#[export] Instance EventKind_eq_dec : EqDecision EventKind.
Proof. solve_decision. Defined.

Definition EventKind_val (k : EventKind) : byte :=
  match k with kSentinel => 0 | kUpdate => 1 | kLeft => 2 end.

Record CameraRecord := mkCameraRecord {
  vid : uint 2;
  pid : uint 2;
  bus : uint 1;
  address : uint 1;
  sysfsName : string;
  serial : string;
  serialSource : uint 1;
  ip : string;
  netdev : string;
  netdevFirstSeen : string;
  netdevRenamed : bool;
  linkState : string;
  hostIp : string;
  readiness : uint 1;
  hasCdc : bool;
  elapsedMs : uint 4;
}.

Definition CameraRecord_init : CameraRecord :=
  mkCameraRecord (U 0) (U 0) (U 0) (U 0) EmptyString EmptyString (U 0) EmptyString EmptyString EmptyString false EmptyString EmptyString (U 0) false (U 0).

(** Assigning one member. *)
Definition set_vid (v : uint 2) (r : CameraRecord) : CameraRecord :=
  mkCameraRecord v (pid r) (bus r) (address r) (sysfsName r) (serial r) (serialSource r) (ip r)
    (netdev r) (netdevFirstSeen r) (netdevRenamed r) (linkState r) (hostIp r) (readiness r)
    (hasCdc r) (elapsedMs r).
Definition set_pid (v : uint 2) (r : CameraRecord) : CameraRecord :=
  mkCameraRecord (vid r) v (bus r) (address r) (sysfsName r) (serial r) (serialSource r) (ip r)
    (netdev r) (netdevFirstSeen r) (netdevRenamed r) (linkState r) (hostIp r) (readiness r)
    (hasCdc r) (elapsedMs r).
Definition set_bus (v : uint 1) (r : CameraRecord) : CameraRecord :=
  mkCameraRecord (vid r) (pid r) v (address r) (sysfsName r) (serial r) (serialSource r) (ip r)
    (netdev r) (netdevFirstSeen r) (netdevRenamed r) (linkState r) (hostIp r) (readiness r)
    (hasCdc r) (elapsedMs r).
Definition set_address (v : uint 1) (r : CameraRecord) : CameraRecord :=
  mkCameraRecord (vid r) (pid r) (bus r) v (sysfsName r) (serial r) (serialSource r) (ip r)
    (netdev r) (netdevFirstSeen r) (netdevRenamed r) (linkState r) (hostIp r) (readiness r)
    (hasCdc r) (elapsedMs r).
Definition set_sysfsName (v : string) (r : CameraRecord) : CameraRecord :=
  mkCameraRecord (vid r) (pid r) (bus r) (address r) v (serial r) (serialSource r) (ip r)
    (netdev r) (netdevFirstSeen r) (netdevRenamed r) (linkState r) (hostIp r) (readiness r)
    (hasCdc r) (elapsedMs r).
Definition set_serial (v : string) (r : CameraRecord) : CameraRecord :=
  mkCameraRecord (vid r) (pid r) (bus r) (address r) (sysfsName r) v (serialSource r) (ip r)
    (netdev r) (netdevFirstSeen r) (netdevRenamed r) (linkState r) (hostIp r) (readiness r)
    (hasCdc r) (elapsedMs r).
Definition set_serialSource (v : uint 1) (r : CameraRecord) : CameraRecord :=
  mkCameraRecord (vid r) (pid r) (bus r) (address r) (sysfsName r) (serial r) v (ip r) (netdev
    r) (netdevFirstSeen r) (netdevRenamed r) (linkState r) (hostIp r) (readiness r) (hasCdc r)
    (elapsedMs r).
Definition set_ip (v : string) (r : CameraRecord) : CameraRecord :=
  mkCameraRecord (vid r) (pid r) (bus r) (address r) (sysfsName r) (serial r) (serialSource r) v
    (netdev r) (netdevFirstSeen r) (netdevRenamed r) (linkState r) (hostIp r) (readiness r)
    (hasCdc r) (elapsedMs r).
Definition set_netdev (v : string) (r : CameraRecord) : CameraRecord :=
  mkCameraRecord (vid r) (pid r) (bus r) (address r) (sysfsName r) (serial r) (serialSource r)
    (ip r) v (netdevFirstSeen r) (netdevRenamed r) (linkState r) (hostIp r) (readiness r)
    (hasCdc r) (elapsedMs r).
Definition set_netdevFirstSeen (v : string) (r : CameraRecord) : CameraRecord :=
  mkCameraRecord (vid r) (pid r) (bus r) (address r) (sysfsName r) (serial r) (serialSource r)
    (ip r) (netdev r) v (netdevRenamed r) (linkState r) (hostIp r) (readiness r) (hasCdc r)
    (elapsedMs r).
Definition set_netdevRenamed (v : bool) (r : CameraRecord) : CameraRecord :=
  mkCameraRecord (vid r) (pid r) (bus r) (address r) (sysfsName r) (serial r) (serialSource r)
    (ip r) (netdev r) (netdevFirstSeen r) v (linkState r) (hostIp r) (readiness r) (hasCdc r)
    (elapsedMs r).
Definition set_linkState (v : string) (r : CameraRecord) : CameraRecord :=
  mkCameraRecord (vid r) (pid r) (bus r) (address r) (sysfsName r) (serial r) (serialSource r)
    (ip r) (netdev r) (netdevFirstSeen r) (netdevRenamed r) v (hostIp r) (readiness r) (hasCdc
    r) (elapsedMs r).
Definition set_hostIp (v : string) (r : CameraRecord) : CameraRecord :=
  mkCameraRecord (vid r) (pid r) (bus r) (address r) (sysfsName r) (serial r) (serialSource r)
    (ip r) (netdev r) (netdevFirstSeen r) (netdevRenamed r) (linkState r) v (readiness r)
    (hasCdc r) (elapsedMs r).
Definition set_readiness (v : uint 1) (r : CameraRecord) : CameraRecord :=
  mkCameraRecord (vid r) (pid r) (bus r) (address r) (sysfsName r) (serial r) (serialSource r)
    (ip r) (netdev r) (netdevFirstSeen r) (netdevRenamed r) (linkState r) (hostIp r) v (hasCdc
    r) (elapsedMs r).
Definition set_hasCdc (v : bool) (r : CameraRecord) : CameraRecord :=
  mkCameraRecord (vid r) (pid r) (bus r) (address r) (sysfsName r) (serial r) (serialSource r)
    (ip r) (netdev r) (netdevFirstSeen r) (netdevRenamed r) (linkState r) (hostIp r) (readiness
    r) v (elapsedMs r).
Definition set_elapsedMs (v : uint 4) (r : CameraRecord) : CameraRecord :=
  mkCameraRecord (vid r) (pid r) (bus r) (address r) (sysfsName r) (serial r) (serialSource r)
    (ip r) (netdev r) (netdevFirstSeen r) (netdevRenamed r) (linkState r) (hostIp r) (readiness
    r) (hasCdc r) v.

#[export] Instance CameraRecord_meta : Meta CameraRecord := [
  field "vid" vid set_vid;
  field "pid" pid set_pid;
  field "bus" bus set_bus;
  field "address" address set_address;
  field "sysfsName" sysfsName set_sysfsName;
  field "serial" serial set_serial;
  field "serialSource" serialSource set_serialSource;
  field "ip" ip set_ip;
  field "netdev" netdev set_netdev;
  field "netdevFirstSeen" netdevFirstSeen set_netdevFirstSeen;
  field "netdevRenamed" netdevRenamed set_netdevRenamed;
  field "linkState" linkState set_linkState;
  field "hostIp" hostIp set_hostIp;
  field "readiness" readiness set_readiness;
  field "hasCdc" hasCdc set_hasCdc;
  field "elapsedMs" elapsedMs set_elapsedMs
].

#[export,refine] Instance CameraRecord_law : MetaLaw CameraRecord := {
  laws := [
    mkDescribed (field "vid" vid set_vid) _;
    mkDescribed (field "pid" pid set_pid) _;
    mkDescribed (field "bus" bus set_bus) _;
    mkDescribed (field "address" address set_address) _;
    mkDescribed (field "sysfsName" sysfsName set_sysfsName) _;
    mkDescribed (field "serial" serial set_serial) _;
    mkDescribed (field "serialSource" serialSource set_serialSource) _;
    mkDescribed (field "ip" ip set_ip) _;
    mkDescribed (field "netdev" netdev set_netdev) _;
    mkDescribed (field "netdevFirstSeen" netdevFirstSeen set_netdevFirstSeen) _;
    mkDescribed (field "netdevRenamed" netdevRenamed set_netdevRenamed) _;
    mkDescribed (field "linkState" linkState set_linkState) _;
    mkDescribed (field "hostIp" hostIp set_hostIp) _;
    mkDescribed (field "readiness" readiness set_readiness) _;
    mkDescribed (field "hasCdc" hasCdc set_hasCdc) _;
    mkDescribed (field "elapsedMs" elapsedMs set_elapsedMs) _
  ];
}.
Proof.
  - reflexivity.
  - by intros [] [].
Defined.

(** [post] in [gopro_bridge.cpp]: the payload of an event, without the posting. *)
Definition event_bytes (kind : EventKind) (rec : option CameraRecord) : bytes :=
  EventKind_val kind :: match rec with Some r => encode r | None => [] end.
