(* ===== verification/GoproUsb.v ===== *)
(** * USB discovery
    ([native/include/gopro_usb.h], [native/src/gopro_usb.cpp])

    What the operating system and libusb answer is outside the library: a [Host]
    is the answers of the file system, [getifaddrs] and the socket calls during
    one operation, a [UsbDevice] those of libusb about one device.  No
    consistency between answers is assumed.  Strings are [std::string]s.  A listing
    that breaks off throws ([find_netdev_or_throw]), which ends the process; the
    runs are those in which none does. *)

From Stdlib Require Import Ascii.
From stdpp Require Import strings gmap.
From S2P Require Import Prelude GlazeMeta.
Local Open Scope Z_scope.

Definition kGoProVid : Z := 9842.  (** 0x2672 *)

Module SerialSource.
Inductive t := kNone | kDescriptor | kSysfs.

#[global] Instance eq_dec : EqDecision t.
Proof. solve_decision. Defined.

Definition val (s : t) : Z := match s with kNone => 0 | kDescriptor => 1 | kSysfs => 2 end.
End SerialSource.

Inductive Readiness := kAbsent | kUsbPresent | kNetdevBound | kHostAddressed | kL3Ready.

#[export] Instance Readiness_eq_dec : EqDecision Readiness.
Proof. solve_decision. Defined.

Definition Readiness_val (r : Readiness) : Z :=
  match r with
  | kAbsent => 0 | kUsbPresent => 1 | kNetdevBound => 2 | kHostAddressed => 3 | kL3Ready => 4
  end.

Definition Readiness_to_string (r : Readiness) : string :=
  match r with
  | kAbsent => "absent"
  | kUsbPresent => "usb-present"
  | kNetdevBound => "netdev-bound"
  | kHostAddressed => "host-addressed"
  | kL3Ready => "l3-ready"
  end.

Record Camera := mkCamera {
  vid : Z;
  pid : Z;
  bus : byte;
  address : byte;
  ports : bytes;
  sysfs_name_ : string;  (** the member [sysfs_name] *)
  serial : string;
  serial_source : SerialSource.t;
  ip : string;
  netdev : string;
  netdev_first_seen : string;
  netdev_renamed : bool;
  link_state_ : string;  (** the member [link_state] *)
  host_ip : string;
  readiness : Readiness;
  has_cdc_interface : bool;
}.

Definition Camera_init : Camera :=
  mkCamera 0 0 0 0 [] EmptyString EmptyString SerialSource.kNone EmptyString EmptyString
    EmptyString false EmptyString EmptyString kAbsent false.

(** [s.empty()]. *)
Definition empty (s : string) : bool := match s with EmptyString => true | _ => false end.

(** ** Formatting *)

Definition digit (d : Z) : ascii := byte_char (48 + d).

(** [std::format("{}", n)] of a non-negative number; [n] decimal digits suffice. *)
Fixpoint dec_digits (fuel : nat) (n : Z) : list ascii :=
  match fuel with
  | O => []
  | S fuel => if n <? 10 then [digit n] else dec_digits fuel (n / 10) ++ [digit (n mod 10)]
  end.

Definition dec (n : Z) : string := String.string_of_list_ascii (dec_digits 20 n).

Definition hex_digit (d : Z) : ascii := if d <? 10 then digit d else byte_char (87 + d).

(** [std::format("{:04x}", n)] of a [uint16_t]. *)
Definition hex4 (n : Z) : string :=
  String.string_of_list_ascii
    [hex_digit (n / 4096 mod 16); hex_digit (n / 256 mod 16); hex_digit (n / 16 mod 16); hex_digit (n mod 16)].

Definition newline : string := String (ascii_of_nat 10) EmptyString.

(** ** Pure helpers *)

Definition is_digit (c : ascii) : bool :=
  (48 <=? char_byte c) && (char_byte c <=? 57).

Definition derive_ip (serial : string) : option string :=
  let l := String.list_ascii_of_string serial in
  if (length l <? 3)%nat then None
  else
    match skipn (length l - 3) l with
    | [x; y; z] =>
        if forallb is_digit [x; y; z] then
          Some ("172.2" +:+ String x ".1" +:+ String y (String z ".51"))
        else None
    | _ => None
    end.

Definition sysfs_name (bus : byte) (ports : bytes) : string :=
  match ports with
  | [] => "usb" +:+ dec bus
  | p :: ps => foldl (fun s p => s +:+ "." +:+ dec p) (dec bus +:+ "-" +:+ dec p) ps
  end.

Definition is_cdc_class (cls : byte) : bool :=
  (* LIBUSB_CLASS_COMM, LIBUSB_CLASS_DATA, misc *)
  (cls =? 2) || (cls =? 10) || (cls =? 239).

Definition or_else (s alt : string) : string := if empty s then alt else s.

Definition describe (c : Camera) : string :=
  hex4 (vid c) +:+ ":" +:+ hex4 (pid c) +:+ " bus " +:+ dec (bus c) +:+ " addr " +:+ dec (address c) +:+
  " at " +:+ sysfs_name_ c +:+
  newline +:+ "    serial : " +:+ or_else (serial c) "<unavailable>" +:+
  match serial_source c with
  | SerialSource.kSysfs => " (sysfs)"
  | SerialSource.kDescriptor => " (descriptor)"
  | SerialSource.kNone => EmptyString
  end +:+
  newline +:+ "    ip     : " +:+ or_else (ip c) "<underivable>" +:+
  newline +:+ "    netdev : " +:+ or_else (netdev c) "<not bound>" +:+
  (if netdev_renamed c then
     "  (RENAMED from '" +:+ netdev_first_seen c +:+ "' -- see DEBUG NOTE)"
   else EmptyString) +:+
  newline +:+ "    link   : " +:+ or_else (link_state_ c) "-" +:+
  newline +:+ "    host ip: " +:+ or_else (host_ip c) "<no lease>" +:+
  newline +:+ "    cdc    : " +:+ (if has_cdc_interface c then "yes" else "no") +:+
  newline +:+ "    state  : " +:+ Readiness_to_string (readiness c).

(** ** The host *)

(** One entry of [getifaddrs]: its name, whether it has an address and of what
    family, and what [inet_ntop] makes of an IPv4 one. *)
Record IfAddr := mkIfAddr {
  ifa_name : option string;
  has_addr : bool;
  is_inet : bool;
  inet_ntop : option string;
}.

(** The outcome of a non-blocking [connect]. *)
Inductive ConnectResult := Connected | InProgress | ConnectError.

Record Host := mkHost {
  is_directory : string -> bool;
  path_exists : string -> bool;
  list_directory : string -> list string;  (** names, in iteration order *)
  first_line : string -> option string;    (** [None]: the file cannot be opened *)
  getifaddrs : option (list IfAddr);
  inet_pton : string -> bool;
  socket_ok : bool;
  connect : string -> Z -> ConnectResult;
  poll_writable : Z -> bool;               (** within this many milliseconds *)
  so_error : option Z;
}.

(** [fs::path(dir) / name]. *)
Definition path_join (dir name : string) : string := dir +:+ "/" +:+ name.

(** The [while] loop that pops a trailing newline or carriage return. *)
Fixpoint trim_rev (l : list ascii) : list ascii :=
  match l with
  | c :: l' => if (char_byte c =? 10) || (char_byte c =? 13) then trim_rev l' else l
  | [] => []
  end.

Definition trim_line (s : string) : string :=
  String.string_of_list_ascii (rev (trim_rev (rev (String.list_ascii_of_string s)))).

Definition read_sysfs_line (h : Host) (path : string) : string :=
  match first_line h path with None => EmptyString | Some s => trim_line s end.

Definition kSysUsb : string := "/sys/bus/usb/devices".

(** The loop over a device's interface directories. *)
Fixpoint find_in_interfaces (h : Host) (dev_dir prefix : string) (names : list string) : string :=
  match names with
  | [] => EmptyString
  | name :: names =>
      if negb (String.prefix prefix name) then find_in_interfaces h dev_dir prefix names
      else
        let net_dir := path_join (path_join dev_dir name) "net" in
        if negb (is_directory h net_dir) then find_in_interfaces h dev_dir prefix names
        else
          match list_directory h net_dir with
          | n :: _ => n
          | [] => find_in_interfaces h dev_dir prefix names
          end
  end.

Definition find_netdev (h : Host) (sysfs_name root : string) : string :=
  let dev_dir := path_join root sysfs_name in
  if negb (is_directory h dev_dir) then EmptyString
  else find_in_interfaces h dev_dir (sysfs_name +:+ ":") (list_directory h dev_dir).

(** The increment of the outer loop may throw, where [breaks] says that a listing
    ends in an error and not at its end; [None]: a [filesystem_error], which
    nothing catches.  [find_netdev] is what is returned otherwise
    ([find_netdev_returns]), and the rest of the model is of runs in which this
    does not happen. *)
Section throwing.
Variable breaks : string -> bool.

Fixpoint find_in_interfaces_or_throw (h : Host) (dev_dir prefix : string) (names : list string) : option string :=
  match names with
  | [] => if breaks dev_dir then None else Some EmptyString
  | name :: names =>
      if negb (String.prefix prefix name) then find_in_interfaces_or_throw h dev_dir prefix names
      else
        let net_dir := path_join (path_join dev_dir name) "net" in
        if negb (is_directory h net_dir) then find_in_interfaces_or_throw h dev_dir prefix names
        else
          match list_directory h net_dir with
          | n :: _ => Some n
          | [] => find_in_interfaces_or_throw h dev_dir prefix names
          end
  end.

Definition find_netdev_or_throw (h : Host) (sysfs_name root : string) : option string :=
  let dev_dir := path_join root sysfs_name in
  if negb (is_directory h dev_dir) then Some EmptyString
  else find_in_interfaces_or_throw h dev_dir (sysfs_name +:+ ":") (list_directory h dev_dir).
End throwing.

(** Assigning the netdev members. *)
Definition set_netdev (c : Camera) (now first : string) (renamed : bool) : Camera :=
  mkCamera (vid c) (pid c) (bus c) (address c) (ports c) (sysfs_name_ c) (serial c) (serial_source c)
    (ip c) now first renamed (link_state_ c) (host_ip c) (readiness c) (has_cdc_interface c).

(** Folding in the name found now. *)
Definition note_netdev (c : Camera) (now : string) : Camera :=
  if empty now then c
  else if empty (netdev_first_seen c) then set_netdev c now now (netdev_renamed c)
  else if negb (String.eqb (netdev_first_seen c) now) then set_netdev c now (netdev_first_seen c) true
  else set_netdev c now (netdev_first_seen c) (netdev_renamed c).

Definition resolve_netdev (h : Host) (c : Camera) (root : string) : Camera :=
  note_netdev c (find_netdev h (sysfs_name_ c) root).

(** The loop over the interface addresses: the first IPv4 entry of that name
    decides, whether or not its address can be printed. *)
Fixpoint host_ipv4_loop (netdev : string) (l : list IfAddr) : string :=
  match l with
  | [] => EmptyString
  | p :: l =>
      match ifa_name p with
      | Some name =>
          if has_addr p && is_inet p && String.eqb netdev name
          then default EmptyString (inet_ntop p)
          else host_ipv4_loop netdev l
      | None => host_ipv4_loop netdev l
      end
  end.

Definition host_ipv4 (h : Host) (netdev : string) : string :=
  if empty netdev then EmptyString
  else match getifaddrs h with None => EmptyString | Some l => host_ipv4_loop netdev l end.

Definition link_state (h : Host) (netdev : string) : string :=
  if empty netdev then EmptyString
  else read_sysfs_line h (path_join (path_join "/sys/class/net" netdev) "operstate").

Definition probe_tcp (h : Host) (ip : string) (port timeout_ms : Z) : bool :=
  if negb (inet_pton h ip) then false
  else if negb (socket_ok h) then false
  else
    match connect h ip port with
    | Connected => true
    | InProgress => poll_writable h timeout_ms && bool_decide (so_error h = Some 0)
    | ConnectError => false
    end.

(** ** Readiness *)

Definition set_readiness (c : Camera) (link host : string) (r : Readiness) : Camera :=
  mkCamera (vid c) (pid c) (bus c) (address c) (ports c) (sysfs_name_ c) (serial c) (serial_source c)
    (ip c) (netdev c) (netdev_first_seen c) (netdev_renamed c) link host r (has_cdc_interface c).

(** The member [readiness] of the result is the value returned. *)
Definition advance_readiness (h : Host) (c : Camera) (probe_port probe_timeout_ms : Z) : Camera :=
  if negb (path_exists h (path_join kSysUsb (sysfs_name_ c)))
  then set_readiness c (link_state_ c) (host_ip c) kAbsent
  else
    let c := set_readiness c (link_state_ c) (host_ip c) kUsbPresent in
    let c := resolve_netdev h c kSysUsb in
    if empty (netdev c) then c
    else
      let c := set_readiness c (link_state h (netdev c)) (host_ip c) kNetdevBound in
      let c := set_readiness c (link_state_ c) (host_ipv4 h (netdev c)) kNetdevBound in
      if empty (host_ip c) then c
      else
        let c := set_readiness c (link_state_ c) (host_ip c) kHostAddressed in
        if (probe_port =? 0) || empty (ip c) then c
        else if probe_tcp h (ip c) probe_port probe_timeout_ms
        then set_readiness c (link_state_ c) (host_ip c) kL3Ready
        else c.

Definition kProbePort : Z := 8080.
Definition kProbeTimeoutMs : Z := 500.

(** [wait_until_ready]: one sample per iteration, the host during the attempt
    and the clock after it; [None] if the samples run out before the loop
    ends. *)
Fixpoint wait_until_ready (samples : list (Host * Z)) (c : Camera) (deadline poll_ms probe_port : Z)
    : option Camera :=
  match samples with
  | [] => None
  | (h, now) :: samples =>
      let c := advance_readiness h c probe_port (Z.min (poll_ms * 4) 500) in
      if bool_decide (readiness c = kL3Ready) then Some c
      else if deadline <=? now then Some c
      else wait_until_ready samples c deadline poll_ms probe_port
  end.

(** ** Discovery *)

Record DeviceDescriptor := mkDescriptor {
  idVendor : Z;
  idProduct : Z;
  iSerialNumber : Z;
}.

(** What libusb answers about a device. *)
Record UsbDevice := mkUsbDevice {
  device_descriptor : option DeviceDescriptor;
  bus_number : byte;
  device_address : byte;
  port_numbers : option bytes;                   (** [None]: an error *)
  active_config : option (list (list byte));     (** per interface, its alternate settings' classes *)
  can_open : bool;
  serial_descriptor : option string;             (** [None]: not positive *)
}.

Definition build_identity (d : UsbDevice) : Camera :=
  let ps := default [] (port_numbers d) in
  let ids := from_option (fun x => (idVendor x, idProduct x)) (0, 0) (device_descriptor d) in
  mkCamera ids.1 ids.2 (bus_number d) (device_address d) ps (sysfs_name (bus_number d) ps)
    EmptyString SerialSource.kNone EmptyString EmptyString EmptyString false EmptyString EmptyString
    kAbsent false.

(** The two loops over the active configuration. *)
Definition has_cdc (d : UsbDevice) : bool :=
  match active_config d with None => false | Some itfs => existsb (existsb is_cdc_class) itfs end.

(** The serial: from the descriptor if the device opens, else from sysfs. *)
Definition read_serial (h : Host) (d : UsbDevice) (sysfs : string) : string * SerialSource.t :=
  let isn := from_option iSerialNumber 0 (device_descriptor d) in
  let from_descriptor :=
    if negb (isn =? 0) && can_open d then serial_descriptor d else None in
  let '(s, src) := from_option (fun s => (s, SerialSource.kDescriptor)) (EmptyString, SerialSource.kNone)
                     from_descriptor in
  if empty s then
    let s' := read_sysfs_line h (path_join (path_join kSysUsb sysfs) "serial") in
    if empty s' then (s, src) else (s', SerialSource.kSysfs)
  else (s, src).

Definition build (h : Host) (d : UsbDevice) (readable : bool) : Camera :=
  let c := build_identity d in
  if negb readable then c
  else
    let '(s, src) := read_serial h d (sysfs_name_ c) in
    let c := mkCamera (vid c) (pid c) (bus c) (address c) (ports c) (sysfs_name_ c) s src
               (default EmptyString (derive_ip s)) EmptyString EmptyString false EmptyString EmptyString
               kAbsent (has_cdc d) in
    advance_readiness h c 0 kProbeTimeoutMs.

(** The members of [Discovery::Impl] other than the libusb handles. *)
Record Discovery := mkDiscovery {
  d_vid : Z;
  watching : bool;
  has_cb : bool;
  cache : gmap string Camera;
}.

(** [create]: [None] if libusb does not initialise. *)
Definition Discovery_create (libusb_init_ok : bool) (vid : Z) : option Discovery :=
  if libusb_init_ok then Some (mkDiscovery vid false false ∅) else None.

Definition set_cache (d : Discovery) (m : gmap string Camera) : Discovery :=
  mkDiscovery (d_vid d) (watching d) (has_cb d) m.

(** The loop of [enumerate] over the devices libusb lists ([None]: an error),
    each with the host's answers while it is examined. *)
Fixpoint enumerate_loop (d : Discovery) (l : list (Host * UsbDevice)) : Discovery * list Camera :=
  match l with
  | [] => (d, [])
  | (h, dev) :: l =>
      match device_descriptor dev with
      | Some desc =>
          if negb (idVendor desc =? d_vid d) then enumerate_loop d l
          else
            let c := build h dev true in
            let '(d, out) := enumerate_loop (set_cache d (<[sysfs_name_ c := c]> (cache d))) l in
            (d, c :: out)
      | None => enumerate_loop d l
      end
  end.

Definition enumerate (d : Discovery) (devices : option (list (Host * UsbDevice)))
    : Discovery * list Camera :=
  match devices with None => (d, []) | Some l => enumerate_loop d l end.

(** What a departure recovers from the cache. *)
Definition recover (c prev : Camera) : Camera :=
  mkCamera (vid prev) (pid prev) (bus c) (address c) (ports c) (sysfs_name_ c) (serial prev)
    (serial_source prev) (ip prev) (netdev prev) (netdev_first_seen c) (netdev_renamed c)
    (link_state_ c) (host_ip c) (readiness c) (has_cdc_interface prev).

(** The hotplug callback: the new state, and what the user's callback is given. *)
Definition trampoline (d : Discovery) (h : Host) (dev : UsbDevice) (arrived : bool)
    : Discovery * list (Camera * bool) :=
  let c := build h dev arrived in
  let '(m, c) :=
    if arrived then (<[sysfs_name_ c := c]> (cache d), c)
    else match cache d !! sysfs_name_ c with
         | Some prev => (delete (sysfs_name_ c) (cache d), recover c prev)
         | None => (cache d, c)
         end in
  (set_cache d m, if has_cb d then [(c, arrived)] else []).

Definition watch (d : Discovery) (hotplug_supported register_ok : bool) : Discovery * bool :=
  if negb hotplug_supported then (d, false)
  else if negb register_ok then (mkDiscovery (d_vid d) (watching d) true (cache d), false)
  else (mkDiscovery (d_vid d) true true (cache d), true).

(** ** Strings as lists of characters *)

Abbreviation chars := String.list_ascii_of_string.

Lemma chars_app s t : chars (s +:+ t) = chars s ++ chars t.
Proof.
  induction s as [|c s IH]; [done|].
  change (c :: chars (s +:+ t) = c :: (chars s ++ chars t)). by rewrite IH.
Qed.

Lemma chars_of_list l : chars (String.string_of_list_ascii l) = l.
Proof. apply String.list_ascii_of_string_of_list_ascii. Qed.

Lemma chars_inj s t : chars s = chars t -> s = t.
Proof.
  intros H. by rewrite <- (String.string_of_list_ascii_of_string s), H,
    String.string_of_list_ascii_of_string.
Qed.

Lemma empty_spec s : empty s = true <-> s = EmptyString.
Proof. by destruct s. Qed.

Lemma empty_false s : empty s = false <-> s <> EmptyString.
Proof. by destruct s. Qed.

(** The decimal digits of a byte, read back. *)
Definition read_dec (l : list ascii) : Z := foldl (fun v c => 10 * v + (char_byte c - 48)) 0 l.

Lemma dec_byte n :
  byte_ok n -> forallb is_digit (dec_digits 20 n) = true /\ dec_digits 20 n <> [] /\
  read_dec (dec_digits 20 n) = n.
Proof.
  intros Hn.
  assert (forallb is_digit (dec_digits 20 n) && negb (length (dec_digits 20 n) =? 0)%nat &&
          (read_dec (dec_digits 20 n) =? n) = true) as H.
  { apply (forallb_below 256 (fun n => forallb is_digit (dec_digits 20 n) &&
      negb (length (dec_digits 20 n) =? 0)%nat && (read_dec (dec_digits 20 n) =? n))); [|exact Hn].
    vm_compute. reflexivity. }
  to_prop. split_and!; try done. by destruct (dec_digits 20 n).
Qed.

Lemma chars_dec n : chars (dec n) = dec_digits 20 n.
Proof. apply chars_of_list. Qed.

(** Text that does not begin with a digit. *)
Definition no_digit_ahead (l : list ascii) : Prop :=
  match l with [] => True | c :: _ => is_digit c = false end.

Lemma digits_split a : forall b x y,
  forallb is_digit a = true -> forallb is_digit b = true ->
  no_digit_ahead x -> no_digit_ahead y -> a ++ x = b ++ y -> a = b /\ x = y.
Proof.
  induction a as [|c a IH]; intros [|d b] x y Ha Hb Hx Hy E; cbn in *.
  - done.
  - subst x. cbn in Hx. to_prop. congruence.
  - subst y. cbn in Hy. to_prop. congruence.
  - injection E as -> E. to_prop. destruct (IH b x y) as [-> ->]; done.
Qed.

Lemma dec_split m n x y :
  byte_ok m -> byte_ok n -> no_digit_ahead x -> no_digit_ahead y ->
  dec_digits 20 m ++ x = dec_digits 20 n ++ y -> m = n /\ x = y.
Proof.
  intros Hm Hn Hx Hy E. destruct (dec_byte m Hm) as (Hm1 & _ & Hm3).
  destruct (dec_byte n Hn) as (Hn1 & _ & Hn3).
  destruct (digits_split _ _ _ _ Hm1 Hn1 Hx Hy E) as [Ed ->].
  split; [|done]. by rewrite <- Hm3, <- Hn3, Ed.
Qed.

(** The port list after the first. *)
Definition dotted (ps : bytes) : list ascii := concat ((fun p => chars "." ++ dec_digits 20 p) <$> ps).

Lemma chars_sysfs_name b p ps :
  chars (sysfs_name b (p :: ps)) = dec_digits 20 b ++ chars "-" ++ dec_digits 20 p ++ dotted ps.
Proof.
  cbn [sysfs_name].
  assert (forall s, chars (foldl (fun s p => s +:+ "." +:+ dec p) s ps) = chars s ++ dotted ps) as H.
  { unfold dotted. induction ps as [|q ps IH]; intros s; cbn [foldl fmap list_fmap concat]; [by rewrite app_nil_r|].
    rewrite IH, !chars_app, chars_dec. by rewrite <- !app_assoc. }
  rewrite H, !chars_app, !chars_dec. by rewrite <- !app_assoc.
Qed.

Lemma dotted_ahead ps : no_digit_ahead (dotted ps).
Proof. by destruct ps. Qed.

Lemma dotted_cons p ps : dotted (p :: ps) = "."%char :: dec_digits 20 p ++ dotted ps.
Proof. reflexivity. Qed.

Lemma dotted_inj ps : forall qs, bytes_ok ps -> bytes_ok qs -> dotted ps = dotted qs -> ps = qs.
Proof.
  induction ps as [|p ps IH]; intros [|q qs] Hp Hq E; try done.
  apply Forall_cons in Hp as [Hp1 Hp], Hq as [Hq1 Hq].
  rewrite !dotted_cons in E. apply (f_equal tail) in E. cbn [tail] in E.
  apply dec_split in E as [-> E]; auto using dotted_ahead. f_equal. by apply IH.
Qed.

(** ** Listings that break off *)

Lemma find_in_interfaces_returns breaks h dev_dir prefix names :
  find_in_interfaces_or_throw breaks h dev_dir prefix names = Some (find_in_interfaces h dev_dir prefix names) \/
  find_in_interfaces_or_throw breaks h dev_dir prefix names = None /\ breaks dev_dir = true /\
    find_in_interfaces h dev_dir prefix names = EmptyString.
Proof.
  induction names as [|name names IH]; cbn; [destruct (breaks dev_dir); auto|].
  destruct (negb (String.prefix prefix name)); [done|]. destruct (negb (is_directory h _)); [done|].
  destruct (list_directory h _); [done|by left].
Qed.

(** It returns [find_netdev], or throws; and it throws only when the listing of the
    device breaks off before an interface with a network device is found. *)
Lemma find_netdev_returns breaks h sysfs_name root :
  find_netdev_or_throw breaks h sysfs_name root = Some (find_netdev h sysfs_name root) \/
  find_netdev_or_throw breaks h sysfs_name root = None /\ breaks (path_join root sysfs_name) = true /\
    find_netdev h sysfs_name root = EmptyString.
Proof.
  unfold find_netdev_or_throw, find_netdev. destruct (negb _); [by left|]. apply find_in_interfaces_returns.
Qed.

(** ** The netdev name over time *)

(** What a camera knows of its interface after a sequence of samples. *)
Definition fold_names (c : Camera) (names : list string) : Camera := foldl note_netdev c names.

Definition observed (names : list string) : list string := List.filter (fun s => negb (empty s)) names.

Lemma note_netdev_frame c n :
  sysfs_name_ (note_netdev c n) = sysfs_name_ c /\ ip (note_netdev c n) = ip c /\
  readiness (note_netdev c n) = readiness c.
Proof. unfold note_netdev. repeat split_match; done. Qed.

Lemma observed_app a b : observed (a ++ b) = observed a ++ observed b.
Proof. apply List.filter_app. Qed.

Lemma fold_names_spec c names :
  netdev c = EmptyString -> netdev_first_seen c = EmptyString -> netdev_renamed c = false ->
  netdev (fold_names c names) = default EmptyString (last (observed names)) /\
  netdev_first_seen (fold_names c names) = default EmptyString (head (observed names)) /\
  netdev_renamed (fold_names c names) =
    existsb (fun n => negb (String.eqb (default EmptyString (head (observed names))) n)) (observed names).
Proof.
  intros H1 H2 H3. unfold fold_names.
  induction names as [|n names IH] using rev_ind; [by cbn; rewrite H1, H2, H3|].
  rewrite foldl_app, observed_app. cbn [foldl]. destruct IH as (I1 & I2 & I3).
  set (c' := foldl note_netdev c names) in *.
  unfold note_netdev. cbn [observed List.filter]. destruct (empty n) eqn:En; cbn [negb].
  { rewrite app_nil_r. by rewrite I1, I2, I3. }
  rewrite last_snoc, existsb_app. cbn [existsb default]. rewrite orb_false_r.
  assert (empty (netdev_first_seen c') = bool_decide (observed names = [])) as ->.
  { rewrite I2. destruct (observed names) as [|x l] eqn:Eo; [done|]. cbn.
    assert (x ∈ observed names) as Hx by (rewrite Eo; left).
    apply elem_of_lfilter in Hx as [_ Hx]. by apply negb_true_iff in Hx. }
  destruct (observed names) as [|x l] eqn:Eo; cbn [head app from_option id] in *.
  - cbn. rewrite String.eqb_refl. by rewrite I3.
  - rewrite bool_decide_eq_false_2 by done. rewrite I2. cbn [negb].
    destruct (String.eqb x n) eqn:Ex; cbn [negb set_netdev netdev netdev_first_seen netdev_renamed].
    + by rewrite I3, orb_false_r.
    + by rewrite orb_true_r.
Qed.

(** ** Readiness as a ladder *)

(** How many rungs hold before the first that does not. *)
Fixpoint rungs (l : list bool) : Z :=
  match l with true :: l => 1 + rungs l | _ => 0 end.

(** The interface a camera is taken to have: the one found now, else the last
    one known. *)
Definition known_netdev (h : Host) (c : Camera) : string :=
  or_else (find_netdev h (sysfs_name_ c) kSysUsb) (netdev c).

Lemma resolve_netdev_frame h c root :
  sysfs_name_ (resolve_netdev h c root) = sysfs_name_ c /\ ip (resolve_netdev h c root) = ip c /\
  readiness (resolve_netdev h c root) = readiness c.
Proof. apply note_netdev_frame. Qed.

Lemma note_netdev_netdev c n : netdev (note_netdev c n) = or_else n (netdev c).
Proof. unfold note_netdev, or_else. repeat split_match; done. Qed.

Lemma resolve_netdev_netdev h c : netdev (resolve_netdev h c kSysUsb) = known_netdev h c.
Proof. unfold resolve_netdev. by rewrite note_netdev_netdev. Qed.

Lemma advance_ladder h c port timeout :
  let c' := advance_readiness h c port timeout in
  Readiness_val (readiness c') =
    rungs [path_exists h (path_join kSysUsb (sysfs_name_ c));
           negb (empty (known_netdev h c));
           negb (empty (host_ipv4 h (known_netdev h c)));
           negb (port =? 0) && negb (empty (ip c)) && probe_tcp h (ip c) port timeout] /\
  sysfs_name_ c' = sysfs_name_ c /\ ip c' = ip c.
Proof.
  cbv zeta. unfold advance_readiness.
  destruct (path_exists h _); cbn [negb rungs]; [|done].
  set (c0 := set_readiness c (link_state_ c) (host_ip c) kUsbPresent).
  destruct (resolve_netdev_frame h c0 kSysUsb) as (E1 & E2 & E3).
  pose proof (resolve_netdev_netdev h c0) as E4. change (known_netdev h c0) with (known_netdev h c) in E4.
  set (c1 := resolve_netdev h c0 kSysUsb) in *. rewrite E4.
  destruct (empty (known_netdev h c)); cbn [negb rungs]; [by rewrite E3|].
  cbn [set_readiness netdev host_ip ip link_state_]. rewrite E4, E2.
  change (ip c0) with (ip c). change (sysfs_name_ c0) with (sysfs_name_ c) in E1.
  destruct (empty (host_ipv4 h (known_netdev h c))); cbn [negb rungs]; [done|].
  destruct (port =? 0), (empty (ip c)); cbn [orb negb andb rungs]; try done.
  by destruct (probe_tcp h (ip c) port timeout).
Qed.

Lemma advance_name h c port timeout :
  sysfs_name_ (advance_readiness h c port timeout) = sysfs_name_ c.
Proof. apply (advance_ladder h c port timeout). Qed.

Lemma build_name h d readable :
  sysfs_name_ (build h d readable) = sysfs_name (bus_number d) (default [] (port_numbers d)).
Proof.
  unfold build. destruct readable; cbn [negb]; [|done].
  destruct (read_serial _ _ _) as [s src]. by rewrite advance_name.
Qed.

(** ** Discovery over time *)

Definition device_name (d : UsbDevice) : string :=
  sysfs_name (bus_number d) (default [] (port_numbers d)).

Inductive discovery_event :=
| Enumerate (devices : option (list (Host * UsbDevice)))
| Hotplug (h : Host) (d : UsbDevice) (arrived : bool).

Definition exec_discovery (d : Discovery) (e : discovery_event) : Discovery :=
  match e with
  | Enumerate l => (enumerate d l).1
  | Hotplug h dev arrived => (trampoline d h dev arrived).1
  end.

Definition run_discovery (d : Discovery) (es : list discovery_event) : Discovery :=
  foldl exec_discovery d es.

(** An event that is not about the device at [name]. *)
Definition elsewhere (name : string) (e : discovery_event) : Prop :=
  match e with
  | Enumerate l => Forall (fun x => device_name x.2 <> name) (default [] l)
  | Hotplug _ d _ => device_name d <> name
  end.

Lemma enumerate_loop_elsewhere name l : forall d,
  Forall (fun x : Host * UsbDevice => device_name x.2 <> name) l ->
  cache (enumerate_loop d l).1 !! name = cache d !! name.
Proof.
  induction l as [|[h dev] l IH]; intros d Hl; [done|]. apply Forall_cons in Hl as [Hn Hl].
  cbn [enumerate_loop snd] in *. destruct (device_descriptor dev) as [desc|]; [|by apply IH].
  destruct (negb _); [by apply IH|].
  match goal with |- context [enumerate_loop ?d1 l] => specialize (IH d1 Hl); destruct (enumerate_loop d1 l) end.
  cbn [fst] in *. rewrite IH. cbn [set_cache cache]. apply lookup_insert_ne.
  rewrite build_name. exact Hn.
Qed.

Lemma exec_elsewhere name d e :
  elsewhere name e -> cache (exec_discovery d e) !! name = cache d !! name.
Proof.
  destruct e as [l|h dev arrived]; cbn [elsewhere exec_discovery].
  - destruct l as [l|]; [|done]. apply enumerate_loop_elsewhere.
  - intros Hn. unfold trampoline. rewrite build_name. fold (device_name dev).
    destruct arrived; cbn [set_cache cache fst].
    + by apply lookup_insert_ne.
    + destruct (cache d !! device_name dev); [|done]. by apply lookup_delete_ne.
Qed.

Lemma run_elsewhere name es : forall d,
  Forall (elsewhere name) es -> cache (run_discovery d es) !! name = cache d !! name.
Proof.
  unfold run_discovery. induction es as [|e es IH]; intros d Hes; [done|].
  apply Forall_cons in Hes as [He Hes]. cbn [foldl]. by rewrite IH, exec_elsewhere.
Qed.

Lemma exec_has_cb d e : has_cb (exec_discovery d e) = has_cb d.
Proof.
  destruct e as [l|h dev arrived]; cbn [exec_discovery].
  - destruct l as [l|]; [|done]. cbn [enumerate]. revert d.
    induction l as [|[h dev] l IH]; intros d; [done|]. cbn [enumerate_loop].
    destruct (device_descriptor dev); [|apply IH]. destruct (negb _); [apply IH|].
    match goal with |- context [enumerate_loop ?d1 l] => specialize (IH d1); destruct (enumerate_loop d1 l) end.
    cbn [fst] in *. by rewrite IH.
  - unfold trampoline. by destruct arrived; [|destruct (cache d !! _)].
Qed.

Lemma run_has_cb es : forall d, has_cb (run_discovery d es) = has_cb d.
Proof.
  unfold run_discovery. induction es as [|e es IH]; intros d; [done|]. cbn [foldl].
  by rewrite IH, exec_has_cb.
Qed.

(** ** Properties *)

(** The derived address.  An address is derived exactly from a serial whose
    last three characters are digits, and is [172.2X.1YZ.51] of them; two
    serials with the same address end in the same three digits. *)
Theorem derive_ip_spec s a :
  (derive_ip s = Some a <->
   exists pre x y z, chars s = pre ++ [x; y; z] /\ forallb is_digit [x; y; z] = true /\
     a = "172.2" +:+ String x EmptyString +:+ ".1" +:+ String y EmptyString +:+
         String z EmptyString +:+ ".51") /\
  (forall s', derive_ip s = Some a -> derive_ip s' = Some a ->
   skipn (length (chars s) - 3) (chars s) = skipn (length (chars s') - 3) (chars s')).
Proof.
  assert (forall s a, derive_ip s = Some a <->
   exists pre x y z, chars s = pre ++ [x; y; z] /\ forallb is_digit [x; y; z] = true /\
     a = "172.2" +:+ String x EmptyString +:+ ".1" +:+ String y EmptyString +:+
         String z EmptyString +:+ ".51") as Hspec.
  { clear. intros s a. unfold derive_ip. split.
    - destruct (_ <? 3)%nat eqn:E; to_prop; [done|].
      pose proof (firstn_skipn (length (chars s) - 3) (chars s)) as Hs.
      assert (length (skipn (length (chars s) - 3) (chars s)) = 3%nat) as Hl by (rewrite length_skipn; lia).
      destruct (skipn _ _) as [|x [|y [|z [|]]]]; try done.
      destruct (forallb is_digit [x; y; z]) eqn:Ed; [|done]. intros [= <-].
      exists (firstn (length (chars s) - 3) (chars s)), x, y, z. by rewrite Hs.
    - intros (pre & x & y & z & -> & Hd & ->). rewrite length_app. cbn [length].
      destruct (_ <? 3)%nat eqn:E; to_prop; [lia|].
      replace (length pre + 3 - 3)%nat with (length pre) by lia.
      rewrite drop_app_length, Hd. done. }
  split; [apply Hspec|]. intros s' H H'. apply Hspec in H as (pre & x & y & z & -> & _ & Ha).
  apply Hspec in H' as (pre' & x' & y' & z' & -> & _ & Ha').
  rewrite !length_app. cbn [length]. rewrite !Nat.add_sub, !drop_app_length.
  rewrite Ha in Ha'. by injection Ha' as -> -> ->.
Qed.

Lemma derive_ip_spec_witness :
  derive_ip "C3501324500702" = Some "172.27.102.51" /\ derive_ip "C35A2" = None.
Proof.
  split; [|reflexivity].
  apply (proj1 (derive_ip_spec "C3501324500702" "172.27.102.51")).
  exists (chars "C3501324500"), "7"%char, "0"%char, "2"%char. split_and!; reflexivity.
Defined.

(** Device names are keys.  The sysfs name determines bus and port path, so
    the arrival cache and the list of settling cameras, which are keyed by it,
    never confuse two positions on the bus. *)
Theorem sysfs_name_injective b ps b' ps' :
  byte_ok b -> byte_ok b' -> bytes_ok ps -> bytes_ok ps' ->
  sysfs_name b ps = sysfs_name b' ps' -> b = b' /\ ps = ps'.
Proof.
  assert (forall b b' p ps, byte_ok b -> sysfs_name b' [] <> sysfs_name b (p :: ps)) as Hne.
  { intros c c' p qs Hc E. apply (f_equal (fun s => chars s)) in E. rewrite chars_sysfs_name in E.
    destruct (dec_byte c Hc) as (Hd & Hnn & _). destruct (dec_digits 20 c) as [|x l]; [done|].
    cbn [sysfs_name] in E. rewrite chars_app in E. apply (f_equal head) in E.
    cbn [app head] in E. change (Some "u"%char = Some x) in E. injection E as <-. done. }
  intros Hb Hb' Hp Hp' E.
  destruct ps as [|p ps], ps' as [|p' ps'].
  - apply (f_equal (fun s => chars s)) in E. cbn [sysfs_name] in E. rewrite !chars_app, !chars_dec in E.
    apply app_inv_head in E. rewrite <- (app_nil_r (dec_digits 20 b)), <- (app_nil_r (dec_digits 20 b')) in E.
    by apply dec_split in E as [-> _].
  - by apply Hne in E.
  - by symmetry in E; apply Hne in E.
  - apply (f_equal (fun s => chars s)) in E. rewrite !chars_sysfs_name in E.
    apply Forall_cons in Hp as [Hp1 Hp], Hp' as [Hp1' Hp'].
    apply dec_split in E as [-> E]; [|done..]. apply app_inv_head in E.
    apply dec_split in E as [-> E]; auto using dotted_ahead. apply dotted_inj in E as ->; done.
Qed.

Lemma sysfs_name_injective_witness :
  sysfs_name 3 [2; 1] = "3-2.1" /\ (sysfs_name 1 [2; 3] = sysfs_name 1 [2; 3] -> 1 = 1 /\ [2; 3] = [2; 3]).
Proof.
  split; [reflexivity|].
  apply (sysfs_name_injective 1 [2; 3] 1 [2; 3]); repeat constructor; unfold byte_ok; lia.
Defined.

(** Readiness is the first rung that fails.  The stage a sample reports
    counts how many of these hold before the first that does not: the device is
    in sysfs, an interface is known, the host has an IPv4 address on it, and
    the camera's derived address answers a probe that was asked for.  An
    interface is "known" if one is bound now or one was ever seen before. *)
Theorem readiness_ladder h c port timeout :
  Readiness_val (readiness (advance_readiness h c port timeout)) =
    rungs [path_exists h (path_join kSysUsb (sysfs_name_ c));
           negb (empty (find_netdev h (sysfs_name_ c) kSysUsb)) || negb (empty (netdev c));
           negb (empty (host_ipv4 h (known_netdev h c)));
           negb (port =? 0) && negb (empty (ip c)) && probe_tcp h (ip c) port timeout].
Proof.
  destruct (advance_ladder h c port timeout) as [-> _]. cbn [rungs].
  unfold known_netdev, or_else at 1.
  destruct (empty (find_netdev h (sysfs_name_ c) kSysUsb)) eqn:E; cbn [negb orb]; by rewrite ?E.
Qed.

(** The interface name.  Over any sequence of samples of a fresh camera, the
    current name is the last one found, the first-seen name the first one, and
    the rename flag says whether any sample found a different name from the
    first; samples that find none change nothing. *)
Theorem netdev_history c names :
  netdev c = EmptyString -> netdev_first_seen c = EmptyString -> netdev_renamed c = false ->
  let c' := fold_names c names in
  netdev c' = default EmptyString (last (observed names)) /\
  netdev_first_seen c' = default EmptyString (head (observed names)) /\
  (netdev_renamed c' = true <->
   exists n, n ∈ observed names /\ n <> default EmptyString (head (observed names))).
Proof.
  intros H1 H2 H3. cbv zeta. destruct (fold_names_spec c names H1 H2 H3) as (-> & -> & ->).
  split_and!; [done..|]. rewrite existsb_exists. split; intros (n & Hn & Hd); exists n.
  - apply negb_true_iff, String.eqb_neq in Hd. by rewrite list_elem_of_In.
  - rewrite <- list_elem_of_In. split; [done|]. by apply negb_true_iff, String.eqb_neq.
Qed.

Lemma netdev_history_witness :
  netdev (fold_names Camera_init [EmptyString; "eth0"; EmptyString; "enp17s0u1"]) = "enp17s0u1" /\
  netdev_renamed (fold_names Camera_init [EmptyString; "eth0"; EmptyString; "enp17s0u1"]) = true.
Proof.
  destruct (netdev_history Camera_init [EmptyString; "eth0"; EmptyString; "enp17s0u1"]
    eq_refl eq_refl eq_refl) as (H1 & _ & H3).
  split; [exact H1|]. apply H3. exists "enp17s0u1". split; [vm_compute; right; left | discriminate].
Defined.

(** A departure remembers the arrival.  Whatever happens to other devices in
    between, when a device leaves, the callback reports the ids, serial,
    address and interface it had when it arrived, although libusb can no longer
    read them; and it reports them once. *)
Theorem departure_remembers d h dev es h' dev' :
  has_cb d = true -> device_name dev' = device_name dev ->
  Forall (elsewhere (device_name dev)) es ->
  let arrival := build h dev true in
  let d1 := run_discovery (trampoline d h dev true).1 es in
  exists c,
    (trampoline d1 h' dev' false).2 = [(c, false)] /\
    sysfs_name_ c = device_name dev /\
    vid c = vid arrival /\ pid c = pid arrival /\ serial c = serial arrival /\
    serial_source c = serial_source arrival /\ ip c = ip arrival /\ netdev c = netdev arrival /\
    has_cdc_interface c = has_cdc_interface arrival /\
    cache (trampoline d1 h' dev' false).1 !! device_name dev = None.
Proof.
  intros Hcb Hname Hes. cbv zeta. set (arrival := build h dev true).
  set (d0 := (trampoline d h dev true).1). set (d1 := run_discovery d0 es).
  assert (cache d1 !! device_name dev = Some arrival) as Hc.
  { unfold d1. rewrite run_elsewhere by done. unfold d0, trampoline. cbn [fst set_cache cache].
    rewrite build_name. apply lookup_insert_eq. }
  assert (has_cb d1 = true) as Hcb1 by (unfold d1; by rewrite run_has_cb).
  unfold trampoline at 1 2. rewrite build_name. fold (device_name dev'). rewrite Hname, Hc, Hcb1.
  eexists. split_and!; [reflexivity|..]; try done.
  cbn [set_cache cache fst]. apply lookup_delete_eq.
Qed.

(** A host on which the device at "2-1" is present and bound, with a lease. *)
Definition demo_host : Host :=
  mkHost (fun p => String.eqb p "/sys/bus/usb/devices/2-1" ||
                   String.eqb p "/sys/bus/usb/devices/2-1/2-1:1.0/net")
    (fun p => String.eqb p "/sys/bus/usb/devices/2-1")
    (fun p => if String.eqb p "/sys/bus/usb/devices/2-1" then ["driver"; "2-1:1.1"; "2-1:1.0"]
              else ["enp17s0u1"])
    (fun p => if String.eqb p "/sys/bus/usb/devices/2-1/serial"
              then Some ("C3501324500702" +:+ newline) else None)
    (Some [mkIfAddr (Some "lo") true true (Some "127.0.0.1");
           mkIfAddr (Some "enp17s0u1") true false None;
           mkIfAddr (Some "enp17s0u1") true true (Some "172.27.102.50")])
    (fun _ => true) true (fun _ _ => InProgress) (fun t => 100 <=? t) (Some 0).

Definition demo_device : UsbDevice :=
  mkUsbDevice (Some (mkDescriptor kGoProVid 89 3)) 2 7 (Some [1]) (Some [[2]; [10]; [6]]) false None.

Definition demo_discovery : Discovery :=
  (watch (mkDiscovery kGoProVid false false ∅) true true).1.

Lemma departure_remembers_witness :
  exists c, (trampoline (run_discovery (trampoline demo_discovery demo_host demo_device true).1 [])
               demo_host demo_device false).2 = [(c, false)] /\
    serial c = "C3501324500702" /\ ip c = "172.27.102.51" /\ netdev c = "enp17s0u1".
Proof.
  destruct (departure_remembers demo_discovery demo_host demo_device [] demo_host demo_device
    eq_refl eq_refl (Forall_nil_2 _)) as (c & H1 & _ & _ & _ & H2 & _ & H3 & H4 & _).
  exists c. split_and!; [exact H1|exact H2|exact H3|exact H4].
Defined.

(** Waiting ends.  If the clock passes the deadline in some sample, waiting
    returns; what it returns is the camera after the first sample that either
    reached the last rung or was at or past the deadline — so a time-out still
    says how far it got. *)
Theorem wait_ends samples c deadline poll port :
  Exists (fun x => deadline <= x.2) samples ->
  exists pre h now post c0,
    samples = pre ++ (h, now) :: post /\
    c0 = foldl (fun c x => advance_readiness x.1 c port (Z.min (poll * 4) 500)) c pre /\
    let c' := advance_readiness h c0 port (Z.min (poll * 4) 500) in
    wait_until_ready samples c deadline poll port = Some c' /\
    (readiness c' = kL3Ready \/ deadline <= now) /\
    Forall (fun x => x.2 < deadline) pre.
Proof.
  intros H. revert c. induction samples as [|[h now] samples IH]; intros c; [by apply Exists_nil in H|].
  cbn [wait_until_ready]. set (c1 := advance_readiness h c port (Z.min (poll * 4) 500)).
  destruct (bool_decide (readiness c1 = kL3Ready)) eqn:E1; to_prop.
  { exists [], h, now, samples, c. split_and!; try done. by left. }
  destruct (deadline <=? now) eqn:E2; to_prop.
  { exists [], h, now, samples, c. split_and!; try done. by right. }
  apply Exists_cons in H as [H|H]; [cbn in H; lia|].
  destruct (IH H c1) as (pre & h' & now' & post & c0 & -> & Hc0 & Hw & Hr & Hp).
  exists ((h, now) :: pre), h', now', post, c0. split_and!; try done. by constructor.
Qed.

Lemma wait_ends_witness :
  exists c', wait_until_ready [(demo_host, 40); (demo_host, 90); (demo_host, 140)]
               (build demo_host demo_device true) 100 20 8080 = Some c'.
Proof.
  destruct (wait_ends [(demo_host, 40); (demo_host, 90); (demo_host, 140)]
    (build demo_host demo_device true) 100 20 8080) as (pre & h & now & post & c0 & _ & _ & Hw & _).
  - apply Exists_cons. right. apply Exists_cons. right. apply Exists_cons. left. cbn. lia.
  - eexists. exact Hw.
Defined.
