(* ===== verification/HttpMessage.v ===== *)
(** * HTTP messages
    ([lib/src/http/http_message.dart])

    How a message and its arguments become the path segments and the query of a
    request, and the body of a PUT.  A Dart string is its UTF-8 encoding, a value
    is what [toString] needs, and a key that is missing and a null are the same.
    What [Uri.replace] does with the segments and the query is outside.

    [parse_query] is how a server reads a query: the specification of the
    encoding. *)

From Stdlib Require Import Ascii.
From stdpp Require Import strings.
From S2P Require Import Prelude GlazeMeta GoproUsb.
Local Open Scope Z_scope.

(** ** Strings as lists of characters *)

Abbreviation text := (list ascii).

(** [s.split(sep)], for one character. *)
Fixpoint split_on (sep : ascii) (l : text) : list text :=
  match l with
  | [] => [[]]
  | c :: l =>
      if Ascii.eqb c sep then [] :: split_on sep l
      else match split_on sep l with
           | w :: ws => (c :: w) :: ws
           | [] => [[c]]
           end
  end.

(** [l.join(sep)]. *)
Fixpoint join (sep : ascii) (l : list text) : text :=
  match l with
  | [] => []
  | [w] => w
  | w :: ws => w ++ sep :: join sep ws
  end.

Definition is_nil {A} (l : list A) : bool := match l with [] => true | _ => false end.

(** [s.split('/').where((s) => s.isNotEmpty)]. *)
Definition path_parts (s : text) : list text :=
  List.filter (fun w => negb (is_nil w)) (split_on "/" s).

(** ** Messages *)

Inductive HttpMethod := get | put.
Inductive HttpFastpass := never | always | conditional.
Inductive HttpResponseKind := json | binary.

#[export] Instance HttpResponseKind_eq_dec : EqDecision HttpResponseKind.
Proof. solve_decision. Defined.

Record HttpMessage := mkHttpMessage {
  name : string;
  endpoint : string;
  method : HttpMethod;
  response : HttpResponseKind;
  components : list string;
  arguments : list string;
  bodyArguments : list string;
  fastpass : HttpFastpass;
}.

(** A non-null argument. *)
Inductive Value := VString (s : string) | VInt (z : Z).

(** [Map<String, Object?>]; a null value is [None]. *)
Abbreviation values := (list (string * option Value)).

(** [values[a]]. *)
Definition lookup_value (a : string) (vs : values) : option Value := mjoin (dict_get a vs).

(** [toString]; twenty digits hold any Dart [int]. *)
Definition toString (v : Value) : text :=
  match v with
  | VString s => chars s
  | VInt z => if z <? 0 then "-"%char :: dec_digits 20 (- z) else dec_digits 20 z
  end.

(** ** Percent encoding *)

(** What [Uri.encodeComponent] leaves alone: letters, digits and [-_.!~*'()]. *)
Definition unreserved (c : ascii) : bool :=
  let b := char_byte c in
  ((48 <=? b) && (b <=? 57)) || ((65 <=? b) && (b <=? 90)) || ((97 <=? b) && (b <=? 122)) ||
  existsb (Ascii.eqb c) (chars "-_.!~*'()").

Definition upper_hex (d : Z) : ascii := if d <? 10 then digit d else byte_char (55 + d).

Definition percent (c : ascii) : text :=
  ["%"%char; upper_hex (char_byte c / 16); upper_hex (char_byte c mod 16)].

Definition encodeComponent (l : text) : text :=
  concat ((fun c => if unreserved c then [c] else percent c) <$> l).

(** [replaceAll('%2F', '/')]. *)
Fixpoint replace_2F (l : text) : text :=
  match l with
  | [] => []
  | c :: t =>
      match t with
      | x :: y :: rest =>
          if Ascii.eqb c "%" && Ascii.eqb x "2" && Ascii.eqb y "F" then "/"%char :: replace_2F rest
          else c :: replace_2F t
      | _ => c :: replace_2F t
      end
  end.

Definition encodeQuery (l : text) : text := replace_2F (encodeComponent l).

(** ** [url] and [body] *)

(** What [url] gives to [Uri.replace]. *)
Record UriParts := mkUriParts {
  pathSegments : list text;
  query : option text;
}.

(** The loop over [components]; [None] is the [ArgumentError]. *)
Fixpoint component_segments (cs : list string) (vs : values) : option (list text) :=
  match cs with
  | [] => Some []
  | c :: cs =>
      match lookup_value c vs with
      | None => None
      | Some v => rest ← component_segments cs vs; Some (path_parts (toString v) ++ rest)
      end
  end.

Definition query_entry (vs : values) (a : string) : option text :=
  v ← lookup_value a vs; Some (encodeQuery (chars a) ++ "="%char :: encodeQuery (toString v)).

Definition url (m : HttpMessage) (vs : values) : option UriParts :=
  segs ← component_segments (components m) vs;
  let query := omap (query_entry vs) (arguments m) in
  Some (mkUriParts (path_parts (chars (endpoint m)) ++ segs)
          (if is_nil query then None else Some (join "&" query))).

Definition body (m : HttpMessage) (vs : values) : list (string * Value) :=
  omap (fun a => v ← lookup_value a vs; Some (a, v)) (bodyArguments m).

(** ** Reading a query *)

Definition hex_value (c : ascii) : option Z :=
  let b := char_byte c in
  if (48 <=? b) && (b <=? 57) then Some (b - 48)
  else if (65 <=? b) && (b <=? 70) then Some (b - 55)
  else if (97 <=? b) && (b <=? 102) then Some (b - 87)
  else None.

(** Escapes become their bytes; anything else stands for itself. *)
Fixpoint percent_decode (l : text) : text :=
  match l with
  | [] => []
  | c :: t =>
      match t with
      | x :: y :: rest =>
          match hex_value x, hex_value y with
          | Some hi, Some lo =>
              if Ascii.eqb c "%" then byte_char (16 * hi + lo) :: percent_decode rest
              else c :: percent_decode t
          | _, _ => c :: percent_decode t
          end
      | _ => c :: percent_decode t
      end
  end.

(** The name before the first [=], and what follows it. *)
Fixpoint cut (sep : ascii) (l : text) : text * text :=
  match l with
  | [] => ([], [])
  | c :: l => if Ascii.eqb c sep then ([], l) else let '(a, b) := cut sep l in (c :: a, b)
  end.

Definition parse_query (q : option text) : list (text * text) :=
  match q with
  | None => []
  | Some q =>
      (fun e => let '(a, b) := cut "=" e in (percent_decode a, percent_decode b)) <$> split_on "&" q
  end.

(** ** Lemmas *)

Definition free (cs : list ascii) (l : text) : Prop := Forall (fun c => c ∉ cs) l.

(** A property of characters, by evaluation. *)
Lemma all_chars (P : ascii -> bool) :
  forallb (fun n => P (byte_char n)) (seqZ 0 256) = true -> forall c, P c = true.
Proof.
  intros H c. pose proof (forallb_below 256 (fun n => P (byte_char n)) H (char_byte c) (char_byte_ok c)) as Hc.
  cbn in Hc. replace (byte_char (char_byte c)) with c in Hc; [done|].
  unfold byte_char, char_byte. by rewrite Nat2Z.id, ascii_nat_embedding.
Qed.

(** What [encodeQuery] makes of one character. *)
Definition query_char (c : ascii) : text :=
  if unreserved c || Ascii.eqb c "/" then [c] else percent c.

(** The characters of an encoded argument. *)
Definition query_safe (c : ascii) : bool :=
  unreserved c || Ascii.eqb c "/" || Ascii.eqb c "%".

Lemma eqb_chars a b : Ascii.eqb a b = true <-> a = b.
Proof. apply Ascii.eqb_eq. Qed.

(** [replace_2F] on what does not begin with an escape. *)
Lemma replace_skip c l : Ascii.eqb c "%" = false -> replace_2F (c :: l) = c :: replace_2F l.
Proof. intros H. cbn [replace_2F]. rewrite H. cbn [andb]. by destruct l as [|x [|y l]]. Qed.

Lemma unreserved_not_percent c : unreserved c = true -> Ascii.eqb c "%" = false.
Proof.
  intros H. pose proof (all_chars (fun c => negb (unreserved c) || negb (Ascii.eqb c "%"))
    ltac:(vm_compute; reflexivity) c) as Hc. cbn beta in Hc. rewrite H in Hc. by apply negb_true_iff in Hc.
Qed.

(** The digits of an escape are safe, and [%2F] is that of the slash. *)
Lemma percent_facts c :
  let x := upper_hex (char_byte c / 16) in
  let y := upper_hex (char_byte c mod 16) in
  Ascii.eqb x "%" = false /\ Ascii.eqb y "%" = false /\
  (Ascii.eqb x "2" && Ascii.eqb y "F" = Ascii.eqb c "/") /\
  hex_value x = Some (char_byte c / 16) /\ hex_value y = Some (char_byte c mod 16) /\
  query_safe x = true /\ query_safe y = true.
Proof.
  cbv zeta.
  pose proof (all_chars (fun c => let x := upper_hex (char_byte c / 16) in
    let y := upper_hex (char_byte c mod 16) in
    negb (Ascii.eqb x "%") && negb (Ascii.eqb y "%") &&
    Bool.eqb (Ascii.eqb x "2" && Ascii.eqb y "F") (Ascii.eqb c "/") &&
    from_option (Z.eqb (char_byte c / 16)) false (hex_value x) &&
    from_option (Z.eqb (char_byte c mod 16)) false (hex_value y) &&
    query_safe x && query_safe y) ltac:(vm_compute; reflexivity) c) as H. cbv zeta beta in H.
  to_prop. destruct (hex_value _) as [hi|]; [|done]. destruct (hex_value _) as [lo|]; [|done].
  cbn [from_option] in *. to_prop. subst. split_and!; try done. by apply eqb_prop.
Qed.

Lemma encodeQuery_chars l : encodeQuery l = concat (query_char <$> l).
Proof.
  unfold encodeQuery, encodeComponent. induction l as [|c l IH]; [done|]. cbn [fmap list_fmap concat].
  unfold query_char at 1. destruct (unreserved c) eqn:E.
  - cbn [app orb]. rewrite replace_skip by by apply unreserved_not_percent. by rewrite IH.
  - destruct (percent_facts c) as (Hx & Hy & Hxy & _). cbn [orb].
    set (x := upper_hex (char_byte c / 16)) in *. set (y := upper_hex (char_byte c mod 16)) in *.
    assert (replace_2F (percent c ++ concat ((fun c => if unreserved c then [c] else percent c) <$> l)) =
            if Ascii.eqb c "/" then "/"%char :: replace_2F (concat ((fun c => if unreserved c then [c] else percent c) <$> l))
            else percent c ++ replace_2F (concat ((fun c => if unreserved c then [c] else percent c) <$> l))) as ->.
    { unfold percent. fold x y. cbn [app].
      change (replace_2F ("%"%char :: x :: y :: ?r)) with
        (if Ascii.eqb x "2" && Ascii.eqb y "F" then "/"%char :: replace_2F r
         else "%"%char :: replace_2F (x :: y :: r)).
      rewrite Hxy. destruct (Ascii.eqb c "/"); [done|]. by rewrite !replace_skip. }
    rewrite IH. destruct (Ascii.eqb c "/") eqn:Es; [|done]. apply Ascii.eqb_eq in Es as ->. done.
Qed.

Lemma encodeQuery_safe l : Forall (fun c => query_safe c = true) (encodeQuery l).
Proof.
  rewrite encodeQuery_chars. apply Forall_concat, Forall_fmap, Forall_true. intros c. unfold compose, query_char.
  destruct (percent_facts c) as (_ & _ & _ & _ & _ & Hx & Hy).
  destruct (unreserved c || Ascii.eqb c "/") eqn:E; [|by repeat constructor].
  apply Forall_singleton. unfold query_safe. by rewrite E.
Qed.

Lemma safe_no_separator c : query_safe c = true -> Ascii.eqb c "&" = false /\ Ascii.eqb c "=" = false.
Proof.
  intros H. pose proof (all_chars (fun c => negb (query_safe c) || (negb (Ascii.eqb c "&") && negb (Ascii.eqb c "=")))
    ltac:(vm_compute; reflexivity) c) as Hc. cbn beta in Hc. rewrite H in Hc. cbn [negb orb] in Hc. by to_prop.
Qed.

Lemma decode_skip c l : Ascii.eqb c "%" = false -> percent_decode (c :: l) = c :: percent_decode l.
Proof.
  intros H. cbn [percent_decode]. destruct l as [|x [|y l]]; [done..|]. rewrite H.
  destruct (hex_value x), (hex_value y); done.
Qed.

(** An encoded argument is read as what it was. *)
Lemma decode_encodeQuery l : percent_decode (encodeQuery l) = l.
Proof.
  rewrite encodeQuery_chars. induction l as [|c l IH]; [done|]. cbn [fmap list_fmap concat].
  unfold query_char at 1. destruct (unreserved c || Ascii.eqb c "/") eqn:E.
  - cbn [app]. rewrite decode_skip; [by rewrite IH|]. apply orb_true_iff in E as [E|E]; [by apply unreserved_not_percent|].
    by apply Ascii.eqb_eq in E as ->.
  - destruct (percent_facts c) as (_ & _ & _ & Hx & Hy & _). unfold percent. cbn [app].
    set (x := upper_hex (char_byte c / 16)) in *. set (y := upper_hex (char_byte c mod 16)) in *.
    change (percent_decode ("%"%char :: x :: y :: ?r)) with
      (match hex_value x, hex_value y with
       | Some hi, Some lo => byte_char (16 * hi + lo) :: percent_decode r
       | _, _ => "%"%char :: percent_decode (x :: y :: r) end).
    rewrite Hx, Hy, IH. f_equal. replace (16 * _ + _) with (char_byte c) by lia.
    unfold byte_char, char_byte. by rewrite Nat2Z.id, ascii_nat_embedding.
Qed.

Lemma cut_app sep a b : Forall (fun c => Ascii.eqb c sep = false) a -> cut sep (a ++ sep :: b) = (a, b).
Proof.
  induction 1 as [|c a Hc Ha IH]; cbn; [by rewrite Ascii.eqb_refl|]. by rewrite Hc, IH.
Qed.

Lemma split_on_free sep w : Forall (fun c => Ascii.eqb c sep = false) w -> split_on sep w = [w].
Proof. induction 1 as [|c w Hc Hw IH]; cbn; [done|]. by rewrite Hc, IH. Qed.

Lemma split_on_app sep w l :
  Forall (fun c => Ascii.eqb c sep = false) w -> split_on sep (w ++ sep :: l) = w :: split_on sep l.
Proof.
  induction 1 as [|c w Hc Hw IH]; cbn; [by rewrite Ascii.eqb_refl|]. by rewrite Hc, IH.
Qed.

Lemma split_on_join sep ws :
  ws <> [] -> Forall (Forall (fun c => Ascii.eqb c sep = false)) ws -> split_on sep (join sep ws) = ws.
Proof.
  intros Hne Hws. induction Hws as [|w ws Hw Hws IH]; [done|]. destruct ws as [|w' ws]; [by apply split_on_free|].
  change (join sep (w :: w' :: ws)) with (w ++ sep :: join sep (w' :: ws)). rewrite split_on_app by done.
  by rewrite IH.
Qed.

(** The words of a split contain no separator. *)
Lemma split_on_words sep l : Forall (Forall (fun c => Ascii.eqb c sep = false)) (split_on sep l).
Proof.
  induction l as [|c l IH]; cbn; [by repeat constructor|]. destruct (Ascii.eqb c sep) eqn:E; [by constructor|].
  destruct (split_on sep l) as [|w ws]; [by repeat constructor|]. apply Forall_cons in IH as [Hw IH].
  by repeat constructor.
Qed.

(** A path segment: something, and no slash in it. *)
Definition segment (w : text) : Prop := w <> [] /\ Forall (fun c => Ascii.eqb c "/" = false) w.

Lemma path_parts_segments s : Forall segment (path_parts s).
Proof.
  unfold path_parts. apply Forall_forall. intros w (Hw & Hne)%elem_of_lfilter.
  pose proof (split_on_words "/" s) as H. rewrite Forall_forall in H. split; [|by apply H].
  by intros ->.
Qed.

(** The segments of a path: its slash-free runs, in order. *)
Inductive path_runs : text -> list text -> Prop :=
| runs_nil : path_runs [] []
| runs_slash s ws : path_runs s ws -> path_runs ("/"%char :: s) ws
| runs_last w : segment w -> path_runs w [w]
| runs_cons w s ws : segment w -> path_runs s ws -> path_runs (w ++ "/"%char :: s) (w :: ws).

Lemma split_on_first sep s :
  exists w ws, split_on sep s = w :: ws /\ Forall (fun c => Ascii.eqb c sep = false) w /\
    (ws = [] /\ s = w \/ exists s', s = w ++ sep :: s' /\ ws = split_on sep s').
Proof.
  induction s as [|c s IH]; cbn [split_on]; [by exists [], []; split_and!; [|constructor|left]|].
  destruct (Ascii.eqb c sep) eqn:E.
  - apply Ascii.eqb_eq in E as ->. exists [], (split_on sep s). split_and!; [done..|right]. by exists s.
  - destruct IH as (w & ws & -> & Hw & H). exists (c :: w), ws. split_and!; [done|by constructor|].
    destruct H as [[-> ->]|(s' & -> & ->)]; [by left | right; by exists s'].
Qed.

Lemma path_parts_runs s : path_runs s (path_parts s).
Proof.
  induction s as [s IH] using (induction_ltof1 _ length). unfold ltof in IH. unfold path_parts.
  destruct (split_on_first "/" s) as (w & ws & -> & Hw & [[-> ->]|(s' & -> & ->)]); cbn [List.filter];
    destruct w as [|c w]; cbn [is_nil negb].
  - constructor.
  - by apply runs_last.
  - apply runs_slash. apply IH. cbn. lia.
  - apply runs_cons; [done|]. apply IH. rewrite length_app. cbn. lia.
Qed.

(** What was supplied of some declared names, in the order of the declaration. *)
Definition supplied (names : list string) (vs : values) : list (string * Value) :=
  omap (fun a => v ← lookup_value a vs; Some (a, v)) names.

Lemma query_entries vs args :
  omap (query_entry vs) args =
    (fun x => encodeQuery (chars x.1) ++ "="%char :: encodeQuery (toString x.2)) <$> supplied args vs.
Proof.
  unfold supplied. induction args as [|a args IH]; [done|]. cbn [omap list_omap]. rewrite IH. clear IH.
  unfold query_entry. by destruct (lookup_value a vs).
Qed.

Lemma parse_entry a v :
  (let '(x, y) := cut "=" (encodeQuery a ++ "="%char :: encodeQuery v) in (percent_decode x, percent_decode y)) = (a, v).
Proof.
  rewrite cut_app; [by rewrite !decode_encodeQuery|]. eapply Forall_impl; [apply encodeQuery_safe|].
  intros c Hc. by apply safe_no_separator.
Qed.

Lemma component_segments_None cs vs :
  component_segments cs vs = None <-> exists c, c ∈ cs /\ lookup_value c vs = None.
Proof.
  induction cs as [|c cs IH]; cbn [component_segments].
  - split; [done|]. by intros (c & H%not_elem_of_nil & _).
  - destruct (lookup_value c vs) as [v|] eqn:E.
    + destruct (component_segments cs vs) as [l|]; cbn.
      * split; [done|]. intros (c' & [->|Hc']%elem_of_cons & H); [congruence|].
        assert (Some l = None) by (apply IH; by exists c'). done.
      * split; [|done]. intros _. destruct (proj1 IH eq_refl) as (c' & Hc' & H). exists c'. split; [by right | done].
    + split; [|done]. intros _. exists c. split; [left | done].
Qed.

Lemma component_segments_ok cs vs l :
  component_segments cs vs = Some l ->
  exists parts, l = concat parts /\
    Forall2 (fun c ws => exists v, lookup_value c vs = Some v /\ path_runs (toString v) ws) cs parts.
Proof.
  revert l. induction cs as [|c cs IH]; cbn [component_segments]; intros l; [intros [= <-]; by exists []|].
  destruct (lookup_value c vs) as [v|] eqn:Ev; [|done].
  destruct (component_segments cs vs) as [l'|]; [|done]. intros [= <-].
  destruct (IH l' eq_refl) as (parts & -> & Hp). exists (path_parts (toString v) :: parts). split; [done|].
  constructor; [|done]. exists v. split; [done|]. apply path_parts_runs.
Qed.

Lemma path_runs_segments s ws : path_runs s ws -> Forall segment ws.
Proof. induction 1; rewrite ?Forall_cons; auto. Qed.

(** ** Properties *)

(** C35: the URL of a message.  It cannot be built exactly when a path component
    is missing.  Otherwise its segments are the slash-free runs of the endpoint,
    in order, and then those of the value supplied for each component, in the
    order declared: none is empty or contains a slash, and none is left out.  And
    a server that splits the query and undoes the escapes reads back exactly the
    arguments supplied, in the order declared, whatever characters they contain:
    none can add, drop or change another. *)
Theorem url_roundtrip m vs :
  (url m vs = None <-> exists c, c ∈ components m /\ lookup_value c vs = None) /\
  (forall u, url m vs = Some u ->
     Forall segment (pathSegments u) /\
     (exists base parts,
        pathSegments u = base ++ concat parts /\ path_runs (chars (endpoint m)) base /\
        Forall2 (fun c ws => exists v, lookup_value c vs = Some v /\ path_runs (toString v) ws)
          (components m) parts) /\
     parse_query (query u) = (fun x => (chars x.1, toString x.2)) <$> supplied (arguments m) vs).
Proof.
  split.
  - unfold url. rewrite <- component_segments_None. by destruct (component_segments _ _).
  - unfold url. destruct (component_segments (components m) vs) as [segs|] eqn:E; [|done].
    cbn [mbind option_bind]. intros u [= <-]. cbn [pathSegments query].
    destruct (component_segments_ok _ _ _ E) as (parts & -> & Hp). split_and!.
    + apply Forall_app. split; [apply path_parts_segments|]. apply Forall_concat.
      apply Forall_forall. intros ws Hws. apply list_elem_of_lookup in Hws as [i Hi].
      destruct (Forall2_lookup_r _ _ _ _ _ Hp Hi) as (c & _ & v & _ & Hr). by eapply path_runs_segments.
    + exists (path_parts (chars (endpoint m))), parts. split_and!; [done|apply path_parts_runs|done].
    + rewrite query_entries. destruct (decide (supplied (arguments m) vs = [])) as [->|Hne]; [done|].
      set (l := supplied (arguments m) vs) in *.
      set (ws := (fun x => _) <$> l).
      assert (is_nil ws = false) as -> by by unfold ws; destruct l.
      unfold parse_query. rewrite split_on_join.
      * unfold ws. rewrite <- list_fmap_compose. apply list_fmap_ext. intros i [a v] _. apply parse_entry.
      * unfold ws. by destruct l.
      * unfold ws. apply Forall_fmap, Forall_true. intros [a v]. unfold compose. cbn [fst snd].
        apply Forall_app. split; [|constructor; [done|]]; eapply Forall_impl; try apply encodeQuery_safe;
          intros c Hc; by apply safe_no_separator.
Qed.

(** A preset renamed to something that looks like a query. *)
Definition demo_message : HttpMessage :=
  mkHttpMessage "demo" "/gopro//media/info" get json ["mode"] ["path"; "ms"; "p"] [] never.

Definition demo_values : values :=
  [("mode", Some (VString "a/b")); ("path", Some (VString "100GOPRO/GX 01&p=1%2F.MP4")); ("p", Some (VInt (-5)));
   ("ms", None)].

Lemma url_roundtrip_witness :
  exists u, url demo_message demo_values = Some u /\
    pathSegments u = chars <$> ["gopro"; "media"; "info"; "a"; "b"] /\
    query u = Some (chars "path=100GOPRO/GX%2001%26p%3D1%252F.MP4&p=-5") /\
    parse_query (query u) = [(chars "path", chars "100GOPRO/GX 01&p=1%2F.MP4"); (chars "p", chars "-5")].
Proof.
  destruct (url demo_message demo_values) as [u|] eqn:E; [|vm_compute in E; discriminate].
  exists u. split; [done|]. destruct (url_roundtrip demo_message demo_values) as [_ H].
  destruct (H u E) as (_ & _ & Hq). split; [vm_compute in E; injection E as <-; vm_compute; reflexivity|].
  split; [vm_compute in E; injection E as <-; vm_compute; reflexivity|]. exact Hq.
Defined.
