(* ===== verification/LibraryLoader.v ===== *)
(** * Finding the shared library
    ([lib/src/internal/library_loader.dart])

    Where [loadGoProNc] looks for [libgopro_nc.so], in which order, and what it
    settles for.  The environment, the file system and the dynamic loader are the
    arguments in [Env]; they do not change while the search runs.  Paths are
    lists of characters. *)

From Stdlib Require Import Ascii.
From stdpp Require Import strings.
From S2P Require Import Prelude GoproUsb HttpMessage.
Local Open Scope Z_scope.

(** ** Paths *)

Definition _libName : text := chars "libgopro_nc.so".

(** [lastIndexOf] and the two [substring]s around it. *)
Fixpoint cut_last (c : ascii) (l : text) : option (text * text) :=
  match l with
  | [] => None
  | x :: l =>
      match cut_last c l with
      | Some (a, b) => Some (x :: a, b)
      | None => if Ascii.eqb x c then Some ([], l) else None
      end
  end.

Definition startsWith_slash (l : text) : bool :=
  match l with x :: _ => Ascii.eqb x "/" | [] => false end.

Definition endsWith (s l : text) : bool := bool_decide (s `suffix_of` l).

(** [FileSystemEntity.parentOf]: the last segment is dropped, and the slashes
    around it. *)
Fixpoint strip_slashes (reversed : text) : text :=
  match reversed with
  | x :: l => if Ascii.eqb x "/" then strip_slashes l else x :: l
  | [] => []
  end.

Definition parentOf (path : text) : text :=
  let up := match cut_last "/" (rev (strip_slashes (rev path))) with
            | Some (a, _) => rev (strip_slashes (rev a)) | None => [] end in
  if is_nil up then (if startsWith_slash path then chars "/" else chars ".") else up.

(** [File(path).absolute.path]. *)
Definition absolute (cwd path : text) : text :=
  if startsWith_slash path then path
  else if endsWith (chars "/") cwd then cwd ++ path else cwd ++ chars "/" ++ path.

(** ** The world *)

Record Entity := mkEntity { is_file : bool; path : text; modified : Z }.

(** [existsSync] and [listSync(recursive: true)], which may throw. *)
Inductive Listing := Missing | Listed (l : list Entity) | ListThrows.

Record Env := mkEnv {
  gopro_nc_lib : option text;           (** [GOPRO_NC_LIB] *)
  ld_library_path : option text;
  opens : text -> bool;                 (** [DynamicLibrary.open] returns *)
  existsSync : text -> bool;
  proc_maps : option (list text);       (** the lines; [None]: none, or unreadable *)
  listing : text -> Listing;
  script : option text;                 (** [None]: [toFilePath] throws *)
  resolvedExecutable : text;
  current : text;
}.

(** ** [_findSiblingOfLoadedLib] *)

Record Search := mkSearch { seen : list text; preferred : list text; fallback : list text }.

(** A line of the maps: the directory and the base name of the file mapped. *)
Definition mapping (line : text) : option (text * text) :=
  '(_, path) ← cut_last " " line;
  if startsWith_slash path then
    '(dir, base) ← cut_last "/" path;
    if is_nil dir then None else Some (dir, base)
  else None.

Definition bundled (dir base : text) : bool :=
  endsWith (chars "/lib") dir || bool_decide (base = chars "libapp.so") ||
  bool_decide (chars "libflutter_" `prefix_of` base).

Definition visit (s : Search) (m : text * text) : Search :=
  let '(dir, base) := m in
  if bool_decide (dir ∈ seen s) then s
  else if bundled dir base then mkSearch (seen s ++ [dir]) (preferred s ++ [dir]) (fallback s)
  else mkSearch (seen s ++ [dir]) (preferred s) (fallback s ++ [dir]).

(** The body of the loop. *)
Definition visit_line (s : Search) (line : text) : Search :=
  match mapping line with None => s | Some m => visit s m end.

Definition in_dir (dir : text) : text := dir ++ chars "/" ++ _libName.

Definition _findSiblingOfLoadedLib (e : Env) : option text :=
  lines ← proc_maps e;
  let s := fold_left visit_line lines (mkSearch [] [] []) in
  List.find (existsSync e) (in_dir <$> preferred s ++ fallback s).

(** ** [_findInHooksRunner] *)

Definition is_artifact (x : Entity) : bool := is_file x && endsWith (chars "/" ++ _libName) (path x).

Definition newer (acc : option text * Z) (x : Entity) : option text * Z :=
  if is_artifact x && (acc.2 <? modified x) then (Some (path x), modified x) else acc.

Definition newest (l : list Entity) : option text := (fold_left newer l (None, 0)).1.

Definition build_root (dir : text) : text :=
  dir ++ chars "/.dart_tool/hooks_runner/shared/gopro_native/build".

(** [n] iterations left; [None]: what [listSync] throws. *)
Fixpoint find_in_hooks (e : Env) (n : nat) (dir : text) : option (option text) :=
  match n with
  | O => Some None
  | S n =>
      let climb := if bool_decide (parentOf dir = dir) then Some None else find_in_hooks e n (parentOf dir) in
      match listing e (build_root dir) with
      | Missing => climb
      | ListThrows => None
      | Listed l => match newest l with Some p => Some (Some p) | None => climb end
      end
  end.

Definition _findInHooksRunner (e : Env) : option (option text) := find_in_hooks e 6 (current e).

(** ** [loadGoProNc] *)

Definition candidates (e : Env) (fromHook : option text) : list text :=
  option_list fromHook ++
  match script e with
  | Some p =>
      let scriptDir := parentOf p in
      [scriptDir ++ chars "/lib/" ++ _libName; scriptDir ++ chars "/../lib/" ++ _libName;
       scriptDir ++ chars "/../../lib/" ++ _libName; scriptDir ++ chars "/../../../lib/" ++ _libName]
  | None => []
  end ++
  (let exeDir := parentOf (resolvedExecutable e) in
   [exeDir ++ chars "/lib/" ++ _libName; exeDir ++ chars "/" ++ _libName;
    current e ++ chars "/lib/" ++ _libName; current e ++ chars "/build/" ++ _libName;
    current e ++ chars "/native/build/" ++ _libName]) ++
  (in_dir <$> List.filter (fun d => negb (is_nil d)) (split_on ":" (default [] (ld_library_path e)))).

Inductive Outcome :=
| Opened (path : text)
| OpenThrows (path : text)            (** the override, with nothing tried after it *)
| ListingThrows
| NotFound (errors : list text).      (** [StateError]: what was tried, in order *)

Fixpoint try_candidates (e : Env) (l errors : list text) : Outcome :=
  match l with
  | [] => NotFound errors
  | p :: l =>
      if existsSync e p then
        let a := absolute (current e) p in
        if opens e a then Opened a else try_candidates e l (errors ++ [a])
      else try_candidates e l errors
  end.

Definition loadGoProNc (e : Env) : Outcome :=
  match gopro_nc_lib e with
  | Some (c :: l) => if opens e (c :: l) then Opened (c :: l) else OpenThrows (c :: l)
  | _ =>
      if opens e _libName then Opened _libName
      else
        let errors := [_libName] in
        let rest errors :=
          match _findInHooksRunner e with
          | None => ListingThrows
          | Some fromHook => try_candidates e (candidates e fromHook) errors
          end in
        match _findSiblingOfLoadedLib e with
        | Some p => if opens e p then Opened p else rest (errors ++ [p])
        | None => rest errors
        end
  end.

(** ** Properties *)

Lemma try_candidates_spec e l : forall errors,
  let tried := absolute (current e) <$> List.filter (existsSync e) l in
  try_candidates e l errors =
    match List.find (opens e) tried with Some p => Opened p | None => NotFound (errors ++ tried) end.
Proof.
  induction l as [|p l IH]; intros errors; cbn [try_candidates List.filter fmap list_fmap List.find]; [by rewrite app_nil_r|].
  destruct (existsSync e p); cbn [fmap list_fmap List.find]; [|apply IH].
  destruct (opens e (absolute (current e) p)); [done|]. rewrite IH. cbv zeta. by rewrite <- app_assoc.
Qed.

(** The search order.  A non-empty override is opened or fails, with nothing tried
    after it.  Otherwise the result is the first that opens of the bare name, the
    sibling, and the candidates that exist, made absolute; if none does, all of
    them have been tried, in that order. *)
Theorem load_order e :
  loadGoProNc e =
    match gopro_nc_lib e with
    | Some (c :: l) => if opens e (c :: l) then Opened (c :: l) else OpenThrows (c :: l)
    | _ =>
        let first := _libName :: option_list (_findSiblingOfLoadedLib e) in
        match List.find (opens e) first, _findInHooksRunner e with
        | Some p, _ => Opened p
        | None, None => ListingThrows
        | None, Some hook =>
            let more := absolute (current e) <$> List.filter (existsSync e) (candidates e hook) in
            match List.find (opens e) more with Some p => Opened p | None => NotFound (first ++ more) end
        end
    end.
Proof.
  unfold loadGoProNc. cbv zeta. destruct (gopro_nc_lib e) as [[|c l]|]; [|done|];
    cbn [List.find]; (destruct (opens e _libName); [done|]); destruct (_findSiblingOfLoadedLib e) as [p|];
    unfold option_list; cbn [option_rect List.find]; try (destruct (opens e p); [done|]);
    (destruct (_findInHooksRunner e) as [hook|]; [|done]); by rewrite try_candidates_spec.
Qed.

(** *** The sibling *)

Definition mappings (lines : list text) : list (text * text) := omap mapping lines.

(** [dir] is first seen with the file [base]. *)
Definition first_in (ms : list (text * text)) (dir base : text) : Prop :=
  exists l1 l2, ms = l1 ++ (dir, base) :: l2 /\ dir ∉ l1.*1.

Lemma first_in_snoc ms m dir base :
  first_in (ms ++ [m]) dir base <-> first_in ms dir base \/ (m = (dir, base) /\ dir ∉ ms.*1).
Proof.
  split.
  - intros (l1 & l2 & E & Hn). destruct l2 as [|x l2 _] using rev_ind.
    + apply app_inj_tail in E as [-> ->]. by right.
    + rewrite app_comm_cons, app_assoc in E. apply app_inj_tail in E as [-> ->]. left. by exists l1, l2.
  - intros [(l1 & l2 & -> & Hn)|[-> Hn]].
    + exists l1, (l2 ++ [m]). by rewrite <- app_assoc.
    + by exists ms, [].
Qed.

Record searched (ms : list (text * text)) (s : Search) : Prop := {
  sd_seen : forall d, d ∈ seen s <-> d ∈ ms.*1;
  sd_preferred : forall d, d ∈ preferred s <-> exists b, first_in ms d b /\ bundled d b = true;
  sd_fallback : forall d, d ∈ fallback s <-> exists b, first_in ms d b /\ bundled d b = false;
}.

Lemma searched_visit ms s m : searched ms s -> searched (ms ++ [m]) (visit s m).
Proof.
  intros [H1 H2 H3]. destruct m as [dir base]. unfold visit. case_bool_decide as Hin.
  - split.
    + intros d. rewrite H1, fmap_app, elem_of_app. split; [by left|]. intros [|Hd]; [done|].
      apply list_elem_of_singleton in Hd as ->. by apply H1.
    + intros d. rewrite H2. setoid_rewrite first_in_snoc. split; [naive_solver|].
      intros (b & [|[[= -> ->] Hn]] & Hb); [by eauto|]. by apply H1 in Hin.
    + intros d. rewrite H3. setoid_rewrite first_in_snoc. split; [naive_solver|].
      intros (b & [|[[= -> ->] Hn]] & Hb); [by eauto|]. by apply H1 in Hin.
  - assert (dir ∉ ms.*1) as Hn by (by rewrite <- H1).
    assert (forall d, d ∈ seen s ++ [dir] <-> d ∈ (ms ++ [(dir, base)]).*1) as Hs.
    { intros d. by rewrite fmap_app, !elem_of_app, H1. }
    destruct (bundled dir base) eqn:Eb; (split; [exact Hs|..]); cbn [preferred fallback]; intros d;
      rewrite ?elem_of_app, ?list_elem_of_singleton, ?H2, ?H3; setoid_rewrite first_in_snoc; naive_solver congruence.
Qed.

Lemma searched_lines lines : searched (mappings lines) (fold_left visit_line lines (mkSearch [] [] [])).
Proof.
  induction lines as [|line lines IH] using rev_ind.
  { split; cbn; intros d; (split; [by intros ?%not_elem_of_nil|]); [by intros ?%not_elem_of_nil|..];
      intros (b & (l1 & l2 & E & _) & _); by destruct l1. }
  rewrite fold_left_app. cbn [fold_left]. unfold mappings, visit_line in *. rewrite omap_app. cbn [omap list_omap].
  destruct (mapping line) as [m|]; [by apply searched_visit|]. by rewrite app_nil_r.
Qed.

Lemma first_in_exists ms d : d ∈ ms.*1 -> exists b, first_in ms d b.
Proof.
  induction ms as [|m ms IH] using rev_ind; [by intros ?%not_elem_of_nil|].
  setoid_rewrite first_in_snoc. rewrite fmap_app. destruct (decide (d ∈ ms.*1)) as [Hd|Hd].
  - intros _. destruct (IH Hd) as [b Hb]. exists b. by left.
  - intros [|Hm%list_elem_of_singleton]%elem_of_app; [done|]. destruct m as [d' b]. cbn in Hm. subst d'. exists b. by right.
Qed.

Lemma find_app {A} (p : A -> bool) l1 l2 :
  List.find p (l1 ++ l2) = match List.find p l1 with Some x => Some x | None => List.find p l2 end.
Proof. induction l1 as [|x l1 IH]; cbn; [done|]. by destruct (p x). Qed.

(** The sibling lookup is complete: it finds the library whenever some directory a
    file is mapped from has it.  And it prefers: one from a directory that is not
    taken for a bundle only if none taken for one has it. *)
Theorem sibling_found e lines :
  proc_maps e = Some lines ->
  match _findSiblingOfLoadedLib e with
  | None => forall d b, (d, b) ∈ mappings lines -> existsSync e (in_dir d) = false
  | Some p => exists d b, first_in (mappings lines) d b /\ p = in_dir d /\ existsSync e p = true /\
      (bundled d b = false -> forall d' b', first_in (mappings lines) d' b' -> bundled d' b' = true ->
         existsSync e (in_dir d') = false)
  end.
Proof.
  intros Hm. unfold _findSiblingOfLoadedLib. rewrite Hm. cbn [mbind option_bind].
  destruct (searched_lines lines) as [_ H2 H3]. set (s := fold_left _ _ _) in *. clearbody s.
  rewrite fmap_app, find_app.
  pose proof (list_find_first (existsSync e) (in_dir <$> preferred s)) as F1.
  pose proof (list_find_first (existsSync e) (in_dir <$> fallback s)) as F2.
  destruct (List.find (existsSync e) (in_dir <$> preferred s)) as [p|].
  - destruct F1 as [(d & -> & (b & Hb & Hbu)%H2)%list_elem_of_fmap Hex]. exists d, b. split_and!; [done..|]. congruence.
  - rewrite Forall_fmap, Forall_forall in F1.
    assert (forall d' b', first_in (mappings lines) d' b' -> bundled d' b' = true -> existsSync e (in_dir d') = false) as Hno.
    { intros d' b' H H'. apply F1, H2. by exists b'. }
    destruct (List.find (existsSync e) (in_dir <$> fallback s)) as [p|].
    + destruct F2 as [(d & -> & (b & Hb & Hbu)%H3)%list_elem_of_fmap Hex]. by exists d, b.
    + rewrite Forall_fmap, Forall_forall in F2. intros d b Hin.
      destruct (first_in_exists (mappings lines) d) as [b' Hb']; [apply list_elem_of_fmap; by exists (d, b)|].
      destruct (bundled d b') eqn:E; [by apply (Hno d b')|]. apply F2, H3. by exists b'.
Qed.

(** *** The artifact of the build hook *)

Lemma newest_spec l :
  match newest l with
  | None => forall x, x ∈ l -> is_artifact x = true -> modified x <= 0
  | Some p => exists x, x ∈ l /\ is_artifact x = true /\ p = path x /\
      forall y, y ∈ l -> is_artifact y = true -> modified y <= modified x
  end.
Proof.
  unfold newest.
  assert (let acc := fold_left newer l (None, 0) in
    (forall y, y ∈ l -> is_artifact y = true -> modified y <= acc.2) /\
    match acc.1 with
    | None => acc.2 = 0
    | Some p => exists x, x ∈ l /\ is_artifact x = true /\ p = path x /\ modified x = acc.2
    end) as [H1 H2].
  { induction l as [|x l IH] using rev_ind; [split; [by intros y ?%not_elem_of_nil | done]|].
    rewrite fold_left_app. cbn [fold_left]. destruct (fold_left newer l (None, 0)) as [o m]. cbn [fst snd] in *.
    destruct IH as [I1 I2]. unfold newer. cbn [fst snd]. destruct (is_artifact x) eqn:Ex; cbn [andb].
    - destruct (Z.ltb_spec m (modified x)) as [Hl|Hl]; cbn [fst snd]; split.
      + intros y [Hy|Hy%list_elem_of_singleton]%elem_of_app Hq; [specialize (I1 y Hy Hq); lia | by subst].
      + exists x. split_and!; [apply elem_of_app; right; by left | done..].
      + intros y [Hy|Hy%list_elem_of_singleton]%elem_of_app Hq; [by apply I1 | by subst].
      + destruct o as [p|]; [|done]. destruct I2 as (z & Hz & H). exists z. split; [apply elem_of_app; by left | done].
    - cbn [fst snd]. split.
      + intros y [Hy|Hy%list_elem_of_singleton]%elem_of_app Hq; [by apply I1 | subst; congruence].
      + destruct o as [p|]; [|done]. destruct I2 as (z & Hz & H). exists z. split; [apply elem_of_app; by left | done]. }
  destruct (fold_left newer l (None, 0)) as [[p|] m]; cbn [fst snd] in *.
  - destruct H2 as (x & Hx & Ha & -> & <-). by exists x.
  - by subst m.
Qed.

(** The [k]-th directory looked at. *)
Definition level (dir : text) (k : nat) : text := Nat.iter k parentOf dir.

(** The artifact is the newest of the nearest directory, of at most [n], that has
    one; directories without a build root, or with nothing of use in it, are
    passed, and one that cannot be listed ends the search. *)
Theorem hook_artifact_newest e n : forall dir p,
  find_in_hooks e n dir = Some (Some p) ->
  exists k l x, (k < n)%nat /\ listing e (build_root (level dir k)) = Listed l /\
    x ∈ l /\ is_artifact x = true /\ p = path x /\
    (forall y, y ∈ l -> is_artifact y = true -> modified y <= modified x) /\
    forall j, (j < k)%nat ->
      match listing e (build_root (level dir j)) with
      | Missing => True
      | Listed l' => forall y, y ∈ l' -> is_artifact y = true -> modified y <= 0
      | ListThrows => False
      end.
Proof.
  induction n as [|n IH]; intros dir p H; [done|]. cbn [find_in_hooks] in H.
  set (climb := if bool_decide _ then _ else _) in H.
  assert (climb = Some (Some p) ->
    match listing e (build_root dir) with
    | Missing => True
    | Listed l' => forall y, y ∈ l' -> is_artifact y = true -> modified y <= 0
    | ListThrows => False
    end -> exists k l x, (k < S n)%nat /\ listing e (build_root (level dir k)) = Listed l /\
    x ∈ l /\ is_artifact x = true /\ p = path x /\
    (forall y, y ∈ l -> is_artifact y = true -> modified y <= modified x) /\
    forall j, (j < k)%nat ->
      match listing e (build_root (level dir j)) with
      | Missing => True
      | Listed l' => forall y, y ∈ l' -> is_artifact y = true -> modified y <= 0
      | ListThrows => False
      end) as Hup.
  { intros Hc H0. unfold climb in Hc. case_bool_decide; [done|].
    destruct (IH _ _ Hc) as (k & l & x & Hk & Hl & Hx & Ha & Hp & Hm & Hj).
    assert (forall i, level (parentOf dir) i = level dir (S i)) as Hlev by (intros i; unfold level; by rewrite Nat.iter_succ_r).
    rewrite Hlev in Hl. exists (S k), l, x. split_and!; [lia|done..|]. intros [|j] Hlt; [exact H0|].
    rewrite <- Hlev. apply Hj. lia. }
  destruct (listing e (build_root dir)) as [|l|] eqn:El; [by apply Hup| |done].
  pose proof (newest_spec l) as Hn. destruct (newest l) as [q|]; [|by apply Hup].
  injection H as ->. destruct Hn as (x & Hx & Ha & Hp & Hm).
  exists O, l, x. split_and!; [lia|done..|lia].
Qed.

(** *** At a concrete input *)

Definition maps_of (l : list string) : list text := chars <$> l.

(** A bundle in [/opt/app/lib], and a build of the hook above [/home/u/app/bin]. *)
Definition demo_env (lines : list string) (there : list string) (openable : list string) : Env :=
  mkEnv None None
    (fun p => bool_decide (p ∈ chars <$> openable)) (fun p => bool_decide (p ∈ chars <$> there))
    (Some (maps_of lines))
    (fun d => if bool_decide (d = build_root (chars "/home/u/app")) then
       Listed [mkEntity true (chars "/b/old/libgopro_nc.so") 5; mkEntity true (chars "/b/new/libgopro_nc.so") 9;
               mkEntity true (chars "/b/new/other.so") 11] else Missing)
    (Some (chars "/home/u/app/bin/main.dart")) (chars "/usr/bin/homescreen") (chars "/home/u/app/bin").

Lemma sibling_found_witness :
  let e := demo_env ["7f00-7f01 r-xp 0 08:01 12 /usr/bin/homescreen"; "7f02-7f03 r-xp 0 08:01 13 /opt/app/lib/libapp.so"]
             ["/opt/app/lib/libgopro_nc.so"] [] in
  _findSiblingOfLoadedLib e = Some (chars "/opt/app/lib/libgopro_nc.so") /\
  existsSync e (chars "/opt/app/lib/libgopro_nc.so") = true.
Proof.
  intros e. assert (_findSiblingOfLoadedLib e = Some (chars "/opt/app/lib/libgopro_nc.so")) as E by (vm_compute; reflexivity).
  split; [exact E|]. pose proof (sibling_found e _ eq_refl) as H. rewrite E in H.
  destruct H as (d & b & _ & _ & Hex & _). exact Hex.
Defined.

Lemma hook_artifact_newest_witness :
  let e := demo_env [] [] [] in
  exists k l x, (k < 6)%nat /\ listing e (build_root (level (current e) k)) = Listed l /\
    x ∈ l /\ path x = chars "/b/new/libgopro_nc.so".
Proof.
  intros e. assert (find_in_hooks e 6 (current e) = Some (Some (chars "/b/new/libgopro_nc.so"))) as E by (vm_compute; reflexivity).
  destruct (hook_artifact_newest e 6 (current e) _ E) as (k & l & x & H1 & H2 & H3 & _ & H5 & _).
  exists k, l, x. split_and!; [exact H1 | exact H2 | exact H3 | by rewrite H5].
Defined.

Example parents :
  (parentOf <$> [chars "/a/b"; chars "/a"; chars "/"; chars "/a//b/"; chars "a"]) =
    [chars "/a"; chars "/"; chars "/"; chars "/a"; chars "."].
Proof. vm_compute. reflexivity. Qed.

(** ** What modelling showed *)

(** The path of a mapping is taken to begin after the last space, so a bundle in a
    directory with a space in its name is not found. *)
Example bundle_with_space :
  _findSiblingOfLoadedLib (demo_env ["7f02-7f03 r-xp 0 08:01 13 /opt/my app/lib/libapp.so"]
    ["/opt/my app/lib/libgopro_nc.so"] []) = None.
Proof. vm_compute. reflexivity. Qed.

(** Whether a directory is a bundle is decided by the first file mapped from it: a
    bundle whose [libapp.so] is not that file comes after any directory that is
    called [lib], such as one with an older system-wide library. *)
Example first_mapping_decides :
  _findSiblingOfLoadedLib (demo_env
    ["7f00-7f01 r-xp 0 08:01 11 /opt/app/libz.so"; "7f02-7f03 r-xp 0 08:01 13 /opt/app/libapp.so";
     "7f04-7f05 r-xp 0 08:01 14 /usr/local/lib/libc.so"]
    ["/opt/app/libgopro_nc.so"; "/usr/local/lib/libgopro_nc.so"] []) = Some (chars "/usr/local/lib/libgopro_nc.so").
Proof. vm_compute. reflexivity. Qed.

(** A build root that cannot be listed ends the search with that exception,
    although the library lies next to the executable. *)
Example unreadable_build_root :
  let e := demo_env [] ["/usr/bin/libgopro_nc.so"] ["/usr/bin/libgopro_nc.so"] in
  let e' := mkEnv None None (opens e) (existsSync e) (proc_maps e) (fun _ => ListThrows) (script e)
              (resolvedExecutable e) (current e) in
  loadGoProNc e = Opened (chars "/usr/bin/libgopro_nc.so") /\ loadGoProNc e' = ListingThrows.
Proof. vm_compute. done. Qed.
