(* ===== verification/WireEnums.v ===== *)
(** * The generated constants
    ([tool/gen_constants.py], [lib/src/generated/])

    How the generator turns the members of an upstream enum into those of a Dart
    enum, what it refuses, and the lookup every generated enum has.  The upstream
    modules and the files generated from them are given for the commands, the
    status and setting ids and the streaming modes; that the one gives the other
    is checked by running the generator.  Identifiers are ASCII. *)

From Stdlib Require Import Ascii.
From stdpp Require Import strings.
From S2P Require Import Prelude GoproUsb HttpMessage.
Local Open Scope Z_scope.

(** ** Names *)

Definition in_chars (lo hi : ascii) (c : ascii) : bool :=
  (nat_of_ascii lo <=? nat_of_ascii c)%nat && (nat_of_ascii c <=? nat_of_ascii hi)%nat.

Definition isupper : ascii -> bool := in_chars "A" "Z".
Definition islower : ascii -> bool := in_chars "a" "z".
Definition isdigit : ascii -> bool := in_chars "0" "9".

Definition lower (c : ascii) : ascii := if isupper c then ascii_of_nat (nat_of_ascii c + 32) else c.
Definition upper (c : ascii) : ascii := if islower c then ascii_of_nat (nat_of_ascii c - 32) else c.

(** [s[0].upper() + s[1:].lower()], and nothing of nothing. *)
Definition title (s : text) : text := match s with c :: s => upper c :: (lower <$> s) | [] => [] end.

(** The longest run of digits at the front, and the rest. *)
Fixpoint split_digits (s : text) : text * text :=
  match s with
  | c :: s' => if isdigit c then let '(d, t) := split_digits s' in (c :: d, t) else ([], s)
  | [] => ([], [])
  end.

Definition camel_part (part : text) : text :=
  let '(digits, tail) := split_digits part in
  match digits with [] => title part | _ => digits ++ title tail end.

(** The regular expression of a Dart identifier. *)
Definition identifier (s : text) : bool :=
  match s with
  | c :: s => (islower c || Ascii.eqb c "_") &&
      forallb (fun c => islower c || isupper c || isdigit c || Ascii.eqb c "_") s
  | [] => false
  end.

(** [None] is [GenError]. *)
Definition to_lower_camel (name : text) : option text :=
  match List.filter (fun p => negb (is_nil p)) (split_on "_" name) with
  | [] => None
  | part :: parts =>
      let out := (lower <$> part) ++ concat (camel_part <$> parts) in
      if identifier out then Some out else None
  end.

Definition DART_RESERVED : list text := chars <$>
  ["abstract"; "as"; "assert"; "async"; "await"; "break"; "case"; "catch";
   "class"; "const"; "continue"; "covariant"; "default"; "deferred"; "do";
   "dynamic"; "else"; "enum"; "export"; "extends"; "extension"; "external";
   "factory"; "false"; "final"; "finally"; "for"; "function"; "get"; "hide";
   "if"; "implements"; "import"; "in"; "interface"; "is"; "late"; "library";
   "mixin"; "new"; "null"; "on"; "operator"; "part"; "required"; "rethrow";
   "return"; "set"; "show"; "static"; "super"; "switch"; "sync"; "this";
   "throw"; "true"; "try"; "typedef"; "var"; "void"; "while"; "with"; "yield";
   "index"; "values"; "name"; "hashCode"; "runtimeType"; "toString"]%string.

Definition safe_member (name : text) : option text :=
  ident ← to_lower_camel name;
  Some (if bool_decide (ident ∈ DART_RESERVED) then ident ++ ["$"%char] else ident).

(** ** Enums *)

Section enums.
Context {V : Type} `{EqDecision V}.

(** The members of a Dart enum: identifier and [value]. *)
Abbreviation DartEnum := (list (text * V)).

(** The loop of [emit_enum], with what has been seen; [None] is [GenError]. *)
Fixpoint emit_members (l : list (text * V)) (seen : list text) (seen_values : list V) : option DartEnum :=
  match l with
  | [] => Some []
  | (raw, value) :: l =>
      ident ← safe_member raw;
      if bool_decide (ident ∈ seen) then None
      else if bool_decide (value ∈ seen_values) then None
      else rest ← emit_members l (seen ++ [ident]) (seen_values ++ [value]); Some ((ident, value) :: rest)
  end.

Definition emit_enum (members : list (text * V)) : option DartEnum := emit_members members [] [].

(** [_byValue], filled in the order of [values]. *)
Definition _byValue (d : DartEnum) : list (V * text) :=
  fold_left (fun m v => dict_put v.2 v.1 m) d [].

Definition fromValue (d : DartEnum) (value : V) : option text := dict_get value (_byValue d).

(** ** Properties *)

Definition dart_name (s : text) : Prop :=
  s ∉ DART_RESERVED /\ (identifier s = true \/ exists s', s = s' ++ ["$"%char] /\ identifier s' = true).

Lemma safe_member_name raw s : safe_member raw = Some s -> dart_name s.
Proof.
  unfold safe_member, to_lower_camel. destruct (List.filter _ _) as [|part parts]; [done|].
  set (out := _ ++ _). destruct (identifier out) eqn:E; [|done]. cbn [mbind option_bind]. intros [= <-].
  case_bool_decide as Hr; [|by split; [|left]]. split; [|right; by exists out].
  assert (forallb (fun w => negb (bool_decide ("$"%char ∈ w))) DART_RESERVED = true) as Hno by (vm_compute; reflexivity).
  rewrite forallb_forall in Hno. intros Hin%list_elem_of_In. specialize (Hno _ Hin).
  apply negb_true_iff, bool_decide_eq_false in Hno. apply Hno, elem_of_app. right. by left.
Qed.

Lemma emit_members_spec l : forall seen vals d,
  emit_members l seen vals = Some d ->
  Forall2 (fun m e => safe_member m.1 = Some e.1 /\ m.2 = e.2) l d /\
  NoDup d.*1 /\ NoDup d.*2 /\ Forall (fun e => e.1 ∉ seen /\ e.2 ∉ vals) d.
Proof.
  induction l as [|[raw v] l IH]; intros seen vals d E; cbn [emit_members] in E.
  { injection E as <-. repeat constructor. }
  destruct (safe_member raw) as [ident|] eqn:Es; [|done]. cbn [mbind option_bind] in E.
  case_bool_decide as H1; [done|]. case_bool_decide as H2; [done|].
  destruct (emit_members l _ _) as [rest|] eqn:Er; [|done]. cbn [mbind option_bind] in E. injection E as <-.
  destruct (IH _ _ _ Er) as (F & N1 & N2 & Hs). rewrite Forall_forall in Hs. split_and!.
  - by constructor.
  - cbn. apply NoDup_cons. split; [|done]. intros (e & -> & He)%list_elem_of_fmap.
    apply (proj1 (Hs e He)). apply elem_of_app. right. by left.
  - cbn. apply NoDup_cons. split; [|done]. intros (e & -> & He)%list_elem_of_fmap.
    apply (proj2 (Hs e He)). apply elem_of_app. right. by left.
  - constructor; [done|]. apply Forall_forall. intros e He. destruct (Hs e He) as [A B].
    rewrite not_elem_of_app in A. rewrite not_elem_of_app in B. tauto.
Qed.

(** Refused is just what has no Dart name or would be ambiguous. *)
Lemma emit_members_total l : forall seen vals,
  emit_members l seen vals = None <->
  exists l1 raw v l2, l = l1 ++ (raw, v) :: l2 /\
    match safe_member raw with
    | None => True
    | Some s => Some s ∈ (Some <$> seen) ++ (safe_member <$> l1.*1) \/ v ∈ vals ++ l1.*2
    end.
Proof.
  induction l as [|[raw v] l IH]; intros seen vals; cbn [emit_members].
  { split; [done|]. intros (l1 & ? & ? & ? & E & _). by destruct l1. }
  split.
  - destruct (safe_member raw) as [s|] eqn:Es; cbn [mbind option_bind].
    2: { intros _. exists [], raw, v, l. by rewrite Es. }
    case_bool_decide as H1.
    { intros _. exists [], raw, v, l. rewrite Es, !app_nil_r. split; [done|]. left. apply list_elem_of_fmap. by exists s. }
    case_bool_decide as H2. { intros _. exists [], raw, v, l. rewrite Es. split; [done|]. right. by rewrite app_nil_r. }
    destruct (emit_members l _ _) as [d|] eqn:Er; [done|]. intros _.
    apply IH in Er as (l1 & raw' & v' & l2 & -> & H). exists ((raw, v) :: l1), raw', v', l2. split; [done|].
    destruct (safe_member raw'); [|done]. rewrite !fmap_cons, fmap_app, <- !app_assoc in *. cbn in *. rewrite Es. done.
  - intros (l1 & raw' & v' & l2 & E & H). destruct l1 as [|[raw1 v1] l1].
    + cbn in E. injection E as -> -> ->. destruct (safe_member raw') as [s|]; cbn [mbind option_bind]; [|done].
      rewrite !app_nil_r in H. case_bool_decide as H1; [done|]. case_bool_decide as H2; [done|].
      destruct H as [(x & [= ->] & Hx)%list_elem_of_fmap|Hv]; done.
    + cbn in E. injection E as -> -> ->. destruct (safe_member raw1) as [s|] eqn:Es; cbn [mbind option_bind]; [|done].
      case_bool_decide as H1; [done|]. case_bool_decide as H2; [done|].
      replace (emit_members _ _ _) with (@None DartEnum); [done|]. symmetry. apply IH.
      exists l1, raw', v', l2. split; [done|]. destruct (safe_member raw'); [|done].
      rewrite !fmap_cons, fmap_app, <- !app_assoc in *. cbn in *. rewrite Es in H. done.
Qed.

Lemma byValue_app d d' : _byValue (d ++ d') = fold_left (fun m v => dict_put v.2 v.1 m) d' (_byValue d).
Proof. apply fold_left_app. Qed.

Lemma byValue_eq d : NoDup d.*2 -> _byValue d = (fun e => (e.2, e.1)) <$> d.
Proof.
  induction d as [|e d IH] using rev_ind; [done|]. rewrite fmap_app. intros (H1 & H2 & _)%NoDup_app.
  rewrite byValue_app, IH by done. cbn [fold_left]. rewrite dict_put_fresh, fmap_app; [done|].
  rewrite <- list_fmap_compose. intros Hin. apply (H2 e.2); [done | by left].
Qed.

(** What is generated.  A Dart enum that the generator emits has the upstream
    values in their order, under distinct names that Dart accepts, and its
    [fromValue] inverts [value]: it gives each member for its own value, and null
    for any other.  The generator refuses exactly an enum with a member that has
    no Dart name, or two with the same name or value. *)
Theorem emitted_enum members :
  match emit_enum members with
  | Some d =>
      d.*2 = members.*2 /\ (Some <$> d.*1) = (safe_member <$> members.*1) /\
      NoDup d.*1 /\ Forall dart_name d.*1 /\
      (forall v n, fromValue d v = Some n <-> (n, v) ∈ d) /\
      (forall v, fromValue d v = None <-> v ∉ members.*2)
  | None => exists l1 raw v l2, members = l1 ++ (raw, v) :: l2 /\
      (safe_member raw = None \/ safe_member raw ∈ safe_member <$> l1.*1 \/ v ∈ l1.*2)
  end.
Proof.
  unfold emit_enum. destruct (emit_members members [] []) as [d|] eqn:E.
  - destruct (emit_members_spec _ _ _ _ E) as (F & N1 & N2 & _).
    assert (d.*2 = members.*2) as Hv.
    { clear - F. induction F as [|m e l d [_ H] F IH]; [done|]. cbn. by rewrite IH, H. }
    assert (forall v n, fromValue d v = Some n <-> (n, v) ∈ d) as Hf.
    { intros v n. unfold fromValue. rewrite byValue_eq by done. split.
      - intros H%dict_get_Some. apply list_elem_of_fmap in H as ([n' v'] & [= -> ->] & H). done.
      - intros H. apply dict_get_elem; [by rewrite <- list_fmap_compose|].
        apply list_elem_of_fmap. by exists (n, v). }
    split_and!; [done| |done| |done|].
    + clear - F. induction F as [|m e l d [H _] F IH]; [done|]. cbn. by rewrite IH, H.
    + clear - F. induction F as [|m e l d [H _] F IH]; [constructor|]. cbn. constructor; [by eapply safe_member_name | done].
    + intros v. rewrite <- Hv. split.
      * intros Hn ([n v'] & -> & Hin)%list_elem_of_fmap. apply Hf in Hin. cbn in Hn. congruence.
      * intros Hn. destruct (fromValue d v) as [n|] eqn:En; [|done]. apply Hf in En.
        exfalso. apply Hn, list_elem_of_fmap. by exists (n, v).
  - apply emit_members_total in E as (l1 & raw & v & l2 & -> & H). exists l1, raw, v, l2. split; [done|].
    destruct (safe_member raw); cbn in H; tauto.
Qed.
End enums.

(** ** The tables *)

Definition numbered (l : list (string * Z)) : list (text * Z) := (fun e => (chars e.1, e.2)) <$> l.
Definition coded (l : list (string * string)) : list (text * text) := (fun e => (chars e.1, chars e.2)) <$> l.

Local Open Scope string_scope.

(** [tool/upstream/]. *)
Definition py_ErrorCode : list (text * Z) := numbered [
  ("SUCCESS", 0); ("ERROR", 1); ("INVALID_PARAM", 2); ("UNKNOWN", (-1))].

Definition py_CmdId : list (text * Z) := numbered [
  ("SET_SHUTTER", 1); ("POWER_DOWN", 4); ("SLEEP", 5); ("SET_PAIRING_COMPLETE", 3); ("SET_DATE_TIME", 13);
  ("GET_DATE_TIME", 14); ("SET_DATE_TIME_DST", 15); ("GET_DATE_TIME_DST", 16); ("REBOOT", 17);
  ("GET_CAMERA_SETTINGS", 18); ("GET_CAMERA_STATUSES", 19); ("GET_CAMERA_CAPABILITIES", 50); ("SET_WIFI", 23);
  ("TAG_HILIGHT", 24); ("GET_SETTINGS_JSON", 59); ("GET_HW_INFO", 60); ("LOAD_PRESET_GROUP", 62);
  ("LOAD_PRESET", 64); ("SET_THIRD_PARTY_CLIENT_INFO", 80); ("GET_THIRD_PARTY_API_VERSION", 81);
  ("REGISTER_ALL_SETTINGS", 82); ("REGISTER_ALL_STATUSES", 83); ("UNREGISTER_ALL_SETTINGS", 114);
  ("UNREGISTER_ALL_STATUSES", 115); ("REGISTER_ALL_CAPABILITIES", 98); ("UNREGISTER_ALL_CAPABILITIES", 130)].

Definition py_ActionId : list (text * Z) := numbered [
  ("SET_PAIRING_STATE", 1); ("SCAN_WIFI_NETWORKS", 2); ("GET_AP_ENTRIES", 3); ("REQUEST_WIFI_CONNECT", 4);
  ("REQUEST_WIFI_CONNECT_NEW", 5); ("NOTIF_START_SCAN", 11); ("NOTIF_PROVIS_STATE", 12);
  ("REQUEST_SET_CAMERA_NAME", 98); ("REQUEST_SET_PRESET_VISIBILITY", 99); ("REQUEST_PRESET_UPDATE_CUSTOM", 100);
  ("SET_CAMERA_CONTROL", 105); ("SET_TURBO_MODE", 107); ("GET_PRESET_STATUS", 114);
  ("GET_LIVESTREAM_STATUS", 116); ("RELEASE_NETWORK", 120); ("SET_LIVESTREAM_MODE", 121);
  ("SET_PAIRING_STATE_RSP", 129); ("SCAN_WIFI_NETWORKS_RSP", 130); ("GET_AP_ENTRIES_RSP", 131);
  ("REQUEST_WIFI_CONNECT_RSP", 132); ("REQUEST_WIFI_CONNECT_NEW_RSP", 133); ("REQUEST_COHN_SETTING", 101);
  ("REQUEST_CLEAR_COHN_CERT", 102); ("REQUEST_CREATE_COHN_CERT", 103); ("REQUEST_GET_LAST_MEDIA", 109);
  ("REQUEST_GET_COHN_CERT", 110); ("REQUEST_GET_COHN_STATUS", 111); ("RESPONSE_SET_CAMERA_NAME", 226);
  ("RESPONSE_SET_PRESET_VISIBILITY", 227); ("RESPONSE_PRESET_UPDATE_CUSTOM", 228);
  ("RESPONSE_COHN_SETTING", 229); ("RESPONSE_CLEAR_COHN_CERT", 230); ("RESPONSE_CREATE_COHN_CERT", 231);
  ("SET_CAMERA_CONTROL_RSP", 233); ("SET_TURBO_MODE_RSP", 235); ("RESPONSE_GET_LAST_MEDIA", 237);
  ("RESPONSE_GET_COHN_CERT", 238); ("RESPONSE_GET_COHN_STATUS", 239); ("GET_PRESET_STATUS_RSP", 242);
  ("PRESET_MODIFIED_NOTIFICATION", 243); ("LIVESTREAM_STATUS_RSP", 244); ("LIVESTREAM_STATUS_NOTIF", 245);
  ("RELEASE_NETWORK_RSP", 248); ("SET_LIVESTREAM_MODE_RSP", 249); ("INTERNAL_FF", 255)].

Definition py_FeatureId : list (text * Z) := numbered [
  ("NETWORK_MANAGEMENT", 2); ("WIRELESS_MANAGEMENT", 3); ("COMMAND", 241); ("SETTING", 243); ("QUERY", 245)].

Definition py_QueryCmdId : list (text * Z) := numbered [
  ("GET_SETTING_VAL", 18); ("GET_STATUS_VAL", 19); ("GET_SETTING_NAME", 34); ("GET_CAPABILITIES_VAL", 50);
  ("GET_CAPABILITIES_NAME", 66); ("REG_SETTING_VAL_UPDATE", 82); ("REG_STATUS_VAL_UPDATE", 83);
  ("REG_CAPABILITIES_UPDATE", 98); ("UNREG_SETTING_VAL_UPDATE", 114); ("UNREG_STATUS_VAL_UPDATE", 115);
  ("UNREG_CAPABILITIES_UPDATE", 130); ("SETTING_VAL_PUSH", 146); ("STATUS_VAL_PUSH", 147);
  ("SETTING_CAPABILITY_PUSH", 162)].

Definition py_Toggle : list (text * Z) := numbered [
  ("ENABLE", 1); ("DISABLE", 0)].

Definition py_LED_SPECIAL : list (text * Z) := numbered [
  ("BLE_KEEP_ALIVE", 66)].

Definition py_CameraControl : list (text * Z) := numbered [
  ("IDLE", 0); ("CAMERA", 1); ("EXTERNAL", 2)].

Definition py_StatusId : list (text * Z) := numbered [
  ("BATTERY_PRESENT", 1); ("INTERNAL_BATTERY_BARS", 2); ("OVERHEATING", 6); ("BUSY", 8); ("QUICK_CAPTURE", 9);
  ("ENCODING", 10); ("LCD_LOCK", 11); ("VIDEO_ENCODING_DURATION", 13); ("WIRELESS_CONNECTIONS_ENABLED", 17);
  ("PAIRING_STATE", 19); ("LAST_PAIRING_TYPE", 20); ("LAST_PAIRING_SUCCESS", 21); ("WIFI_SCAN_STATE", 22);
  ("LAST_WIFI_SCAN_SUCCESS", 23); ("WIFI_PROVISIONING_STATE", 24); ("REMOTE_VERSION", 26);
  ("REMOTE_CONNECTED", 27); ("CONNECTED_WIFI_SSID", 29); ("ACCESS_POINT_SSID", 30); ("CONNECTED_DEVICES", 31);
  ("PREVIEW_STREAM", 32); ("PRIMARY_STORAGE", 33); ("REMAINING_PHOTOS", 34); ("REMAINING_VIDEO_TIME", 35);
  ("PHOTOS", 38); ("VIDEOS", 39); ("OTA", 41); ("PENDING_FW_UPDATE_CANCEL", 42); ("LOCATE", 45);
  ("TIMELAPSE_INTERVAL_COUNTDOWN", 49); ("SD_CARD_REMAINING", 54); ("PREVIEW_STREAM_AVAILABLE", 55);
  ("WIFI_BARS", 56); ("ACTIVE_HILIGHTS", 58); ("TIME_SINCE_LAST_HILIGHT", 59);
  ("MINIMUM_STATUS_POLL_PERIOD", 60); ("LIVEVIEW_EXPOSURE_SELECT_MODE", 65); ("LIVEVIEW_Y", 66);
  ("LIVEVIEW_X", 67); ("GPS_LOCK", 68); ("AP_MODE", 69); ("INTERNAL_BATTERY_PERCENTAGE", 70);
  ("MICROPHONE_ACCESSORY", 74); ("ZOOM_LEVEL", 75); ("WIRELESS_BAND", 76); ("ZOOM_AVAILABLE", 77);
  ("MOBILE_FRIENDLY", 78); ("FTU", 79); ("NUM_5GHZ_AVAILABLE", 81); ("READY", 82); ("OTA_CHARGED", 83);
  ("COLD", 85); ("ROTATION", 86); ("ZOOM_WHILE_ENCODING", 88); ("FLATMODE", 89); ("VIDEO_PRESET", 93);
  ("PHOTO_PRESET", 94); ("TIMELAPSE_PRESET", 95); ("PRESET_GROUP", 96); ("PRESET", 97); ("PRESET_MODIFIED", 98);
  ("REMAINING_LIVE_BURSTS", 99); ("LIVE_BURSTS", 100); ("CAPTURE_DELAY_ACTIVE", 101); ("MEDIA_MOD_STATE", 102);
  ("TIME_WARP_SPEED", 103); ("LINUX_CORE", 104); ("LENS_TYPE", 105); ("HINDSIGHT", 106);
  ("SCHEDULED_CAPTURE_PRESET_ID", 107); ("SCHEDULED_CAPTURE", 108); ("DISPLAY_MOD_STATUS", 110);
  ("SD_CARD_WRITE_SPEED_ERROR", 111); ("SD_CARD_ERRORS", 112); ("TURBO_TRANSFER", 113);
  ("CAMERA_CONTROL_ID", 114); ("USB_CONNECTED", 115); ("USB_CONTROLLED", 116); ("SD_CARD_CAPACITY", 117);
  ("PHOTO_INTERVAL_CAPTURE_COUNT", 118); ("CAMERA_NAME", 122)].

Definition py_SettingId : list (text * Z) := numbered [
  ("VIDEO_RESOLUTION", 2); ("FRAMES_PER_SECOND", 3); ("VIDEO_TIMELAPSE_RATE", 5); ("PHOTO_TIMELAPSE_RATE", 30);
  ("NIGHTLAPSE_RATE", 32); ("WEBCAM_DIGITAL_LENSES", 43); ("AUTO_POWER_DOWN", 59); ("GPS", 83);
  ("LCD_BRIGHTNESS", 88); ("LED", 91); ("VIDEO_ASPECT_RATIO", 108); ("VIDEO_LENS", 121); ("PHOTO_LENS", 122);
  ("TIME_LAPSE_DIGITAL_LENSES", 123); ("PHOTO_OUTPUT", 125); ("MEDIA_FORMAT", 128); ("ANTI_FLICKER", 134);
  ("HYPERSMOOTH", 135); ("VIDEO_HORIZON_LEVELING", 150); ("PHOTO_HORIZON_LEVELING", 151);
  ("VIDEO_DURATION", 156); ("MULTI_SHOT_DURATION", 157); ("MAX_LENS", 162); ("HINDSIGHT", 167);
  ("SCHEDULED_CAPTURE", 168); ("PHOTO_SINGLE_INTERVAL", 171); ("PHOTO_INTERVAL_DURATION", 172);
  ("VIDEO_PERFORMANCE_MODE", 173); ("CONTROL_MODE", 175); ("EASY_MODE_SPEED", 176); ("ENABLE_NIGHT_PHOTO", 177);
  ("WIRELESS_BAND", 178); ("STAR_TRAILS_LENGTH", 179); ("SYSTEM_VIDEO_MODE", 180); ("VIDEO_BIT_RATE", 182);
  ("BIT_DEPTH", 183); ("PROFILES", 184); ("VIDEO_EASY_MODE", 186); ("LAPSE_MODE", 187); ("MAX_LENS_MOD", 189);
  ("MAX_LENS_MOD_ENABLE", 190); ("EASY_NIGHT_PHOTO", 191); ("MULTI_SHOT_ASPECT_RATIO", 192); ("FRAMING", 193);
  ("CAMERA_MODE", 194); ("NUM_360_PHOTO_FILES_EXTENSION", 196); ("BEEP_VOLUME", 216);
  ("SETUP_SCREEN_SAVER", 219); ("SETUP_LANGUAGE", 223); ("PHOTO_MODE", 227); ("VIDEO_FRAMING", 232);
  ("MULTI_SHOT_FRAMING", 233); ("FRAME_RATE", 234); ("AUTOMATIC_WI_FI_ACCESS_POINT", 236);
  ("AUTO_POWER_ON_USB", 237)].

Definition py_WebcamResolution : list (text * Z) := numbered [
  ("NOT_APPLICABLE", 0); ("RES_480", 4); ("RES_720", 7); ("RES_1080", 12)].

Definition py_WebcamFOV : list (text * Z) := numbered [
  ("WIDE", 0); ("NARROW", 2); ("SUPERVIEW", 3); ("LINEAR", 4)].

Definition py_WebcamProtocol : list (text * text) := coded [
  ("TS", "TS"); ("RTSP", "RTSP")].

Definition py_WebcamStatus : list (text * Z) := numbered [
  ("OFF", 0); ("IDLE", 1); ("HIGH_POWER_PREVIEW", 2); ("LOW_POWER_PREVIEW", 3)].

Definition py_WebcamError : list (text * Z) := numbered [
  ("SUCCESS", 0); ("SET_PRESET", 1); ("SET_WINDOW_SIZE", 2); ("EXEC_STREAM", 3); ("SHUTTER", 4);
  ("COM_TIMEOUT", 5); ("INVALID_PARAM", 6); ("UNAVAILABLE", 7); ("EXIT", 8)].

(** [lib/src/generated/]. *)
Definition ErrorCode : list (text * Z) := numbered [
  ("success", 0); ("error", 1); ("invalidParam", 2); ("unknown", (-1))].

Definition CmdId : list (text * Z) := numbered [
  ("setShutter", 1); ("powerDown", 4); ("sleep", 5); ("setPairingComplete", 3); ("setDateTime", 13);
  ("getDateTime", 14); ("setDateTimeDst", 15); ("getDateTimeDst", 16); ("reboot", 17);
  ("getCameraSettings", 18); ("getCameraStatuses", 19); ("getCameraCapabilities", 50); ("setWifi", 23);
  ("tagHilight", 24); ("getSettingsJson", 59); ("getHwInfo", 60); ("loadPresetGroup", 62); ("loadPreset", 64);
  ("setThirdPartyClientInfo", 80); ("getThirdPartyApiVersion", 81); ("registerAllSettings", 82);
  ("registerAllStatuses", 83); ("unregisterAllSettings", 114); ("unregisterAllStatuses", 115);
  ("registerAllCapabilities", 98); ("unregisterAllCapabilities", 130)].

Definition ActionId : list (text * Z) := numbered [
  ("setPairingState", 1); ("scanWifiNetworks", 2); ("getApEntries", 3); ("requestWifiConnect", 4);
  ("requestWifiConnectNew", 5); ("notifStartScan", 11); ("notifProvisState", 12); ("requestSetCameraName", 98);
  ("requestSetPresetVisibility", 99); ("requestPresetUpdateCustom", 100); ("setCameraControl", 105);
  ("setTurboMode", 107); ("getPresetStatus", 114); ("getLivestreamStatus", 116); ("releaseNetwork", 120);
  ("setLivestreamMode", 121); ("setPairingStateRsp", 129); ("scanWifiNetworksRsp", 130);
  ("getApEntriesRsp", 131); ("requestWifiConnectRsp", 132); ("requestWifiConnectNewRsp", 133);
  ("requestCohnSetting", 101); ("requestClearCohnCert", 102); ("requestCreateCohnCert", 103);
  ("requestGetLastMedia", 109); ("requestGetCohnCert", 110); ("requestGetCohnStatus", 111);
  ("responseSetCameraName", 226); ("responseSetPresetVisibility", 227); ("responsePresetUpdateCustom", 228);
  ("responseCohnSetting", 229); ("responseClearCohnCert", 230); ("responseCreateCohnCert", 231);
  ("setCameraControlRsp", 233); ("setTurboModeRsp", 235); ("responseGetLastMedia", 237);
  ("responseGetCohnCert", 238); ("responseGetCohnStatus", 239); ("getPresetStatusRsp", 242);
  ("presetModifiedNotification", 243); ("livestreamStatusRsp", 244); ("livestreamStatusNotif", 245);
  ("releaseNetworkRsp", 248); ("setLivestreamModeRsp", 249); ("internalFf", 255)].

Definition FeatureId : list (text * Z) := numbered [
  ("networkManagement", 2); ("wirelessManagement", 3); ("command", 241); ("setting", 243); ("query", 245)].

Definition QueryCmdId : list (text * Z) := numbered [
  ("getSettingVal", 18); ("getStatusVal", 19); ("getSettingName", 34); ("getCapabilitiesVal", 50);
  ("getCapabilitiesName", 66); ("regSettingValUpdate", 82); ("regStatusValUpdate", 83);
  ("regCapabilitiesUpdate", 98); ("unregSettingValUpdate", 114); ("unregStatusValUpdate", 115);
  ("unregCapabilitiesUpdate", 130); ("settingValPush", 146); ("statusValPush", 147);
  ("settingCapabilityPush", 162)].

Definition Toggle : list (text * Z) := numbered [
  ("enable", 1); ("disable", 0)].

Definition LedSpecial : list (text * Z) := numbered [
  ("bleKeepAlive", 66)].

Definition CameraControl : list (text * Z) := numbered [
  ("idle", 0); ("camera", 1); ("external$", 2)].

Definition StatusId : list (text * Z) := numbered [
  ("batteryPresent", 1); ("internalBatteryBars", 2); ("overheating", 6); ("busy", 8); ("quickCapture", 9);
  ("encoding", 10); ("lcdLock", 11); ("videoEncodingDuration", 13); ("wirelessConnectionsEnabled", 17);
  ("pairingState", 19); ("lastPairingType", 20); ("lastPairingSuccess", 21); ("wifiScanState", 22);
  ("lastWifiScanSuccess", 23); ("wifiProvisioningState", 24); ("remoteVersion", 26); ("remoteConnected", 27);
  ("connectedWifiSsid", 29); ("accessPointSsid", 30); ("connectedDevices", 31); ("previewStream", 32);
  ("primaryStorage", 33); ("remainingPhotos", 34); ("remainingVideoTime", 35); ("photos", 38); ("videos", 39);
  ("ota", 41); ("pendingFwUpdateCancel", 42); ("locate", 45); ("timelapseIntervalCountdown", 49);
  ("sdCardRemaining", 54); ("previewStreamAvailable", 55); ("wifiBars", 56); ("activeHilights", 58);
  ("timeSinceLastHilight", 59); ("minimumStatusPollPeriod", 60); ("liveviewExposureSelectMode", 65);
  ("liveviewY", 66); ("liveviewX", 67); ("gpsLock", 68); ("apMode", 69); ("internalBatteryPercentage", 70);
  ("microphoneAccessory", 74); ("zoomLevel", 75); ("wirelessBand", 76); ("zoomAvailable", 77);
  ("mobileFriendly", 78); ("ftu", 79); ("num5GhzAvailable", 81); ("ready", 82); ("otaCharged", 83);
  ("cold", 85); ("rotation", 86); ("zoomWhileEncoding", 88); ("flatmode", 89); ("videoPreset", 93);
  ("photoPreset", 94); ("timelapsePreset", 95); ("presetGroup", 96); ("preset", 97); ("presetModified", 98);
  ("remainingLiveBursts", 99); ("liveBursts", 100); ("captureDelayActive", 101); ("mediaModState", 102);
  ("timeWarpSpeed", 103); ("linuxCore", 104); ("lensType", 105); ("hindsight", 106);
  ("scheduledCapturePresetId", 107); ("scheduledCapture", 108); ("displayModStatus", 110);
  ("sdCardWriteSpeedError", 111); ("sdCardErrors", 112); ("turboTransfer", 113); ("cameraControlId", 114);
  ("usbConnected", 115); ("usbControlled", 116); ("sdCardCapacity", 117); ("photoIntervalCaptureCount", 118);
  ("cameraName", 122)].

Definition SettingId : list (text * Z) := numbered [
  ("videoResolution", 2); ("framesPerSecond", 3); ("videoTimelapseRate", 5); ("photoTimelapseRate", 30);
  ("nightlapseRate", 32); ("webcamDigitalLenses", 43); ("autoPowerDown", 59); ("gps", 83);
  ("lcdBrightness", 88); ("led", 91); ("videoAspectRatio", 108); ("videoLens", 121); ("photoLens", 122);
  ("timeLapseDigitalLenses", 123); ("photoOutput", 125); ("mediaFormat", 128); ("antiFlicker", 134);
  ("hypersmooth", 135); ("videoHorizonLeveling", 150); ("photoHorizonLeveling", 151); ("videoDuration", 156);
  ("multiShotDuration", 157); ("maxLens", 162); ("hindsight", 167); ("scheduledCapture", 168);
  ("photoSingleInterval", 171); ("photoIntervalDuration", 172); ("videoPerformanceMode", 173);
  ("controlMode", 175); ("easyModeSpeed", 176); ("enableNightPhoto", 177); ("wirelessBand", 178);
  ("starTrailsLength", 179); ("systemVideoMode", 180); ("videoBitRate", 182); ("bitDepth", 183);
  ("profiles", 184); ("videoEasyMode", 186); ("lapseMode", 187); ("maxLensMod", 189); ("maxLensModEnable", 190);
  ("easyNightPhoto", 191); ("multiShotAspectRatio", 192); ("framing", 193); ("cameraMode", 194);
  ("num360PhotoFilesExtension", 196); ("beepVolume", 216); ("setupScreenSaver", 219); ("setupLanguage", 223);
  ("photoMode", 227); ("videoFraming", 232); ("multiShotFraming", 233); ("frameRate", 234);
  ("automaticWiFiAccessPoint", 236); ("autoPowerOnUsb", 237)].

Definition WebcamResolution : list (text * Z) := numbered [
  ("notApplicable", 0); ("res480", 4); ("res720", 7); ("res1080", 12)].

Definition WebcamFOV : list (text * Z) := numbered [
  ("wide", 0); ("narrow", 2); ("superview", 3); ("linear", 4)].

Definition WebcamProtocol : list (text * text) := coded [
  ("ts", "TS"); ("rtsp", "RTSP")].

Definition WebcamStatus : list (text * Z) := numbered [
  ("off", 0); ("idle", 1); ("highPowerPreview", 2); ("lowPowerPreview", 3)].

Definition WebcamError : list (text * Z) := numbered [
  ("success", 0); ("setPreset", 1); ("setWindowSize", 2); ("execStream", 3); ("shutter", 4); ("comTimeout", 5);
  ("invalidParam", 6); ("unavailable", 7); ("exit", 8)].

Local Close Scope string_scope.

Definition generated : list (list (text * Z) * list (text * Z)) :=
  [(py_ErrorCode, ErrorCode);
   (py_CmdId, CmdId);
   (py_ActionId, ActionId);
   (py_FeatureId, FeatureId);
   (py_QueryCmdId, QueryCmdId);
   (py_Toggle, Toggle);
   (py_LED_SPECIAL, LedSpecial);
   (py_CameraControl, CameraControl);
   (py_StatusId, StatusId);
   (py_SettingId, SettingId);
   (py_WebcamResolution, WebcamResolution);
   (py_WebcamFOV, WebcamFOV);
   (py_WebcamStatus, WebcamStatus);
   (py_WebcamError, WebcamError)].

(** The generated enums are what the generator makes of the upstream ones. *)
Theorem generated_up_to_date :
  Forall (fun p => emit_enum p.1 = Some p.2) generated /\
  emit_enum py_WebcamProtocol = Some WebcamProtocol.
Proof.
  split; [|vm_compute; reflexivity].
  assert (forallb (fun p => bool_decide (emit_enum p.1 = Some p.2)) generated = true) as H by (vm_compute; reflexivity).
  rewrite forallb_forall in H. apply Forall_forall. intros p Hp%list_elem_of_In.
  specialize (H p Hp). by apply bool_decide_eq_true in H.
Qed.

(** So [fromValue] inverts [value] in each of them. *)
Theorem generated_roundtrip p v n :
  p ∈ generated -> fromValue p.2 v = Some n <-> (n, v) ∈ p.2.
Proof.
  intros Hp. destruct generated_up_to_date as [H _]. rewrite Forall_forall in H.
  pose proof (emitted_enum p.1) as He. rewrite (H p Hp) in He. apply He.
Qed.

Lemma generated_roundtrip_witness :
  fromValue StatusId 82 = Some (chars "ready") /\ (chars "ready", 82) ∈ StatusId.
Proof.
  assert (fromValue StatusId 82 = Some (chars "ready")) as E by (vm_compute; reflexivity). split; [exact E|].
  refine (proj1 (generated_roundtrip (py_StatusId, StatusId) 82 (chars "ready") _) E).
  do 8 right. left.
Defined.

(** ** What modelling showed *)

(** The generator takes a member whose Dart name is the field every generated enum
    declares, so what it emits is not Dart. *)
Example member_named_value :
  emit_enum (numbered [("VALUE", 0)]%string) = Some (numbered [("value", 0)]%string).
Proof. vm_compute. reflexivity. Qed.

(** What the generator refuses: two spellings of one name, as the wireless band has
    upstream in two enums, or an alias. *)
Example one_name_twice :
  emit_enum (numbered [("NUM_2_4_GHZ", 0); ("NUM_2_4GHZ", 1)]%string) = None /\
  emit_enum (numbered [("CANCELLED", 3); ("CANCELED", 3)]%string) = None /\
  to_lower_camel (chars "NUM_2_4GHZ") = Some (chars "num24Ghz").
Proof. vm_compute. done. Qed.
