(* ===== verification/HttpCommands.v ===== *)
(** * The HTTP commands
    ([lib/src/http/commands.dart], and the table it reads,
    [lib/src/generated/http_commands.dart])

    A [Command] is a call of one of the methods of [GoProCommands] with its
    arguments; [invocation] is the name, the values and the kind of exchange its
    body passes on.  What the table declares and what the methods pass are written
    independently in the source; the theorem is that they agree. *)

From stdpp Require Import strings.
From S2P Require Import Prelude GlazeMeta GoproUsb HttpMessage.
Local Open Scope Z_scope.

(** [kHttpMessages], in the order of the table. *)
Definition kHttpMessages : list HttpMessage :=
  [
   mkHttpMessage "add_file_hilight" "gopro/media/hilight/file"
     get json [] ["path"; "ms"] [] never;
   mkHttpMessage "delete_all_media" "/gp/gpControl/command/storage/delete/all"
     get json [] [] [] never;
   mkHttpMessage "delete_file" "gopro/media/delete/file"
     get json [] ["path"] [] never;
   mkHttpMessage "delete_group" "/gp/gpControl/command/storage/delete/group"
     get json [] ["p"] [] never;
   mkHttpMessage "download_file" "videos/DCIM"
     get binary ["path"] [] [] never;
   mkHttpMessage "get_camera_info" "gopro/camera/info"
     get json [] [] [] never;
   mkHttpMessage "get_camera_name" "gopro/camera/name"
     get json [] [] [] never;
   mkHttpMessage "get_camera_state" "gopro/camera/state"
     get json [] [] [] always;
   mkHttpMessage "get_date_time" "gopro/camera/get_date_time"
     get json [] [] [] never;
   mkHttpMessage "get_gpmf_data" "gopro/media/gpmf"
     get binary [] ["path"] [] never;
   mkHttpMessage "get_last_captured_media" "gopro/media/last_captured"
     get json [] [] [] never;
   mkHttpMessage "get_media_list" "gopro/media/list"
     get json [] [] [] never;
   mkHttpMessage "get_media_metadata" "gopro/media/info"
     get json [] ["path"] [] never;
   mkHttpMessage "get_open_gopro_api_version" "gopro/version"
     get json [] [] [] never;
   mkHttpMessage "get_preset_status" "gopro/camera/presets/get"
     get json [] ["include-hidden"] [] never;
   mkHttpMessage "get_screennail" "gopro/media/screennail"
     get binary [] ["path"] [] never;
   mkHttpMessage "get_telemetry" "gopro/media/telemetry"
     get binary [] ["path"] [] never;
   mkHttpMessage "get_thumbnail" "gopro/media/thumbnail"
     get binary [] ["path"] [] never;
   mkHttpMessage "get_webcam_version" "gopro/webcam/version"
     get json [] [] [] never;
   mkHttpMessage "load_preset" "gopro/camera/presets/load"
     get json [] ["id"] [] never;
   mkHttpMessage "load_preset_group" "gopro/camera/presets/set_group"
     get json [] ["id"] [] never;
   mkHttpMessage "reboot" "gp/gpControl/command/system/reset"
     get json [] [] [] always;
   mkHttpMessage "remove_file_hilight" "gopro/media/hilight/remove"
     get json [] ["path"; "ms"] [] never;
   mkHttpMessage "set_camera_control" "gopro/camera/control/set_ui_controller"
     get json [] ["p"] [] never;
   mkHttpMessage "set_camera_name" "gopro/camera/name"
     put json [] [] ["value"] never;
   mkHttpMessage "set_date_time" "gopro/camera/set_date_time"
     get json [] ["date"; "time"; "tzone"; "dst"] [] never;
   mkHttpMessage "set_digital_zoom" "gopro/camera/digital_zoom"
     get json [] ["percent"] [] never;
   mkHttpMessage "set_keep_alive" "gopro/camera/keep_alive"
     get json [] [] [] never;
   mkHttpMessage "set_preset_visibility" "gopro/camera/presets/set_visibility"
     get json [] ["id"; "visible"] [] never;
   mkHttpMessage "set_preview_stream" "gopro/camera/stream"
     get json ["mode"] ["port"] [] never;
   mkHttpMessage "set_shutter" "gopro/camera/shutter"
     get json ["mode"] [] [] conditional;
   mkHttpMessage "set_third_party_client_info" "gopro/camera/analytics/set_client_info"
     get json [] [] [] never;
   mkHttpMessage "set_turbo_mode" "gopro/media/turbo_transfer"
     get json [] ["p"] [] never;
   mkHttpMessage "update_custom_preset" "gopro/camera/presets/update_custom"
     put json [] [] ["custom_name"; "icon_id"; "title_id"] never;
   mkHttpMessage "webcam_exit" "gopro/webcam/exit"
     get json [] [] [] always;
   mkHttpMessage "webcam_preview" "gopro/webcam/preview"
     get json [] [] [] always;
   mkHttpMessage "webcam_start" "gopro/webcam/start"
     get json [] ["res"; "fov"; "port"; "protocol"] [] always;
   mkHttpMessage "webcam_status" "gopro/webcam/status"
     get json [] [] [] always;
   mkHttpMessage "webcam_stop" "gopro/webcam/stop"
     get json [] [] [] always;
   mkHttpMessage "wired_usb_control" "gopro/camera/control/wired_usb"
     get json [] ["p"] [] never
  ].

(** [_m]; [None] is the [StateError]. *)
Definition message_named (n : string) : option HttpMessage :=
  List.find (fun m => String.eqb (name m) n) kHttpMessages.

(** ** The methods *)

Inductive Toggle := enable | disable.
Definition Toggle_value (t : Toggle) : Z := match t with enable => 1 | disable => 0 end.

Inductive CameraControl := idle | camera | external.
Definition CameraControl_value (m : CameraControl) : Z := match m with idle => 0 | camera => 1 | external => 2 end.

Inductive Command :=
| getCameraState | getCameraInfo | getApiVersion | getCameraName
| setCameraName (name : string)
| keepAlive | reboot | setThirdPartyClientInfo
| setCameraControl (mode : CameraControl)
| setWiredUsbControl (control : Toggle)
| setDigitalZoom (percent : Z)
| setShutter (shutter : Toggle)
| setDateTime (year month day hour minute second tzOffset : Z) (isDst : bool)
| getDateTime
| getPresetStatus (includeHidden : bool)
| loadPreset (preset : Z)
| loadPresetGroup (group : Z)
| setPresetVisibility (presetId : Z) (visible : bool)
| updateCustomPreset (iconId : option Z) (titleId : option Value) (customName : option string)
| getMediaList
| getMediaMetadata (path : string)
| getLastCapturedMedia
| deleteFile (path : string)
| deleteGroup (firstFileInGroup : string)
| deleteAllMedia
| addHilight (file : string) (offsetMs : option Z)
| removeHilight (file : string) (offsetMs : Z)
| setTurboTransfer (mode : Toggle)
| downloadFile (cameraFile : string)
| downloadThumbnail (cameraFile : string)
| downloadScreennail (cameraFile : string)
| downloadGpmf (cameraFile : string)
| downloadTelemetry (cameraFile : string)
| setPreviewStream (mode : Toggle) (port : option Z)
| webcamStart (resolution fov port : option Z) (protocol : option string)
| webcamStop | webcamExit | webcamPreview | webcamStatus
| getWebcamVersion.

(** [_json] and [_binary] with their arguments. *)
Record Invocation := mkInvocation {
  message : string;
  passed : values;
  kind : HttpResponseKind;
}.

Definition _json (n : string) (vs : values) : Invocation := mkInvocation n vs json.
Definition _binary (n : string) (vs : values) : Invocation := mkInvocation n vs binary.

Definition int (z : Z) : option Value := Some (VInt z).
Definition str (s : string) : option Value := Some (VString s).

Definition underscored (a b c : Z) : string :=
  String.string_of_list_ascii
    (toString (VInt a) ++ chars "_" ++ toString (VInt b) ++ chars "_" ++ toString (VInt c)).

Definition start_stop (t : Toggle) : string := match t with enable => "start" | disable => "stop" end.

Definition one_zero (b : bool) : option Value := int (if b then 1 else 0).

Definition invocation (c : Command) : Invocation :=
  match c with
  | getCameraState => _json "get_camera_state" []
  | getCameraInfo => _json "get_camera_info" []
  | getApiVersion => _json "get_open_gopro_api_version" []
  | getCameraName => _json "get_camera_name" []
  | setCameraName name => _json "set_camera_name" [("value", str name)]
  | keepAlive => _json "set_keep_alive" []
  | reboot => _json "reboot" []
  | setThirdPartyClientInfo => _json "set_third_party_client_info" []
  | setCameraControl mode => _json "set_camera_control" [("p", int (CameraControl_value mode))]
  | setWiredUsbControl control => _json "wired_usb_control" [("p", int (Toggle_value control))]
  | setDigitalZoom percent => _json "set_digital_zoom" [("percent", int percent)]
  | setShutter shutter => _json "set_shutter" [("mode", str (start_stop shutter))]
  | setDateTime y mo d h mi s tz isDst =>
      _json "set_date_time" [("date", str (underscored y mo d)); ("time", str (underscored h mi s));
                             ("tzone", int tz); ("dst", one_zero isDst)]
  | getDateTime => _json "get_date_time" []
  | getPresetStatus includeHidden => _json "get_preset_status" [("include-hidden", one_zero includeHidden)]
  | loadPreset preset => _json "load_preset" [("id", int preset)]
  | loadPresetGroup group => _json "load_preset_group" [("id", int group)]
  | setPresetVisibility presetId visible =>
      _json "set_preset_visibility" [("id", int presetId); ("visible", one_zero visible)]
  | updateCustomPreset iconId titleId customName =>
      _json "update_custom_preset" [("icon_id", VInt <$> iconId); ("title_id", titleId);
                                    ("custom_name", VString <$> customName)]
  | getMediaList => _json "get_media_list" []
  | getMediaMetadata path => _json "get_media_metadata" [("path", str path)]
  | getLastCapturedMedia => _json "get_last_captured_media" []
  | deleteFile path => _json "delete_file" [("path", str path)]
  | deleteGroup first => _json "delete_group" [("p", str first)]
  | deleteAllMedia => _json "delete_all_media" []
  | addHilight file offsetMs => _json "add_file_hilight" [("path", str file); ("ms", VInt <$> offsetMs)]
  | removeHilight file offsetMs => _json "remove_file_hilight" [("path", str file); ("ms", int offsetMs)]
  | setTurboTransfer mode => _json "set_turbo_mode" [("p", int (Toggle_value mode))]
  | downloadFile f => _binary "download_file" [("path", str f)]
  | downloadThumbnail f => _binary "get_thumbnail" [("path", str f)]
  | downloadScreennail f => _binary "get_screennail" [("path", str f)]
  | downloadGpmf f => _binary "get_gpmf_data" [("path", str f)]
  | downloadTelemetry f => _binary "get_telemetry" [("path", str f)]
  | setPreviewStream mode port => _json "set_preview_stream" [("mode", str (start_stop mode)); ("port", VInt <$> port)]
  | webcamStart resolution fov port protocol =>
      _json "webcam_start" [("res", VInt <$> resolution); ("fov", VInt <$> fov); ("port", VInt <$> port);
                            ("protocol", VString <$> protocol)]
  | webcamStop => _json "webcam_stop" []
  | webcamExit => _json "webcam_exit" []
  | webcamPreview => _json "webcam_preview" []
  | webcamStatus => _json "webcam_status" []
  | getWebcamVersion => _json "get_webcam_version" []
  end.

Definition shutterIsFastpass (shutter : Toggle) : bool := match shutter with disable => true | enable => false end.

(** ** Properties *)

(** The arguments of a call that are not null. *)
Definition given (vs : values) : list (string * Value) :=
  omap (fun x => v ← x.2; Some (x.1, v)) vs.

(** The methods and the table agree.  Every method finds its message, of the
    kind it expects; the URL can always be built; and every argument it is given
    goes out, once, as a path component, in the query or in the body: none is
    silently dropped for a name the table does not declare. *)
Theorem commands_declared c :
  let i := invocation c in
  exists m, message_named (message i) = Some m /\ response m = kind i /\
    is_Some (url m (passed i)) /\
    supplied (components m) (passed i) ++ supplied (arguments m) (passed i) ++ body m (passed i) ≡ₚ
      given (passed i) /\
    (method m = put \/ bodyArguments m = []).
Proof.
  assert (forall m vs, Forall (fun c => lookup_value c vs <> None) (components m) -> is_Some (url m vs)) as Hurl.
  { intros m vs H. unfold url. destruct (component_segments (components m) vs) as [l|] eqn:E; [by eexists|].
    apply component_segments_None in E as (x & Hx & Hn). rewrite Forall_forall in H. by apply H in Hx. }
  destruct c; cbv zeta; eexists; (split; [reflexivity|]); (split; [reflexivity|]);
    (split; [apply Hurl; repeat constructor; discriminate|]); (split; [|first [by right | by left]]);
    repeat match goal with o : option _ |- _ => destruct o end; try reflexivity.
  (* the body of [updateCustomPreset] is in another order *)
  - exact (Permutation_app_comm [_] [_; _]).
  - exact (Permutation_app_comm [_] [_]).
  - exact (Permutation_app_comm [_] [_]).
Qed.
