(* ===== verification/GoproHttp.v ===== *)
(** * The HTTP transport
    ([lib/src/http/gopro_http.dart])

    [json] is a function of what the exchange came to.  [download] is a state
    machine: its state is what the Dart function keeps between [await]s together
    with the destination file, an event is what the world does next at some time,
    in milliseconds, and [step] is the code that runs until the next [await].  The
    stall timer fires only when it is armed and due.  A file is its contents, or
    absent; what a sink was given reaches the file when the sink closes, all of it
    unless the close fails.  Every call on the file system may fail, and
    [onProgress] may throw.  Sockets, the JSON grammar and the text of faults are
    outside; [jsonDecode] is a parameter. *)

From stdpp Require Import strings.
From S2P Require Import Prelude GlazeMeta GoproUsb HttpMessage.
Local Open Scope Z_scope.

(** ** JSON exchanges *)

(** What [run().timeout(deadline)] ends with. *)
Inductive exchange_end :=
| Answered (statusCode : Z) (reasonPhrase text : string)
| DeadlinePassed
| Unreachable.

Inductive json_result {Json : Type} :=
| Decoded (m : list (string * Json))
| MissingComponent                                     (** [ArgumentError] of [url] *)
| NotJson                                              (** [ArgumentError] *)
| Refused (statusCode : Z) (reason body : string)      (** [GoProHttpException] *)
| TimedOut
| IoFailed
| Malformed.                                           (** [FormatException] *)
Arguments json_result : clear implicits.

Definition trim_left (l : text) : text :=
  (fix go l := match l with
               | c :: t => if (char_byte c =? 32) || ((9 <=? char_byte c) && (char_byte c <=? 13)) then go t else l
               | [] => []
               end) l.

(** [String.trim], of the white space that is one byte. *)
Definition trim (l : text) : text := rev (trim_left (rev (trim_left l))).

(** The ellipsis is three bytes of UTF-8. *)
Definition ellipsis : text := [byte_char 226; byte_char 128; byte_char 166].

Definition truncate (s : string) : string :=
  let l := chars s in
  String.string_of_list_ascii
    (if (length l <=? 512)%nat then trim l else trim (firstn 512 l) ++ ellipsis).

Section json.
Context {Json : Type}.

(** [Some (inl m)]: a map; [Some (inr v)]: another value. *)
Variable jsonDecode : string -> option (list (string * Json) + Json).

Definition success (statusCode : Z) : bool := (200 <=? statusCode) && (statusCode <? 300).

(** [_exchange], once the world has answered. *)
Definition exchange (e : exchange_end) : string + json_result Json :=
  match e with
  | Answered status reason text =>
      if success status then inl text else inr (Refused status reason (truncate text))
  | DeadlinePassed => inr TimedOut
  | Unreachable => inr IoFailed
  end.

(** [GoProHttp.json].  With the deadline zero there is no timer. *)
Definition json_request (m : HttpMessage) (vs : values) (e : exchange_end) : json_result Json :=
  if bool_decide (response m = binary) then NotJson
  else
    match url m vs with
    | None => MissingComponent
    | Some _ =>
        match exchange e with
        | inr r => r
        | inl body =>
            if empty body then Decoded []
            else
              match jsonDecode body with
              | None => Malformed
              | Some (inl m) => Decoded m
              | Some (inr v) => Decoded [("value", v)]
              end
        end
    end.
End json.

(** ** Downloads *)

Inductive download_error :=
| RequestFailed                                        (** [getUrl] or [close] of the request *)
| BadStatus (statusCode : Z)                           (** [GoProHttpException] *)
| Stalled (received : nat)                             (** [GoProStalledException] *)
| StreamFailed                                         (** an error of the response *)
| CallbackFailed                                       (** what [onProgress] threw *)
| CreateFailed                                         (** an error of [parent.create] *)
| OpenFailed                                           (** [sink.close], of a file that could not be opened *)
| SinkFailed                                           (** an error of [sink.close] *)
| DeleteFailed                                         (** an error of [exists] or [delete] *)
| Truncated (received : nat).                          (** [GoProHttpException] *)

(** Where [download] is suspended. *)
Inductive phase :=
| Requesting                          (** [getUrl], [request.close] *)
| ReadingError (statusCode : Z)       (** the body of a refusal *)
| Creating                            (** [parent.create] *)
| Streaming                           (** [Future.any] *)
| Abandoning (e : download_error)     (** [sink.close] in the [catch] *)
| Finishing                           (** [sink.close] after the loop *)
| Looking (e : download_error)        (** [destination.exists], to throw [e] *)
| Deleting (e : download_error)       (** [destination.delete], to throw [e] *)
| Ended (r : option download_error).  (** [None]: the file is returned *)

Record download := mkDownload {
  at_phase : phase;
  total : option nat;
  received : nat;
  sink : list Z;            (** what [sink.add] was given *)
  opened : bool;            (** [openWrite] could open the file *)
  file : option (list Z);   (** the destination *)
  stall : option Z;         (** when the timer is due *)
  progress : list nat;      (** the calls of [onProgress] *)
}.

Inductive event :=
| Headers (statusCode : Z) (contentLength : Z)
| RequestError
| ErrorBody
| ParentCreated (r : option bool)      (** [None]: it threw; else whether the file opens *)
| Chunk (data : list Z) (threw : bool) (** and whether [onProgress] throws *)
| EndOfStream
| StreamError
| TimerFires
| SinkClosed (written : option nat)    (** [Some n]: it failed with [n] bytes written *)
| ExistsAnswered (threw : bool)
| DeleteEnded (threw : bool).

Section download.

(** [stallTimeout]. *)
Variable stallTimeout : Z.

Definition arm (now : Z) : option Z := if stallTimeout =? 0 then None else Some (now + stallTimeout).

Definition download_init (f : option (list Z)) : download := mkDownload Requesting None 0 [] false f None [].

Definition set_phase (p : phase) (d : download) : download :=
  mkDownload p (total d) (received d) (sink d) (opened d) (file d) (stall d) (progress d).

Definition set_file (f : option (list Z)) (d : download) : download :=
  mkDownload (at_phase d) (total d) (received d) (sink d) (opened d) f (stall d) (progress d).

(** [stall?.cancel()]. *)
Definition cancel (d : download) : download :=
  mkDownload (at_phase d) (total d) (received d) (sink d) (opened d) (file d) None (progress d).

(** [catch (_)], up to its [await]. *)
Definition to_catch (e : download_error) (d : download) : download := set_phase (Abandoning e) (cancel d).

(** One turn of the [await for]; [now] is when it arms the timer. *)
Definition pump (now : Z) (data : list Z) (d : download) : download :=
  let received := (received d + length data)%nat in
  mkDownload (at_phase d) (total d) received (sink d ++ data) (opened d) (file d) (arm now) (progress d ++ [received]).

(** [await sink.close()]: what it leaves, and what it throws. *)
Definition close_sink (w : option nat) (d : download) : download * option download_error :=
  if opened d then
    match w with
    | None => (set_file (Some (sink d)) d, None)
    | Some n => (set_file (Some (firstn n (sink d))) d, Some SinkFailed)
    end
  else (d, Some OpenFailed).

(** A loop given up for stalling still runs, until [sink.add] throws on the closed
    sink; nobody reads [received] again. *)
Definition still_pumps (e : download_error) : bool := match e with Stalled _ => true | _ => false end.

(** [None]: the event cannot happen now. *)
Definition step (now : Z) (d : download) (e : event) : option download :=
  match at_phase d, e with
  | Requesting, Headers status contentLength =>
      if success status then
        Some (mkDownload Creating (if contentLength <? 0 then None else Some (Z.to_nat contentLength)) 0 [] false
                (file d) None [])
      else Some (set_phase (ReadingError status) d)
  | Requesting, RequestError => Some (set_phase (Ended (Some RequestFailed)) d)
  | ReadingError status, ErrorBody => Some (set_phase (Ended (Some (BadStatus status))) d)
  | ReadingError _, StreamError => Some (set_phase (Ended (Some StreamFailed)) d)
  | Creating, ParentCreated None => Some (set_phase (Ended (Some CreateFailed)) d)
  | Creating, ParentCreated (Some opens) =>
      (* [openWrite] truncates the destination, if it can; an error waits for [sink.close] *)
      Some (mkDownload Streaming (total d) 0 [] opens (if opens then Some [] else file d) (arm now) [])
  | Streaming, Chunk data threw =>
      let d := pump now data d in Some (if threw then to_catch CallbackFailed d else d)
  | Streaming, EndOfStream => Some (set_phase Finishing (cancel d))
  | Streaming, StreamError => Some (to_catch StreamFailed d)
  | Streaming, TimerFires =>
      match stall d with
      | Some due => if due <=? now then Some (to_catch (Stalled (received d)) d) else None
      | None => None
      end
  | (Abandoning e | Looking e | Deleting e), (Chunk _ _ | EndOfStream | StreamError) =>
      if still_pumps e then Some d else None
  | Abandoning e, SinkClosed w =>
      let '(d, threw) := close_sink w d in
      Some (set_phase (match threw with Some e' => Ended (Some e') | None => Looking e end) d)
  | Finishing, SinkClosed w =>
      let '(d, threw) := close_sink w d in
      Some (set_phase
              (match threw with
               | Some e' => Ended (Some e')
               | None =>
                   match total d with
                   | Some n => if (received d =? n)%nat then Ended None else Looking (Truncated (received d))
                   | None => Ended None
                   end
               end) d)
  | Looking e, ExistsAnswered threw =>
      Some (set_phase
              (if threw then Ended (Some DeleteFailed)
               else match file d with Some _ => Deleting e | None => Ended (Some e) end) d)
  | Deleting e, DeleteEnded threw =>
      Some (if threw then set_phase (Ended (Some DeleteFailed)) d
            else set_phase (Ended (Some e)) (set_file None d))
  | _, _ => None
  end.

Fixpoint run (d : download) (es : list (Z * event)) : option download :=
  match es with
  | [] => Some d
  | (now, e) :: es => d ← step now d e; run d es
  end.

(** The bytes of the chunks that arrived, and when the file was opened or
    something last arrived. *)
Definition chunk_bytes (es : list (Z * event)) : list Z :=
  concat ((fun x => match x.2 with Chunk data _ => data | _ => [] end) <$> es).

Definition arrivals (es : list (Z * event)) : list Z :=
  omap (fun x => match x.2 with ParentCreated _ | Chunk _ _ => Some x.1 | _ => None end) es.

(** ** Lemmas *)

Lemma run_snoc es now e : forall d, run d (es ++ [(now, e)]) = d' ← run d es; step now d' e.
Proof.
  induction es as [|[t x] es IH]; intros d; cbn.
  { by destruct (step now d e). }
  destruct (step t d x); cbn; [|done]. apply IH.
Qed.

(** What the caller finds of the destination when [download] ends with [r]. *)
Definition outcome (f : option (list Z)) (arrived : list Z) (d : download) (r : option download_error) : Prop :=
  match r with
  | None => file d = Some arrived /\ (forall n, total d = Some n -> length arrived = n)
  | Some (RequestFailed | BadStatus _ | CreateFailed | OpenFailed) => file d = f
  | Some (Stalled _ | Truncated _ | CallbackFailed) => file d = None
  | Some StreamFailed => file d = None \/ (file d = f /\ arrived = [])
  | Some (SinkFailed | DeleteFailed) => exists w, file d = Some w /\ w `prefix_of` arrived
  end.

(** The errors the [catch] and the truncation check throw again. *)
Definition rethrown (e : download_error) : Prop :=
  match e with Stalled _ | Truncated _ | CallbackFailed | StreamFailed => True | _ => False end.

(** What has become of the bytes that arrived, in each phase. *)
Definition owes (f : option (list Z)) (arrived : list Z) (d : download) : Prop :=
  match at_phase d with
  | Requesting | ReadingError _ | Creating => file d = f /\ sink d = [] /\ arrived = []
  | Streaming | Finishing => sink d = arrived /\ (opened d = false -> file d = f)
  | Abandoning e => sink d `prefix_of` arrived /\ (opened d = false -> file d = f) /\ rethrown e
  | Looking e | Deleting e => (exists w, file d = Some w /\ w `prefix_of` arrived) /\ rethrown e
  | Ended r => outcome f arrived d r
  end.

(** What a download has to show for the events so far. *)
Record accounted (f : option (list Z)) (es : list (Z * event)) (d : download) : Prop := {
  acc_received : received d = length (sink d);
  acc_phase : owes f (chunk_bytes es) d;
  acc_timer : stall d = match at_phase d with
                        | Streaming => if stallTimeout =? 0 then None
                                       else (fun t => t + stallTimeout) <$> last (arrivals es)
                        | _ => None
                        end;
  acc_arrived : at_phase d = Streaming -> is_Some (last (arrivals es));
}.

Lemma chunk_bytes_snoc es now e :
  chunk_bytes (es ++ [(now, e)]) = chunk_bytes es ++ match e with Chunk data _ => data | _ => [] end.
Proof. unfold chunk_bytes. rewrite fmap_app, concat_app. cbn. by rewrite app_nil_r. Qed.

Lemma arrivals_snoc es now e :
  arrivals (es ++ [(now, e)]) = arrivals es ++ match e with ParentCreated _ | Chunk _ _ => [now] | _ => [] end.
Proof. unfold arrivals. rewrite omap_app. by destruct e. Qed.

(** Out of the loop there is no timer. *)
Lemma accounted_quiet f es now e d :
  at_phase d <> Streaming -> received d = length (sink d) -> stall d = None ->
  owes f (chunk_bytes es ++ match e with Chunk data _ => data | _ => [] end) d ->
  accounted f (es ++ [(now, e)]) d.
Proof.
  intros Hs Hr Ht Hp. split; rewrite ?chunk_bytes_snoc; [done|done| |done]. rewrite Ht. by destruct (at_phase d).
Qed.

Lemma owes_more f arrived more e d :
  at_phase d = Abandoning e \/ at_phase d = Looking e \/ at_phase d = Deleting e ->
  owes f arrived d -> owes f (arrived ++ more) d.
Proof.
  assert (forall w, w `prefix_of` arrived -> w `prefix_of` arrived ++ more) as Hm by (intros; by apply prefix_app_r).
  unfold owes. intros [-> | [-> | ->]]; naive_solver.
Qed.

Lemma close_sink_cases f es w d d' threw :
  close_sink w d = (d', threw) -> sink d `prefix_of` chunk_bytes es -> (opened d = false -> file d = f) ->
  received d' = received d /\ sink d' = sink d /\ total d' = total d /\ stall d' = stall d /\
  match threw with
  | None => file d' = Some (sink d)
  | Some e => outcome f (chunk_bytes es) d' (Some e)
  end.
Proof.
  unfold close_sink. intros E Hpre Ho. destruct (opened d); [destruct w as [n|]|]; injection E as <- <-;
    split_and!; try done; cbn; [|by apply Ho].
  eexists. split; [done|]. etransitivity; [apply prefix_take|exact Hpre].
Qed.

Lemma accounted_step f es now d e d' :
  accounted f es d -> step now d e = Some d' -> accounted f (es ++ [(now, e)]) d'.
Proof.
  intros [H1 Ho H3 H4] E. pose proof Ho as H2. unfold step in E. unfold owes in H2.
  destruct (at_phase d) as [|status| | |er| |er|er|r] eqn:Ep;
    destruct e as [st cl| | |[opens|]|data threw| | | |w|threw|threw]; try done.
  (* a stalled loop still running *)
  all: try (destruct (still_pumps er); [|done]; injection E as <-; apply accounted_quiet; rewrite ?Ep;
    [done..|by eapply owes_more; [rewrite Ep; eauto|]]).
  (* a phase that passes to the next *)
  all: try (injection E as <-; apply accounted_quiet; unfold owes; cbn; rewrite ?app_nil_r; naive_solver).
  - destruct (success st); injection E as <-; apply accounted_quiet; unfold owes; cbn; rewrite ?app_nil_r; naive_solver.
  - destruct H2 as (Hf & Hs & Hc). injection E as <-. split; cbn; rewrite ?chunk_bytes_snoc, ?arrivals_snoc, ?last_snoc, ?Hc; try done.
    unfold owes. cbn. split; [done|]. by intros ->.
  - destruct H2 as [Hs Hf]. destruct threw; injection E as <-.
    + apply accounted_quiet; unfold owes; cbn; rewrite ?length_app; [done|by rewrite H1|done|]. by rewrite Hs.
    + split; cbn; rewrite ?Ep, ?chunk_bytes_snoc, ?arrivals_snoc, ?last_snoc, ?length_app; try done; [by rewrite H1|].
      unfold owes. cbn. rewrite Ep. by rewrite Hs.
  - destruct H2 as [Hs Hf]. injection E as <-. apply accounted_quiet; unfold owes; cbn; rewrite ?app_nil_r; try done.
    by rewrite Hs.
  - destruct H2 as [Hs Hf]. destruct (stall d); [|done]. destruct (_ <=? now); [|done]. injection E as <-.
    apply accounted_quiet; unfold owes; cbn; rewrite ?app_nil_r; try done. by rewrite Hs.
  - destruct H2 as (Hs & Hf & He). destruct (close_sink w d) as [d1 thr] eqn:Ec.
    destruct (close_sink_cases f es w d d1 thr Ec Hs Hf) as (Hr & Hk & Ht & Hst & Hc). injection E as <-.
    apply accounted_quiet; unfold owes; cbn; rewrite ?app_nil_r; [by destruct thr|congruence|congruence|].
    destruct thr as [e|]; [exact Hc|]. eauto.
  - destruct H2 as (Hs & Hf). destruct (close_sink w d) as [d1 thr] eqn:Ec.
    destruct (close_sink_cases f es w d d1 thr Ec) as (Hr & Hk & Ht & Hst & Hc); [by rewrite Hs|done|]. injection E as <-.
    apply accounted_quiet; unfold owes; cbn; rewrite ?app_nil_r; [by repeat case_match|congruence|congruence|].
    destruct thr as [e|]; [exact Hc|]. rewrite Hs in Hc. destruct (total d1) as [n|] eqn:Et; [|cbn; split; [done|congruence]].
    destruct (received d1 =? n)%nat eqn:En; [|cbn; eauto].
    apply Nat.eqb_eq in En. cbn. split; [done|]. intros n' E'. rewrite Et in E'. injection E' as <-. congruence.
  - destruct H2 as [(w & Hw & Hpre) He]. rewrite Hw in E. injection E as <-.
    apply accounted_quiet; unfold owes; cbn; rewrite ?app_nil_r; try done; destruct threw; cbn; eauto.
  - destruct H2 as [(w & Hw & Hpre) He]. destruct threw; injection E as <-;
      apply accounted_quiet; unfold owes; cbn; rewrite ?app_nil_r; try done; [by eauto|]. destruct er; try done. by left.
Qed.

Lemma accounted_run f es : forall d, run (download_init f) es = Some d -> accounted f es d.
Proof.
  induction es as [|[now e] es IH] using rev_ind; intros d E.
  - injection E as <-. by split.
  - rewrite run_snoc in E. destruct (run _ es) as [d0|]; [|done]. eapply accounted_step; [by apply IH|exact E].
Qed.

(** ** Properties *)

(** C34: a download is all or nothing, unless the disk fails.  If it succeeds the
    file holds exactly the bytes that arrived, in order, and as many as were
    declared; refused, never answered, or with a file that cannot be made, the
    destination is as it was; stalled, broken off, given up by [onProgress] or
    short of what was declared, there is no file.  Only a sink that fails to close
    or a file that cannot be deleted leaves what was written: a beginning of what
    arrived. *)
Theorem download_atomic f es d r :
  run (download_init f) es = Some d -> at_phase d = Ended r ->
  match r with
  | None => file d = Some (chunk_bytes es) /\ (forall n, total d = Some n -> length (chunk_bytes es) = n)
  | Some (RequestFailed | BadStatus _ | CreateFailed | OpenFailed) => file d = f
  | Some (Stalled _ | Truncated _ | CallbackFailed) => file d = None
  | Some StreamFailed => file d = None \/ (file d = f /\ chunk_bytes es = [])
  | Some (SinkFailed | DeleteFailed) => exists w, file d = Some w /\ w `prefix_of` chunk_bytes es
  end.
Proof. intros E Hp. pose proof (acc_phase f es d (accounted_run f es d E)) as H. unfold owes in H. by rewrite Hp in H. Qed.

(** The stall timer.  However long a transfer takes, it is abandoned only when
    [stallTimeout] has passed since the file was opened and since the last chunk,
    and then it can be; with the timeout zero never.  Before the headers have come
    there is no deadline. *)
Theorem stalls_when_idle f es d now :
  run (download_init f) es = Some d ->
  (is_Some (step now d TimerFires) <->
   at_phase d = Streaming /\ stallTimeout <> 0 /\
   exists t, last (arrivals es) = Some t /\ t + stallTimeout <= now) /\
  (forall d', step now d TimerFires = Some d' -> at_phase d' = Abandoning (Stalled (length (chunk_bytes es)))).
Proof.
  intros E. destruct (accounted_run f es d E) as [H1 H2 H3 H4]. unfold owes in H2. unfold step. split.
  - destruct (at_phase d) eqn:Ep; try (split; [by intros [? ?] | by intros (? & _)]).
    rewrite H3. destruct (stallTimeout =? 0) eqn:Es; to_prop.
    { split; [by intros [? ?] | by intros (_ & ? & _)]. }
    destruct (H4 eq_refl) as [t Ht]. rewrite Ht. cbn. split.
    + destruct (_ <=? now) eqn:El; to_prop; [|by intros [? ?]]. intros _. split_and!; [done..|]. by exists t.
    + intros (_ & _ & t' & [= <-] & Hle). apply Z.leb_le in Hle. rewrite Hle. by eexists.
  - intros d'. destruct (at_phase d) eqn:Ep; try done. destruct (stall d); [|done]. destruct (_ <=? now); [|done].
    intros [= <-]. cbn. destruct H2 as [H2 _]. by rewrite H1, H2.
Qed.
End download.

(** Six of seven bytes arrive, slowly but steadily. *)
Definition slow : list (Z * event) :=
  [(0, Headers 200 7); (1, ParentCreated (Some true)); (25000, Chunk [1; 2; 3] false); (50000, Chunk [4] false);
   (79000, Chunk [5; 6] false)].

Definition ends_truncated : list (Z * event) :=
  slow ++ [(79001, EndOfStream); (79002, SinkClosed None); (79003, ExistsAnswered false); (79004, DeleteEnded false)].

Lemma download_atomic_witness :
  match run 30000 (download_init (Some [9])) ends_truncated with
  | Some d => at_phase d = Ended (Some (Truncated 6)) /\ file d = None
  | None => False
  end.
Proof.
  destruct (run 30000 (download_init (Some [9])) ends_truncated) as [d|] eqn:E; [|vm_compute in E; discriminate].
  assert (at_phase d = Ended (Some (Truncated 6))) as Hp by (vm_compute in E; by injection E as <-).
  split; [exact Hp|]. exact (download_atomic 30000 (Some [9]) _ d _ E Hp).
Defined.

Lemma stalls_when_idle_witness :
  match run 30000 (download_init None) slow with
  | Some d => is_Some (step 30000 109000 d TimerFires) /\ ~ is_Some (step 30000 108999 d TimerFires)
  | None => False
  end.
Proof.
  destruct (run 30000 (download_init None) slow) as [d|] eqn:E; [|vm_compute in E; discriminate].
  assert (at_phase d = Streaming) as Hp by (vm_compute in E; by injection E as <-). split.
  - apply (stalls_when_idle 30000 None slow d 109000 E). split_and!; [done..|]. exists 79000. split; [done | lia].
  - intros H. apply (stalls_when_idle 30000 None slow d 108999 E) in H as (_ & _ & t & Ht & Hle).
    vm_compute in Ht. injection Ht as <-. lia.
Defined.

(** ** What modelling showed *)

(** A partial file is left when the sink fails to close, on a full disk for one:
    nothing deletes it, although "a partial file is worse than none". *)
Example full_disk_leaves_part :
  (fun d => (at_phase d, file d)) <$>
    run 30000 (download_init None)
      [(0, Headers 200 3); (1, ParentCreated (Some true)); (2, Chunk [1; 2; 3] false); (3, EndOfStream);
       (4, SinkClosed (Some 2%nat))] =
  Some (Ended (Some SinkFailed), Some [1; 2]).
Proof. reflexivity. Qed.

(** A camera that accepts the connection and never answers is waited for without
    end: the timer is armed only once the headers have come. *)
Example no_deadline_before_headers now : step 30000 now (download_init None) TimerFires = None.
Proof. reflexivity. Qed.

(** The same in the [catch]: a stream that breaks off and a disk that fails leave
    a part, and the caller hears of the disk instead of the stream. *)
Example broken_off_on_full_disk :
  (fun d => (at_phase d, file d)) <$>
    run 30000 (download_init None)
      [(0, Headers 200 3); (1, ParentCreated (Some true)); (2, Chunk [1; 2] false); (3, StreamError);
       (4, SinkClosed (Some 1%nat))] =
  Some (Ended (Some SinkFailed), Some [1]).
Proof. reflexivity. Qed.
