(* ===== verification/ProtoReply.v ===== *)
(** * What the protobuf clients share
    ([lib/src/wifi/network_client.dart], [lib/src/cohn/cohn_client.dart],
    [lib/src/streaming/livestream.dart])

    Each client of [lib/src/] sends an action with [sendProtobuf], rejects an
    outcome other than [responded], strips the two leading bytes of the payload
    and decodes the rest with a generated codec, here a partial function of bytes.
    Two of them then poll a status until it says enough, against the wall clock.
    [BleReplies] shows that an answered reply has the two bytes. *)

From S2P Require Import Prelude CommandQueue.
Local Open Scope Z_scope.

(** ** Replies *)

(** What awaiting [camera.sendProtobuf] ends with. *)
Inductive camera_reply :=
| Completed (o : Outcome) (payload : list Z)
| SendThrew.                                  (** [StateError]: the link is not up *)

(** [EnumResultGeneric.RESULT_SUCCESS]. *)
Definition RESULT_SUCCESS : Z := 1.

Inductive call_error :=
| NotSent
| Unanswered (o : Outcome)
| TooShort                                    (** [RangeError] of [sublist] *)
| Undecodable.                                (** [InvalidProtocolBufferException] *)

(** [payload.sublist(2)]. *)
Definition body_of (payload : list Z) : option (list Z) :=
  match payload with _ :: _ :: body => Some body | _ => None end.

Definition answered (r : camera_reply) : list Z + call_error :=
  match r with
  | SendThrew => inr NotSent
  | Completed kResponded payload => match body_of payload with Some body => inl body | None => inr TooShort end
  | Completed o _ => inr (Unanswered o)
  end.

(** The reply, through [fromBuffer]. *)
Definition decoded {A} (fromBuffer : list Z -> option A) (r : camera_reply) : A + call_error :=
  match answered r with
  | inr e => inr e
  | inl body => match fromBuffer body with Some x => inl x | None => inr Undecodable end
  end.

(** ** Polling *)

Section polling.
Context {A R : Type}.

(** The [n]th status, what it decides, and how running out of time is reported. *)
Variable status : nat -> A + R.
Variable verdict : A -> option R.
Variable expired : R.

(** [DateTime.now()] at the [n]th test of the loop, and before the first. *)
Variable clock : nat -> Z.
Variables start timeout poll : Z.

Definition in_time (n : nat) : bool := clock n - start <? timeout.

(** [while (now - start < timeout) { s = await status(); ...; await delayed(poll); }].
    [None]: out of fuel. *)
Fixpoint poll_until (fuel n : nat) : option R :=
  match fuel with
  | O => None
  | S fuel =>
      if in_time n then
        match status n with
        | inr r => Some r
        | inl a => match verdict a with Some r => Some r | None => poll_until fuel (S n) end
        end
      else Some expired
  end.

Definition undecided (k : nat) : Prop := exists a, status k = inl a /\ verdict a = None.

(** How the loop ends, at its [n]th test. *)
Definition ends_with (n : nat) (r : R) : Prop :=
  (in_time n = false /\ r = expired) \/
  (in_time n = true /\ (status n = inr r \/ exists a, status n = inl a /\ verdict a = Some r)).

(** The wall clock moves on by the delay, at least. *)
Definition ticking : Prop := start <= clock 0 /\ forall n, clock n + poll <= clock (S n).

Definition poll_fuel : nat := S (Z.to_nat (timeout / poll + 1)).

Lemma ticking_clock : ticking -> forall n, start + Z.of_nat n * poll <= clock n.
Proof.
  intros [H0 Hs]. induction n as [|n IH]; [lia|]. specialize (Hs n). lia.
Qed.

Lemma poll_until_ends fuel : forall n r, poll_until fuel n = Some r ->
  exists m, (n <= m)%nat /\ ends_with m r /\ forall k, (n <= k < m)%nat -> in_time k = true /\ undecided k.
Proof.
  induction fuel as [|fuel IH]; intros n r; cbn [poll_until]; [done|].
  destruct (in_time n) eqn:Et.
  - destruct (status n) as [a|e] eqn:Es.
    + destruct (verdict a) as [v|] eqn:Ev.
      * intros [= <-]. exists n. split; [lia|]. split; [|lia]. right. split; [done|]. right. by exists a.
      * intros H. destruct (IH (S n) r H) as (m & Hm & He & Hu). exists m. split_and!; [lia | done |].
        intros k Hk. destruct (decide (k = n)) as [->|]; [split; [done|]; by exists a | apply Hu; lia].
    + intros [= <-]. exists n. split; [lia|]. split; [|lia]. right. split; [done|]. by left.
  - intros [= <-]. exists n. split; [lia|]. split; [by left | lia].
Qed.

Lemma poll_until_total : 0 < poll -> ticking ->
  forall fuel n, timeout <= (Z.of_nat n + Z.of_nat fuel - 1) * poll -> (0 < fuel)%nat ->
  is_Some (poll_until fuel n).
Proof.
  intros Hp Ht. pose proof (ticking_clock Ht) as Hc.
  induction fuel as [|fuel IH]; intros n Hf Hpos; [lia|]. cbn [poll_until]. unfold in_time.
  destruct (_ <? _) eqn:E; to_prop; [|done].
  destruct (status n) as [a|]; [|done]. destruct (verdict a); [done|].
  specialize (Hc n). apply IH; [lia|]. destruct fuel; [|lia]. nia.
Qed.

(** The loop ends, and as [ends_with] says. *)
Lemma poll_until_spec : 0 < poll -> ticking ->
  exists r n, poll_until poll_fuel 0 = Some r /\ ends_with n r /\
    forall k, (k < n)%nat -> in_time k = true /\ undecided k.
Proof.
  intros Hp Ht. destruct (poll_until_total Hp Ht poll_fuel 0) as [r E].
  - apply Z.lt_le_incl. eapply Z.lt_le_trans; [exact (Z.mul_succ_div_gt timeout poll Hp)|]. rewrite Z.mul_comm.
    apply Z.mul_le_mono_nonneg_r; unfold poll_fuel; lia.
  - unfold poll_fuel. lia.
  - destruct (poll_until_ends _ _ _ E) as (n & _ & He & Hu). exists r, n. split_and!; [done..|].
    intros k Hk. apply Hu. lia.
Qed.
End polling.
