(* ===== verification/NetworkClient.v ===== *)
(** * Joining a network
    ([lib/src/wifi/network_client.dart])

    The client sends protobuf actions on the network channel and watches the
    pushes for what the camera settles on later.  The generated codecs of
    [lib/src/generated/proto/] are parameters: [fromBuffer] is a partial function
    of bytes.

    [scan] and [connect] share a shape, [ask_and_watch]: they subscribe, send, and
    wait for the reply and then for the notification.  Its events are what the
    event loop brings, in any order.  [accessPoints] is a loop over pages. *)

From stdpp Require Import strings.
From S2P Require Import Prelude CommandQueue ProtoReply.
Local Open Scope Z_scope.

(** ** Replies *)

(** The errors the client throws, or lets through. *)
Inductive net_error :=
| Call (e : call_error)
| RefusedWith (result : Z) (provisioning : option Z)     (** [NetworkException] *)
| DidNotJoin (provisioning : Z)
| DeadlineOver
| StreamOver                                             (** [firstWhere] on a stream that ended *)
| NoSsid.                                                (** [ArgumentError] *)

(** [_send] and the decoding of what it returns. *)
Definition _send {A} (fromBuffer : list Z -> option A) (r : camera_reply) : A + net_error :=
  match decoded fromBuffer r with inl x => inl x | inr e => inr (Call e) end.

(** [release] goes to the command feature, and so does not use [_send]. *)
Definition release (fromBuffer : list Z -> option Z) (r : camera_reply) : unit + net_error :=
  match decoded fromBuffer r with
  | inr e => inr (Call e)
  | inl result => if result =? RESULT_SUCCESS then inl tt else inr (RefusedWith result None)
  end.

(** ** Access points *)

Record AccessPoint := mkAccessPoint {
  ssid : string;
  signalBars : Z;
  frequencyMhz : Z;
  flags : Z;
}.

Definition isOpen (a : AccessPoint) : bool := Z.land (flags a) 1 =? 0.
Definition isConfigured (a : AccessPoint) : bool := negb (Z.land (flags a) 2 =? 0).
Definition isAssociated (a : AccessPoint) : bool := negb (Z.land (flags a) 8 =? 0).
Definition isUnsupported (a : AccessPoint) : bool := negb (Z.land (flags a) 16 =? 0).

Record ScanResult := mkScanResult { scanId : Z; totalEntries : Z }.

(** [RequestGetApEntries]. *)
Record ApRequest := mkApRequest { startIndex : Z; maxEntries : Z; req_scanId : Z }.

Section paging.

(** [ResponseGetApEntries.fromBuffer]: the result, and the entries as access points. *)
Variable fromBuffer : list Z -> option (Z * list AccessPoint).

(** The camera: its answer to the [n]th request. *)
Variable answer : nat -> ApRequest -> camera_reply.

Definition want (scan : ScanResult) (limit : option Z) : Z :=
  match limit with
  | None => totalEntries scan
  | Some m => if m <? totalEntries scan then m else totalEntries scan
  end.

(** The loop of [accessPoints], with the requests it makes.  [None]: out of fuel. *)
Fixpoint pages (fuel : nat) (scan : ScanResult) (pageSize w : Z) (n : nat) (out : list AccessPoint)
    : option ((list AccessPoint + net_error) * list ApRequest) :=
  match fuel with
  | O => None
  | S fuel =>
      if Z.of_nat (length out) <? w then
        let remaining := w - Z.of_nat (length out) in
        let req := mkApRequest (Z.of_nat (length out)) (if remaining <? pageSize then remaining else pageSize)
                     (scanId scan) in
        match _send fromBuffer (answer n req) with
        | inr e => Some (inr e, [req])
        | inl (result, entries) =>
            if negb (result =? RESULT_SUCCESS) then Some (inr (RefusedWith result None), [req])
            else
              match entries with
              | [] => Some (inl out, [req])
              | _ =>
                  '(r, reqs) ← pages fuel scan pageSize w (S n) (out ++ entries);
                  Some (r, req :: reqs)
              end
        end
      else Some (inl out, [])
  end.

Definition accessPoints (fuel : nat) (scan : ScanResult) (pageSize : Z) (limit : option Z) :=
  pages fuel scan pageSize (want scan limit) 0 [].

(** A camera that holds [es] for a scan and pages through them. *)
Definition serves (id : Z) (es : list AccessPoint) : Prop := forall n q,
  req_scanId q = id -> 0 <= startIndex q < Z.of_nat (length es) -> 0 < maxEntries q ->
  exists payload body page,
    answer n q = Completed kResponded payload /\ body_of payload = Some body /\
    fromBuffer body = Some (RESULT_SUCCESS, page) /\ page <> [] /\
    page `prefix_of` drop (Z.to_nat (startIndex q)) es /\ Z.of_nat (length page) <= maxEntries q.

(** The requests of a loop that has [k] entries. *)
Definition asks_for_rest (scan : ScanResult) (pageSize w : Z) (k : nat) (q : ApRequest) : Prop :=
  Z.of_nat k <= startIndex q < w /\ maxEntries q = Z.min (w - startIndex q) pageSize /\ req_scanId q = scanId scan.

Lemma pages_total scan pageSize w : forall fuel n out,
  Z.max 0 (w - Z.of_nat (length out)) < Z.of_nat fuel ->
  exists r reqs, pages fuel scan pageSize w n out = Some (r, reqs) /\
    Z.of_nat (length reqs) <= Z.max 0 (w - Z.of_nat (length out)) /\
    Forall (asks_for_rest scan pageSize w (length out)) reqs.
Proof.
  induction fuel as [|fuel IH]; intros n out Hf; cbn [pages].
  { lia. }
  case_match eqn:Hw; to_prop; [|by eexists _, []; split_and!; [done | cbn; lia | constructor]].
  set (req := mkApRequest _ _ _).
  assert (asks_for_rest scan pageSize w (length out) req) as Hreq.
  { split_and!; cbn; [lia..| |done]. split_match; to_prop; lia. }
  assert (forall r, exists r' reqs, Some (r : list AccessPoint + net_error, [req]) = Some (r', reqs) /\
    Z.of_nat (length reqs) <= Z.max 0 (w - Z.of_nat (length out)) /\
    Forall (asks_for_rest scan pageSize w (length out)) reqs) as Hone.
  { intros r. eexists _, [req]. split_and!; [done | cbn; lia | by constructor]. }
  destruct (_send _ _) as [[result entries]|e]; [|apply Hone].
  destruct (negb _); [apply Hone|]. destruct entries as [|e es]; [apply Hone|].
  destruct (IH (S n) (out ++ e :: es)) as (r & reqs & -> & Hl & Hall).
  { rewrite length_app. cbn. lia. }
  eexists _, _. split; [done|]. rewrite length_app in *. cbn in *. split; [lia|].
  constructor; [done|]. eapply Forall_impl; [exact Hall|]. intros q (? & ?). split; [lia|done].
Qed.

Lemma pages_serves scan pageSize w es : 0 < pageSize -> serves (scanId scan) es -> w <= Z.of_nat (length es) ->
  forall fuel n k r reqs, Z.of_nat k <= Z.max 0 w ->
  pages fuel scan pageSize w n (take k es) = Some (r, reqs) -> r = inl (take (Z.to_nat w) es).
Proof.
  intros Hp Hs Hw. induction fuel as [|fuel IH]; intros n k r reqs Hk; cbn [pages]; [done|].
  rewrite length_take_le by lia. case_match eqn:Hlt; to_prop.
  - set (req := mkApRequest _ _ _). destruct (Hs n req) as (p & b & page & -> & Hb & Hd & Hne & Hpre & Hlen).
    + done.
    + cbn. lia.
    + cbn. split_match; to_prop; lia.
    + unfold _send, decoded. cbn [answered]. rewrite Hb, Hd. cbn -[take drop]. destruct page as [|x page]; [done|].
      assert (take k es ++ x :: page = take (k + length (x :: page)) es) as ->.
      { cbn in Hpre. rewrite Nat2Z.id in Hpre. destruct Hpre as [rest Hr].
        by rewrite <- take_take_drop, Hr, take_app_length. }
      destruct (pages fuel _ _ _ _ _) as [[r' reqs']|] eqn:E; cbn; [|done]. intros [= <- <-].
      eapply IH; [|exact E]. cbn [maxEntries req] in Hlen.
      destruct (_ <? _) eqn:E2 in Hlen; to_prop; cbn [length] in *; lia.
  - intros [= <- <-]. f_equal. f_equal. lia.
Qed.

(** C30: [accessPoints] always ends, within as many requests as there are entries
    wanted, whatever the camera answers; each request is for entries that are
    wanted, no more than a page and no more than are still wanted.  A camera that
    pages through its entries, in pages of any size it likes up to what was asked,
    has them gathered in order up to the limit. *)
Theorem accessPoints_gathers scan pageSize limit fuel :
  Z.max 0 (want scan limit) < Z.of_nat fuel ->
  exists r reqs, accessPoints fuel scan pageSize limit = Some (r, reqs) /\
    Z.of_nat (length reqs) <= Z.max 0 (want scan limit) /\
    Forall (asks_for_rest scan pageSize (want scan limit) 0) reqs /\
    (forall es, 0 < pageSize -> serves (scanId scan) es -> totalEntries scan = Z.of_nat (length es) ->
     r = inl (take (Z.to_nat (want scan limit)) es)).
Proof.
  intros Hf. destruct (pages_total scan pageSize (want scan limit) fuel 0 []) as (r & reqs & E & Hl & Hall).
  { cbn. lia. }
  exists r, reqs. split_and!; [done | cbn in Hl; lia | exact Hall |].
  intros es Hp Hs Ht. apply (pages_serves scan pageSize (want scan limit) es Hp Hs) with fuel 0%nat 0%nat reqs.
  - unfold want. destruct limit; [case_match|]; to_prop; lia.
  - lia.
  - by rewrite take_0.
Qed.
End paging.

(** ** Asking, and watching for what follows *)

Section watch.
Context {T : Type}.

(** Which notification is watched for; [None]: it settles nothing. *)
Variable action : Z.
Variable verdict : list Z -> option (T + net_error).

(** The reply to the request. *)
Variable request : camera_reply -> unit + net_error.

(** Whether a failing request silences the watch, [catchError]. *)
Variable catches : bool.

Definition networkManagement : Z := 2.

Definition _isNotification (message : list Z) : bool :=
  match message with f :: a :: _ => (f =? networkManagement) && (a =? action) | _ => false end.

(** What the event loop brings. *)
Inductive event :=
| Push (message : list Z)
| StreamClosed
| Deadline
| Reply (r : camera_reply).

Inductive phase :=
| AwaitingReply
| AwaitingVerdict
| Finished (r : T + net_error).

Record watcher := mkWatcher {
  at_phase : phase;
  settled : option (T + net_error);       (** [done], once completed *)
  unhandled : list net_error;             (** errors nobody listened for *)
}.

(** The subscription exists before the request is sent. *)
Definition watch_init : watcher := mkWatcher AwaitingReply None [].

Definition error_of (v : T + net_error) : list net_error := match v with inl _ => [] | inr e => [e] end.

(** [done] completes, unless it has.  An error with no listener is unhandled. *)
Definition complete (v : T + net_error) (w : watcher) : watcher :=
  match settled w with
  | Some _ => w
  | None =>
      match at_phase w with
      | AwaitingVerdict => mkWatcher (Finished v) (Some v) (unhandled w)
      | AwaitingReply => mkWatcher AwaitingReply (Some v) (unhandled w ++ error_of v)
      | Finished r => mkWatcher (Finished r) (Some v) (if catches then unhandled w else unhandled w ++ error_of v)
      end
  end.

(** What an event completes [done] with. *)
Definition settling (e : event) : option (T + net_error) :=
  match e with
  | Push message => if _isNotification message then body ← body_of message; verdict body else None
  | StreamClosed => Some (inr StreamOver)
  | Deadline => Some (inr DeadlineOver)
  | Reply _ => None
  end.

Definition replying (e : event) : option (unit + net_error) :=
  match e with Reply r => Some (request r) | _ => None end.

Definition resume (r : unit + net_error) (w : watcher) : watcher :=
  match at_phase w with
  | AwaitingReply =>
      match r with
      | inr e => mkWatcher (Finished (inr e)) (settled w) (unhandled w)
      | inl _ =>
          match settled w with
          | Some v => mkWatcher (Finished v) (settled w) (unhandled w)
          | None => mkWatcher AwaitingVerdict (settled w) (unhandled w)
          end
      end
  | _ => w
  end.

Definition watch_step (w : watcher) (e : event) : watcher :=
  match replying e with
  | Some r => resume r w
  | None => match settling e with Some v => complete v w | None => w end
  end.

Definition ask_and_watch (es : list event) : watcher := foldl watch_step watch_init es.

(** *** What it comes to *)

Definition first_reply (es : list event) : option (unit + net_error) := head (omap replying es).
Definition first_settled (es : list event) : option (T + net_error) := head (omap settling es).

(** The call, from the reply and the verdict, whichever came first. *)
Definition comes_to (r : option (unit + net_error)) (v : option (T + net_error)) : phase :=
  match r, v with
  | None, _ => AwaitingReply
  | Some (inr e), _ => Finished (inr e)
  | Some (inl _), None => AwaitingVerdict
  | Some (inl _), Some v => Finished v
  end.

(** Somebody listens for the error by the time the verdict comes. *)
Fixpoint listened (r : option (unit + net_error)) (es : list event) : bool :=
  match es with
  | [] => true
  | e :: es =>
      match settling e with
      | Some (inl _) => true
      | Some (inr _) => match r with None => false | Some (inl _) => true | Some (inr _) => catches end
      | None => listened (match r with Some _ => r | None => replying e end) es
      end
  end.

Definition unheard (r : option (unit + net_error)) (es : list event) : list net_error :=
  if listened r es then [] else from_option error_of [] (first_settled es).

Lemma replying_settling e r : replying e = Some r -> settling e = None.
Proof. by destruct e. Qed.

(** The first of two answers, the one that came earlier. *)
Definition earlier {A} (r : option A) (x : option A) : option A := match r with Some _ => r | None => x end.

(** What an error of [done] does to [unhandled], with [r] the reply so far. *)
Definition blame (r : option (unit + net_error)) (v : T + net_error) : list net_error :=
  match r with Some (inl _) => [] | Some (inr _) => if catches then [] else error_of v | None => error_of v end.

Lemma step_reply r v u e x : replying e = Some x ->
  watch_step (mkWatcher (comes_to r v) v u) e = mkWatcher (comes_to (earlier r (Some x)) v) v u.
Proof. intros E. unfold watch_step. rewrite E. by destruct r as [[]|], v, x. Qed.

Lemma step_settled r v u e x : settling e = Some x ->
  watch_step (mkWatcher (comes_to r v) v u) e =
  mkWatcher (comes_to r (earlier v (Some x))) (earlier v (Some x)) (u ++ match v with Some _ => [] | None => blame r x end).
Proof.
  intros E. unfold watch_step. destruct (replying e) eqn:Er; [by rewrite (replying_settling _ _ Er) in E|].
  rewrite E. unfold complete, blame. cbn. destruct v; cbn; [by rewrite app_nil_r|].
  destruct r as [[]|], x, catches; cbn; by rewrite ?app_nil_r.
Qed.

Lemma step_other w e : replying e = None -> settling e = None -> watch_step w e = w.
Proof. intros Hr Hs. unfold watch_step. by rewrite Hr, Hs. Qed.

Lemma first_reply_cons e es : first_reply (e :: es) = earlier (replying e) (first_reply es).
Proof. unfold first_reply. cbn. by destruct (replying e). Qed.

Lemma first_settled_cons e es : first_settled (e :: es) = earlier (settling e) (first_settled es).
Proof. unfold first_settled. cbn. by destruct (settling e). Qed.

Lemma unheard_cons r e es :
  unheard r (e :: es) = match settling e with Some x => blame r x | None => unheard (earlier r (replying e)) es end.
Proof.
  unfold unheard, blame. rewrite first_settled_cons. cbn [listened]. destruct (settling e) as [x|]; [|done].
  cbn. by destruct x, r as [[]|], catches.
Qed.

Lemma watch_from es : forall r v u,
  foldl watch_step (mkWatcher (comes_to r v) v u) es =
  mkWatcher (comes_to (earlier r (first_reply es)) (earlier v (first_settled es))) (earlier v (first_settled es))
    (u ++ match v with Some _ => [] | None => unheard r es end).
Proof.
  induction es as [|e es IH]; intros r v u; cbn [foldl].
  { unfold unheard. cbn. destruct r, v; by rewrite app_nil_r. }
  rewrite first_reply_cons, first_settled_cons, unheard_cons. destruct (replying e) as [x|] eqn:Er.
  - rewrite (step_reply _ _ _ _ _ Er), IH, (replying_settling _ _ Er). by destruct r.
  - destruct (settling e) as [x|] eqn:Es.
    + rewrite (step_settled _ _ _ _ _ Es), IH. by destruct r, v; cbn; rewrite ?app_nil_r.
    + rewrite (step_other _ _ Er Es), IH. by destruct r.
Qed.

(** C36: the reply and the notification race, and it does not matter which wins.
    The call is finished by the first reply if that refuses, else by the first
    verdict, which counts even when it came before the reply; and it still waits
    exactly while the one it needs has not come. *)
Theorem reply_and_verdict_race es :
  at_phase (ask_and_watch es) =
  match first_reply es, first_settled es with
  | None, _ => AwaitingReply
  | Some (inr refusal), _ => Finished (inr refusal)
  | Some (inl _), None => AwaitingVerdict
  | Some (inl _), Some v => Finished v
  end.
Proof. pose proof (watch_from es None None []) as H. cbn in H. unfold ask_and_watch, watch_init. by rewrite H. Qed.

(** An error of the watch goes unhandled exactly when it comes before the reply,
    or after a reply that refused unless the request's failure silenced it, which
    is not what the comments on [done] and on [_awaitProvisioned] mean: see
    [scan_unheard] and [connect_unheard]. *)
Lemma unheard_errors es :
  unhandled (ask_and_watch es) = if listened None es then [] else from_option error_of [] (first_settled es).
Proof. pose proof (watch_from es None None []) as H. cbn in H. unfold ask_and_watch, watch_init. by rewrite H. Qed.
End watch.

(** *** The three calls *)

Definition notifStartScan : Z := 11.
Definition notifProvisState : Z := 12.

Inductive EnumScanning :=
| SCANNING_UNKNOWN | SCANNING_NEVER_STARTED | SCANNING_STARTED | SCANNING_ABORTED_BY_SYSTEM
| SCANNING_CANCELLED_BY_USER | SCANNING_SUCCESS.

#[global] Instance EnumScanning_eq_dec : EqDecision EnumScanning.
Proof. solve_decision. Defined.

(** [NotifStartScanning]; an absent field is [None]. *)
Record NotifStartScanning := mkNotifStartScanning {
  scanningState : EnumScanning;
  notif_scanId : option Z;
  notif_totalEntries : option Z;
}.

Section calls.
(** The codecs, and what a connect response carries. *)
Variable startScanning_fromBuffer : list Z -> option NotifStartScanning.
Variable responseStartScanning_fromBuffer : list Z -> option Z.
Variable provisioning_fromBuffer : list Z -> option Z.
Variable responseConnect_fromBuffer : list Z -> option (Z * option Z).

Definition scan_verdict (body : list Z) : option (ScanResult + net_error) :=
  match startScanning_fromBuffer body with
  | None => Some (inr (Call Undecodable))
  | Some n =>
      if bool_decide (scanningState n = SCANNING_SUCCESS)
      then Some (inl (mkScanResult (default 0 (notif_scanId n)) (default 0 (notif_totalEntries n))))
      else None
  end.

Definition scan_request (r : camera_reply) : unit + net_error :=
  match _send responseStartScanning_fromBuffer r with
  | inr e => inr e
  | inl result => if result =? RESULT_SUCCESS then inl tt else inr (RefusedWith result None)
  end.

Definition scan : list event -> watcher := ask_and_watch notifStartScan scan_verdict scan_request true.

(** [EnumProvisioning]. *)
Definition PROVISIONING_UNKNOWN : Z := 0.
Definition PROVISIONING_NEVER_STARTED : Z := 1.
Definition PROVISIONING_STARTED : Z := 2.
Definition PROVISIONING_SUCCESS_NEW_AP : Z := 5.
Definition PROVISIONING_SUCCESS_OLD_AP : Z := 6.

Definition succeeded (s : Z) : bool := bool_decide (s ∈ [PROVISIONING_SUCCESS_NEW_AP; PROVISIONING_SUCCESS_OLD_AP]).

Definition pending (s : Z) : bool :=
  bool_decide (s ∈ [PROVISIONING_UNKNOWN; PROVISIONING_NEVER_STARTED; PROVISIONING_STARTED]).

(** [_awaitProvisioned]. *)
Definition _awaitProvisioned (body : list Z) : option (unit + net_error) :=
  match provisioning_fromBuffer body with
  | None => Some (inr (Call Undecodable))
  | Some s =>
      if pending s then None
      else if succeeded s then Some (inl tt)
      else Some (inr (DidNotJoin s))
  end.

Definition connect_request (r : camera_reply) : unit + net_error :=
  match _send responseConnect_fromBuffer r with
  | inr e => inr e
  | inl (result, provisioning) =>
      if result =? RESULT_SUCCESS then inl tt else inr (RefusedWith result provisioning)
  end.

(** [connect], and [connectNew], which differs in what it sends. *)
Definition connect (ssid : string) (es : list event) : watcher + net_error :=
  if bool_decide (ssid = EmptyString) then inr NoSsid
  else inl (ask_and_watch notifProvisState _awaitProvisioned connect_request false es).
End calls.

(** Codecs of one field each, to run the definitions with. *)
Definition demo_scanning (b : list Z) : option NotifStartScanning :=
  match b with
  | [s; i; n] =>
      Some (mkNotifStartScanning (if s =? 5 then SCANNING_SUCCESS else SCANNING_STARTED) (Some i) (Some n))
  | _ => None
  end.
Definition demo_result (b : list Z) : option Z := head b.
Definition demo_connect (b : list Z) : option (Z * option Z) := (fun r => (r, None)) <$> head b.

Abbreviation demo_scan := (scan demo_scanning demo_result).
Abbreviation demo_join := (connect demo_result demo_connect "home").

(** The scan ends before the reply that it began. *)
Example scan_before_reply :
  at_phase (demo_scan [Push [2; 12; 2]; Push [2; 11; 2; 0; 0]; Push [2; 11; 5; 7; 23];
                       Reply (Completed kResponded [2; 130; 1]); Deadline]) =
  Finished (inl (mkScanResult 7 23)).
Proof. reflexivity. Qed.

(** A camera with three access points, which answers two at most. *)
Definition demo_points : list AccessPoint :=
  [mkAccessPoint "a" 3 2437 3; mkAccessPoint "b" 1 5180 0; mkAccessPoint "c" 2 2412 10].

Definition demo_answer (n : nat) (q : ApRequest) : camera_reply :=
  Completed kResponded [2; 131; startIndex q; Z.min 2 (maxEntries q)].

Definition demo_page (b : list Z) : option (Z * list AccessPoint) :=
  match b with [i; n] => Some (1, take (Z.to_nat n) (drop (Z.to_nat i) demo_points)) | _ => None end.

Lemma accessPoints_gathers_witness :
  exists reqs, accessPoints demo_page demo_answer 4 (mkScanResult 7 3) 20 None = Some (inl demo_points, reqs) /\
    (length reqs <= 3)%nat.
Proof.
  destruct (accessPoints_gathers demo_page demo_answer (mkScanResult 7 3) 20 None 4 ltac:(reflexivity))
    as (r & reqs & -> & Hl & _ & H).
  exists reqs. split; [|cbn in Hl; lia]. do 2 f_equal.
  rewrite (H demo_points); [reflexivity | lia | | reflexivity].
  intros n q _ Hi Hm. cbn in Hi. eexists _, _, _.
  split; [reflexivity|]. split; [reflexivity|]. split; [reflexivity|].
  assert (Z.to_nat (startIndex q) < length demo_points)%nat as Hlt by (cbn; lia).
  pose proof (length_drop demo_points (Z.to_nat (startIndex q))) as Hd. split_and!.
  - intros Hn. apply (f_equal length) in Hn. rewrite length_take, Hd in Hn. cbn [length] in Hn. lia.
  - apply prefix_take.
  - rewrite length_take. lia.
Defined.

(** *** What modelling showed *)

(** A camera that returns more than it was asked for exceeds [maxEntries]. *)
Example page_overshoots :
  accessPoints (fun _ => Some (1, demo_points)) demo_answer 4 (mkScanResult 7 3) 1 (Some 1) =
  Some (inl demo_points, [mkApRequest 0 1 7]).
Proof. reflexivity. Qed.

(** [done] has no listener while [scan] awaits the reply: if the deadline, which
    runs from the call, passes behind other commands, its error is unhandled, and
    thrown again once the reply comes. *)
Example scan_unheard :
  demo_scan [Deadline; Reply (Completed kResponded [2; 130; 1])] =
  mkWatcher (Finished (inr DeadlineOver)) (Some (inr DeadlineOver)) [DeadlineOver].
Proof. reflexivity. Qed.

(** A [connect] the camera refuses leaves its watch behind, with no listener:
    "Same shape as the scan", but only the scan silences it. *)
Example connect_unheard :
  demo_join [Reply (Completed kResponded [2; 132; 2]); Deadline] =
    inl (mkWatcher (Finished (inr (RefusedWith 2 None))) (Some (inr DeadlineOver)) [DeadlineOver]) /\
  unhandled (demo_scan [Reply (Completed kResponded [2; 130; 2]); Deadline]) = [].
Proof. by split. Qed.
