(* ===== verification/CohnStore.v ===== *)
(** * COHN credentials
    ([lib/src/cohn/credentials.dart])

    The credentials, their JSON form, the Basic token, and the store that keeps
    them in files.  A serial comes from a camera: it is any list of UTF-16 code
    units.  The file system is a directory and the files in it, with their modes;
    [chmod] is a process that may not start, or fail.  [write] gives the state
    after each of its steps, so that what another user can see in between is part
    of the model.  The JSON grammar is outside: [jsonEncode] and [jsonDecode] are
    parameters, inverse to each other on maps of strings. *)

From Stdlib Require Import Ascii.
From stdpp Require Import strings gmap.
From S2P Require Import Prelude GlazeMeta GoproUsb HttpMessage.
Local Open Scope Z_scope.

Record CohnCredentials := mkCohnCredentials {
  username : string;
  password : string;              (** a [Secret] *)
  certificate : string;
  ipAddress : option string;
  ssid : option string;
  macAddress : option string;
}.

(** ** The Basic token *)

Definition base64_digit (d : Z) : ascii :=
  if d <? 26 then byte_char (65 + d)
  else if d <? 52 then byte_char (71 + d)
  else if d <? 62 then byte_char (d - 4)
  else if d =? 62 then "+"%char else "/"%char.

(** [base64Encode] of [dart:convert]. *)
Fixpoint base64Encode (l : bytes) : text :=
  match l with
  | [] => []
  | [a] => [base64_digit (a / 4); base64_digit (a mod 4 * 16); "="%char; "="%char]
  | [a; b] => [base64_digit (a / 4); base64_digit (a mod 4 * 16 + b / 16); base64_digit (b mod 16 * 4); "="%char]
  | a :: b :: c :: t =>
      base64_digit (a / 4) :: base64_digit (a mod 4 * 16 + b / 16) ::
      base64_digit (b mod 16 * 4 + c / 64) :: base64_digit (c mod 64) :: base64Encode t
  end.

(** The bytes of [username], a colon, and the bytes of [password]. *)
Definition basicAuth (c : CohnCredentials) : text :=
  chars "Basic " ++ base64Encode (string_bytes (username c) ++ [58] ++ string_bytes (password c)).

(** How a server reads it. *)
Definition base64_value (c : ascii) : Z :=
  let b := char_byte c in
  if (65 <=? b) && (b <=? 90) then b - 65
  else if (97 <=? b) && (b <=? 122) then b - 71
  else if (48 <=? b) && (b <=? 57) then b + 4
  else if b =? 43 then 62 else 63.

Fixpoint base64_decode (l : text) : bytes :=
  match l with
  | x :: y :: z :: w :: t =>
      let x := base64_value x in let y := base64_value y in
      let a := x * 4 + y / 16 in
      if Ascii.eqb z "=" then [a]
      else
        let b := y mod 16 * 16 + base64_value z / 4 in
        if Ascii.eqb w "=" then [a; b]
        else a :: b :: (base64_value z mod 4 * 64 + base64_value w) :: base64_decode t
  | _ => []
  end.

Definition read_basic (header : text) : text * text := cut ":" (byte_char <$> base64_decode (drop 6 header)).

Lemma base64_digit_facts d : 0 <= d < 64 ->
  base64_value (base64_digit d) = d /\ Ascii.eqb (base64_digit d) "=" = false.
Proof.
  intros Hd.
  pose proof (forallb_below 64 (fun d => (base64_value (base64_digit d) =? d) &&
    negb (Ascii.eqb (base64_digit d) "=")) ltac:(vm_compute; reflexivity) d Hd) as H.
  cbn beta in H. apply andb_prop in H as [H1 H2]. to_prop. done.
Qed.

Lemma base64_roundtrip_fuel n : forall l, (length l <= n)%nat -> bytes_ok l -> base64_decode (base64Encode l) = l.
Proof.
  induction n as [|n IH]; intros l Hn Hl.
  { by destruct l; [|cbn in Hn; lia]. }
  destruct l as [|a [|b [|c t]]]; [done|..]; rewrite ?Forall_cons in Hl; unfold byte_ok in Hl.
  - destruct Hl as [Ha _]. cbn [base64Encode base64_decode].
    destruct (base64_digit_facts (a / 4) ltac:(lia)) as [-> _].
    destruct (base64_digit_facts (a mod 4 * 16) ltac:(lia)) as [-> _]. cbn. f_equal. lia.
  - destruct Hl as (Ha & Hb & _). cbn [base64Encode base64_decode].
    destruct (base64_digit_facts (a / 4) ltac:(lia)) as [-> _].
    destruct (base64_digit_facts (a mod 4 * 16 + b / 16) ltac:(lia)) as [-> _].
    destruct (base64_digit_facts (b mod 16 * 4) ltac:(lia)) as [-> ->]. cbn.
    f_equal; [lia|]. f_equal. lia.
  - destruct Hl as (Ha & Hb & Hc & Ht). cbn [base64Encode base64_decode].
    destruct (base64_digit_facts (a / 4) ltac:(lia)) as [-> _].
    destruct (base64_digit_facts (a mod 4 * 16 + b / 16) ltac:(lia)) as [-> _].
    destruct (base64_digit_facts (b mod 16 * 4 + c / 64) ltac:(lia)) as [-> ->].
    destruct (base64_digit_facts (c mod 64) ltac:(lia)) as [-> ->].
    rewrite IH; [|cbn in Hn; lia|done]. f_equal; [lia|]. f_equal; [lia|]. f_equal. lia.
Qed.

Lemma byte_chars_string s : byte_char <$> string_bytes s = chars s.
Proof.
  pose proof (bytes_string_bytes s) as H. apply (f_equal chars) in H. unfold bytes_string in H.
  by rewrite chars_of_list in H.
Qed.

(** A server that decodes the token finds the username and the password,
    provided the username has no colon. *)
Theorem basicAuth_roundtrip c :
  ":"%char ∉ chars (username c) ->
  read_basic (basicAuth c) = (chars (username c), chars (password c)).
Proof.
  intros Hu. unfold read_basic, basicAuth.
  change (drop 6 (chars "Basic " ++ ?x)) with x.
  rewrite base64_roundtrip_fuel with (n := length (string_bytes (username c) ++ [58] ++ string_bytes (password c)));
    [|done|].
  - rewrite !fmap_app, !byte_chars_string. cbn [fmap list_fmap app]. apply cut_app.
    apply Forall_forall. intros x Hx. apply not_true_is_false. intros E%Ascii.eqb_eq. by subst x.
  - rewrite !Forall_app. split_and!; [apply string_bytes_ok | by constructor | apply string_bytes_ok].
Qed.

(** ** The JSON form *)

Section store.
(** What [jsonDecode] may give for a key. *)
Context {Json : Type} (str : string -> Json) (as_string : Json -> option string).
Hypothesis as_string_str : forall s, as_string (str s) = Some s.

(** [dart:convert], on maps. *)
Variable jsonEncode : list (string * Json) -> string.
Variable jsonDecode : string -> option (list (string * Json)).
Hypothesis decode_encode : forall m, Forall (fun e => exists s, e.2 = str s) m -> NoDup m.*1 ->
  jsonDecode (jsonEncode m) = Some m.

Definition optional (k : string) (v : option string) : list (string * Json) :=
  match v with Some s => [(k, str s)] | None => [] end.

Definition toJson (c : CohnCredentials) : list (string * Json) :=
  [("username", str (username c)); ("password", str (password c)); ("certificate", str (certificate c))] ++
  optional "ipAddress" (ipAddress c) ++ optional "ssid" (ssid c) ++ optional "macAddress" (macAddress c).

(** [json[k]! as String]. *)
Definition required (k : string) (json : list (string * Json)) : option string := dict_get k json ≫= as_string.

(** [json[k] as String?]; the outer [None] is the cast that fails. *)
Definition nullable (k : string) (json : list (string * Json)) : option (option string) :=
  match dict_get k json with None => Some None | Some v => s ← as_string v; Some (Some s) end.

(** [None]: it throws. *)
Definition fromJson (json : list (string * Json)) : option CohnCredentials :=
  username ← required "username" json;
  password ← required "password" json;
  certificate ← required "certificate" json;
  ipAddress ← nullable "ipAddress" json;
  ssid ← nullable "ssid" json;
  macAddress ← nullable "macAddress" json;
  Some (mkCohnCredentials username password certificate ipAddress ssid macAddress).

Lemma json_roundtrip c : fromJson (toJson c) = Some c.
Proof using as_string_str.
  destruct c as [u p c [i|] [s|] [m|]]; lazy; by rewrite !as_string_str.
Qed.

Lemma toJson_strings c : Forall (fun e => exists s, e.2 = str s) (toJson c).
Proof. destruct c as [u p c [i|] [s|] [m|]]; cbn; repeat constructor; by eexists. Qed.

Lemma toJson_keys c : NoDup (toJson c).*1.
Proof.
  destruct c as [u p c [i|] [s|] [m|]]; cbn; refine (bool_decide_unpack _ _); vm_compute; exact I.
Qed.

(** ** The store *)

(** [_defaultDirectory], from two variables of the environment. *)
Definition default_directory (XDG_STATE_HOME HOME : option text) : option text :=
  base ← match XDG_STATE_HOME with
         | Some d => Some d
         | None => (fun h => h ++ chars "/.local/state") <$> HOME
         end;
  Some (base ++ chars "/gopro_native").

(** A string, as the UTF-16 code units of [_fileFor]'s regular expression. *)
Abbreviation units := (list Z).

Definition usable (c : Z) : bool :=
  ((65 <=? c) && (c <=? 90)) || ((97 <=? c) && (c <=? 122)) || ((48 <=? c) && (c <=? 57)) || (c =? 95) || (c =? 45).

Definition safe_name (serial : units) : units := (fun c => if usable c then c else 95) <$> serial.

(** ['/'], and [".json"]. *)
Definition slash : Z := 47.
Definition dot_json : units := [46; 106; 115; 111; 110].

(** [None]: [ArgumentError]. *)
Definition _fileFor (dir : units) (serial : units) : option units :=
  let safe := safe_name serial in
  if is_nil safe || is_nil (List.filter (fun c => negb (c =? 95)) safe) then None
  else Some (dir ++ slash :: safe ++ dot_json).

Record file := mkFile { mode : Z; contents : string }.

(** The files by path, and the mode of the store's directory once it exists. *)
Record fs := mkFs { directory : option Z; files : gmap units file }.

Inductive chmod_end := ChmodDone | ChmodFailed | NoChmod.    (** [NoChmod]: [ProcessException] *)

Inductive store_error :=
| BadSerial
| TooOpen (mode : Z)                                          (** [StateError] *)
| NotCredentials                                              (** [FormatException], [TypeError] *)
| CannotRun.

Section dir.
Variable _dir : units.

(** What the umask leaves of 0777 and of 0666. *)
Variables new_directory_mode new_file_mode : Z.

Definition read (s : fs) (serial : units) : option CohnCredentials + store_error :=
  match _fileFor _dir serial with
  | None => inr BadSerial
  | Some path =>
      match files s !! path with
      | None => inl None
      | Some f =>
          let m := Z.land (mode f) 511 in
          if negb (Z.land m 63 =? 0) then inr (TooOpen m)
          else
            match jsonDecode (contents f) ≫= fromJson with
            | Some c => inl (Some c)
            | None => inr NotCredentials
            end
      end
  end.

Definition mkdir (s : fs) : fs :=
  mkFs (Some (default new_directory_mode (directory s))) (files s).

Definition chmod_dir (e : chmod_end) (s : fs) : fs :=
  mkFs (match e with ChmodDone => Some 448 | _ => directory s end) (files s).

Definition create (path : units) (s : fs) : fs :=
  match files s !! path with
  | Some _ => s
  | None => mkFs (directory s) (<[path := mkFile new_file_mode EmptyString]> (files s))
  end.

Definition chmod_file (e : chmod_end) (path : units) (s : fs) : fs :=
  match e, files s !! path with
  | ChmodDone, Some f => mkFs (directory s) (<[path := mkFile 384 (contents f)]> (files s))
  | _, _ => s
  end.

(** A new file, had somebody deleted it in between, has the mode of a new one. *)
Definition writeAsString (path : units) (text : string) (s : fs) : fs :=
  mkFs (directory s)
    (<[path := mkFile (default new_file_mode (mode <$> files s !! path)) text]> (files s)).

(** The state after each step, and how it ends. *)
Definition write (e1 e2 : chmod_end) (serial : units) (c : CohnCredentials) (s : fs)
    : list fs * (unit + store_error) :=
  let s1 := mkdir s in
  match e1 with
  | NoChmod => ([s1], inr CannotRun)
  | _ =>
      let s2 := chmod_dir e1 s1 in
      match _fileFor _dir serial with
      | None => ([s1; s2], inr BadSerial)
      | Some path =>
          let s3 := create path s2 in
          match e2 with
          | NoChmod => ([s1; s2; s3], inr CannotRun)
          | _ =>
              let s4 := chmod_file e2 path s3 in
              ([s1; s2; s3; s4; writeAsString path (jsonEncode (toJson c)) s4], inl tt)
          end
      end
  end.

Definition delete_file (serial : units) (s : fs) : fs + store_error :=
  match _fileFor _dir serial with
  | None => inr BadSerial
  | Some path => inl (mkFs (directory s) (delete path (files s)))
  end.

(** The state a write leaves. *)
Definition written (e1 e2 : chmod_end) (serial : units) (c : CohnCredentials) (s : fs) : fs :=
  default s (last (write e1 e2 serial c s).1).

(** ** Lemmas *)

Lemma usable_not_special c : usable c = true -> c <> slash /\ c <> 46.
Proof. unfold usable, slash. intros H. split; intros ->; vm_compute in H; discriminate. Qed.

Lemma safe_name_usable serial : Forall (fun c => usable c = true) (safe_name serial).
Proof. apply Forall_fmap, Forall_true. intros c. cbn. by destruct (usable c) eqn:E. Qed.

Lemma safe_name_id serial : Forall (fun c => usable c = true) serial -> safe_name serial = serial.
Proof. unfold safe_name. induction 1 as [|c l Hc _ IH]; cbn; [done|]. by rewrite Hc, IH. Qed.

Lemma fileFor_path serial path :
  _fileFor _dir serial = Some path -> path = _dir ++ slash :: safe_name serial ++ dot_json.
Proof. unfold _fileFor. destruct (_ || _); [done|]. by intros [= <-]. Qed.

Lemma path_inj n n' :
  _dir ++ slash :: n ++ dot_json = _dir ++ slash :: n' ++ dot_json -> n = n'.
Proof. intros H. apply (app_inv_head _dir) in H. injection H as H. by apply app_inv_tail in H. Qed.

(** ** Properties *)

(** C39: a serial cannot escape the directory, whatever the camera reports: the
    file is one name below it, as long as the serial, with no slash and no dot of
    its own.  Serials of usable characters have files of their own, and only a
    serial without any is refused. *)
Theorem file_stays_inside serial :
  match _fileFor _dir serial with
  | None => Forall (fun c => usable c = false \/ c = 95) serial
  | Some path => exists name, path = _dir ++ slash :: name ++ dot_json /\ length name = length serial /\
      slash ∉ name /\ 46 ∉ name /\
      (forall other, Forall (fun c => usable c = true) serial -> Forall (fun c => usable c = true) other ->
       _fileFor _dir other = Some path -> other = serial)
  end.
Proof.
  destruct (_fileFor _dir serial) as [path|] eqn:E.
  - pose proof (fileFor_path _ _ E) as ->. exists (safe_name serial).
    pose proof (safe_name_usable serial) as Hs. rewrite Forall_forall in Hs. split_and!.
    + done.
    + apply length_fmap.
    + intros Hin. by destruct (usable_not_special slash (Hs _ Hin)).
    + intros Hin. by destruct (usable_not_special 46 (Hs _ Hin)).
    + intros other H1 H2 Ho. apply fileFor_path, path_inj in Ho. by rewrite !safe_name_id in Ho.
  - unfold _fileFor in E. destruct (_ || _) eqn:Eb in E; [|done].
    assert (List.filter (fun c => negb (c =? 95)) (safe_name serial) = []) as Hf.
    { apply orb_true_iff in Eb as [H|H]; [by destruct (safe_name serial) | by destruct (List.filter _ _)]. }
    apply Forall_forall. intros c Hc. destruct (usable c) eqn:Eu; [|by left]. right.
    destruct (Z.eq_dec c 95) as [|Hne]; [done|]. exfalso.
    assert (c ∈ List.filter (fun c => negb (c =? 95)) (safe_name serial)) as Hin.
    { apply elem_of_lfilter. split.
      - apply list_elem_of_fmap. exists c. by rewrite Eu.
      - apply negb_true_iff, Z.eqb_neq, Hne. }
    rewrite Hf in Hin. by apply not_elem_of_nil in Hin.
Qed.

(** The file system after the last step that sets a mode. *)
Abbreviation prepared e1 e2 path s := (chmod_file e2 path (create path (chmod_dir e1 (mkdir s)))).

Lemma write_states e1 e2 serial c s path :
  e1 <> NoChmod -> e2 <> NoChmod -> _fileFor _dir serial = Some path ->
  written e1 e2 serial c s = writeAsString path (jsonEncode (toJson c)) (prepared e1 e2 path s).
Proof. intros H1 H2 Hp. unfold written, write. rewrite Hp. by destruct e1, e2. Qed.

Lemma prepared_other e1 e2 path q s : path <> q -> files (prepared e1 e2 path s) !! q = files s !! q.
Proof.
  intros Hne. unfold chmod_file, create. cbn [chmod_dir mkdir files].
  destruct e2, (files s !! path) eqn:E; cbn; rewrite ?E, ?lookup_insert_eq; cbn;
    by rewrite ?lookup_insert_ne by done.
Qed.

Lemma prepared_mode e1 e2 path s :
  mode <$> files (prepared e1 e2 path s) !! path =
  Some (match e2 with ChmodDone => 384 | _ => default new_file_mode (mode <$> files s !! path) end).
Proof.
  unfold chmod_file, create. cbn [chmod_dir mkdir files].
  destruct e2, (files s !! path) eqn:E; cbn; rewrite ?E, ?lookup_insert_eq; cbn;
    by rewrite ?E, ?lookup_insert_eq.
Qed.

(** What a file holds that was there before, or holds nothing yet. *)
Definition harmless (s t : fs) : Prop := forall p f, files t !! p = Some f ->
  contents f = EmptyString \/ exists f0, files s !! p = Some f0 /\ contents f0 = contents f.

Lemma harmless_same s t : files t = files s -> harmless s t.
Proof. intros E p f Hf. right. exists f. by rewrite <- E. Qed.

Lemma harmless_create s t path : harmless s t -> harmless s (create path t).
Proof.
  intros H p f. unfold create. destruct (files t !! path); [by apply H|]. cbn.
  destruct (decide (path = p)) as [->|Hne]; [rewrite lookup_insert_eq; intros [= <-]; by left|].
  rewrite lookup_insert_ne by done. apply H.
Qed.

Lemma harmless_chmod e s t path : harmless s t -> harmless s (chmod_file e path t).
Proof.
  intros H p f. unfold chmod_file. destruct e; try apply H. destruct (files t !! path) as [f0|] eqn:E; [|apply H].
  cbn. destruct (decide (path = p)) as [->|Hne]; [|rewrite lookup_insert_ne by done; apply H].
  rewrite lookup_insert_eq. intros [= <-]. cbn. by apply H.
Qed.

(** C38: while [write] runs, nobody but the owner can read what it writes: in each
    state it goes through, a file either holds nothing, or what it held before, or
    has mode 0600; and an existing file is closed before it is overwritten.  This
    needs [chmod] not to fail; if it cannot be run, nothing is written. *)
Theorem secret_is_private e1 e2 serial c s t p f :
  e2 <> ChmodFailed -> t ∈ (write e1 e2 serial c s).1 -> files t !! p = Some f ->
  contents f = EmptyString \/ (exists f0, files s !! p = Some f0 /\ contents f0 = contents f) \/ mode f = 384.
Proof.
  intros He Ht Hf.
  assert (forall u, harmless s u -> files u !! p = Some f ->
    contents f = EmptyString \/ (exists f0, files s !! p = Some f0 /\ contents f0 = contents f) \/ mode f = 384) as Hh.
  { intros u Hu Hp. destruct (Hu p f Hp) as [?|?]; auto. }
  assert (harmless s (mkdir s)) as H1 by by apply harmless_same.
  assert (harmless s (chmod_dir e1 (mkdir s))) as H2 by by apply harmless_same.
  unfold write in Ht. destruct (_fileFor _dir serial) as [path|].
  2: { apply list_elem_of_In in Ht. destruct e1; cbn in Ht; destruct_or?; try done; subst t; eauto. }
  pose proof (harmless_create _ _ path H2) as H3. pose proof (harmless_chmod e2 _ _ path H3) as H4.
  assert (e2 = ChmodDone -> t = writeAsString path (jsonEncode (toJson c)) (prepared e1 e2 path s) ->
    contents f = EmptyString \/ (exists f0, files s !! p = Some f0 /\ contents f0 = contents f) \/ mode f = 384) as H5.
  { intros -> ->. cbn [writeAsString files] in Hf. destruct (decide (path = p)) as [<-|Hne].
    - rewrite lookup_insert_eq in Hf. apply (inj Some) in Hf. subst f. do 2 right. cbn [mode].
      by rewrite prepared_mode.
    - rewrite lookup_insert_ne in Hf by done. by apply (Hh _ H4). }
  apply list_elem_of_In in Ht.
  destruct e1, e2; try done; cbn in Ht; destruct_or?; try done; (by apply H5) || (subst t; eauto).
Qed.

(** What [write] stores, [read] gives back, and for no other file does it
    change; [delete] makes it gone.  If [chmod] on the file fails, [write] still
    succeeds, and [read] refuses a file that anyone else may read or write. *)
Theorem store_roundtrip e1 e2 serial path c s :
  e1 <> NoChmod -> e2 <> NoChmod -> _fileFor _dir serial = Some path ->
  let s' := written e1 e2 serial c s in
  (write e1 e2 serial c s).2 = inl tt /\
  (e2 = ChmodDone -> read s' serial = inl (Some c)) /\
  (forall other, _fileFor _dir other <> Some path -> read s' other = read s other) /\
  (forall s'', delete_file serial s' = inl s'' -> read s'' serial = inl None) /\
  (e2 = ChmodFailed -> forall m, m = default new_file_mode (mode <$> files s !! path) ->
   Z.land (Z.land m 511) 63 <> 0 -> read s' serial = inr (TooOpen (Z.land m 511))).
Proof using as_string_str decode_encode.
  intros H1 H2 Hp s'. assert (s' = writeAsString path (jsonEncode (toJson c)) (prepared e1 e2 path s)) as Es
    by by apply write_states. clearbody s'. subst s'. split_and!.
  - unfold write. rewrite Hp. by destruct e1, e2.
  - intros ->. unfold read, writeAsString. rewrite Hp, prepared_mode. cbn [files]. rewrite lookup_insert_eq.
    cbn -[toJson]. rewrite (decode_encode _ (toJson_strings c) (toJson_keys c)). cbn -[toJson].
    by rewrite json_roundtrip.
  - intros other Ho. unfold read. destruct (_fileFor _dir other) as [q|]; [|done].
    assert (path <> q) as Hne by congruence. cbn [writeAsString files].
    by rewrite lookup_insert_ne, prepared_other by done.
  - intros s''. unfold delete_file, read. rewrite Hp. intros [= <-]. cbn. by rewrite lookup_delete_eq.
  - intros -> m Em Hm. unfold read, writeAsString. rewrite Hp, prepared_mode, <- Em. cbn [files].
    rewrite lookup_insert_eq. cbn. apply Z.eqb_neq in Hm. by rewrite Hm.
Qed.

End dir.
End store.

(** ** Witnesses *)

Definition demo_credentials : CohnCredentials :=
  mkCohnCredentials "gopro" "pa:ss" "PEM" (Some "192.168.1.9") None (Some "2c2c").

Lemma basicAuth_roundtrip_witness :
  read_basic (basicAuth demo_credentials) = (chars "gopro", chars "pa:ss") /\
  basicAuth demo_credentials = chars "Basic Z29wcm86cGE6c3M=".
Proof.
  split; [|reflexivity]. apply (basicAuth_roundtrip demo_credentials).
  apply (bool_decide_unpack _). vm_compute. exact I.
Defined.

(** A codec of maps of strings, to run the store with: the bits of their number. *)
Fixpoint bits_of (p : positive) : text :=
  match p with xH => [] | xO p => "0"%char :: bits_of p | xI p => "1"%char :: bits_of p end.

Fixpoint of_bits (l : text) : positive :=
  match l with [] => xH | c :: l => if Ascii.eqb c "0" then xO (of_bits l) else xI (of_bits l) end.

Definition demo_encode (m : list (string * string)) : string := String.string_of_list_ascii (bits_of (countable.encode m)).
Definition demo_decode (s : string) : option (list (string * string)) := countable.decode (of_bits (chars s)).

Lemma demo_codec m : demo_decode (demo_encode m) = Some m.
Proof.
  unfold demo_decode, demo_encode. rewrite chars_of_list.
  assert (forall p, of_bits (bits_of p) = p) as H by (induction p as [p IH|p IH|]; cbn; by rewrite ?IH).
  rewrite H. apply countable.decode_encode.
Qed.

(** The units of an ASCII string. *)
Definition units_of (s : string) : list Z := char_byte <$> chars s.

Abbreviation demo_dir := (units_of "/home/u/.local/state/gopro_native").
Abbreviation demo_write := (write id demo_encode demo_dir 493 420).
Abbreviation demo_written := (written id demo_encode demo_dir 493 420).
Abbreviation demo_read := (read Some demo_decode demo_dir).
Abbreviation no_files := (mkFs None ∅).

(** The serial of the comment in [_fileFor], and one of a camera. *)
Lemma file_stays_inside_witness :
  match _fileFor demo_dir (units_of "../../authorized_keys") with
  | Some path => exists name, path = demo_dir ++ slash :: name ++ dot_json /\ slash ∉ name
  | None => False
  end /\
  _fileFor demo_dir (units_of "C3461320000001") <> _fileFor demo_dir (units_of "C3461320000000").
Proof.
  split.
  - pose proof (file_stays_inside demo_dir (units_of "../../authorized_keys")) as H.
    destruct (_fileFor demo_dir (units_of "../../authorized_keys")) as [path|] eqn:E; [|vm_compute in E; discriminate].
    destruct H as (name & ? & _ & ? & _). by exists name.
  - pose proof (file_stays_inside demo_dir (units_of "C3461320000000")) as H. intros E1.
    destruct (_fileFor demo_dir (units_of "C3461320000000")) as [path|] eqn:E0; [|vm_compute in E0; discriminate].
    destruct H as (name & _ & _ & _ & _ & H). specialize (H (units_of "C3461320000001")).
    assert (units_of "C3461320000001" = units_of "C3461320000000") as Heq; [|vm_compute in Heq; discriminate].
    apply H; [apply (bool_decide_unpack _); vm_compute; exact I .. | exact E1].
Defined.

(** The file after the credentials are written. *)
Lemma secret_is_private_witness :
  let t := demo_written ChmodDone ChmodDone (units_of "C346") demo_credentials no_files in
  match files t !! (demo_dir ++ slash :: units_of "C346.json") with
  | Some f => mode f = 384 /\ contents f <> EmptyString
  | None => False
  end.
Proof.
  intros t. destruct (files t !! _) as [f|] eqn:Hf; [|vm_compute in Hf; discriminate].
  assert (ChmodDone <> ChmodFailed) as He by discriminate.
  assert (contents f <> EmptyString) as Hc by (vm_compute in Hf; injection Hf as <-; discriminate).
  split; [|exact Hc].
  assert (t ∈ (demo_write ChmodDone ChmodDone (units_of "C346") demo_credentials no_files).1) as Ht.
  { unfold t, written. cbn [write _fileFor]. apply list_elem_of_In. right. right. right. right. left. reflexivity. }
  destruct (secret_is_private id demo_encode demo_dir 493 420 ChmodDone ChmodDone (units_of "C346") demo_credentials
              no_files t _ f He Ht Hf) as [H|[(f0 & H & _)|H]]; [by destruct Hc | | exact H].
  cbn in H. by rewrite lookup_empty in H.
Defined.

Lemma store_roundtrip_witness :
  demo_read (demo_written ChmodDone ChmodDone (units_of "C346/7") demo_credentials no_files) (units_of "C346/7") =
    inl (Some demo_credentials) /\
  demo_read (demo_written ChmodDone ChmodFailed (units_of "C346/7") demo_credentials no_files) (units_of "C346/7") =
    inr (TooOpen 420).
Proof.
  assert (_fileFor demo_dir (units_of "C346/7") = Some (demo_dir ++ slash :: units_of "C346_7" ++ dot_json)) as Hp
    by (vm_compute; reflexivity).
  assert (ChmodDone <> NoChmod /\ ChmodFailed <> NoChmod) as [Hd Hf] by (split; discriminate).
  split.
  - refine (proj1 (proj2 (store_roundtrip id Some _ demo_encode demo_decode _ demo_dir 493 420 ChmodDone ChmodDone _ _
      demo_credentials no_files Hd Hd Hp)) eq_refl); [reflexivity | intros m _ _; apply demo_codec].
  - refine (proj2 (proj2 (proj2 (proj2 (store_roundtrip id Some _ demo_encode demo_decode _ demo_dir 493 420
      ChmodDone ChmodFailed _ _ demo_credentials no_files Hd Hf Hp)))) eq_refl 420 _ _);
      [reflexivity | intros m _ _; apply demo_codec | reflexivity | vm_compute; discriminate].
Defined.

(** ** What modelling showed *)

(** The exit code of [chmod] is not looked at: if it fails, as on a file system
    without modes, [write] leaves the credentials readable to all and says nothing. *)
Example chmod_failure_ignored :
  (demo_write ChmodFailed ChmodFailed (units_of "C346") demo_credentials no_files).2 = inl tt /\
  mode <$> files (demo_written ChmodFailed ChmodFailed (units_of "C346") demo_credentials no_files)
    !! (demo_dir ++ slash :: units_of "C346.json") = Some 420.
Proof. split; vm_compute; reflexivity. Qed.

(** Serials that differ in unusable characters only share a file. *)
Example serials_collide : _fileFor demo_dir (units_of "A.1") = _fileFor demo_dir (units_of "A/1").
Proof. reflexivity. Qed.

(** A variable that is set and empty counts as set, against the XDG specification:
    the credentials go to the root directory. *)
Example empty_state_home : default_directory (Some []) (Some (chars "/home/u")) = Some (chars "/gopro_native").
Proof. reflexivity. Qed.
