(* ===== verification/CohnClient.v ===== *)
(** * COHN provisioning
    ([lib/src/cohn/cohn_client.dart], [lib/src/cohn/cohn_http.dart])

    The requests of COHN over BLE and [provision], which creates a certificate,
    turns COHN on and polls the status until the camera has an address.  What the
    camera answers to each request, and the wall clock at each turn of the loop,
    are arguments; the generated codecs are parameters.  TLS is outside. *)

From Stdlib Require Import Ascii.
From stdpp Require Import strings.
From S2P Require Import Prelude CommandQueue GlazeMeta GoproUsb HttpMessage ProtoReply CohnStore.
Local Open Scope Z_scope.

Inductive cohn_error :=
| Call (e : call_error)
| Refused (result : Z)                        (** [CohnException] *)
| EmptyCertificate
| NoCredentials
| TimedOut
| Unimplemented.                              (** [UnimplementedError] *)

(** [NotifyCOHNStatus]; a field that is absent is [None]. *)
Record NotifyCOHNStatus := mkNotifyCOHNStatus {
  s_status : option Z;
  s_username : option string;
  s_password : option string;
  s_ipaddress : option string;
  s_ssid : option string;
  s_macaddress : option string;
}.

Definition COHN_PROVISIONED : Z := 1.

Section client.
Variable status_fromBuffer : list Z -> option NotifyCOHNStatus.
Variable generic_fromBuffer : list Z -> option Z.
(** [ResponseCOHNCert]: the result and the certificate. *)
Variable cert_fromBuffer : list Z -> option (option Z * option string).

Definition status (r : camera_reply) : NotifyCOHNStatus + cohn_error :=
  match decoded status_fromBuffer r with inl s => inl s | inr e => inr (Call e) end.

(** [_command]: a bare reply counts as success. *)
Definition _command (r : camera_reply) : unit + cohn_error :=
  match answered r with
  | inr e => inr (Call e)
  | inl [] => inl tt
  | inl reply =>
      match generic_fromBuffer reply with
      | None => inr (Call Undecodable)
      | Some result => if result =? RESULT_SUCCESS then inl tt else inr (Refused result)
      end
  end.

(** [RequestCreateCOHNCert.override] is sent; the answer does not depend on it. *)
Definition createCertificate (bypassEulaCheck : bool) (r : camera_reply) : unit + cohn_error :=
  if bypassEulaCheck then inr Unimplemented else _command r.

Definition clearCertificate : camera_reply -> unit + cohn_error := _command.
Definition setEnabled : camera_reply -> unit + cohn_error := _command.

Definition get_certificate (r : camera_reply) : string + cohn_error :=
  match decoded cert_fromBuffer r with
  | inr e => inr (Call e)
  | inl (result, cert) =>
      if from_option (fun x => negb (x =? RESULT_SUCCESS)) false result then inr (Refused (default 0 result))
      else
        match cert with
        | Some c => if bool_decide (c = EmptyString) then inr EmptyCertificate else inl c
        | None => inr EmptyCertificate
        end
  end.

Definition connected (s : NotifyCOHNStatus) : bool :=
  match s_status s, s_ipaddress s with
  | Some x, Some ip => (x =? COHN_PROVISIONED) && negb (bool_decide (ip = EmptyString))
  | _, _ => false
  end.

(** What a status decides, in the loop of [provision]; [certificate] is the
    answer to the request it makes then. *)
Definition provisioned (certificate : camera_reply) (s : NotifyCOHNStatus) : option (CohnCredentials + cohn_error) :=
  if connected s then
    Some match s_username s, s_password s with
         | Some u, Some p =>
             match get_certificate certificate with
             | inl c => inl (mkCohnCredentials u p c (s_ipaddress s) (s_ssid s) (s_macaddress s))
             | inr e => inr e
             end
         | _, _ => inr NoCredentials
         end
  else None.

Section provision.
(** What the camera answers: to the two commands, to each status request, and for
    the certificate. *)
Variables created enabled : camera_reply.
Variable statuses : nat -> camera_reply.
Variable certificate : camera_reply.

Variable clock : nat -> Z.
Variables start timeout poll : Z.

(** The [n]th status of the loop, or what throws out of it. *)
Definition polled (n : nat) : NotifyCOHNStatus + (CohnCredentials + cohn_error) :=
  match status (statuses n) with inl s => inl s | inr e => inr (inr e) end.

Definition provision (fuel : nat) : option (CohnCredentials + cohn_error) :=
  match createCertificate false created with
  | inr e => Some (inr e)
  | inl _ =>
      match setEnabled enabled with
      | inr e => Some (inr e)
      | inl _ => poll_until polled (provisioned certificate) (inr TimedOut) clock start timeout fuel 0
      end
  end.

(** Usable with [CohnHttp]: an address, and a certificate to pin. *)
Definition complete (c : CohnCredentials) : Prop :=
  (exists ip, CohnStore.ipAddress c = Some ip /\ ip <> EmptyString) /\ CohnStore.certificate c <> EmptyString.

Lemma get_certificate_result r :
  match get_certificate r with inl c => c <> EmptyString | inr e => e <> TimedOut end.
Proof.
  unfold get_certificate. destruct (decoded _ _) as [[x [c|]]|]; try done; destruct (from_option _ _ _); try done.
  by case_bool_decide.
Qed.

Lemma command_result r e : _command r = inr e -> e <> TimedOut.
Proof.
  unfold _command. destruct (answered r) as [[|]|]; [done | | by intros [= <-]].
  destruct (generic_fromBuffer _) as [x|]; [destruct (x =? _)|]; by intros [= <-] || done.
Qed.

Lemma status_result r e : status r = inr e -> e <> TimedOut.
Proof. unfold status. destruct (decoded _ _); [done|]. by intros [= <-]. Qed.

Lemma provisioned_connected s :
  match provisioned certificate s with
  | None => connected s = false
  | Some r => connected s = true /\ r <> inr TimedOut
  end.
Proof.
  unfold provisioned. destruct (connected s); [|done]. split; [done|].
  destruct (s_username s), (s_password s); try done.
  pose proof (get_certificate_result certificate) as H. destruct (get_certificate certificate); congruence.
Qed.

Lemma provisioned_complete s c : provisioned certificate s = Some (inl c) ->
  complete c /\ s_status s = Some COHN_PROVISIONED /\ s_username s = Some (CohnStore.username c) /\
  s_password s = Some (CohnStore.password c) /\ s_ipaddress s = CohnStore.ipAddress c.
Proof.
  unfold provisioned, connected. destruct (s_status s) as [x|]; [|done].
  destruct (s_ipaddress s) as [ip|]; [|done]. destruct (_ && _) eqn:E; [|done].
  apply andb_prop in E as [->%Z.eqb_eq Hip%negb_true_iff%bool_decide_eq_false].
  destruct (s_username s), (s_password s); try done.
  pose proof (get_certificate_result certificate) as Hc.
  destruct (get_certificate certificate) as [cert|]; [|done]. intros [= <-].
  split_and!; try done. split; cbn; [by exists ip | done].
Qed.

(** C37: provisioning ends, however the camera behaves, provided the wall clock
    shows at least the poll interval more at every turn of the loop than at the
    turn before ([ticking]; the loop sleeps that long, but a clock that is set back
    meanwhile does not, and the bound then fails: [clock_set_back]).  It gives credentials only from a status that says provisioned
    and has an address, read before the deadline, and they are complete: the
    address is not empty and the certificate is not.  It times out only once the
    deadline has passed and no status before it was connected; and it asks nothing
    of the status when the certificate or the switch was refused. *)
Theorem provision_ends :
  0 < poll -> ticking clock start poll ->
  exists r, provision (poll_fuel timeout poll) = Some r /\
  match r with
  | inl c => complete c /\ exists n s, status (statuses n) = inl s /\ clock n - start < timeout /\
      s_status s = Some COHN_PROVISIONED /\ s_ipaddress s = CohnStore.ipAddress c /\
      s_username s = Some (CohnStore.username c) /\ s_password s = Some (CohnStore.password c)
  | inr TimedOut => exists n, timeout <= clock n - start /\
      forall k, (k < n)%nat -> exists s, status (statuses k) = inl s /\ connected s = false
  | inr e => _command created = inr e \/ _command enabled = inr e \/
      exists n, status (statuses n) = inr e \/
        exists s, status (statuses n) = inl s /\ connected s = true
  end.
Proof.
  intros Hp Ht. unfold provision, createCertificate, setEnabled.
  destruct (_command created) as [[]|e] eqn:E1.
  2: { exists (inr e). split; [done|]. pose proof (command_result _ _ E1). destruct e; auto; done. }
  destruct (_command enabled) as [[]|e] eqn:E2.
  2: { exists (inr e). split; [done|]. pose proof (command_result _ _ E2). destruct e; auto; done. }
  destruct (poll_until_spec polled (provisioned certificate) (inr TimedOut) clock start timeout poll Hp Ht)
    as (r & n & -> & He & Hu).
  exists r. split; [done|].
  assert (forall k, (k < n)%nat -> exists s, status (statuses k) = inl s /\ connected s = false) as Hbefore.
  { intros k Hk. destruct (Hu k Hk) as (_ & s & Hs & Hv). exists s. unfold polled in Hs.
    pose proof (provisioned_connected s) as Hc. rewrite Hv in Hc.
    destruct (status (statuses k)); [by injection Hs as -> | done]. }
  destruct He as [[Hl ->]|[Hl He]]; unfold in_time in Hl; to_prop.
  { by exists n. }
  unfold polled in He. destruct (status (statuses n)) as [s|e] eqn:Es.
  - destruct He as [He|(s' & [= <-] & Hv)]; [done|].
    pose proof (provisioned_connected s) as Hc. rewrite Hv in Hc. destruct Hc as [Hc Hne]. destruct r as [c|e].
    + destruct (provisioned_complete s c Hv) as (? & ? & ? & ? & ?). split; [done|]. by exists n, s.
    + destruct e; try done; do 2 right; exists n; right; by exists s.
  - destruct He as [[= <-]|(s' & He & _)]; [|done].
    pose proof (status_result _ _ Es). destruct e; try done; do 2 right; exists n; by left.
Qed.
End provision.
End client.

(** ** Using the credentials *)

Definition basicAuthHeader (username password : string) : text :=
  chars "Basic " ++ base64Encode (string_bytes (username +:+ ":" +:+ password)).

(** [CohnHttp._baseUri]; [None]: [ArgumentError]. *)
Definition _baseUri (credentials : CohnCredentials) (host : option string) : option string :=
  h ← match host with Some h => Some h | None => CohnStore.ipAddress credentials end;
  Some ("https://" +:+ h +:+ "/").

Lemma basicAuthHeader_token c : basicAuthHeader (CohnStore.username c) (CohnStore.password c) = basicAuth c.
Proof. unfold basicAuthHeader, basicAuth, string_bytes. by rewrite !chars_app, !fmap_app. Qed.

(** ** Witnesses *)

(** One byte that says how far the camera has come. *)
Definition demo_status (b : list Z) : option NotifyCOHNStatus :=
  match b with
  | [0] => Some (mkNotifyCOHNStatus (Some 0) None None None None None)
  | [1] => Some (mkNotifyCOHNStatus (Some 1) (Some "gopro") (Some "pass") None None None)
  | [2] => Some (mkNotifyCOHNStatus (Some 1) (Some "gopro") (Some "pass") (Some "10.0.0.7") None None)
  | _ => None
  end.

Definition demo_cert (b : list Z) : option (option Z * option string) :=
  match b with [] => Some (None, Some "PEM") | x :: _ => Some (Some x, None) end.

(** Provisioned at the second status, with an address at the twelfth. *)
Definition demo_statuses (n : nat) : camera_reply :=
  Completed kResponded [245; 239; if (n <? 1)%nat then 0 else if (n <? 11)%nat then 1 else 2].

Definition demo_ok : camera_reply := Completed kResponded [241; 231; 1].

Abbreviation demo_provision timeout :=
  (provision demo_status head demo_cert demo_ok demo_ok demo_statuses (Completed kResponded [245; 238])
     (fun n => 2000 * Z.of_nat n) 0 timeout).

Lemma provision_ends_witness :
  demo_provision 120000 (poll_fuel 120000 2000) =
    Some (inl (mkCohnCredentials "gopro" "pass" "PEM" (Some "10.0.0.7") None None)) /\
  exists n, 20000 <= 2000 * Z.of_nat n.
Proof.
  split; [vm_compute; reflexivity|].
  destruct (provision_ends demo_status head demo_cert demo_ok demo_ok demo_statuses (Completed kResponded [245; 238])
              (fun n => 2000 * Z.of_nat n) 0 20000 2000) as (r & E & H); [lia | split; lia |].
  assert (r = inr TimedOut) as -> by (vm_compute in E; by injection E as <-).
  destruct H as (n & H & _). exists n. lia.
Defined.

(** ** What modelling showed *)

(** The deadline is kept by the wall clock.  Set back by an hour after the first
    status, as when a host learns the time, it lets [provision] wait for an hour
    more: here 199 polls of two seconds, for a timeout of 120. *)
Example clock_set_back :
  provision demo_status head demo_cert demo_ok demo_ok (fun _ => Completed kResponded [245; 239; 0]) demo_ok
    (fun n => 2000 * Z.of_nat n - if (n =? 0)%nat then 0 else 3600000) 0 120000 199 = None.
Proof. vm_compute. reflexivity. Qed.
