(* ===== verification/WifiHost.v ===== *)
(** * Secrets and the camera's access point
    ([lib/src/secret.dart], [lib/src/wifi/wifi_controller.dart],
    [lib/src/wifi/access_point.dart])

    The comparison of secrets, the arguments nmcli is run with, what becomes of its
    output, and the order in which the access point is turned on, its credentials
    are read and the host joins.  What a process ends with, and the lenient UTF-8
    decoder, are arguments.  Text is a list of bytes. *)

From Stdlib Require Import Ascii.
From stdpp Require Import strings.
From S2P Require Import Prelude CommandQueue GlazeMeta GoproUsb HttpMessage GoproHttp ProtoReply.
Local Open Scope Z_scope.

(** ** Secrets *)

(** The loop of [operator ==], over [min] of the lengths. *)
Fixpoint diff_units (diff : Z) (a b : list Z) : Z :=
  match a, b with
  | x :: a, y :: b => diff_units (Z.lor diff (Z.lxor x y)) a b
  | _, _ => diff
  end.

Definition secret_eq (a b : list Z) : bool :=
  diff_units (Z.lxor (Z.of_nat (length a)) (Z.of_nat (length b))) a b =? 0.

(** [toString]. *)
Definition secret_toString (a : list Z) : string := "<redacted>".

Definition secret_hashCode (a : list Z) : Z := Z.of_nat (length a).

Lemma diff_units_zero a : forall b diff, diff_units diff a b = 0 <->
  diff = 0 /\ take (length b) a = take (length a) b.
Proof.
  induction a as [|x a IH]; intros [|y b] diff; cbn; [tauto..|].
  rewrite IH, Z.lor_eq_0_iff, Z.lxor_eq_0_iff. split; [intros ((-> & ->) & ->); auto | intros (-> & [= -> ->]); auto].
Qed.

(** Two secrets are equal as the constant-time loop compares them exactly when
    they are the same, and equal secrets have one hash. *)
Theorem secret_eq_correct a b :
  (secret_eq a b = true <-> a = b) /\ (secret_eq a b = true -> secret_hashCode a = secret_hashCode b).
Proof.
  assert (secret_eq a b = true <-> a = b) as H; [|split; [done|]; by intros ->%H].
  unfold secret_eq. rewrite Z.eqb_eq, diff_units_zero, Z.lxor_eq_0_iff. split.
  - intros (Hl & Ht). apply Nat2Z.inj in Hl. by rewrite Hl, firstn_all, <- Hl, firstn_all in Ht.
  - by intros ->.
Qed.

(** ** nmcli *)

Record ApCredentials := mkApCredentials { ssid : text; password : text }.

(** What [Process.run] ends with. *)
Inductive process_end :=
| Exited (exitCode : Z) (stdout stderr : text)
| CannotRun (message : text).                  (** [ProcessException] *)

(** [WifiJoinException]. *)
Record WifiJoinException := mkWifiJoinException { message : string; detail : text }.

Definition joinArgs (wait_seconds : option text) (c : ApCredentials) : list text :=
  match wait_seconds with Some s => [chars "--wait"; s] | None => [] end ++
  [chars "device"; chars "wifi"; chars "connect"; ssid c; chars "password"; password c].

Definition leaveArgs (c : ApCredentials) : list text := [chars "connection"; chars "down"; ssid c].

Fixpoint starts_with (p l : text) : bool :=
  match p, l with
  | [], _ => true
  | x :: p, y :: l => Ascii.eqb x y && starts_with p l
  | _, _ => false
  end.

(** [l.replaceAll(from, to)], for [from] not empty: from the left, past what was
    replaced; [skip] characters of it are still to be passed over. *)
Fixpoint replace_from (from to : text) (skip : nat) (l : text) : text :=
  match l with
  | [] => []
  | c :: t =>
      match skip with
      | S skip => replace_from from to skip t
      | O =>
          if starts_with from l then to ++ replace_from from to (length from - 1) t
          else c :: replace_from from to 0 t
      end
  end.

Definition replaceAll (from to l : text) : text := replace_from from to 0 l.

Definition marker : text := chars "<passphrase>".

Definition _redact (stdout stderr secret : text) : text :=
  let text := trim (stdout ++ stderr) in
  if is_nil secret then text else replaceAll secret marker text.

(** [NmcliWifiController.join]. *)
Definition nmcli_join (run : process_end) (c : ApCredentials) : unit + WifiJoinException :=
  match run with
  | CannotRun message => inr (mkWifiJoinException "cannot run nmcli" message)
  | Exited exitCode stdout stderr =>
      if exitCode =? 0 then inl tt
      else inr (mkWifiJoinException "nmcli could not join" (_redact stdout stderr (password c)))
  end.

Lemma starts_with_prefix p l : starts_with p l = true <-> p `prefix_of` l.
Proof.
  revert l. induction p as [|x p IH]; intros [|y l]; cbn.
  - split; [intros _; apply prefix_nil | done].
  - split; [intros _; apply prefix_nil | done].
  - split; [done | by intros [? ?]].
  - rewrite andb_true_iff, IH, Ascii.eqb_eq. split.
    + intros (-> & H). by apply prefix_cons.
    + intros H. split; [by eapply prefix_cons_inv_1 | by eapply prefix_cons_inv_2].
Qed.

Lemma replace_skip_drop from to k l : replace_from from to k l = replaceAll from to (drop k l).
Proof. revert l. induction k as [|k IH]; intros [|c l]; cbn; [done..|]. apply IH. Qed.

(** Up to the first marker, the text is as it was. *)
Lemma replaced_prefix from to s : forall l, (forall c r, to = c :: r -> c ∉ s) -> to <> [] ->
  s `prefix_of` replaceAll from to l -> s `prefix_of` l.
Proof.
  induction s as [|x s IH]; intros l Hto Hne Hp; [apply prefix_nil|].
  unfold replaceAll in Hp. destruct l as [|c l]; cbn in Hp; [done|].
  destruct (starts_with from (c :: l)).
  - exfalso. destruct to as [|m r]; [done|]. cbn in Hp. apply prefix_cons_inv_1 in Hp as ->.
    apply (Hto m r eq_refl). by left.
  - apply prefix_cons_inv_1 in Hp as Hx. apply prefix_cons_inv_2 in Hp. subst c. apply prefix_cons.
    apply IH; [|done..]. intros m r Hm Hin. by apply (Hto m r Hm); right.
Qed.

Definition occurs (s l : text) : Prop := exists a b, l = a ++ s ++ b.

Fixpoint occurs_in (s l : text) : bool :=
  starts_with s l || match l with [] => false | _ :: t => occurs_in s t end.

Lemma occurs_in_spec s l : occurs_in s l = true <-> occurs s l.
Proof.
  induction l as [|c l IH]; cbn [occurs_in]; rewrite orb_true_iff, starts_with_prefix.
  - split.
    + intros [[k ->]|]; [by exists [], k | done].
    + intros (a & b & E). left. destruct a; [by exists b | done].
  - rewrite IH. split.
    + intros [[k ->]|(a & b & ->)]; [by exists [], k | by exists (c :: a), b].
    + intros ([|x a] & b & E); [left; by exists b | right]. injection E as _ ->. by exists a, b.
Qed.

(** A text whose first character, last character and inside the secret avoids. *)
Lemma replaced_free s m : s <> [] -> ~ occurs s ("<"%char :: m ++ [">"%char]) -> "<"%char ∉ s -> ">"%char ∉ s ->
  forall n l, (length l <= n)%nat -> ~ occurs s (replaceAll s ("<"%char :: m ++ [">"%char]) l).
Proof.
  intros Hne Hm Hlt Hgt. set (mk := "<"%char :: m ++ [">"%char]) in *.
  assert (forall u v rest, mk = u ++ v -> v <> [] -> s `prefix_of` v ++ rest -> False) as Hin.
  { intros u v rest Hmk Hv [k Hk]. assert (exists v', v = v' ++ [">"%char]) as [v' ->].
    { destruct (exists_last Hv) as (v' & z & ->). exists v'. unfold mk in Hmk.
      rewrite app_comm_cons, app_assoc in Hmk. apply app_inj_tail in Hmk as [_ <-]. done. }
    rewrite <- app_assoc in Hk. cbn in Hk. apply app_eq_app in Hk as (w & [[E1 E2]|[E1 E2]]).
    - destruct w as [|z w].
      + rewrite app_nil_r in E1. subst v'. apply Hm. exists u, [">"%char]. by rewrite Hmk.
      + apply Hm. exists u, ((z :: w) ++ [">"%char]). by rewrite Hmk, E1, <- app_assoc.
    - destruct w as [|z w].
      + rewrite app_nil_r in E1. apply Hm. exists u, [">"%char]. by rewrite Hmk, <- E1.
      + injection E2 as <- _. apply Hgt. rewrite E1. apply elem_of_app. right. by left. }
  induction n as [|n IH]; intros l Hl (a & b & E).
  - destruct l; [|cbn in Hl; lia]. cbn in E. by destruct a, s.
  - destruct l as [|c l]; [by destruct a, s|].
    unfold replaceAll in E. cbn [replace_from] in E.
    destruct (starts_with s (c :: l)) eqn:Es.
    + rewrite replace_skip_drop in E. set (rest := replaceAll s mk (drop (length s - 1) l)) in *.
      apply app_eq_app in E as (w & [[E1 E2]|[E1 E2]]).
      * destruct w as [|z w].
        -- apply (IH (drop (length s - 1) l)); [rewrite length_drop; cbn in Hl; lia|]. by exists [], b.
        -- apply (Hin a (z :: w) rest); [done | done |]. by exists b.
      * apply (IH (drop (length s - 1) l)); [rewrite length_drop; cbn in Hl; lia|]. by exists w, b.
    + destruct a as [|x a].
      * assert (s `prefix_of` c :: l) as Hp.
        { apply (replaced_prefix s mk); [|done|].
          - by intros ? ? [= <- _].
          - unfold replaceAll. cbn [replace_from]. rewrite Es. by exists b. }
        apply starts_with_prefix in Hp. congruence.
      * injection E as _ E. apply (IH l); [cbn in Hl; lia|]. by exists a, b.
Qed.

(** C40: nmcli's output does not carry the passphrase into the exception: whatever
    it printed, the detail does not contain the passphrase anywhere, if that has no
    angle bracket and is not part of the word [passphrase]. *)
Theorem passphrase_redacted run c e :
  nmcli_join run c = inr e -> (exists code out err, run = Exited code out err) ->
  password c <> [] -> "<"%char ∉ password c -> ">"%char ∉ password c -> ~ occurs (password c) marker ->
  ~ occurs (password c) (detail e).
Proof.
  intros E (code & out & err & ->) Hne Hlt Hgt Hm. cbn in E. destruct (code =? 0); [done|]. injection E as <-.
  cbn [detail]. unfold _redact. destruct (password c) as [|x s] eqn:Ep; [done|]. cbn [is_nil].
  by eapply (replaced_free (x :: s) (chars "passphrase")).
Qed.

(** ** The access point *)

Inductive ap_error :=
| NotSent
| Unanswered (o : Outcome)
| RefusedAp (status : Z)
| Unread                                       (** what [readCharacteristic] throws *)
| EmptyText (what : string)
| NotJoined (e : WifiJoinException).

Definition setEnabled (r : camera_reply) : unit + ap_error :=
  match r with
  | SendThrew => inr NotSent
  | Completed kResponded (_ :: status :: _) => if status =? 0 then inl tt else inr (RefusedAp status)
  | Completed kResponded _ => inl tt
  | Completed o _ => inr (Unanswered o)
  end.

Definition quote : ascii := byte_char 34.

(** [ManualWifiController.join], with and without somebody to instruct. *)
Definition manual_join (onInstruction : bool) (c : ApCredentials) : unit + WifiJoinException :=
  if onInstruction then inl tt
  else
    inr (mkWifiJoinException "no Wi-Fi controller is configured"
           (chars "Join the camera access point " ++ [quote] ++ ssid c ++ [quote] ++
            chars " on this host, then retry. Its passphrase came from the camera over BLE and is on the ApCredentials passed here.")).

Section access_point.
(** [utf8.decode] with [allowMalformed]. *)
Variable utf8_decode : list Z -> text.

Definition _text (bytes : list Z) (what : string) : text + ap_error :=
  match bytes with [] => inr (EmptyText what) | _ => inl (trim (utf8_decode bytes)) end.

(** What the two characteristics read as; [None]: the read throws. *)
Definition credentials (ssid_read password_read : option (list Z)) : ApCredentials + ap_error :=
  match ssid_read with
  | None => inr Unread
  | Some b =>
      match _text b "SSID" with
      | inr e => inr e
      | inl s =>
          match password_read with
          | None => inr Unread
          | Some b => match _text b "passphrase" with inr e => inr e | inl p => inl (mkApCredentials s p) end
          end
      end
  end.

Definition connect (r : camera_reply) (ssid_read password_read : option (list Z))
    (join : ApCredentials -> unit + WifiJoinException) : ApCredentials + ap_error :=
  match setEnabled r with
  | inr e => inr e
  | inl _ =>
      match credentials ssid_read password_read with
      | inr e => inr e
      | inl c => match join c with inl _ => inl c | inr e => inr (NotJoined e) end
      end
  end.
End access_point.

(** ** Witnesses and what modelling showed *)

Definition demo_ap : ApCredentials := mkApCredentials (chars "GP24500000") (chars "qqR-6ss-Tk4").

Lemma passphrase_redacted_witness :
  match nmcli_join (Exited 10 [] (chars "Error: secrets qqR-6ss-Tk4 for GP24500000 refused: qqR-6ss-Tk4")) demo_ap with
  | inr e => ~ occurs (chars "qqR-6ss-Tk4") (detail e) /\
      detail e = chars "Error: secrets <passphrase> for GP24500000 refused: <passphrase>"
  | inl _ => False
  end.
Proof.
  destruct (nmcli_join _ demo_ap) as [|e] eqn:E; [vm_compute in E; discriminate|]. split.
  - apply (passphrase_redacted _ demo_ap e E).
    + by do 3 eexists.
    + discriminate.
    + apply (bool_decide_unpack _). vm_compute. exact I.
    + apply (bool_decide_unpack _). vm_compute. exact I.
    + intros H%occurs_in_spec. vm_compute in H. discriminate.
  - vm_compute in E. injection E as <-. reflexivity.
Defined.

Lemma secret_eq_correct_examples : secret_eq [112; 119] [112; 119] = true /\ secret_eq [112; 119] [112; 119; 0] = false.
Proof. by split. Qed.

(** A passphrase that occurs in the replacement survives it. *)
Example redaction_carries_word :
  nmcli_join (Exited 10 [] (chars "bad: passphrase")) (mkApCredentials [] (chars "passphrase")) =
  inr (mkWifiJoinException "nmcli could not join" (chars "bad: <passphrase>")).
Proof. reflexivity. Qed.
