(* ===== verification/Streaming.v ===== *)
(** * Livestream and webcam
    ([lib/src/streaming/livestream.dart], [lib/src/streaming/webcam.dart])

    What the clients make of the camera's answers.  The answers, the wall clock at
    each turn of [waitUntilReady] and the generated codec are arguments; no frame
    passes through the program. *)

From stdpp Require Import strings.
From S2P Require Import Prelude CommandQueue ProtoReply.
Local Open Scope Z_scope.

(** ** Livestream *)

Inductive EnumLiveStreamStatus :=
| LIVE_STREAM_STATE_IDLE | LIVE_STREAM_STATE_CONFIG | LIVE_STREAM_STATE_READY | LIVE_STREAM_STATE_STREAMING
| LIVE_STREAM_STATE_COMPLETE_STAY_ON | LIVE_STREAM_STATE_FAILED_STAY_ON | LIVE_STREAM_STATE_RECONNECTING
| LIVE_STREAM_STATE_UNAVAILABLE.

#[global] Instance EnumLiveStreamStatus_eq_dec : EqDecision EnumLiveStreamStatus.
Proof. solve_decision. Defined.

(** [NotifyLiveStreamStatus], the fields that are read; [None] is absent. *)
Record NotifyLiveStreamStatus := mkNotifyLiveStreamStatus {
  liveStreamStatus : option EnumLiveStreamStatus;
  liveStreamError : option Z;
}.

Inductive live_error :=
| Call (e : call_error)
| ConfigureFailed (error : option Z)           (** [LivestreamException] *)
| UnavailableHere
| TimedOut
| NoUrl.                                       (** [ArgumentError] *)

Section livestream.
Variable fromBuffer : list Z -> option NotifyLiveStreamStatus.

Definition status (r : camera_reply) : NotifyLiveStreamStatus + live_error :=
  match decoded fromBuffer r with inl s => inl s | inr e => inr (Call e) end.

(** Whether [configure], [start] and [stop] succeed: only the outcome is looked at. *)
Definition accepted (r : camera_reply) : unit + live_error :=
  match r with
  | SendThrew => inr (Call NotSent)
  | Completed kResponded _ => inl tt
  | Completed o _ => inr (Call (Unanswered o))
  end.

Definition configure (url : string) (r : camera_reply) : unit + live_error :=
  if bool_decide (url = EmptyString) then inr NoUrl else accepted r.

(** What [_shutter] sends on the command channel, and how. *)
Definition shutter_payload (setShutter : Z) (on : bool) : list Z := [setShutter; 1; if on then 1 else 0].
Definition shutter_priority (on : bool) : Priority := if on then kQueued else kFastpass.
Definition _shutter : camera_reply -> unit + live_error := accepted.

(** What a status decides, in the loop of [waitUntilReady]. *)
Definition ready_verdict (s : NotifyLiveStreamStatus) : option (NotifyLiveStreamStatus + live_error) :=
  match liveStreamStatus s with
  | Some (LIVE_STREAM_STATE_READY | LIVE_STREAM_STATE_STREAMING) => Some (inl s)
  | Some LIVE_STREAM_STATE_FAILED_STAY_ON => Some (inr (ConfigureFailed (liveStreamError s)))
  | Some LIVE_STREAM_STATE_UNAVAILABLE => Some (inr UnavailableHere)
  | _ => None
  end.

Section wait.
Variable statuses : nat -> camera_reply.
Variable clock : nat -> Z.
Variables start timeout poll : Z.

Definition polled (n : nat) : NotifyLiveStreamStatus + (NotifyLiveStreamStatus + live_error) :=
  match status (statuses n) with inl s => inl s | inr e => inr (inr e) end.

Definition waitUntilReady (fuel : nat) : option (NotifyLiveStreamStatus + live_error) :=
  poll_until polled ready_verdict (inr TimedOut) clock start timeout fuel 0.

(** Still to be waited for. *)
Definition underway (s : NotifyLiveStreamStatus) : Prop :=
  liveStreamStatus s ∈ [None; Some LIVE_STREAM_STATE_IDLE; Some LIVE_STREAM_STATE_CONFIG;
                        Some LIVE_STREAM_STATE_COMPLETE_STAY_ON; Some LIVE_STREAM_STATE_RECONNECTING].

Lemma ready_verdict_spec s :
  match ready_verdict s with
  | None => underway s
  | Some (inl s') => s' = s /\ liveStreamStatus s ∈ [Some LIVE_STREAM_STATE_READY; Some LIVE_STREAM_STATE_STREAMING]
  | Some (inr e) =>
      (liveStreamStatus s = Some LIVE_STREAM_STATE_FAILED_STAY_ON /\ e = ConfigureFailed (liveStreamError s)) \/
      (liveStreamStatus s = Some LIVE_STREAM_STATE_UNAVAILABLE /\ e = UnavailableHere)
  end.
Proof.
  unfold ready_verdict, underway. destruct (liveStreamStatus s) as [[]|]; try (split; [done|]); try set_solver; auto.
Qed.

(** Waiting for the stream ends, provided the wall clock moves forward, and
    says what the camera said: ready with the status that was, a failure with the
    camera's own error, or unavailable; until then every status was on the way
    there.  It times out only after the deadline. *)
Theorem wait_until_ready_ends :
  0 < poll -> ticking clock start poll ->
  exists r n, waitUntilReady (poll_fuel timeout poll) = Some r /\
  (forall k, (k < n)%nat -> exists s, status (statuses k) = inl s /\ underway s) /\
  match r with
  | inr TimedOut => timeout <= clock n - start
  | inr (ConfigureFailed err) => exists s, status (statuses n) = inl s /\
      liveStreamStatus s = Some LIVE_STREAM_STATE_FAILED_STAY_ON /\ liveStreamError s = err
  | inr UnavailableHere => exists s, status (statuses n) = inl s /\
      liveStreamStatus s = Some LIVE_STREAM_STATE_UNAVAILABLE
  | inr (Call e) => decoded fromBuffer (statuses n) = inr e
  | inr NoUrl => False
  | inl s => status (statuses n) = inl s /\ clock n - start < timeout /\
      liveStreamStatus s ∈ [Some LIVE_STREAM_STATE_READY; Some LIVE_STREAM_STATE_STREAMING]
  end.
Proof.
  intros Hp Ht. destruct (poll_until_spec polled ready_verdict (inr TimedOut) clock start timeout poll Hp Ht)
    as (r & n & E & He & Hu).
  exists r, n. split; [exact E|]. unfold polled in He, Hu. split.
  { intros k Hk. destruct (Hu k Hk) as (_ & s & Hs & Hv). exists s. pose proof (ready_verdict_spec s) as H.
    rewrite Hv in H. destruct (status (statuses k)); [by injection Hs as -> | done]. }
  destruct He as [[Hl ->]|[Hl He]]; unfold in_time in Hl; to_prop; [done|].
  destruct (status (statuses n)) as [s|e] eqn:Es.
  - destruct He as [He|(s' & [= <-] & Hv)]; [done|]. pose proof (ready_verdict_spec s) as H. rewrite Hv in H.
    destruct r as [s'|e]; [by destruct H as [-> ?]|]. destruct H as [[? ->]|[? ->]]; by exists s.
  - destruct He as [[= <-]|(s' & He & _)]; [|done]. unfold status in Es.
    destruct (decoded fromBuffer (statuses n)); [done|]. by injection Es as <-.
Qed.
End wait.
End livestream.

(** ** Webcam *)

Inductive WebcamStatus := off | idle | highPowerPreview | lowPowerPreview.

Definition WebcamStatus_fromValue (v : Z) : option WebcamStatus :=
  match v with 0 => Some off | 1 => Some idle | 2 => Some highPowerPreview | 3 => Some lowPowerPreview | _ => None end.

Inductive WebcamError :=
| success | setPreset | setWindowSize | execStream | shutter | comTimeout | invalidParam | unavailable | exit.

#[global] Instance WebcamError_eq_dec : EqDecision WebcamError.
Proof. solve_decision. Defined.

Definition WebcamError_fromValue (v : Z) : option WebcamError :=
  match v with
  | 0 => Some success | 1 => Some setPreset | 2 => Some setWindowSize | 3 => Some execStream | 4 => Some shutter
  | 5 => Some comTimeout | 6 => Some invalidParam | 7 => Some unavailable | 8 => Some exit
  | _ => None
  end.

(** A JSON value, as far as [fromJson] looks. *)
Inductive json_value := JInt (v : Z) | JOther.

Record WebcamReply := mkWebcamReply {
  reply_status : option WebcamStatus;
  reply_error : option WebcamError;
  raw : list (string * json_value);
}.

Definition int_field {A} (fromValue : Z -> option A) (k : string) (json : list (string * json_value)) : option A :=
  match dict_get k json with Some (JInt v) => fromValue v | _ => None end.

Definition fromJson (json : list (string * json_value)) : WebcamReply :=
  mkWebcamReply (int_field WebcamStatus_fromValue "status" json) (int_field WebcamError_fromValue "error" json) json.

Definition ok (r : WebcamReply) : bool :=
  match reply_error r with None => true | Some e => bool_decide (e = success) end.

(** [_do]; [inr] is the [WebcamException]. *)
Definition _do (json : list (string * json_value)) : WebcamReply + WebcamReply :=
  let reply := fromJson json in if ok reply then inl reply else inr reply.

(** The documents [_do] throws for. *)
Lemma do_throws json r :
  _do json = inr r <-> r = fromJson json /\ exists v, dict_get "error" json = Some (JInt v) /\ 1 <= v <= 8.
Proof.
  unfold _do, ok, fromJson, int_field. cbn [reply_error].
  destruct (dict_get "error" json) as [[v|]|].
  - assert (match WebcamError_fromValue v with None => true | Some e => bool_decide (e = success) end = false
      <-> 1 <= v <= 8) as H.
    { unfold WebcamError_fromValue. destruct v as [|p|p]; [split; [done|lia]| |split; [done|lia]].
      do 4 (destruct p as [p|p|]; try (split; [done|lia]); try (split; [lia|done])). }
    destruct (match WebcamError_fromValue v with None => true | Some e => bool_decide (e = success) end).
    + split; [done|]. intros (_ & x & [= <-] & Hx). apply H in Hx. done.
    + split; [intros [= <-]; split; [done|]; exists v; split; [done|]; by apply H | by intros [-> _]].
  - split; [done|]. by intros (_ & x & H & _).
  - split; [done|]. by intros (_ & x & H & _).
Qed.

(** ** Witness, and what modelling showed *)

Definition demo_live (b : list Z) : option NotifyLiveStreamStatus :=
  match b with
  | [0] => Some (mkNotifyLiveStreamStatus (Some LIVE_STREAM_STATE_CONFIG) None)
  | [1] => Some (mkNotifyLiveStreamStatus (Some LIVE_STREAM_STATE_READY) None)
  | _ => None
  end.

(** Ready at the fifth status. *)
Definition demo_statuses (n : nat) : camera_reply :=
  Completed kResponded [245; 244; if (n <? 4)%nat then 0 else 1].

Lemma wait_until_ready_ends_witness :
  waitUntilReady demo_live demo_statuses (fun n => 1000 * Z.of_nat n) 0 30000 (poll_fuel 30000 1000) =
    Some (inl (mkNotifyLiveStreamStatus (Some LIVE_STREAM_STATE_READY) None)) /\
  exists n, 3000 <= 1000 * Z.of_nat n.
Proof.
  split; [vm_compute; reflexivity|].
  destruct (wait_until_ready_ends demo_live demo_statuses (fun n => 1000 * Z.of_nat n) 0 3000 1000) as (r & n & E & _ & H);
    [lia | split; lia |].
  assert (r = inr TimedOut) as -> by (vm_compute in E; by injection E as <-).
  exists n. lia.
Defined.

(** [configure], [start] and [stop] do not look at what the camera answered, only
    that it did: a refusal, as [setEnabled] and the COHN commands report it, passes. *)
Example refusal_ignored : configure "rtmp://x" (Completed kResponded [241; 249; 8; 2]) = inl tt /\
  _shutter (Completed kResponded [1; 2]) = inl tt.
Proof. by split. Qed.

(** An error code without a name counts as success. *)
Example unknown_error_is_ok : exists r, _do [("status", JInt 0); ("error", JInt 9)] = inl r.
Proof. by eexists. Qed.
