(* ===== verification/EventCodec.v ===== *)
(** * The Dart reader of discovery events
    ([lib/src/ffi/codec.dart], with the enumerations of [lib/src/ffi/types.dart])

    The other end of [GoproTypes]: the payload of an event is read field by
    field, in an order that has to match [glz::meta<gp::CameraRecord>].  A
    reader works on the payload from the current offset; it throws a
    [RangeError] (an index or a [ByteData] access out of range) or the
    [StateError] of the string guard.  [utf8.decode] is a parameter: nothing
    depends on what text a byte string stands for. *)

From stdpp Require Import strings.
From S2P Require Import Prelude GlazeMeta GoproUsb GoproTypes.
Local Open Scope Z_scope.

(** ** Readers *)

Inductive thrown := RangeError | StateError.

Definition reader (A : Type) : Type := bytes -> nat -> (A * nat) + thrown.

Definition rret {A} (a : A) : reader A := fun _ offset => inl (a, offset).

Definition rbind {A B} (m : reader A) (k : A -> reader B) : reader B := fun data offset =>
  match m data offset with
  | inl (a, offset) => k a data offset
  | inr e => inr e
  end.

Declare Scope reader_scope.
Notation "x <- m ;; k" := (rbind m (fun x => k))
  (at level 200, m at level 99, k at level 200, right associativity) : reader_scope.
Local Open Scope reader_scope.

Definition readUint8 : reader Z := fun data offset =>
  match data !! offset with Some b => inl (b, S offset) | None => inr RangeError end.

Definition readBool : reader bool := fun data offset =>
  match data !! offset with Some b => inl (negb (b =? 0), S offset) | None => inr RangeError end.

(** [ByteData.getUint16] and [getUint32] with [Endian.little], and the step. *)
Definition readUint (n : nat) : reader Z := fun data offset =>
  if (offset + n <=? length data)%nat
  then inl (le_value (firstn n (skipn offset data)), (offset + n)%nat)
  else inr RangeError.

Definition readUint16 : reader Z := readUint 2.
Definition readUint32 : reader Z := readUint 4.

(** The bounds check and the sublist of [readString], after the length. *)
Definition read_text {text} (utf8_decode : bytes -> text) (len : nat) : reader text := fun data offset =>
  if (length data <? offset + len)%nat then inr StateError
  else inl (utf8_decode (firstn len (skipn offset data)), (offset + len)%nat).

(** ** Cameras *)

Definition SerialSource_values : list SerialSource.t :=
  [SerialSource.kNone; SerialSource.kDescriptor; SerialSource.kSysfs].

Definition Readiness_values : list Readiness :=
  [kAbsent; kUsbPresent; kNetdevBound; kHostAddressed; kL3Ready].

Definition serialSource_of (v : Z) : SerialSource.t :=
  default SerialSource.kNone (SerialSource_values !! Z.to_nat v).

Definition readiness_of (v : Z) : Readiness := default kAbsent (Readiness_values !! Z.to_nat v).

Definition EventKind_values : list EventKind := [kSentinel; kUpdate; kLeft].

Definition fromByte (b : byte) : option EventKind :=
  List.find (fun k => EventKind_val k =? b) EventKind_values.

Record GoProCamera (text : Type) := mkGoProCamera {
  g_vid : Z;
  g_pid : Z;
  g_bus : Z;
  g_address : Z;
  g_sysfsName : text;
  g_serial : text;
  g_serialSource : SerialSource.t;
  g_ip : text;
  g_netdev : text;
  g_netdevFirstSeen : text;
  g_netdevRenamed : bool;
  g_linkState : text;
  g_hostIp : text;
  g_readiness : Readiness;
  g_hasCdc : bool;
  g_elapsed_ms : Z;
}.
Arguments mkGoProCamera {text}.
Arguments g_readiness {text} _.
Arguments g_sysfsName {text} _.

Record CameraEvent (text : Type) := mkCameraEvent {
  kind : EventKind;
  camera : option (GoProCamera text);
}.
Arguments mkCameraEvent {text}.

Section codec.
Context {text : Type} (utf8_decode : bytes -> text) (empty_text : text).

Definition readString : reader text :=
  len <- readUint32;;
  if len =? 0 then rret empty_text else read_text utf8_decode (Z.to_nat len).

Definition readCamera : reader (GoProCamera text) :=
  vid <- readUint16;;
  pid <- readUint16;;
  bus <- readUint8;;
  address <- readUint8;;
  sysfsName <- readString;;
  serial <- readString;;
  serialSource <- readUint8;;
  ip <- readString;;
  netdev <- readString;;
  netdevFirstSeen <- readString;;
  netdevRenamed <- readBool;;
  linkState <- readString;;
  hostIp <- readString;;
  readiness <- readUint8;;
  hasCdc <- readBool;;
  elapsed <- readUint32;;
  rret (mkGoProCamera vid pid bus address sysfsName serial (serialSource_of serialSource) ip netdev
          netdevFirstSeen netdevRenamed linkState hostIp (readiness_of readiness) hasCdc elapsed).

(** [inl None] is [null]. *)
Definition decodeEvent (data : bytes) : option (CameraEvent text) + thrown :=
  match data with
  | [] => inl None
  | b :: _ =>
      match fromByte b with
      | None => inl None
      | Some kSentinel => inl (Some (mkCameraEvent kSentinel None))
      | Some k =>
          match readCamera data 1%nat with
          | inl (c, _) => inl (Some (mkCameraEvent k (Some c)))
          | inr e => inr e
          end
      end
  end.
End codec.

(** ** Reading what was written *)

(** [m] reads exactly the bytes [w], as [v], wherever they are. *)
Definition reads {A} (m : reader A) (v : A) (w : bytes) : Prop :=
  forall pre post, m (pre ++ w ++ post) (length pre) = inl (v, (length pre + length w)%nat).

(** [m] depends on nothing past the offset it stops at. *)
Definition prefix_closed {A} (m : reader A) : Prop :=
  forall data offset a offset' post,
    m data offset = inl (a, offset') ->
    ((offset <= offset')%nat /\ (offset <= length data -> offset' <= length data)%nat) /\
    m (data ++ post) offset = inl (a, offset').

Section readers.
Context {A B : Type}.

Lemma reads_ret (a : A) : reads (rret a) a [].
Proof. intros pre post. unfold rret. cbn. do 2 f_equal. lia. Qed.

Lemma reads_bind (m : reader A) (k : A -> reader B) v u w w' :
  reads m v w -> reads (k v) u w' -> reads (rbind m k) u (w ++ w').
Proof.
  intros Hm Hk pre post. unfold rbind. rewrite <- app_assoc, Hm.
  rewrite app_assoc, <- length_app, Hk. do 2 f_equal. rewrite !length_app. lia.
Qed.

Lemma prefix_closed_ret (a : A) : prefix_closed (rret a).
Proof. intros data offset a' offset' post [= <- <-]. split; [lia | done]. Qed.

Lemma prefix_closed_bind (m : reader A) (k : A -> reader B) :
  prefix_closed m -> (forall a, prefix_closed (k a)) -> prefix_closed (rbind m k).
Proof.
  intros Hm Hk data offset b offset' post. unfold rbind.
  destruct (m data offset) as [[a o]|] eqn:E; [|done]. intros E'.
  destruct (Hm _ _ _ _ post E) as [Ho ->]. destruct (Hk _ _ _ _ _ post E') as [Ho' ->].
  split; [lia | done].
Qed.
End readers.

Lemma prefix_closed_uint n : prefix_closed (readUint n).
Proof.
  intros data offset a offset' post. unfold readUint. rewrite length_app.
  destruct (offset + n <=? length data)%nat eqn:E; [|done]. intros [= <- <-]. to_prop.
  destruct (offset + n <=? _)%nat eqn:E2; to_prop; [|lia]. split; [lia|].
  rewrite skipn_app, firstn_app, length_skipn.
  replace (n - (length data - offset))%nat with 0%nat by lia. by rewrite firstn_O, app_nil_r.
Qed.

Lemma prefix_closed_text {text} (u : bytes -> text) n : prefix_closed (read_text u n).
Proof.
  intros data offset a offset' post. unfold read_text. rewrite length_app.
  destruct (length data <? offset + n)%nat eqn:E; [done|]. intros [= <- <-]. to_prop.
  destruct (_ <? offset + n)%nat eqn:E2; to_prop; [lia|]. split; [lia|].
  rewrite skipn_app, firstn_app, length_skipn.
  replace (n - (length data - offset))%nat with 0%nat by lia. by rewrite firstn_O, app_nil_r.
Qed.

Lemma prefix_closed_u8 : prefix_closed readUint8.
Proof.
  intros data offset a offset' post. unfold readUint8.
  destruct (data !! offset) eqn:E; [|done]. intros [= <- <-].
  rewrite (lookup_app_l_Some _ _ _ _ E). apply lookup_lt_Some in E. split; [lia | done].
Qed.

Lemma prefix_closed_bool : prefix_closed readBool.
Proof.
  intros data offset a offset' post. unfold readBool.
  destruct (data !! offset) eqn:E; [|done]. intros [= <- <-].
  rewrite (lookup_app_l_Some _ _ _ _ E). apply lookup_lt_Some in E. split; [lia | done].
Qed.

Lemma reads_uint n v : 0 <= v < 256 ^ Z.of_nat n -> reads (readUint n) v (le_bytes n v).
Proof.
  intros Hv pre post. unfold readUint. rewrite !length_app, length_le_bytes.
  destruct (_ <=? _)%nat eqn:E; to_prop; [|lia].
  rewrite drop_app_length, take_app_length' by (by rewrite length_le_bytes).
  by rewrite le_value_le_bytes.
Qed.

Lemma reads_u8 v : byte_ok v -> reads readUint8 v (le_bytes 1 v).
Proof.
  intros Hv pre post. unfold readUint8. cbn [le_bytes app]. rewrite list_lookup_middle by done. cbn [length].
  unfold byte_ok in Hv. do 2 f_equal; [|lia]. f_equal. lia.
Qed.

Lemma reads_bool b : reads readBool b [if b then 1 else 0].
Proof.
  intros pre post. unfold readBool. cbn [app]. rewrite list_lookup_middle by done.
  cbn. do 2 f_equal; [|lia]. f_equal. by destruct b.
Qed.

Ltac closed :=
  repeat first [apply prefix_closed_bind | apply prefix_closed_ret | apply prefix_closed_u8
    | apply prefix_closed_bool | apply prefix_closed_uint | apply prefix_closed_text
    | progress match goal with |- forall _, prefix_closed _ => intros ? end
    | match goal with |- prefix_closed (if ?b then _ else _) => destruct b end].

Section codec_lemmas.
Context {text : Type} (utf8_decode : bytes -> text) (empty_text : text).

(** The Dart text of a C++ string. *)
Definition text_of (s : string) : text :=
  if empty s then empty_text else utf8_decode (string_bytes s).

Lemma reads_string (s : string) :
  Z.of_nat (String.length s) < 2 ^ 32 ->
  reads (readString utf8_decode empty_text) (text_of s) (wire s).
Proof.
  intros Hs. unfold readString, text_of. cbn [wire string_law u8vec_law].
  rewrite length_string_bytes, wrap_small by lia.
  eapply reads_bind; [apply reads_uint; change (256 ^ Z.of_nat 4) with (2 ^ 32); lia|].
  destruct s as [|a s]; [apply reads_ret|]. cbn [empty].
  destruct (_ =? 0) eqn:E; to_prop; [cbn in E; lia|].
  intros pre post. unfold read_text. rewrite Nat2Z.id, !length_app, length_string_bytes.
  destruct (_ <? _)%nat eqn:E2; to_prop; [lia|].
  by rewrite drop_app_length, take_app_length' by (by rewrite length_string_bytes).
Qed.

Lemma prefix_closed_readString : prefix_closed (readString utf8_decode empty_text).
Proof. unfold readString, readUint32. closed. Qed.

Lemma prefix_closed_readCamera : prefix_closed (readCamera utf8_decode empty_text).
Proof.
  unfold readCamera, readUint16, readUint32.
  repeat first [apply prefix_closed_readString | progress closed].
Qed.

(** The camera a record describes. *)
Definition camera_of (r : CameraRecord) : GoProCamera text :=
  mkGoProCamera (uval (vid r)) (uval (pid r)) (uval (bus r)) (uval (address r))
    (text_of (sysfsName r)) (text_of (serial r)) (serialSource_of (uval (serialSource r)))
    (text_of (ip r)) (text_of (netdev r)) (text_of (netdevFirstSeen r)) (netdevRenamed r)
    (text_of (linkState r)) (text_of (hostIp r)) (readiness_of (uval (readiness r))) (hasCdc r)
    (uval (elapsedMs r)).

(** The bytes of a record, field by field. *)
Lemma camera_wire r :
  struct_wire r =
    wire (vid r) ++ wire (pid r) ++ wire (bus r) ++ wire (address r) ++ wire (sysfsName r) ++
    wire (serial r) ++ wire (serialSource r) ++ wire (ip r) ++ wire (netdev r) ++
    wire (netdevFirstSeen r) ++ wire (netdevRenamed r) ++ wire (linkState r) ++ wire (hostIp r) ++
    wire (readiness r) ++ wire (hasCdc r) ++ wire (elapsedMs r) ++ [].
Proof. reflexivity. Qed.

Lemma camera_valid r :
  struct_valid r ->
  (uint_ok (vid r) /\ uint_ok (pid r) /\ uint_ok (bus r) /\ uint_ok (address r)) /\
  (uint_ok (serialSource r) /\ uint_ok (readiness r) /\ uint_ok (elapsedMs r)) /\
  Forall (fun s => Z.of_nat (String.length s) < 2 ^ 32)
    [sysfsName r; serial r; ip r; netdev r; netdevFirstSeen r; linkState r; hostIp r].
Proof.
  unfold struct_valid. cbn [laws CameraRecord_law]. rewrite !Forall_cons. unfold field_valid.
  cbn [desc_law desc get valid uint_law string_law bool_law].
  intros (? & ? & ? & ? & ? & ? & ? & ? & ? & ? & _ & ? & ? & ? & _ & ? & _).
  split_and!; done || by repeat apply Forall_cons_2.
Qed.

Lemma reads_camera r :
  struct_valid r -> reads (readCamera utf8_decode empty_text) (camera_of r) (struct_wire r).
Proof.
  intros (Hu1 & Hu2 & Hs)%camera_valid. rewrite !Forall_cons in Hs. destruct_and!.
  rewrite camera_wire. unfold readCamera, camera_of.
  repeat (eapply reads_bind;
    [first [apply reads_string; assumption | apply reads_bool
           | apply reads_u8; assumption | apply reads_uint; assumption]|]).
  apply reads_ret.
Qed.

Lemma decode_event_bytes k r :
  k <> kSentinel -> struct_valid r ->
  decodeEvent utf8_decode empty_text (event_bytes k (Some r)) =
    inl (Some (mkCameraEvent k (Some (camera_of r)))).
Proof.
  intros Hk Hr. unfold event_bytes, encode. rewrite encode_struct_wire by done. cbn [app].
  pose proof (reads_camera r Hr [EventKind_val k] []) as E.
  rewrite app_nil_r in E. destruct k; [done|..]; cbn in E |- *; by rewrite E.
Qed.
End codec_lemmas.

(** ** Properties *)

(** Reader and writer are in lockstep.  The payload of an event whose record
    fits its fields decodes to that event and the camera the record describes,
    every field in its place; a sentinel decodes to an event without camera,
    with or without a record behind it.  No assumption is made on what text the
    bytes of a string become. *)
Theorem lockstep (text : Type) (utf8_decode : bytes -> text) empty_text k r :
  struct_valid r ->
  decodeEvent utf8_decode empty_text (event_bytes k (Some r)) =
    inl (Some (mkCameraEvent k
      (if decide (k = kSentinel) then None else Some (camera_of utf8_decode empty_text r)))) /\
  decodeEvent utf8_decode empty_text (event_bytes kSentinel None) =
    inl (Some (mkCameraEvent kSentinel None)).
Proof.
  intros Hr. split; [|done]. destruct (decide (k = kSentinel)) as [->|Hk]; [done|].
  by apply decode_event_bytes.
Qed.

(** A record whose fields are all different. *)
Definition demo_record : CameraRecord :=
  mkCameraRecord (U 9842) (U 89) (U 2) (U 7) "2-1" "C3501324500702" (U 2) "172.27.102.51" "enp17s0u1"
    "eth0" true "up" "172.27.102.50" (U 3) true (U 754).

Lemma demo_record_valid : struct_valid demo_record.
Proof.
  unfold struct_valid. repeat apply Forall_cons_2; try apply Forall_nil_2;
    unfold field_valid, demo_record; cbn; unfold uint_ok; cbn; lia || done.
Qed.

Lemma lockstep_witness :
  decodeEvent bytes_string EmptyString (event_bytes kUpdate (Some demo_record)) =
    inl (Some (mkCameraEvent kUpdate (Some
      (mkGoProCamera 9842 89 2 7 "2-1" "C3501324500702" SerialSource.kSysfs "172.27.102.51" "enp17s0u1"
        "eth0" true "up" "172.27.102.50" kHostAddressed true 754)))).
Proof.
  refine (eq_trans (proj1 (lockstep string bytes_string EmptyString kUpdate demo_record demo_record_valid)) _).
  vm_compute. reflexivity.
Defined.

(** A truncated payload is never misread.  A proper prefix of an event with
    a record, cut anywhere after its discriminator, makes the reader throw; and
    a payload whose discriminator is none of the three is ignored. *)
Theorem truncated_throws (text : Type) (utf8_decode : bytes -> text) empty_text :
  (forall k r n, k <> kSentinel -> struct_valid r ->
     (0 < n < length (event_bytes k (Some r)))%nat ->
     exists e, decodeEvent utf8_decode empty_text (firstn n (event_bytes k (Some r))) = inr e) /\
  (forall b rest, b <> 0 -> b <> 1 -> b <> 2 ->
     decodeEvent utf8_decode empty_text (b :: rest) = inl None).
Proof.
  split.
  - intros k r n Hk Hr Hn. unfold event_bytes, encode in *. rewrite encode_struct_wire in * by done.
    pose proof (reads_camera utf8_decode empty_text r Hr [EventKind_val k] []) as E.
    rewrite app_nil_r in E. revert Hn E. generalize (struct_wire r) as w. intros w Hn E.
    destruct n as [|n]; [lia|]. cbn [app length firstn] in *.
    pose proof (prefix_closed_readCamera utf8_decode empty_text (EventKind_val k :: firstn n w) 1%nat) as Hp.
    assert (exists e, readCamera utf8_decode empty_text (EventKind_val k :: firstn n w) 1%nat = inr e)
      as [e He].
    { destruct (readCamera _ _ (_ :: firstn _ _) _) as [[c o]|e]; [|by exists e].
      destruct (Hp c o (skipn n w) eq_refl) as [[_ Ho] E2].
      cbn [app] in E2. rewrite firstn_skipn, E in E2. injection E2 as _ <-.
      cbn [length] in Ho. rewrite length_firstn in Ho. lia. }
    exists e. destruct k; [done|..]; cbn [decodeEvent fromByte]; cbn in He |- *; by rewrite He.
  - intros b rest H0 H1 H2. unfold decodeEvent, fromByte, EventKind_values. cbn [List.find EventKind_val].
    destruct (0 =? b) eqn:E0, (1 =? b) eqn:E1, (2 =? b) eqn:E2; to_prop; done || lia.
Qed.

Lemma truncated_throws_witness :
  (exists e, decodeEvent bytes_string EmptyString (firstn 20 (event_bytes kLeft (Some demo_record))) = inr e) /\
  decodeEvent bytes_string EmptyString [3; 1; 2] = inl None.
Proof.
  destruct (truncated_throws string bytes_string EmptyString) as [H1 H2]. split.
  - apply H1; [discriminate | exact demo_record_valid | split; apply Nat.ltb_lt; reflexivity].
  - apply H2; discriminate.
Defined.
