(* ===== verification/GoproBridge.v ===== *)
(** * The discovery bridge
    ([native/include/gopro_bridge.h], [native/src/gopro_bridge.cpp])

    One worker thread pumps libusb and settles cameras, while the Dart thread
    stores to three atomics.  An [action] is one atomic step of either thread:
    the worker's steps are the points between which a store of the other thread
    can fall, and carry what the world answers during them (the hotplug events
    libusb dispatches, the devices it lists, the host and the clock while an
    entry is settled).  A run is any interleaving.  The mutex is not modelled:
    every access to the pending list is on the worker, or precedes it. *)

From stdpp Require Import strings gmap.
From S2P Require Import Prelude GlazeMeta GoproTypes GoproUsb EventCodec.
Local Open Scope Z_scope.

(** ** State *)

(** [arrived] is a [steady_clock] time point, in nanoseconds. *)
Record Pending := mkPending {
  cam : Camera;
  arrived : Z;
  last_ : Readiness;  (** the member [last] *)
}.

Record BridgeContext := mkBridgeContext {
  disco : Discovery;
  events_port : Z;
  stop : bool;
  timeout_ms : Z;
  rescan : bool;
  pending : list Pending;
}.

Definition set_disco (d : Discovery) (c : BridgeContext) : BridgeContext :=
  mkBridgeContext d (events_port c) (stop c) (timeout_ms c) (rescan c) (pending c).
Definition set_stop (v : bool) (c : BridgeContext) : BridgeContext :=
  mkBridgeContext (disco c) (events_port c) v (timeout_ms c) (rescan c) (pending c).
Definition set_timeout_ms (v : Z) (c : BridgeContext) : BridgeContext :=
  mkBridgeContext (disco c) (events_port c) (stop c) v (rescan c) (pending c).
Definition set_rescan (v : bool) (c : BridgeContext) : BridgeContext :=
  mkBridgeContext (disco c) (events_port c) (stop c) (timeout_ms c) v (pending c).
Definition set_pending (l : list Pending) (c : BridgeContext) : BridgeContext :=
  mkBridgeContext (disco c) (events_port c) (stop c) (timeout_ms c) (rescan c) l.

Definition ms_since (now t : Z) : Z := wrap 32 (Z.quot (now - t) 1000000).

Definition to_record (c : Camera) (elapsed_ms : Z) : CameraRecord :=
  mkCameraRecord (U (vid c)) (U (pid c)) (U (bus c)) (U (address c)) (sysfs_name_ c) (serial c)
    (U (SerialSource.val (serial_source c))) (ip c) (netdev c) (netdev_first_seen c)
    (netdev_renamed c) (link_state_ c) (host_ip c) (U (Readiness_val (readiness c)))
    (has_cdc_interface c) (U elapsed_ms).

(** One [post]: the port, and what its buffer encodes. *)
Record posting := mkPosting {
  p_port : Z;
  p_kind : EventKind;
  p_rec : option CameraRecord;
}.

(** The buffer. *)
Definition post_bytes (p : posting) : bytes := event_bytes (p_kind p) (p_rec p).

(** ** Hotplug *)

(** The callback given to [watch]. *)
Definition on_hotplug (ctx : BridgeContext) (c : Camera) (arrived : bool) (now : Z)
    : BridgeContext * list posting :=
  if arrived then
    (set_pending (pending ctx ++ [mkPending c now (readiness c)]) ctx,
     [mkPosting (events_port ctx) kUpdate (Some (to_record c 0))])
  else
    (set_pending (List.filter (fun p => negb (String.eqb (sysfs_name_ (cam p)) (sysfs_name_ c))) (pending ctx)) ctx,
     [mkPosting (events_port ctx) kLeft (Some (to_record c 0))]).

(** A hotplug event libusb dispatches: the device, the host while it is
    examined, and the clock. *)
Record hotplug := mkHotplug {
  hp_host : Host;
  hp_dev : UsbDevice;
  hp_arrived : bool;
  hp_now : Z;
}.

Fixpoint callbacks (ctx : BridgeContext) (now : Z) (calls : list (Camera * bool))
    : BridgeContext * list posting :=
  match calls with
  | [] => (ctx, [])
  | (c, arrived) :: calls =>
      let '(ctx, ps) := on_hotplug ctx c arrived now in
      let '(ctx, ps') := callbacks ctx now calls in (ctx, ps ++ ps')
  end.

Definition dispatch (ctx : BridgeContext) (e : hotplug) : BridgeContext * list posting :=
  let '(d, calls) := trampoline (disco ctx) (hp_host e) (hp_dev e) (hp_arrived e) in
  callbacks (set_disco d ctx) (hp_now e) calls.

Fixpoint pump (ctx : BridgeContext) (es : list hotplug) : BridgeContext * list posting :=
  match es with
  | [] => (ctx, [])
  | e :: es =>
      let '(ctx, ps) := dispatch ctx e in
      let '(ctx, ps') := pump ctx es in (ctx, ps ++ ps')
  end.

(** ** Settling *)

(** The body of the loop over [pending] for one entry: the entry if it is kept. *)
Definition settle_one (port budget : Z) (h : Host) (now : Z) (p : Pending)
    : option Pending * list posting :=
  let before := last_ p in
  let c := advance_readiness h (cam p) kProbePort kProbeTimeoutMs in
  let after := readiness c in
  let elapsed := ms_since now (arrived p) in
  let update := mkPosting port kUpdate (Some (to_record c elapsed)) in
  let changed := negb (bool_decide (after = before)) in
  let fin := bool_decide (after = kL3Ready) || bool_decide (after = kAbsent) || (wrap 32 budget <? elapsed) in
  (if fin then None else Some (mkPending c (arrived p) (if changed then after else before)),
   (if changed then [update] else []) ++
   (if fin && negb changed && negb (bool_decide (after = kL3Ready)) then [update] else [])).

(** [sample i] is the host, and the clock, while the [i]-th entry is settled. *)
Fixpoint settle (port budget : Z) (sample : nat -> Host * Z) (i : nat) (l : list Pending)
    : list Pending * list posting :=
  match l with
  | [] => ([], [])
  | p :: l =>
      let '(o, ps) := settle_one port budget (sample i).1 (sample i).2 p in
      let '(l, ps') := settle port budget sample (S i) l in
      (option_list o ++ l, ps ++ ps')
  end.

(** ** The worker and the calls *)

(** Where the worker is: before its sentinel, at the loop condition, and before
    each of the loop's steps. *)
Inductive pc := AtStart | AtHead | AtPump | AtRescan | AtLoad | AtSettle (budget : Z) | Finished.

Record Bridge := mkBridge { ctx : BridgeContext; at_pc : pc }.

Inductive action :=
| WStart
| WCheck
| WPump (events : list hotplug)
| WRescan (devices : option (list (Host * UsbDevice)))
| WLoad
| WSettle (sample : nat -> Host * Z)
| Rescan
| SetTimeout (ms : Z)
| Stop.

(** The [if] of [worker_loop] on [rescan.exchange(false)]. *)
Definition do_rescan (c : BridgeContext) (devices : option (list (Host * UsbDevice)))
    : BridgeContext * list posting :=
  if rescan c then
    let '(d, cams) := enumerate (disco c) devices in
    (set_disco d (set_rescan false c),
     (fun k => mkPosting (events_port c) kUpdate (Some (to_record k 0))) <$> cams)
  else (set_rescan false c, []).

(** [None]: the worker is not at that step. *)
Definition exec (b : Bridge) (a : action) : option (Bridge * list posting) :=
  let c := ctx b in
  match a, at_pc b with
  | WStart, AtStart => Some (mkBridge c AtHead, [mkPosting (events_port c) kSentinel None])
  | WCheck, AtHead => Some (mkBridge c (if stop c then Finished else AtPump), [])
  | WPump es, AtPump => let '(c, ps) := pump c es in Some (mkBridge c AtRescan, ps)
  | WRescan ds, AtRescan => let '(c, ps) := do_rescan c ds in Some (mkBridge c AtLoad, ps)
  | WLoad, AtLoad => Some (mkBridge c (AtSettle (timeout_ms c)), [])
  | WSettle sample, AtSettle budget =>
      let '(l, ps) := settle (events_port c) budget sample 0 (pending c) in
      Some (mkBridge (set_pending l c) AtHead, ps)
  | Rescan, p => Some (mkBridge (set_rescan true c) p, [])
  | SetTimeout ms, p => Some (mkBridge (set_timeout_ms ms c) p, [])
  | Stop, p => Some (mkBridge (set_stop true c) p, [])
  | _, _ => None
  end.

Fixpoint run (b : Bridge) (acts : list action) : option (Bridge * list posting) :=
  match acts with
  | [] => Some (b, [])
  | a :: acts =>
      '(b, ps) ← exec b a;
      '(b, ps') ← run b acts;
      Some (b, ps ++ ps')
  end.

(** [gopro_discovery_create]: the answers of libusb, and the devices it reports
    as already attached while the callback is registered.  [None] is null. *)
Definition gopro_discovery_create (port v : Z) (init_ok hotplug_supported register_ok : bool)
    (attached : list hotplug) : option Bridge * list posting :=
  match Discovery_create init_ok (if v =? 0 then kGoProVid else v) with
  | None => (None, [])
  | Some d =>
      if negb hotplug_supported then (None, [])
      else
        let '(d, ok) := watch d hotplug_supported register_ok in
        if negb ok then (None, [])
        else
          let '(c, ps) := pump (mkBridgeContext d port false 10000 false []) attached in
          (Some (mkBridge c AtStart), ps)
  end.

(** [gopro_discovery_rescan], [gopro_discovery_set_timeout]: on [nullptr] they
    return, and otherwise they are one action. *)
Definition gopro_discovery_rescan (h : option Bridge) : option Bridge :=
  match h with None => None | Some b => fst <$> exec b Rescan end.

Definition gopro_discovery_set_timeout (h : option Bridge) (ms : Z) : option Bridge :=
  match h with None => None | Some b => fst <$> exec b (SetTimeout ms) end.

(** [gopro_discovery_destroy]: the store, then the join, during which the worker
    takes the actions [rest]; it returns only if they end in [Finished].  The
    result is what was posted meanwhile. *)
Definition gopro_discovery_destroy (h : option Bridge) (rest : list action) : option (list posting) :=
  match h with
  | None => Some []
  | Some b =>
      '(b, ps) ← run b (Stop :: rest);
      match at_pc b with Finished => Some ps | _ => None end
  end.

(** ** What a client of the events knows

    [_onUpdate] and [_onLeft] of [lib/src/discovery.dart], on records: the map
    [_current] from sysfs names to the last record. *)
Definition client_apply (m : gmap string CameraRecord) (p : posting) : gmap string CameraRecord :=
  match p_kind p, p_rec p with
  | kUpdate, Some r => <[sysfsName r := r]> m
  | kLeft, Some r => delete (sysfsName r) m
  | _, _ => m
  end.

Definition client (m : gmap string CameraRecord) (ps : list posting) : gmap string CameraRecord :=
  foldl client_apply m ps.

Lemma client_app m ps ps' : client m (ps ++ ps') = client (client m ps) ps'.
Proof. apply foldl_app. Qed.

(** ** Devices and names *)

Definition hp_name (e : hotplug) : string := device_name (hp_dev e).

(** The names attached after some events. *)
Definition plug (s : gset string) (e : hotplug) : gset string :=
  if hp_arrived e then {[hp_name e]} ∪ s else s ∖ {[hp_name e]}.

(** A device arrives at a place on the bus only when there is none there. *)
Fixpoint orderly (s : gset string) (es : list hotplug) : Prop :=
  match es with
  | [] => True
  | e :: es => (hp_arrived e = true -> hp_name e ∉ s) /\ orderly (plug s e) es
  end.

Lemma orderly_app es es' : forall s,
  orderly s (es ++ es') <-> orderly s es /\ orderly (foldl plug s es) es'.
Proof. induction es as [|e es IH]; intros s; cbn; [tauto|]. rewrite IH. tauto. Qed.

(** The hotplug events of some actions. *)
Definition hotplugs (acts : list action) : list hotplug :=
  concat ((fun a => match a with WPump es => es | _ => [] end) <$> acts).

(** The budgets of some actions. *)
Definition budgets (acts : list action) : list Z :=
  omap (fun a => match a with SetTimeout ms => Some ms | _ => None end) acts.

Definition names (l : list Pending) : list string := (fun p => sysfs_name_ (cam p)) <$> l.

Definition sysfs_name_of_record (p : posting) : option string := sysfsName <$> p_rec p.

(** Without a probe the last rung is out of reach. *)
Lemma rungs_unprobed a b c : rungs [a; b; c; false] <> 4.
Proof. by destruct a, b, c. Qed.

Lemma advance_not_ready h c t : readiness (advance_readiness h c 0 t) <> kL3Ready.
Proof.
  destruct (advance_ladder h c 0 t) as [E _]. intros E2. rewrite E2 in E. symmetry in E. revert E.
  apply rungs_unprobed.
Qed.

Lemma build_not_ready h dev arr : readiness (build h dev arr) <> kL3Ready.
Proof.
  unfold build. destruct arr; cbn [negb]; [|done]. destruct (read_serial _ _ _) as [s src].
  apply advance_not_ready.
Qed.

(** The one callback of a hotplug event is given the device's name. *)
Lemma trampoline_calls d h dev arr :
  exists c, (trampoline d h dev arr).2 = (if has_cb d then [(c, arr)] else []) /\
    sysfs_name_ c = device_name dev /\ readiness c <> kL3Ready /\
    has_cb (trampoline d h dev arr).1 = has_cb d.
Proof.
  pose proof (build_not_ready h dev arr) as Hr.
  unfold trampoline. destruct arr.
  - exists (build h dev true). split_and!; [done| apply build_name |done|done].
  - destruct (cache d !! sysfs_name_ (build h dev false)) as [prev|].
    + eexists. split_and!; [reflexivity| apply build_name |done|done].
    + exists (build h dev false). split_and!; [done| apply build_name |done|done].
Qed.

(** ** Invariants of the pending list *)

Definition pending_ok (p : Pending) : Prop := last_ p = readiness (cam p) /\ last_ p <> kL3Ready.

(** One hotplug event. *)
Lemma dispatch_eq c e :
  has_cb (disco c) = true ->
  exists d k, sysfs_name_ k = hp_name e /\ readiness k <> kL3Ready /\ has_cb d = true /\
    dispatch c e = on_hotplug (set_disco d c) k (hp_arrived e) (hp_now e).
Proof.
  intros Hcb. unfold dispatch.
  destruct (trampoline_calls (disco c) (hp_host e) (hp_dev e) (hp_arrived e)) as (k & E & H1 & H2 & H3).
  destruct (trampoline _ _ _ _) as [d calls]. cbn [fst snd] in *. rewrite Hcb in *. subst calls.
  exists d, k. split_and!; [done..|]. cbn [callbacks].
  destruct (on_hotplug _ _ _ _) as [c' ps]. by rewrite app_nil_r.
Qed.

(** What [settle_one] does to an entry that satisfies the invariant: one update
    if anything changed or the entry leaves, none otherwise. *)
Definition sampled (h : Host) (p : Pending) : Camera :=
  advance_readiness h (cam p) kProbePort kProbeTimeoutMs.

Definition finished (budget : Z) (h : Host) (now : Z) (p : Pending) : bool :=
  bool_decide (readiness (sampled h p) = kL3Ready) || bool_decide (readiness (sampled h p) = kAbsent) ||
  (wrap 32 budget <? ms_since now (arrived p)).

Definition changed (h : Host) (p : Pending) : bool := negb (bool_decide (readiness (sampled h p) = last_ p)).

Lemma settle_one_eq port budget h now p :
  last_ p <> kL3Ready ->
  settle_one port budget h now p =
    (if finished budget h now p then None
     else Some (mkPending (sampled h p) (arrived p) (readiness (sampled h p))),
     if changed h p || finished budget h now p
     then [mkPosting port kUpdate (Some (to_record (sampled h p) (ms_since now (arrived p))))] else []).
Proof.
  intros Hl. unfold settle_one. fold (sampled h p). fold (finished budget h now p). fold (changed h p).
  destruct (changed h p) eqn:Ec.
  - cbn [orb negb]. rewrite andb_false_r. cbn. done.
  - unfold changed in Ec. to_prop. rewrite Ec. cbn [orb negb app]. rewrite (bool_decide_eq_false_2 (_ = kL3Ready)) by done.
    cbn [negb]. by rewrite !andb_true_r.
Qed.

Lemma settle_one_ok port budget h now p :
  pending_ok p -> forall p', (settle_one port budget h now p).1 = Some p' ->
  pending_ok p' /\ sysfs_name_ (cam p') = sysfs_name_ (cam p) /\ arrived p' = arrived p.
Proof.
  intros [_ Hl] p'. rewrite settle_one_eq by done. cbn [fst].
  destruct (finished budget h now p) eqn:Ef; [done|]. intros [= <-]. unfold finished in Ef. to_prop.
  split_and!; [split; done | apply advance_name | done].
Qed.

Lemma settle_length_names port budget sample l : forall i,
  Forall pending_ok l ->
  Forall pending_ok (settle port budget sample i l).1 /\
  sublist (names (settle port budget sample i l).1) (names l).
Proof.
  induction l as [|p l IH]; intros i Hl; cbn [settle]; [by split|].
  apply Forall_cons in Hl as [Hp Hl]. specialize (IH (S i) Hl).
  pose proof (settle_one_ok port budget (sample i).1 (sample i).2 p Hp) as H1.
  destruct (settle_one _ _ _ _ _) as [o ps], (settle _ _ _ _ l) as [l' ps']. cbn [fst] in *.
  destruct IH as [I1 I2]. destruct o as [p'|]; cbn [option_list app].
  - destruct (H1 p' eq_refl) as (Hok & Hn & _). split; [by constructor|].
    cbn. rewrite Hn. by constructor.
  - split; [done|]. cbn. by constructor.
Qed.

(** ** The client mirrors the bridge *)

(** A record that says how the settling of its camera ended: ready, gone, or out
    of one of the budgets. *)
Definition terminal (bs : list Z) (r : CameraRecord) : Prop :=
  uval (GoproTypes.readiness r) = Readiness_val kL3Ready \/
  uval (GoproTypes.readiness r) = Readiness_val kAbsent \/
  exists b, b ∈ bs /\ wrap 32 b < uval (elapsedMs r).

(** The client knows an entry as far as it got. *)
Definition tracked (m : gmap string CameraRecord) (p : Pending) : Prop :=
  exists r, m !! sysfs_name_ (cam p) = Some r /\
    uval (GoproTypes.readiness r) = Readiness_val (last_ p).

Record mirror (c : BridgeContext) (m : gmap string CameraRecord) (present : gset string) (bs : list Z)
    : Prop := {
  mir_cb : has_cb (disco c) = true;
  mir_ok : Forall pending_ok (pending c);
  mir_nodup : NoDup (names (pending c));
  mir_dom : dom m = present;
  mir_pending : Forall (tracked m) (pending c);
  mir_rest : forall n r, m !! n = Some r -> n ∉ names (pending c) -> terminal bs r;
  mir_budget : timeout_ms c ∈ bs;
}.

Lemma elem_of_names p l : p ∈ l -> sysfs_name_ (cam p) ∈ names l.
Proof. intros H. unfold names. apply list_elem_of_fmap. by exists p. Qed.

Lemma tracked_other m m' p :
  m' !! sysfs_name_ (cam p) = m !! sysfs_name_ (cam p) -> tracked m p -> tracked m' p.
Proof. intros E (r & Hr & H). exists r. by rewrite E. Qed.

Lemma settle_one_client port budget h now p m bs :
  pending_ok p -> tracked m p -> budget ∈ bs ->
  let '(o, ps) := settle_one port budget h now p in
  let m' := client m ps in
  dom m' = dom m /\ (forall n, n <> sysfs_name_ (cam p) -> m' !! n = m !! n) /\
  (forall p', o = Some p' -> tracked m' p') /\
  (o = None -> forall r, m' !! sysfs_name_ (cam p) = Some r -> terminal bs r).
Proof.
  intros [Hl1 Hl2] (r0 & Hr0 & Hr) Hb. rewrite settle_one_eq by done.
  pose proof (advance_name h (cam p) kProbePort kProbeTimeoutMs) as Hn. fold (sampled h p) in Hn.
  set (rec := to_record (sampled h p) (ms_since now (arrived p))).
  assert (sysfsName rec = sysfs_name_ (cam p)) as Hrec by exact Hn.
  destruct (changed h p || finished budget h now p) eqn:E; cbn [client foldl client_apply p_kind p_rec].
  - rewrite Hrec. split_and!.
    + rewrite dom_insert_L. apply subseteq_union_1_L. apply singleton_subseteq_l, elem_of_dom. by exists r0.
    + intros n Hne. by apply lookup_insert_ne.
    + intros p' Hp'. exists rec. destruct (finished budget h now p); [done|]. injection Hp' as <-.
      cbn [cam last_]. rewrite Hn. split; [by apply lookup_insert_eq | done].
    + intros Hnone r. rewrite lookup_insert_eq. intros [= <-].
      destruct (finished budget h now p) eqn:Ef; [|done]. unfold finished in Ef.
      unfold terminal, rec. cbn [to_record uval GoproTypes.readiness elapsedMs].
      to_prop. destruct Ef as [Ef|Ef]; to_prop.
      * destruct Ef as [Ef|Ef]; to_prop; rewrite Ef; [by left | right; by left].
      * right. right. exists budget. done.
  - to_prop. rewrite H0. split_and!; [done..| |done].
    intros p' [= <-]. exists r0. cbn [cam last_]. rewrite Hn. split; [done|].
    unfold changed in H. to_prop. by rewrite H.
Qed.

Lemma settle_client port budget sample bs l : forall i m,
  Forall pending_ok l -> NoDup (names l) -> Forall (tracked m) l -> budget ∈ bs ->
  let '(l', ps) := settle port budget sample i l in
  let m' := client m ps in
  dom m' = dom m /\ (forall n, n ∉ names l -> m' !! n = m !! n) /\ Forall (tracked m') l' /\
  (forall n r, n ∈ names l -> n ∉ names l' -> m' !! n = Some r -> terminal bs r).
Proof.
  induction l as [|p l IH]; intros i m Hok Hnd Htr Hb; cbn [settle].
  { split_and!; [done..|]. intros n r Hn. by apply not_elem_of_nil in Hn. }
  apply Forall_cons in Hok as [Hp Hok], Htr as [Hpt Htr]. apply NoDup_cons in Hnd as [Hn Hnd].
  fold (names l) in Hn, Hnd.
  pose proof (settle_one_client port budget (sample i).1 (sample i).2 p m bs Hp Hpt Hb) as H1.
  pose proof (settle_one_ok port budget (sample i).1 (sample i).2 p Hp) as H2.
  destruct (settle_one _ _ _ _ p) as [o ps]. cbn [fst] in H2. destruct H1 as (D1 & K1 & T1 & E1).
  specialize (IH (S i) (client m ps) Hok Hnd). destruct (settle _ _ _ (S i) l) as [l' ps'].
  rewrite client_app. destruct IH as (D2 & K2 & T2 & E2); [|done|].
  { rewrite Forall_forall in *. intros q Hq. apply (tracked_other m); [|by apply Htr].
    apply K1. intros Heq. apply Hn. rewrite <- Heq. by apply elem_of_names. }
  split_and!.
  - by rewrite D2.
  - intros n Hnn. apply not_elem_of_cons in Hnn as [Hn1 Hn2]. by rewrite K2, K1.
  - apply Forall_app. split; [|done]. destruct o as [p'|]; [|constructor].
    apply Forall_cons. split; [|done]. destruct (H2 p' eq_refl) as (_ & Hname & _).
    apply (tracked_other (client m ps)); [|by apply T1]. apply K2. by rewrite Hname.
  - intros n r Hin Hnot Hr. unfold names in Hnot. rewrite fmap_app in Hnot.
    apply not_elem_of_app in Hnot as [Hnot1 Hnot2]. apply elem_of_cons in Hin as [->|Hin].
    + destruct o as [p'|].
      * destruct (H2 p' eq_refl) as (_ & Hname & _). exfalso. apply Hnot1. cbn. rewrite Hname. left.
      * apply E1; [done|]. by rewrite <- K2.
    + by apply (E2 n).
Qed.

Lemma mirror_dispatch c m s bs e :
  mirror c m s bs -> (hp_arrived e = true -> hp_name e ∉ s) ->
  mirror (dispatch c e).1 (client m (dispatch c e).2) (plug s e) bs.
Proof.
  intros [Hcb Hok Hnd Hdom Htr Hrest Hb] Hord.
  destruct (dispatch_eq c e Hcb) as (d & k & Hname & Hk & Hd & ->).
  unfold on_hotplug, plug. destruct (hp_arrived e); cbn [fst snd].
  - specialize (Hord eq_refl). rewrite <- Hname in *.
    assert (sysfs_name_ k ∉ names (pending c)) as Hnew.
    { intros (p & Hp & Hpin)%list_elem_of_fmap. rewrite Forall_forall in Htr.
      destruct (Htr p Hpin) as (r & Hr & _). apply Hord. rewrite <- Hdom, Hp.
      apply elem_of_dom. by exists r. }
    assert (forall p, p ∈ pending c -> sysfs_name_ (cam p) <> sysfs_name_ k) as Hne.
    { intros p Hp E. apply Hnew. rewrite <- E. by apply elem_of_names. }
    split; cbn [set_pending set_disco disco pending timeout_ms client foldl client_apply p_kind p_rec to_record sysfsName]; try done.
    + apply Forall_app. split; [done|]. by repeat constructor.
    + unfold names. rewrite fmap_app. apply NoDup_app. split_and!; [done| |apply NoDup_singleton].
      intros n Hn Hin. apply list_elem_of_singleton in Hin. by subst.
    + by rewrite dom_insert_L, Hdom.
    + apply Forall_app. split.
      * rewrite Forall_forall in *. intros p Hp. apply (tracked_other m); [|by apply Htr].
        apply lookup_insert_ne. intros E. by apply (Hne p).
      * apply Forall_cons. split; [|done]. eexists. cbn [cam last_]. by rewrite lookup_insert_eq.
    + intros n r Hr Hn. unfold names in Hn. rewrite fmap_app in Hn.
      apply not_elem_of_app in Hn as [Hn1 Hn2]. apply (Hrest n); [|done].
      rewrite lookup_insert_ne in Hr; [done|]. intros E. apply Hn2. rewrite <- E. left.
  - rewrite <- Hname in *.
    split; cbn [set_pending set_disco disco pending timeout_ms client foldl client_apply p_kind p_rec to_record sysfsName]; try done.
    + rewrite Forall_forall in *. intros p Hp. apply elem_of_lfilter in Hp as [Hp _]. by apply Hok.
    + eapply sublist_NoDup; [exact Hnd|]. apply fmap_sublist, lfilter_sublist.
    + by rewrite dom_delete_L, Hdom.
    + rewrite Forall_forall in *. intros p Hp. apply elem_of_lfilter in Hp as [Hp Hne].
      apply negb_true_iff, String.eqb_neq in Hne. apply (tracked_other m); [|by apply Htr].
      by apply lookup_delete_ne.
    + intros n r Hr Hn. apply lookup_delete_Some in Hr as [Hne Hr]. apply (Hrest n); [done|].
      intros (p & -> & Hp)%list_elem_of_fmap. apply Hn, elem_of_names, elem_of_lfilter. split; [done|].
      apply negb_true_iff, String.eqb_neq. congruence.
Qed.

Lemma mirror_pump es : forall c m s bs,
  mirror c m s bs -> orderly s es ->
  mirror (pump c es).1 (client m (pump c es).2) (foldl plug s es) bs.
Proof.
  induction es as [|e es IH]; intros c m s bs Hm Ho; [done|]. destruct Ho as [He Ho]. cbn [pump foldl].
  pose proof (mirror_dispatch c m s bs e Hm He) as H1. destruct (dispatch c e) as [c1 ps].
  cbn [fst snd] in H1. specialize (IH _ _ _ _ H1 Ho). destruct (pump c1 es) as [c2 ps'].
  cbn [fst snd] in *. by rewrite client_app.
Qed.

Lemma mirror_settle c m s bs budget sample :
  mirror c m s bs -> budget ∈ bs ->
  let '(l, ps) := settle (events_port c) budget sample 0 (pending c) in
  mirror (set_pending l c) (client m ps) s bs.
Proof.
  intros [Hcb Hok Hnd Hdom Htr Hrest Hb] Hbud.
  pose proof (settle_length_names (events_port c) budget sample (pending c) 0 Hok) as [H1 H2].
  pose proof (settle_client (events_port c) budget sample bs (pending c) 0 m Hok Hnd Htr Hbud) as H3.
  destruct (settle _ _ _ _ _) as [l ps]. cbn [fst] in *. destruct H3 as (D & K & T & E).
  split; cbn [set_pending disco pending timeout_ms]; try done.
  - eapply sublist_NoDup; [exact Hnd | exact H2].
  - by rewrite D.
  - intros n r Hr Hn. destruct (decide (n ∈ names (pending c))) as [Hin|Hin].
    + by apply (E n).
    + apply (Hrest n); [|done]. by rewrite <- K.
Qed.

Record bridge_mirror (b : Bridge) (m : gmap string CameraRecord) (s : gset string) (bs : list Z) : Prop := {
  bm_mirror : mirror (ctx b) m s bs;
  bm_rescan : rescan (ctx b) = false;
  bm_budget : forall budget, at_pc b = AtSettle budget -> budget ∈ bs;
}.

(** What the worker's callbacks leave alone. *)
Definition knobs (c : BridgeContext) : Z * bool * Z * bool := (events_port c, stop c, timeout_ms c, rescan c).

Lemma callbacks_knobs now calls : forall c, knobs (callbacks c now calls).1 = knobs c.
Proof.
  induction calls as [|[k a] calls IH]; intros c; [done|]. cbn [callbacks].
  assert (knobs (on_hotplug c k a now).1 = knobs c) as H by by destruct a.
  destruct (on_hotplug _ _ _ _) as [c1 ps]. specialize (IH c1).
  destruct (callbacks _ _ _). cbn [fst] in *. congruence.
Qed.

Lemma pump_knobs es : forall c, knobs (pump c es).1 = knobs c.
Proof.
  induction es as [|e es IH]; intros c; [done|]. cbn [pump]. unfold dispatch.
  destruct (trampoline _ _ _ _) as [d calls].
  pose proof (callbacks_knobs (hp_now e) calls (set_disco d c)) as H.
  destruct (callbacks _ _ _) as [c1 ps]. specialize (IH c1). destruct (pump c1 es).
  cbn [fst] in *. exact (eq_trans IH H).
Qed.

Lemma pump_rescan es c : rescan (pump c es).1 = rescan c.
Proof. exact (f_equal snd (pump_knobs es c)). Qed.

Lemma pump_stop es c : stop (pump c es).1 = stop c.
Proof. exact (f_equal (fun k => k.1.1.2) (pump_knobs es c)). Qed.

Lemma mirror_exec b m s bs a b' ps :
  bridge_mirror b m s bs -> a <> Rescan -> Forall (fun x => x ∈ bs) (budgets [a]) -> orderly s (hotplugs [a]) ->
  exec b a = Some (b', ps) ->
  bridge_mirror b' (client m ps) (foldl plug s (hotplugs [a])) bs.
Proof.
  intros [Hm Hr Hb] Ha Hbs Ho E. destruct b as [c p]. cbn [ctx at_pc] in *.
  destruct a as [| |es|ds| |sample| |ms|]; unfold exec in E; cbn [ctx at_pc] in E; [..|done| |].
  7-8: injection E as <- <-; split; cbn [ctx at_pc]; [|done|done]; destruct Hm; split; try done;
    by apply Forall_cons in Hbs as [? _].
  all: destruct p; try done.
  - injection E as <- <-. by split.
  - injection E as <- <-. split; [done..|]. cbn. by destruct (stop c).
  - unfold hotplugs in *. cbn [fmap list_fmap concat] in *. rewrite app_nil_r in *.
    pose proof (mirror_pump es c m s bs Hm Ho) as H. pose proof (pump_rescan es c) as Hr'.
    destruct (pump c es) as [c1 ps1]. injection E as <- <-. cbn [fst snd] in *.
    split; [done| exact (eq_trans Hr' Hr) | done].
  - unfold do_rescan in E. rewrite Hr in E. injection E as <- <-. split; [by destruct Hm | done | done].
  - injection E as <- <-. split; [done..|]. intros budget [= <-]. apply Hm.
  - pose proof (mirror_settle c m s bs budget sample Hm (Hb _ eq_refl)) as H.
    destruct (settle _ _ _ _ _) as [l ps1]. injection E as <- <-. by split.
Qed.

Lemma hotplugs_cons a acts : hotplugs (a :: acts) = hotplugs [a] ++ hotplugs acts.
Proof. unfold hotplugs. cbn. by rewrite app_nil_r. Qed.

Lemma budgets_cons a acts : budgets (a :: acts) = budgets [a] ++ budgets acts.
Proof. unfold budgets. by destruct a. Qed.

Lemma mirror_run acts : forall b m s bs b' ps,
  bridge_mirror b m s bs -> Rescan ∉ acts -> Forall (fun x => x ∈ bs) (budgets acts) ->
  orderly s (hotplugs acts) -> run b acts = Some (b', ps) ->
  bridge_mirror b' (client m ps) (foldl plug s (hotplugs acts)) bs.
Proof.
  induction acts as [|a acts IH]; intros b m s bs b' ps Hm Hr Hb Ho E; cbn [run] in E.
  { by injection E as <- <-. }
  apply not_elem_of_cons in Hr as [Ha Hr].
  rewrite hotplugs_cons in *. rewrite budgets_cons in Hb. apply orderly_app in Ho as [Ho1 Ho2].
  apply Forall_app in Hb as [Hb1 Hb2].
  destruct (exec b a) as [[b1 ps1]|] eqn:E1; [|done]. cbn [mbind option_bind] in E.
  destruct (run b1 acts) as [[b2 ps2]|] eqn:E2; [|done]. cbn in E. injection E as <- <-.
  rewrite client_app, foldl_app. eapply IH; [|done..| exact E2].
  by eapply mirror_exec.
Qed.

Lemma hotplugs_app acts acts' : hotplugs (acts ++ acts') = hotplugs acts ++ hotplugs acts'.
Proof. unfold hotplugs. by rewrite fmap_app, concat_app. Qed.

Lemma budgets_app acts acts' : budgets (acts ++ acts') = budgets acts ++ budgets acts'.
Proof. apply omap_app. Qed.

(** What a created bridge starts from. *)
Lemma create_spec port v i h r attached :
  gopro_discovery_create port v i h r attached =
    if i && h && r then
      let d := mkDiscovery (if v =? 0 then kGoProVid else v) true true ∅ in
      let '(c, ps) := pump (mkBridgeContext d port false 10000 false []) attached in
      (Some (mkBridge c AtStart), ps)
    else (None, []).
Proof. unfold gopro_discovery_create, Discovery_create, watch. destruct i, h, r; done. Qed.

Lemma mirror_init d port bs :
  has_cb d = true -> 10000 ∈ bs -> mirror (mkBridgeContext d port false 10000 false []) ∅ ∅ bs.
Proof. intros Hd Hb. split; cbn; try done. constructor. Qed.

Lemma mirror_created port v i h r attached b ps bs :
  gopro_discovery_create port v i h r attached = (Some b, ps) ->
  10000 ∈ bs -> orderly ∅ attached ->
  bridge_mirror b (client ∅ ps) (foldl plug ∅ attached) bs.
Proof.
  rewrite create_spec. destruct (i && h && r); [|done]. cbv zeta.
  set (d := mkDiscovery _ true true ∅). set (c0 := mkBridgeContext d port false 10000 false []).
  intros E Hb Ho. pose proof (mirror_pump attached c0 ∅ ∅ bs (mirror_init d port bs eq_refl Hb) Ho) as H.
  pose proof (pump_rescan attached c0) as Hr. destruct (pump c0 attached) as [c ps'].
  injection E as <- <-. by split.
Qed.

(** ** Everything posted fits its encoding

    The strings the world answers with are shorter than 4 GiB, and its integers
    are of the types they are read into. *)

Definition short (s : string) : Prop := Z.of_nat (String.length s) < 2 ^ 32.

Record host_ok (h : Host) : Prop := {
  hok_dir : forall p, Forall short (list_directory h p);
  hok_line : forall p s, first_line h p = Some s -> short s;
  hok_addr : forall l, getifaddrs h = Some l -> Forall (fun x => short (default EmptyString (inet_ntop x))) l;
}.

Record device_ok (d : UsbDevice) : Prop := {
  dok_ids : forall x, device_descriptor d = Some x -> in_range 16 (idVendor x) /\ in_range 16 (idProduct x);
  dok_bus : byte_ok (bus_number d);
  dok_address : byte_ok (device_address d);
  dok_ports : (length (default [] (port_numbers d)) <= 8)%nat;
  dok_serial : short (default EmptyString (serial_descriptor d));
}.

(** Names of devices, which is what cameras are known by. *)
Definition is_name (s : string) : Prop := exists d, s = device_name d.

Record cam_ok (c : Camera) : Prop := {
  cok_named : is_name (sysfs_name_ c);
  cok_vid : in_range 16 (vid c);
  cok_pid : in_range 16 (pid c);
  cok_bus : byte_ok (bus c);
  cok_address : byte_ok (address c);
  cok_name : short (sysfs_name_ c);
  cok_serial : short (serial c);
  cok_ip : short (ip c);
  cok_netdev : short (netdev c);
  cok_first : short (netdev_first_seen c);
  cok_link : short (link_state_ c);
  cok_host : short (host_ip c);
}.

Lemma to_record_valid c e : cam_ok c -> 0 <= e < 2 ^ 32 -> struct_valid (to_record c e).
Proof.
  intros [] He. unfold struct_valid, in_range, byte_ok, short in *.
  repeat apply Forall_cons_2; try apply Forall_nil_2; unfold field_valid, to_record; cbn; unfold uint_ok;
    cbn [uval]; done || (destruct (serial_source c); cbn; lia) || (destruct (readiness c); cbn; lia).
Qed.

Lemma to_record_ok c e : cam_ok c -> 0 <= e < 2 ^ 32 -> struct_valid (to_record c e) /\ is_name (sysfsName (to_record c e)).
Proof. intros Hc He. split; [by apply to_record_valid | by apply cok_named]. Qed.

Lemma short_empty : short EmptyString.
Proof. unfold short. cbn. lia. Qed.

Lemma chars_length s : String.length s = length (chars s).
Proof. induction s as [|a s IH]; cbn; [done | by rewrite IH]. Qed.

Lemma trim_rev_length l : (length (trim_rev l) <= length l)%nat.
Proof. induction l as [|a l IH]; cbn; [lia|]. destruct (_ || _); cbn; lia. Qed.

Lemma read_sysfs_line_short h p : host_ok h -> short (read_sysfs_line h p).
Proof.
  intros Hh. unfold read_sysfs_line. destruct (first_line h p) as [s|] eqn:E; [|apply short_empty].
  apply (hok_line h Hh) in E. unfold short, trim_line in *. rewrite chars_length, chars_of_list, length_rev in *.
  pose proof (trim_rev_length (rev (chars s))) as H. rewrite length_rev in H. lia.
Qed.

Lemma find_in_interfaces_short h dir prefix l : host_ok h -> short (find_in_interfaces h dir prefix l).
Proof.
  intros Hh. induction l as [|n l IH]; cbn [find_in_interfaces]; [apply short_empty|].
  destruct (negb _); [done|]. destruct (negb _); [done|].
  pose proof (hok_dir h Hh (path_join (path_join dir n) "net")) as H.
  destruct (list_directory _ _) as [|x xs]; [done|]. by apply Forall_cons in H as [? _].
Qed.

Lemma find_netdev_short h n root : host_ok h -> short (find_netdev h n root).
Proof.
  intros Hh. unfold find_netdev. destruct (negb _); [apply short_empty|]. by apply find_in_interfaces_short.
Qed.

Lemma link_state_short h n : host_ok h -> short (link_state h n).
Proof.
  intros Hh. unfold link_state. destruct (empty n); [apply short_empty|]. by apply read_sysfs_line_short.
Qed.

Lemma host_ipv4_short h n : host_ok h -> short (host_ipv4 h n).
Proof.
  intros Hh. unfold host_ipv4. destruct (empty n); [apply short_empty|].
  pose proof (hok_addr h Hh) as H. destruct (getifaddrs h) as [l|]; [|apply short_empty].
  specialize (H l eq_refl). induction H as [|x l Hx Hl IH]; cbn [host_ipv4_loop]; [apply short_empty|].
  destruct (ifa_name x); [|done]. by destruct (_ && _).
Qed.

#[local] Hint Resolve short_empty read_sysfs_line_short find_netdev_short link_state_short host_ipv4_short : gopro.

Lemma note_netdev_ok c n : cam_ok c -> short n -> cam_ok (note_netdev c n).
Proof. intros Hc Hn. unfold note_netdev. repeat split_match; try done; by destruct Hc. Qed.

Lemma set_readiness_ok c l i r : cam_ok c -> short l -> short i -> cam_ok (set_readiness c l i r).
Proof. intros [] Hl Hi. by split. Qed.

Lemma advance_ok h c port t : host_ok h -> cam_ok c -> cam_ok (advance_readiness h c port t).
Proof.
  intros Hh Hc. unfold advance_readiness.
  assert (forall c r, cam_ok c -> cam_ok (set_readiness c (link_state_ c) (host_ip c) r)) as Hset.
  { intros c0 r []. by split. }
  assert (cam_ok (resolve_netdev h (set_readiness c (link_state_ c) (host_ip c) kUsbPresent) kSysUsb)) as H1.
  { apply note_netdev_ok; [by apply Hset | auto with gopro]. }
  repeat match goal with
  | |- cam_ok (if ?b then _ else _) => destruct b
  | |- cam_ok (let c := ?x in _) => cbv zeta
  | |- cam_ok (set_readiness ?c (link_state_ ?c) (host_ip ?c) _) => apply Hset
  | |- cam_ok (set_readiness _ _ _ _) => apply set_readiness_ok
  | |- short (host_ip (set_readiness _ _ _ _)) => cbn [set_readiness host_ip]
  | |- short (link_state_ (set_readiness _ _ _ _)) => cbn [set_readiness link_state_]
  end; try done; try (by auto with gopro); try (by apply H1).
Qed.

Lemma dec_digits_length f : forall n, (length (dec_digits f n) <= f)%nat.
Proof.
  induction f as [|f IH]; intros n; cbn [dec_digits]; [done|]. destruct (n <? 10); [cbn; lia|].
  rewrite length_app. specialize (IH (n / 10)). cbn [length]. lia.
Qed.

Lemma sysfs_name_short b ps : (length ps <= 8)%nat -> short (sysfs_name b ps).
Proof.
  intros Hl. unfold short. rewrite chars_length.
  pose proof (dec_digits_length 20 b). destruct ps as [|p ps].
  - cbn [sysfs_name]. rewrite chars_app, chars_dec, length_app. cbn [length chars]. lia.
  - rewrite chars_sysfs_name, !length_app. pose proof (dec_digits_length 20 p).
    assert (length (dotted ps) <= 21 * length ps)%nat as Hd.
    { clear. induction ps as [|p ps IH]; [done|]. rewrite dotted_cons. cbn [length]. rewrite length_app.
      pose proof (dec_digits_length 20 p). lia. }
    cbn [length chars] in *. lia.
Qed.

Lemma derive_ip_short s : short (default EmptyString (derive_ip s)).
Proof.
  unfold derive_ip. destruct (_ <? 3)%nat; [apply short_empty|].
  destruct (skipn _ _) as [|x [|y [|z [|]]]]; try apply short_empty.
  destruct (forallb _ _); [|apply short_empty]. by vm_compute.
Qed.

Lemma build_ok h d r : host_ok h -> device_ok d -> cam_ok (build h d r).
Proof.
  intros Hh [Hi Hb Ha Hp Hs].
  assert (cam_ok (build_identity d)) as Hid.
  { unfold build_identity. pose proof short_empty as He.
    assert (in_range 16 0) by (unfold in_range; lia). assert (is_name (sysfs_name (bus_number d) (default [] (port_numbers d)))) by by exists d.
    destruct (device_descriptor d) as [x|]; cbn [from_option fst snd];
      [destruct (Hi x eq_refl)|]; split; try done; by apply sysfs_name_short. }
  unfold build. destruct r; cbn [negb]; [|done].
  assert (short (read_serial h d (sysfs_name_ (build_identity d))).1) as Hser.
  { unfold read_serial.
    set (ld := if negb (from_option iSerialNumber 0 (device_descriptor d) =? 0) && can_open d
               then serial_descriptor d else None).
    assert (short (default EmptyString ld)) as Hld by (subst ld; destruct (_ && _); done || apply short_empty).
    destruct ld as [s|]; cbn [from_option default id] in *; destruct (empty _); try done.
    all: destruct (empty (read_sysfs_line _ _)); [done | by apply read_sysfs_line_short]. }
  destruct (read_serial _ _ _) as [s src]. cbn [fst] in Hser. apply advance_ok; [done|].
  destruct Hid. pose proof short_empty as He. split; try done. apply derive_ip_short.
Qed.

Lemma recover_ok c prev : cam_ok c -> cam_ok prev -> cam_ok (recover c prev).
Proof. intros [] []. by split. Qed.

Definition cache_ok (d : Discovery) : Prop := map_Forall (fun _ c => cam_ok c) (cache d).

Lemma trampoline_ok d h dev arr :
  cache_ok d -> host_ok h -> device_ok dev ->
  cache_ok (trampoline d h dev arr).1 /\ Forall (fun x => cam_ok x.1) (trampoline d h dev arr).2.
Proof.
  intros Hd Hh Hdev. pose proof (build_ok h dev arr Hh Hdev) as Hc. unfold trampoline.
  assert (forall b (c : Camera) a, cam_ok c -> Forall (fun x : Camera * bool => cam_ok x.1) (if (b : bool) then [(c, a)] else [])) as H.
  { intros [] c a Hc'; [by apply Forall_singleton | constructor]. }
  destruct arr; cbn [fst snd]; [split; [by apply map_Forall_insert_2 | by apply H]|].
  destruct (cache d !! sysfs_name_ (build h dev false)) as [prev|] eqn:E; cbn [fst snd].
  - split; [by apply map_Forall_delete|]. apply H, recover_ok; [done|]. by apply (Hd _ _ E).
  - split; [done | by apply H].
Qed.

Lemma enumerate_ok d l :
  cache_ok d -> Forall (fun x => host_ok x.1 /\ device_ok x.2) (default [] l) ->
  cache_ok (enumerate d l).1 /\ Forall cam_ok (enumerate d l).2.
Proof.
  intros Hd Hl. destruct l as [l|]; [|by split]. cbn [default enumerate from_option id] in *. revert d Hd.
  induction Hl as [|[h dev] l [Hh Hdev] Hl IH]; intros d Hd; cbn [enumerate_loop]; [by split|].
  destruct (device_descriptor dev); [|by apply IH]. destruct (negb _); [by apply IH|].
  pose proof (build_ok h dev true Hh Hdev) as Hc.
  match goal with |- context [enumerate_loop ?d1 l] =>
    assert (cache_ok d1) as Hd1 by (by apply map_Forall_insert_2);
    specialize (IH d1 Hd1); destruct (enumerate_loop d1 l) end.
  cbn [fst snd] in *. destruct IH. split; [done | by constructor].
Qed.

(** A post whose record, present unless it is a sentinel, fits its encoding. *)
Definition posting_ok (p : posting) : Prop :=
  match p_kind p, p_rec p with
  | kSentinel, None => True
  | kUpdate, Some r | kLeft, Some r => struct_valid r /\ is_name (sysfsName r)
  | _, _ => False
  end.

Record context_ok (c : BridgeContext) : Prop := {
  ctx_cache : cache_ok (disco c);
  ctx_pending : Forall (fun p => cam_ok (cam p)) (pending c);
}.

Definition hotplug_ok (e : hotplug) : Prop := host_ok (hp_host e) /\ device_ok (hp_dev e).

Definition action_ok (a : action) : Prop :=
  match a with
  | WPump es => Forall hotplug_ok es
  | WRescan ds => Forall (fun x => host_ok x.1 /\ device_ok x.2) (default [] ds)
  | WSettle sample => forall i, host_ok (sample i).1
  | _ => True
  end.

Lemma ms_since_range now t : 0 <= ms_since now t < 2 ^ 32.
Proof. apply (wrap_range 32); lia. Qed.

Lemma on_hotplug_ok c k arr now :
  context_ok c -> cam_ok k ->
  context_ok (on_hotplug c k arr now).1 /\ Forall posting_ok (on_hotplug c k arr now).2.
Proof.
  intros [Hc Hp] Hk. assert (posting_ok (mkPosting (events_port c) kUpdate (Some (to_record k 0)))) as Hr by (apply to_record_ok; [done | lia]).
  unfold on_hotplug. destruct arr; cbn [fst snd].
  - split; [|by apply Forall_singleton]. split; [done|]. apply Forall_app. split; [done | by apply Forall_singleton].
  - split; [|by apply Forall_singleton]. split; [done|]. cbn [set_pending pending]. rewrite Forall_forall in *.
    intros p Hin. apply elem_of_lfilter in Hin as [Hin _]. by apply Hp.
Qed.

Lemma callbacks_ok now calls : forall c,
  context_ok c -> Forall (fun x => cam_ok x.1) calls ->
  context_ok (callbacks c now calls).1 /\ Forall posting_ok (callbacks c now calls).2.
Proof.
  induction calls as [|[k a] calls IH]; intros c Hc Hk; cbn [callbacks]; [by split|].
  apply Forall_cons in Hk as [Hk1 Hk]. destruct (on_hotplug_ok c k a now Hc Hk1) as [H1 H2].
  destruct (on_hotplug _ _ _ _) as [c1 ps]. cbn [fst snd] in *. destruct (IH c1 H1 Hk) as [H3 H4].
  destruct (callbacks _ _ _). cbn [fst snd] in *. split; [done | by apply Forall_app].
Qed.

Lemma bridge_pump_ok es : forall c,
  context_ok c -> Forall hotplug_ok es ->
  context_ok (pump c es).1 /\ Forall posting_ok (pump c es).2.
Proof.
  induction es as [|e es IH]; intros c [Hc Hp] He; cbn [pump]; [by split|].
  apply Forall_cons in He as [[Hh Hd] He]. unfold dispatch.
  destruct (trampoline_ok (disco c) (hp_host e) (hp_dev e) (hp_arrived e) Hc Hh Hd) as [H1 H2].
  destruct (trampoline _ _ _ _) as [d calls]. cbn [fst snd] in *.
  destruct (callbacks_ok (hp_now e) calls (set_disco d c) ltac:(by split) H2) as [H3 H4].
  destruct (callbacks _ _ _) as [c1 ps]. cbn [fst snd] in *. destruct (IH c1 H3 He) as [H5 H6].
  destruct (pump c1 es). cbn [fst snd] in *. split; [done | by apply Forall_app].
Qed.

Lemma settle_ok port budget sample l : forall i,
  (forall i, host_ok (sample i).1) -> Forall (fun p => cam_ok (cam p)) l ->
  Forall (fun p => cam_ok (cam p)) (settle port budget sample i l).1 /\
  Forall posting_ok (settle port budget sample i l).2.
Proof.
  induction l as [|p l IH]; intros i Hs Hl; cbn [settle]; [by split|].
  apply Forall_cons in Hl as [Hp Hl]. destruct (IH (S i) Hs Hl) as [I1 I2].
  unfold settle_one. destruct (sample i) as [h now] eqn:E.
  specialize (Hs i). rewrite E in Hs. cbn [fst snd] in *.
  pose proof (advance_ok h (cam p) kProbePort kProbeTimeoutMs Hs Hp) as Hc.
  set (c := advance_readiness _ _ _ _) in *.
  pose proof (to_record_ok c _ Hc (ms_since_range now (arrived p))) as Hr.
  destruct (settle _ _ _ _ l) as [l' ps']. cbn [fst snd] in *.
  assert (forall b, Forall posting_ok (if (b : bool) then [mkPosting port kUpdate (Some (to_record c (ms_since now (arrived p))))] else [])) as Hpost.
  { intros []; [by apply Forall_singleton | constructor]. }
  split; [|apply Forall_app; split; [|done]; apply Forall_app; split; apply Hpost].
  apply Forall_app. split; [|done]. destruct (_ || _); [constructor | by apply Forall_singleton].
Qed.

Lemma bridge_exec_ok b a b' ps :
  context_ok (ctx b) -> action_ok a -> exec b a = Some (b', ps) ->
  context_ok (ctx b') /\ Forall posting_ok ps.
Proof.
  destruct b as [c p]. cbn [ctx]. intros Hc Ha E.
  destruct a as [| |es|ds| |sample| |ms|]; unfold exec in E; cbn [ctx at_pc] in E; destruct p; try done;
    try (by injection E as <- <-; split; [destruct Hc | repeat constructor]).
  - pose proof (bridge_pump_ok es c Hc Ha) as H. destruct (pump c es). by injection E as <- <-.
  - unfold do_rescan in E. destruct (rescan c); [|by injection E as <- <-; split; [destruct Hc |]].
    destruct (enumerate_ok (disco c) ds (ctx_cache c Hc) Ha) as [H1 H2].
    destruct (enumerate _ _) as [d cams]. injection E as <- <-. cbn [fst snd] in *.
    split; [by destruct Hc|]. apply Forall_fmap. eapply Forall_impl; [exact H2|].
    intros k Hk. apply to_record_ok; [done | lia].
  - destruct (settle_ok (events_port c) budget sample (pending c) 0 Ha (ctx_pending c Hc)) as [H1 H2].
    destruct (settle _ _ _ _ _). injection E as <- <-. cbn [fst snd] in *. by split; [destruct Hc |].
Qed.

Lemma bridge_run_ok acts : forall b b' ps,
  context_ok (ctx b) -> Forall action_ok acts -> run b acts = Some (b', ps) ->
  context_ok (ctx b') /\ Forall posting_ok ps.
Proof.
  induction acts as [|a acts IH]; intros b b' ps Hc Ha E; cbn [run] in E; [by injection E as <- <-|].
  apply Forall_cons in Ha as [Ha1 Ha].
  destruct (exec b a) as [[b1 ps1]|] eqn:E1; [|done]. cbn [mbind option_bind] in E.
  destruct (run b1 acts) as [[b2 ps2]|] eqn:E2; [|done]. cbn in E. injection E as <- <-.
  destruct (bridge_exec_ok _ _ _ _ Hc Ha1 E1) as [H1 H2]. destruct (IH _ _ _ H1 Ha E2) as [H3 H4].
  split; [done | by apply Forall_app].
Qed.

Lemma created_ok port v i h r attached b ps :
  gopro_discovery_create port v i h r attached = (Some b, ps) -> Forall hotplug_ok attached ->
  context_ok (ctx b) /\ Forall posting_ok ps.
Proof.
  rewrite create_spec. destruct (i && h && r); [|done]. cbv zeta. intros E Ha.
  set (c0 := mkBridgeContext _ _ _ _ _ _) in E.
  assert (context_ok c0) as H0 by (split; [apply map_Forall_empty | constructor]).
  pose proof (bridge_pump_ok attached c0 H0 Ha) as H. destruct (pump c0 attached). by injection E as <- <-.
Qed.

Lemma posting_ok_decodes {text} (u : bytes -> text) e p :
  posting_ok p ->
  decodeEvent u e (post_bytes p) = inl (Some (mkCameraEvent (p_kind p) (camera_of u e <$> p_rec p))).
Proof.
  unfold posting_ok, post_bytes. destruct p as [pt k [r|]], k; cbn [p_kind p_rec]; try done;
    intros [Hr _]; by rewrite decode_event_bytes.
Qed.

(** ** Reachable states *)

(** A state some bridge can be in, whatever the world answers. *)
Definition reachable (b : Bridge) : Prop :=
  exists port v i h r attached b0 ps0 acts ps,
    gopro_discovery_create port v i h r attached = (Some b0, ps0) /\ run b0 acts = Some (b, ps).

Definition all_pending_ok (c : BridgeContext) : Prop :=
  has_cb (disco c) = true /\ Forall pending_ok (pending c).

Lemma dispatch_pending_ok c e : all_pending_ok c -> all_pending_ok (dispatch c e).1.
Proof.
  intros [Hcb Hp]. destruct (dispatch_eq c e Hcb) as (d & k & _ & Hk & Hd & ->). split.
  - by destruct (hp_arrived e).
  - unfold on_hotplug. destruct (hp_arrived e); cbn.
    + apply Forall_app. split; [done|]. by apply Forall_singleton.
    + rewrite Forall_forall in *. intros p Hin. apply elem_of_lfilter in Hin as [Hin _]. by apply Hp.
Qed.

Lemma pump_pending_ok es : forall c, all_pending_ok c -> all_pending_ok (pump c es).1.
Proof.
  induction es as [|e es IH]; intros c Hc; [done|]. cbn [pump].
  apply (dispatch_pending_ok c e) in Hc. destruct (dispatch c e) as [c1 ps].
  cbn [fst] in Hc. apply IH in Hc. by destruct (pump c1 es).
Qed.

Lemma enumerate_has_cb d l : has_cb (enumerate d l).1 = has_cb d.
Proof. apply (exec_has_cb d (Enumerate l)). Qed.

Lemma exec_pending_ok b a b' ps :
  exec b a = Some (b', ps) -> all_pending_ok (ctx b) -> all_pending_ok (ctx b').
Proof.
  destruct b as [c p]. cbn [ctx]. intros E Hc.
  destruct a as [| |es|ds| |sample| |ms|]; unfold exec in E; cbn [ctx at_pc] in E; destruct p; try done;
    try (by injection E as <- <-).
  - apply (pump_pending_ok es) in Hc. destruct (pump c es). by injection E as <- <-.
  - unfold do_rescan in E. destruct (rescan c); [|by injection E as <- <-].
    pose proof (enumerate_has_cb (disco c) ds) as H. destruct (enumerate _ _) as [d cams].
    injection E as <- <-. destruct Hc as [Hc1 Hc2]. split; [cbn in *; congruence | done].
  - destruct Hc as [Hcb Hp].
    destruct (settle_length_names (events_port c) budget sample (pending c) 0 Hp) as [H _].
    destruct (settle _ _ _ _ _). by injection E as <- <-.
Qed.

Lemma run_pending_ok acts : forall b b' ps,
  run b acts = Some (b', ps) -> all_pending_ok (ctx b) -> all_pending_ok (ctx b').
Proof.
  induction acts as [|a acts IH]; intros b b' ps E Hc; cbn [run] in E; [by injection E as <- <-|].
  destruct (exec b a) as [[b1 ps1]|] eqn:E1; [|done]. cbn [mbind option_bind] in E.
  destruct (run b1 acts) as [[b2 ps2]|] eqn:E2; [|done]. cbn in E. injection E as <- <-.
  eapply IH; [exact E2|]. by eapply exec_pending_ok.
Qed.

Lemma reachable_pending_ok b : reachable b -> all_pending_ok (ctx b).
Proof.
  intros (port & v & i & h & r & attached & b0 & ps0 & acts & ps & Hc & Hr).
  eapply run_pending_ok; [exact Hr|]. rewrite create_spec in Hc.
  destruct (i && h && r); [|done]. cbv zeta in Hc. set (c0 := mkBridgeContext _ _ _ _ _ _) in Hc.
  assert (all_pending_ok c0) as H0 by (split; [reflexivity | constructor]).
  apply (pump_pending_ok attached) in H0. destruct (pump c0 attached). by injection Hc as <- <-.
Qed.

(** ** The sentinel *)

Definition is_sentinel (p : posting) : bool := bool_decide (p_kind p = kSentinel).

Definition no_sentinel (ps : list posting) : Prop := Forall (fun p => p_kind p <> kSentinel) ps.

Lemma callbacks_no_sentinel now calls : forall c, no_sentinel (callbacks c now calls).2.
Proof.
  induction calls as [|[k a] calls IH]; intros c; cbn [callbacks]; [constructor|].
  assert (no_sentinel (on_hotplug c k a now).2) as H by (destruct a; by apply Forall_singleton).
  destruct (on_hotplug _ _ _ _) as [c1 ps]. specialize (IH c1). destruct (callbacks _ _ _).
  by apply Forall_app.
Qed.

Lemma pump_no_sentinel es : forall c, no_sentinel (pump c es).2.
Proof.
  induction es as [|e es IH]; intros c; cbn [pump]; [constructor|]. unfold dispatch.
  destruct (trampoline _ _ _ _) as [d calls].
  pose proof (callbacks_no_sentinel (hp_now e) calls (set_disco d c)) as H.
  destruct (callbacks _ _ _) as [c1 ps]. specialize (IH c1). destruct (pump c1 es). by apply Forall_app.
Qed.

Lemma settle_no_sentinel port budget sample l : forall i, no_sentinel (settle port budget sample i l).2.
Proof.
  induction l as [|p l IH]; intros i; cbn [settle]; [constructor|]. specialize (IH (S i)).
  unfold settle_one. destruct (settle _ _ _ _ l) as [l' ps']. cbn [snd] in *.
  apply Forall_app. split; [|done]. apply Forall_app.
  split; [destruct (negb _) | destruct (_ && _)]; by repeat constructor.
Qed.

Lemma exec_no_sentinel b a b' ps :
  exec b a = Some (b', ps) -> at_pc b <> AtStart -> no_sentinel ps /\ at_pc b' <> AtStart.
Proof.
  destruct b as [c p]. cbn [at_pc]. intros E Hp.
  destruct a as [| |es|ds| |sample| |ms|]; unfold exec in E; cbn [ctx at_pc] in E; destruct p; try done;
    try (by injection E as <- <-; split; [constructor | done]).
  - injection E as <- <-. split; [constructor|]. cbn. by destruct (stop c).
  - pose proof (pump_no_sentinel es c) as H. destruct (pump c es). by injection E as <- <-.
  - unfold do_rescan in E. destruct (rescan c); [|by injection E as <- <-; split; [constructor|]].
    destruct (enumerate _ _) as [d cams]. injection E as <- <-. split; [|done].
    apply Forall_fmap, Forall_true. done.
  - pose proof (settle_no_sentinel (events_port c) budget sample (pending c) 0) as H.
    destruct (settle _ _ _ _ _). by injection E as <- <-.
Qed.

Lemma run_no_sentinel acts : forall b b' ps,
  run b acts = Some (b', ps) -> at_pc b <> AtStart -> no_sentinel ps.
Proof.
  induction acts as [|a acts IH]; intros b b' ps E Hc; cbn [run] in E; [injection E as <- <-; constructor|].
  destruct (exec b a) as [[b1 ps1]|] eqn:E1; [|done]. cbn [mbind option_bind] in E.
  destruct (run b1 acts) as [[b2 ps2]|] eqn:E2; [|done]. cbn in E. injection E as <- <-.
  destruct (exec_no_sentinel _ _ _ _ E1 Hc) as [H1 H2]. apply Forall_app. split; [done|]. by eapply IH.
Qed.

Lemma run_sentinel acts : forall b b' ps,
  run b acts = Some (b', ps) -> at_pc b = AtStart ->
  (at_pc b' = AtStart /\ ps = []) \/
  (at_pc b' <> AtStart /\
   exists rest, ps = mkPosting (events_port (ctx b)) kSentinel None :: rest /\ no_sentinel rest).
Proof.
  induction acts as [|a acts IH]; intros b b' ps E Hp; cbn [run] in E.
  { injection E as <- <-. by left. }
  destruct (exec b a) as [[b1 ps1]|] eqn:E1; [|done]. cbn [mbind option_bind] in E.
  destruct (run b1 acts) as [[b2 ps2]|] eqn:E2; [|done]. cbn in E. injection E as <- <-.
  destruct b as [c p]. cbn [at_pc ctx] in *. subst p.
  destruct a; unfold exec in E1; cbn [at_pc ctx] in E1; try done.
  all: injection E1 as <- <-.
  - right. assert (at_pc (mkBridge c AtHead) <> AtStart) as Hh by done. split.
    + revert b2 ps2 E2 Hh. generalize (mkBridge c AtHead). clear.
      induction acts as [|a acts IH]; intros b b2 ps2 E2 Hh; cbn [run] in E2; [by injection E2 as <- <-|].
      destruct (exec b a) as [[b1 ps1]|] eqn:E1; [|done]. cbn [mbind option_bind] in E2.
      destruct (run b1 acts) as [[b3 ps3]|] eqn:E3; [|done]. cbn in E2. injection E2 as <- <-.
      eapply IH; [exact E3|]. by eapply exec_no_sentinel in E1 as [].
    + eexists. split; [reflexivity|]. by eapply run_no_sentinel.
  - exact (IH _ _ _ E2 eq_refl).
  - exact (IH _ _ _ E2 eq_refl).
  - exact (IH _ _ _ E2 eq_refl).
Qed.

(** What [gopro_discovery_create] posts, and where it leaves the worker. *)
Lemma created_start port v i h r attached b0 ps0 :
  gopro_discovery_create port v i h r attached = (Some b0, ps0) ->
  no_sentinel ps0 /\ at_pc b0 = AtStart.
Proof.
  rewrite create_spec. destruct (i && h && r); [|done]. cbv zeta.
  set (c0 := mkBridgeContext _ _ _ _ _ _). pose proof (pump_no_sentinel attached c0) as H.
  destruct (pump c0 attached) as [c ps']. by intros [= <- <-].
Qed.

(** ** Shutting down *)

(** How many steps the worker has left once it has been told to stop. *)
Definition steps_left (p : pc) : nat :=
  match p with
  | Finished => 0 | AtHead => 1 | AtSettle _ => 2 | AtLoad => 3 | AtRescan => 4 | AtPump => 5
  | AtStart => 2
  end.

Definition is_worker (a : action) : bool :=
  match a with Rescan | SetTimeout _ | Stop => false | _ => true end.

Definition workers (acts : list action) : nat := length (List.filter is_worker acts).

Lemma do_rescan_stop c ds : stop (do_rescan c ds).1 = stop c.
Proof. unfold do_rescan. destruct (rescan c); [|done]. by destruct (enumerate _ _). Qed.

Lemma exec_stopped b a b' ps :
  exec b a = Some (b', ps) -> stop (ctx b) = true ->
  stop (ctx b') = true /\
  (steps_left (at_pc b') + (if is_worker a then 1 else 0) = steps_left (at_pc b))%nat.
Proof.
  destruct b as [c p]. cbn [ctx at_pc]. intros E Hs.
  destruct a as [| |es|ds| |sample| |ms|]; unfold exec in E; cbn [ctx at_pc] in E;
    try (injection E as <- <-; cbn; split; [done | lia]); destruct p; try done;
    try (injection E as <- <-; cbn; rewrite ?Hs; done).
  - pose proof (pump_stop es c) as H. destruct (pump c es) as [c1 ps1]. injection E as <- <-.
    cbn in *. by rewrite H.
  - pose proof (do_rescan_stop c ds) as H. destruct (do_rescan c ds) as [c1 ps1]. injection E as <- <-.
    cbn in *. by rewrite H.
  - destruct (settle _ _ _ _ _). injection E as <- <-. cbn. by split.
Qed.

Lemma run_stopped acts : forall b b' ps,
  run b acts = Some (b', ps) -> stop (ctx b) = true ->
  (steps_left (at_pc b') + workers acts = steps_left (at_pc b))%nat.
Proof.
  unfold workers. induction acts as [|a acts IH]; intros b b' ps E Hs; cbn [run] in E.
  { injection E as <- <-. cbn. lia. }
  destruct (exec b a) as [[b1 ps1]|] eqn:E1; [|done]. cbn [mbind option_bind] in E.
  destruct (run b1 acts) as [[b2 ps2]|] eqn:E2; [|done]. cbn in E. injection E as <- <-.
  destruct (exec_stopped _ _ _ _ E1 Hs) as [H1 H2]. specialize (IH _ _ _ E2 H1).
  cbn [List.filter]. destruct (is_worker a); cbn [length]; lia.
Qed.

(** The worker's next action, whatever the world answers. *)
Definition next_worker (p : pc) (es : list hotplug) (ds : option (list (Host * UsbDevice)))
    (sample : nat -> Host * Z) : option action :=
  match p with
  | AtStart => Some WStart | AtHead => Some WCheck | AtPump => Some (WPump es)
  | AtRescan => Some (WRescan ds) | AtLoad => Some WLoad | AtSettle _ => Some (WSettle sample)
  | Finished => None
  end.

Lemma next_enabled b es ds sample a :
  next_worker (at_pc b) es ds sample = Some a -> exists b' ps, exec b a = Some (b', ps).
Proof.
  destruct b as [c p]. cbn [at_pc]. intros H. destruct p; try done; injection H as <-; unfold exec; cbn [ctx at_pc].
  all: try (by eexists _, _).
  - destruct (pump c es). by eexists _, _.
  - destruct (do_rescan c ds). by eexists _, _.
  - destruct (settle _ _ _ _ _). by eexists _, _.
Qed.

(** The answers [es], [ds] and [sample] of the world let the worker finish. *)
Lemma stopped_finishes (es : list hotplug) (ds : option (list (Host * UsbDevice))) (sample : nat -> Host * Z) n :
  forall c p,
  stop c = true -> steps_left p = n ->
  exists rest c' ps, (length rest <= n)%nat /\ forallb is_worker rest = true /\
    run (mkBridge c p) rest = Some (mkBridge c' Finished, ps).
Proof.
  induction n as [|n IH]; intros c p Hs Hn.
  { destruct p; try done. by exists [], c, []. }
  destruct (next_worker p es ds sample) as [a|] eqn:E; [|by destruct p].
  destruct (next_enabled (mkBridge c p) es ds sample a E) as ([c1 p1] & ps1 & E1).
  destruct (exec_stopped _ _ _ _ E1 Hs) as [Hs1 Hl]. cbn [ctx at_pc] in *.
  assert (is_worker a = true) as Hw by (by destruct p; try done; injection E as <-).
  rewrite Hw in Hl. destruct (IH c1 p1 Hs1) as (rest & c' & ps & Hlen & Hall & Hrun); [lia|].
  exists (a :: rest), c', (ps1 ++ ps). split_and!; [cbn; lia | cbn; by rewrite Hw|].
  cbn [run]. rewrite E1. cbn. by rewrite Hrun.
Qed.

Lemma destroy_returns b (es : list hotplug) (ds : option (list (Host * UsbDevice))) (sample : nat -> Host * Z) :
  exists rest ps, (length rest <= 5)%nat /\ forallb is_worker rest = true /\
    gopro_discovery_destroy (Some b) rest = Some ps.
Proof.
  destruct b as [c p].
  destruct (stopped_finishes es ds sample (steps_left p) (set_stop true c) p eq_refl eq_refl)
    as (rest & c' & ps & Hlen & Hall & Hrun).
  exists rest, ps. split_and!; [destruct p; cbn in *; lia | done|].
  unfold gopro_discovery_destroy. cbn [run].
  assert (exec (mkBridge c p) Stop = Some (mkBridge (set_stop true c) p, [])) as -> by (by destruct p).
  cbn [mbind option_bind]. by rewrite Hrun.
Qed.

(** ** Rescans *)

Lemma enumerate_not_ready d l : Forall (fun k => readiness k <> kL3Ready) (enumerate d l).2.
Proof.
  destruct l as [l|]; [|constructor]. cbn [enumerate]. revert d.
  induction l as [|[h dev] l IH]; intros d; [constructor|]. cbn [enumerate_loop].
  destruct (device_descriptor dev); [|apply IH]. destruct (negb _); [apply IH|].
  match goal with |- context [enumerate_loop ?d1 l] => specialize (IH d1); destruct (enumerate_loop d1 l) end.
  cbn [snd] in *. constructor; [apply build_not_ready | done].
Qed.

(** After updates for some cameras the client has a record of one of them for
    each of their names. *)
Lemma client_updates port l : forall m n,
  (n ∈ (sysfs_name_ <$> l) \/ exists k, readiness k <> kL3Ready /\ m !! n = Some (to_record k 0)) ->
  Forall (fun k => readiness k <> kL3Ready) l ->
  exists k, readiness k <> kL3Ready /\
    client m ((fun k => mkPosting port kUpdate (Some (to_record k 0))) <$> l) !! n = Some (to_record k 0).
Proof.
  induction l as [|k l IH]; intros m n Hn Hl.
  { destruct Hn as [Hn|Hn]; [by apply not_elem_of_nil in Hn | done]. }
  apply Forall_cons in Hl as [Hk Hl]. cbn [fmap list_fmap client foldl client_apply p_kind p_rec].
  apply IH; [|done]. destruct (decide (n = sysfs_name_ k)) as [->|Hne].
  - right. exists k. split; [done|]. apply lookup_insert_eq.
  - destruct Hn as [Hn|(k' & Hk' & Hm)].
    + cbn in Hn. apply elem_of_cons in Hn as [?|Hn]; [done | by left].
    + right. exists k'. split; [done|]. rewrite lookup_insert_ne by (cbn; congruence). done.
Qed.

(** ** Settling, entry by entry *)

Definition kept (budget : Z) (sample : nat -> Host * Z) (i : nat) (p : Pending) : list Pending :=
  if finished budget (sample i).1 (sample i).2 p then []
  else [mkPending (sampled (sample i).1 p) (arrived p) (readiness (sampled (sample i).1 p))].

Definition reports (port budget : Z) (sample : nat -> Host * Z) (i : nat) (p : Pending) : list posting :=
  if changed (sample i).1 p || finished budget (sample i).1 (sample i).2 p
  then [mkPosting port kUpdate
          (Some (to_record (sampled (sample i).1 p) (ms_since (sample i).2 (arrived p))))]
  else [].

Lemma settle_eq port budget sample l : forall i,
  Forall pending_ok l ->
  settle port budget sample i l =
    (concat (imap (fun j => kept budget sample (i + j)) l),
     concat (imap (fun j => reports port budget sample (i + j)) l)).
Proof.
  induction l as [|p l IH]; intros i Hl; [done|]. apply Forall_cons in Hl as [[_ Hp] Hl].
  cbn [settle]. rewrite settle_one_eq, (IH (S i) Hl) by done. cbn [imap concat].
  rewrite Nat.add_0_r. f_equal.
  - f_equal; [unfold kept; by destruct (finished _ _ _ _)|]. f_equal. apply imap_ext.
    intros j x _. cbn. by rewrite Nat.add_succ_r.
  - f_equal. f_equal. apply imap_ext. intros j x _. cbn. by rewrite Nat.add_succ_r.
Qed.

(** ** Properties *)

(** The client mirrors the bridge.  When devices arrive only at free places
    and no rescan is asked for, then after any run, for a client that applies
    the events in order to an empty map: it has exactly the attached cameras;
    it knows every camera still settling as far as it has got; and every other
    camera it has is reported with how its settling ended, ready, gone, or out
    of a budget that was in force.  None is left waiting without a word. *)
Theorem client_mirrors port v i h r attached b0 ps0 acts b ps :
  gopro_discovery_create port v i h r attached = (Some b0, ps0) ->
  run b0 acts = Some (b, ps) -> Rescan ∉ acts ->
  orderly ∅ (attached ++ hotplugs acts) ->
  let m := client ∅ (ps0 ++ ps) in
  dom m = foldl plug ∅ (attached ++ hotplugs acts) /\
  Forall (tracked m) (pending (ctx b)) /\
  (forall n rec, m !! n = Some rec -> n ∉ names (pending (ctx b)) -> terminal (10000 :: budgets acts) rec).
Proof.
  intros Hc Hr Hn Ho. cbv zeta. rewrite client_app, foldl_app. apply orderly_app in Ho as [Ho1 Ho2].
  assert (bridge_mirror b0 (client ∅ ps0) (foldl plug ∅ attached) (10000 :: budgets acts)) as H0.
  { eapply mirror_created; [exact Hc | left | exact Ho1]. }
  assert (Forall (fun x => x ∈ 10000 :: budgets acts) (budgets acts)) as Hb.
  { apply Forall_forall. intros x Hx. by right. }
  destruct (mirror_run acts b0 _ _ _ b ps H0 Hn Hb Ho2 Hr) as [[] _ _]. done.
Qed.

Definition demo_arrival : hotplug := mkHotplug demo_host demo_device true 0.

Definition one_turn (now : Z) : list action :=
  [WCheck; WPump []; WRescan None; WLoad; WSettle (fun _ => (demo_host, now))].

Definition demo_bridge : Bridge :=
  default (mkBridge (mkBridgeContext demo_discovery 7 false 0 false []) Finished)
    (gopro_discovery_create 7 0 true true true [demo_arrival]).1.

Lemma client_mirrors_witness :
  let ps0 := (gopro_discovery_create 7 0 true true true [demo_arrival]).2 in
  exists b ps, run demo_bridge (WStart :: one_turn 50000000) = Some (b, ps) /\
    (fun rec => uval (GoproTypes.readiness rec)) <$> client ∅ (ps0 ++ ps) !! "2-1" = Some 4 /\
    dom (client ∅ (ps0 ++ ps)) = {["2-1"]} ∪ ∅.
Proof.
  cbv zeta. eexists _, _. split; [vm_compute; reflexivity|]. split; [vm_compute; reflexivity|].
  refine (proj1 (client_mirrors 7 0 true true true [demo_arrival] demo_bridge _
    (WStart :: one_turn 50000000) _ _ eq_refl _ _ _)).
  - vm_compute. reflexivity.
  - unfold one_turn. rewrite !not_elem_of_cons. split_and!; try discriminate. apply not_elem_of_nil.
  - split; [|done]. intros _. apply not_elem_of_empty.
Defined.

(** Settling.  In any reachable state, one round of settling takes every
    camera one sample further, in order: a camera stays exactly if it is
    neither ready nor gone and its budget has not run out, and it is reported,
    once, exactly if its readiness changed or it leaves.  So no camera leaves
    the list unreported. *)
Theorem settling b budget sample :
  reachable b -> at_pc b = AtSettle budget ->
  exists b' ps, exec b (WSettle sample) = Some (b', ps) /\
    pending (ctx b') = concat (imap (kept budget sample) (pending (ctx b))) /\
    ps = concat (imap (reports (events_port (ctx b)) budget sample) (pending (ctx b))).
Proof.
  intros Hr Hp. destruct (reachable_pending_ok b Hr) as [_ Hok]. destruct b as [c p].
  cbn [at_pc ctx] in *. subst p. unfold exec. cbn [ctx at_pc]. rewrite settle_eq by done.
  eexists _, _. split_and!; [reflexivity..].
Qed.

Lemma settling_witness :
  exists b b' ps, run demo_bridge [WStart; WCheck; WPump []; WRescan None; WLoad] = Some (b, [mkPosting 7 kSentinel None]) /\
    exec b (WSettle (fun _ => (demo_host, 50000000))) = Some (b', ps) /\
    ps = concat (imap (reports 7 10000 (fun _ => (demo_host, 50000000))) (pending (ctx b))).
Proof.
  destruct (run demo_bridge [WStart; WCheck; WPump []; WRescan None; WLoad]) as [[b ps0]|] eqn:E;
    [|vm_compute in E; discriminate].
  assert (at_pc b = AtSettle 10000 /\ events_port (ctx b) = 7 /\ ps0 = [mkPosting 7 kSentinel None]) as (Hp & Hpt & ->).
  { vm_compute in E. injection E as <- <-. done. }
  destruct (settling b 10000 (fun _ => (demo_host, 50000000))) as (b' & ps & H1 & _ & H3); [|exact Hp|].
  - exists 7, 0, true, true, true, [demo_arrival], demo_bridge.
    eexists _, _, _. split; [vm_compute; reflexivity | exact E].
  - rewrite Hpt in H3. exists b, b', ps. split_and!; [reflexivity | exact H1 | exact H3].
Defined.

(** Every event is readable.  If the world's strings are shorter than 4 GiB
    and its integers have their types, then whatever happens, rescans included,
    every event posted is decoded by the Dart reader as the event and the
    camera it was posted for, whatever [utf8.decode] does. *)
Theorem bridge_posts_decode (text : Type) (u : bytes -> text) empty_text
    port v i h r attached b0 ps0 acts b ps :
  gopro_discovery_create port v i h r attached = (Some b0, ps0) ->
  run b0 acts = Some (b, ps) -> Forall hotplug_ok attached -> Forall action_ok acts ->
  Forall (fun p => decodeEvent u empty_text (post_bytes p) =
                   inl (Some (mkCameraEvent (p_kind p) (camera_of u empty_text <$> p_rec p)))) (ps0 ++ ps).
Proof.
  intros Hc Hr Ha Hok. destruct (created_ok _ _ _ _ _ _ _ _ Hc Ha) as [H0 H1].
  destruct (bridge_run_ok acts _ _ _ H0 Hok Hr) as [_ H2].
  eapply Forall_impl; [by apply Forall_app|]. intros p. apply posting_ok_decodes.
Qed.

Lemma demo_host_ok : host_ok demo_host.
Proof.
  split; cbn.
  - intros p. destruct (String.eqb _ _); repeat apply Forall_cons_2; try apply Forall_nil_2; by vm_compute.
  - intros p s. destruct (String.eqb _ _); [|done]. intros [= <-]. by vm_compute.
  - intros l [= <-]. repeat apply Forall_cons_2; try apply Forall_nil_2; by vm_compute.
Qed.

Lemma demo_device_ok : device_ok demo_device.
Proof. split; cbn; unfold in_range, byte_ok, short; cbn; try lia. intros x [= <-]. cbn. unfold kGoProVid. lia. Qed.

Lemma bridge_posts_decode_witness :
  let ps0 := (gopro_discovery_create 7 0 true true true [demo_arrival]).2 in
  exists b ps, run demo_bridge (WStart :: one_turn 50000000) = Some (b, ps) /\
    p_kind <$> (ps0 ++ ps) = [kUpdate; kSentinel; kUpdate] /\
    Forall (fun p => decodeEvent bytes_string EmptyString (post_bytes p) =
                     inl (Some (mkCameraEvent (p_kind p) (camera_of bytes_string EmptyString <$> p_rec p))))
      (ps0 ++ ps).
Proof.
  cbv zeta. eexists _, _. split; [vm_compute; reflexivity|]. split; [vm_compute; reflexivity|].
  refine (bridge_posts_decode string bytes_string EmptyString 7 0 true true true [demo_arrival] demo_bridge _
    (WStart :: one_turn 50000000) _ _ eq_refl _ _ _).
  - vm_compute. reflexivity.
  - apply Forall_singleton. split; [apply demo_host_ok | apply demo_device_ok].
  - unfold one_turn. repeat apply Forall_cons_2; try apply Forall_nil_2; try exact I; try apply Forall_nil_2.
    intros i. apply demo_host_ok.
Defined.

(** The settling budget.  A camera that is neither ready nor gone leaves
    exactly when the whole milliseconds since its arrival exceed the budget in
    force read as an unsigned number: a negative budget is one of at least
    2^31 ms, so it abandons no camera for 24 days. *)
Theorem settle_budget port budget h now p :
  last_ p <> kL3Ready -> readiness (sampled h p) <> kL3Ready -> readiness (sampled h p) <> kAbsent ->
  0 <= now - arrived p < 2 ^ 32 * 1000000 -> - 2 ^ 31 <= budget < 2 ^ 31 ->
  let elapsed := (now - arrived p) / 1000000 in
  ((settle_one port budget h now p).1 = None <-> (if budget <? 0 then 2 ^ 32 + budget else budget) < elapsed) /\
  (budget < 0 -> elapsed <= 2 ^ 31 -> is_Some (settle_one port budget h now p).1).
Proof.
  intros Hl H1 H2 Ht Hb. cbv zeta. rewrite settle_one_eq by done. cbn [fst].
  assert (ms_since now (arrived p) = (now - arrived p) / 1000000) as He.
  { unfold ms_since. rewrite Z.quot_div_nonneg by lia. apply wrap_small. lia. }
  assert (finished budget h now p =
    ((if budget <? 0 then 2 ^ 32 + budget else budget) <? (now - arrived p) / 1000000)) as ->.
  { unfold finished. rewrite !bool_decide_eq_false_2 by done. rewrite He. cbn [orb]. f_equal.
    destruct (budget <? 0) eqn:E; to_prop; [|apply wrap_small; lia].
    unfold wrap. rewrite <- (Z.mod_add _ 1) by lia. rewrite Z.mod_small; lia. }
  destruct (_ <? (now - arrived p) / 1000000) eqn:E; to_prop; split; try done.
  - intros Hneg Hle. destruct (budget <? 0) eqn:E2; to_prop; lia.
  - split; [done | lia].
Qed.

(** A host on which the interface has not been given an address. *)
Definition unleased_host : Host :=
  mkHost (is_directory demo_host) (path_exists demo_host) (list_directory demo_host) (first_line demo_host)
    (Some []) (inet_pton demo_host) true (connect demo_host) (poll_writable demo_host) (so_error demo_host).

Lemma settle_budget_witness :
  let p := mkPending (build unleased_host demo_device true) 0 kNetdevBound in
  (settle_one 7 10000 unleased_host 10001000000 p).1 = None /\
  is_Some (settle_one 7 (-1) unleased_host 1000000000000 p).1.
Proof.
  cbv zeta. set (p := mkPending _ _ _).
  assert (readiness (sampled unleased_host p) = kNetdevBound) as E by (vm_compute; reflexivity).
  split.
  - apply (proj1 (settle_budget 7 10000 unleased_host 10001000000 p ltac:(done) ltac:(by rewrite E)
      ltac:(by rewrite E) ltac:(cbn; lia) ltac:(lia))). cbn. lia.
  - apply (proj2 (settle_budget 7 (-1) unleased_host 1000000000000 p ltac:(done) ltac:(by rewrite E)
      ltac:(by rewrite E) ltac:(cbn; lia) ltac:(lia))); [lia|]. vm_compute. discriminate.
Defined.

(** The sentinel.  Whatever is attached when a bridge is created is posted
    before [gopro_discovery_create] returns; the sentinel is posted exactly
    once, first of all that the worker posts.  So a client that waits for it
    has been told of every camera already there. *)
Theorem sentinel_first port v i h r attached b0 ps0 acts b ps :
  gopro_discovery_create port v i h r attached = (Some b0, ps0) -> run b0 acts = Some (b, ps) ->
  no_sentinel ps0 /\
  ((at_pc b = AtStart /\ ps = []) \/
   (at_pc b <> AtStart /\
    exists rest, ps = mkPosting (events_port (ctx b0)) kSentinel None :: rest /\ no_sentinel rest)).
Proof.
  intros Hc Hr. destruct (created_start _ _ _ _ _ _ _ _ Hc) as [H1 H2]. split; [done|].
  exact (run_sentinel acts _ _ _ Hr H2).
Qed.

Lemma sentinel_first_witness :
  exists b rest, run demo_bridge (WStart :: one_turn 50000000) =
    Some (b, mkPosting 7 kSentinel None :: rest) /\ no_sentinel rest.
Proof.
  destruct (run demo_bridge (WStart :: one_turn 50000000)) as [[b ps]|] eqn:E; [|vm_compute in E; discriminate].
  destruct (sentinel_first 7 0 true true true [demo_arrival] demo_bridge
    (gopro_discovery_create 7 0 true true true [demo_arrival]).2 (WStart :: one_turn 50000000) b ps)
    as [_ [[H _]|[_ (rest & -> & H)]]]; [vm_compute; reflexivity | exact E | |].
  - vm_compute in E. injection E as <- _. discriminate.
  - by exists b, rest.
Defined.

(** C27: the worker stops.  Once told to stop, the worker takes at most five more
    steps in any run, and as long as it has not finished it can take one,
    whatever the world answers: destroying a handle always returns, after the
    world has answered at most that often. *)
Theorem destroy_terminates b es ds sample :
  (exists rest ps, (length rest <= 5)%nat /\ gopro_discovery_destroy (Some b) rest = Some ps) /\
  (forall acts b' ps, run b (Stop :: acts) = Some (b', ps) ->
     (workers acts <= 5)%nat /\
     (at_pc b' <> Finished ->
      exists a b'' ps', next_worker (at_pc b') es ds sample = Some a /\ exec b' a = Some (b'', ps'))).
Proof.
  split.
  - destruct (destroy_returns b es ds sample) as (rest & ps & H1 & _ & H2). by exists rest, ps.
  - intros acts b' ps E. cbn [run] in E. destruct b as [c p].
    assert (exec (mkBridge c p) Stop = Some (mkBridge (set_stop true c) p, [])) as Ex by (by destruct p).
    rewrite Ex in E. cbn [mbind option_bind] in E.
    destruct (run (mkBridge (set_stop true c) p) acts) as [[b2 ps2]|] eqn:E2; [|done].
    cbn in E. injection E as <- <-. pose proof (run_stopped acts _ _ _ E2 eq_refl) as H. cbn [at_pc] in H.
    split; [destruct p; cbn in H; lia|]. intros Hf.
    destruct (next_worker (at_pc b2) es ds sample) as [a|] eqn:En; [|by destruct (at_pc b2)].
    destruct (next_enabled b2 es ds sample a En) as (b'' & ps' & Ea). by exists a, b'', ps'.
Qed.

(** Rescans.  A request is kept until the worker comes to it; then one update
    is posted for every device listed, in order, with the settling list left as
    it was.  The listing does not probe, so afterwards the client holds every
    listed camera for not ready, whatever it knew before. *)
Theorem rescan_downgrades b :
  rescan (ctx b) = true ->
  (forall a b' ps, exec b a = Some (b', ps) -> (forall ds, a <> WRescan ds) -> rescan (ctx b') = true) /\
  (forall ds b' ps m, exec b (WRescan ds) = Some (b', ps) ->
     let cams := (enumerate (disco (ctx b)) ds).2 in
     rescan (ctx b') = false /\ pending (ctx b') = pending (ctx b) /\
     ps = (fun k => mkPosting (events_port (ctx b)) kUpdate (Some (to_record k 0))) <$> cams /\
     forall n, n ∈ (sysfs_name_ <$> cams) ->
       exists k, readiness k <> kL3Ready /\ client m ps !! n = Some (to_record k 0)).
Proof.
  destruct b as [c p]. cbn [ctx]. intros Hr. split.
  - intros a b' ps E Ha. destruct a as [| |es|ds| |sample| |ms|]; unfold exec in E; cbn [ctx at_pc] in E;
      [..|by injection E as <- <- | by injection E as <- <- | by injection E as <- <-];
      destruct p; try done; try (by injection E as <- <-).
    + pose proof (pump_rescan es c) as H. destruct (pump c es). injection E as <- <-. cbn in *. congruence.
    + by destruct (Ha ds).
    + destruct (settle _ _ _ _ _). by injection E as <- <-.
  - intros ds b' ps m E. cbv zeta. unfold exec in E. cbn [ctx at_pc] in E. destruct p; try done.
    unfold do_rescan in E. rewrite Hr in E. pose proof (enumerate_not_ready (disco c) ds) as Hk.
    destruct (enumerate (disco c) ds) as [d cams]. cbn [snd] in *. injection E as <- <-.
    split_and!; [done..|]. intros n Hn. apply client_updates; [by left | done].
Qed.

Lemma rescan_downgrades_witness :
  exists b k, run demo_bridge ([WStart] ++ one_turn 50000000 ++ [Rescan; WCheck; WPump []]) = Some b /\
    client ∅ (default [] (snd <$> exec b.1 (WRescan (Some [(demo_host, demo_device)])))) !! "2-1" =
      Some (to_record k 0) /\ readiness k <> kL3Ready.
Proof.
  destruct (run demo_bridge ([WStart] ++ one_turn 50000000 ++ [Rescan; WCheck; WPump []])) as [[b ps]|] eqn:E;
    [|vm_compute in E; discriminate].
  assert (rescan (ctx b) = true /\ at_pc b = AtRescan /\
    "2-1" ∈ (sysfs_name_ <$> (enumerate (disco (ctx b)) (Some [(demo_host, demo_device)])).2)) as (Hr & Hp & Hn).
  { vm_compute in E. injection E as <- _. split_and!; [reflexivity..|]. vm_compute. left. }
  destruct (exec b (WRescan (Some [(demo_host, demo_device)]))) as [[b' ps']|] eqn:E2.
  - destruct (rescan_downgrades b Hr) as [_ H].
    destruct (H _ b' ps' ∅ E2) as (_ & _ & _ & H4). destruct (H4 "2-1" Hn) as (k & Hk & Hm).
    exists (b, ps), k. split_and!; [done | cbn [fst]; rewrite E2; exact Hm | done].
  - destruct b as [c p]. cbn in Hp. subst p. unfold exec in E2. cbn [ctx at_pc] in E2.
    by destruct (do_rescan _ _).
Defined.

(** ** What modelling showed *)

(** A camera the client knows to be ready is reported as not ready by a rescan,
    and nothing corrects that: it is not settling any more. *)
Example rescan_loses_ready :
  let seen acts := (fun rec => uval (GoproTypes.readiness rec)) <$>
    client ∅ ((gopro_discovery_create 7 0 true true true [demo_arrival]).2 ++ default [] (snd <$> run demo_bridge acts)) !! "2-1" in
  let rescan_turn now := [WCheck; WPump []; WRescan (Some [(demo_host, demo_device)]); WLoad; WSettle (fun _ => (demo_host, now))] in
  seen (WStart :: one_turn 50000000) = Some 4 /\
  seen (WStart :: one_turn 50000000 ++ [Rescan] ++ rescan_turn 100000000 ++ one_turn 150000000 ++ one_turn 200000000) = Some 3.
Proof. vm_compute. done. Qed.
