(* ===== verification/Resources.v ===== *)
(** * What the discovery code acquires
    ([native/src/gopro_usb.cpp], [native/src/gopro_bridge.cpp])

    The operations of [GoproUsb] and [GoproBridge] once more, as code that
    acquires and releases: libusb's context, callback registration, device list,
    configuration descriptor and handle, the interface list of [getifaddrs], the
    probe's socket, the worker thread, the bridge's context, and the two mutexes.
    The values computed are those of [GoproUsb] and [GoproBridge] ([_agrees]
    lemmas); what is new is the order of acquisitions and releases, on every
    path.  One thread at a time runs this code: the caller until the worker
    starts and after it is joined, the worker in between. *)

From stdpp Require Import strings gmap.
From S2P Require Import Prelude GlazeMeta GoproTypes GoproUsb EventCodec GoproBridge.
Local Open Scope Z_scope.
Open Scope act_scope.

Inductive resource :=
| LibusbContext        (** [libusb_init], [libusb_exit] *)
| HotplugCallback      (** [libusb_hotplug_(de)register_callback] *)
| DeviceList           (** [libusb_(get|free)_device_list] *)
| ConfigDescriptor     (** [libusb_(get_active|free)_config_descriptor] *)
| DeviceHandle         (** [libusb_open], [libusb_close] *)
| InterfaceList        (** [getifaddrs], [freeifaddrs] *)
| ProbeSocket          (** [socket], [close] *)
| CacheMutex           (** [cache_mu] *)
| PendingMutex         (** [mu] *)
| WorkerThread         (** [std::thread], [join] *)
| Context.             (** the [BridgeContext], [delete] *)

#[export] Instance resource_eq_dec : EqDecision resource.
Proof. solve_decision. Defined.

Definition is_lock (r : resource) : bool := match r with CacheMutex | PendingMutex => true | _ => false end.

Inductive op := Acquire (r : resource) | Release (r : resource).

Abbreviation traced := (act unit op).

(** What it computes, and what it does. *)
Definition value {A} (m : traced A) : A := run_result m tt.
Definition ops {A} (m : traced A) : list op := run_events m tt.

Definition acquire (r : resource) : traced unit := emit [Acquire r].
Definition release (r : resource) : traced unit := emit [Release r].

(** Scope-based release: [std::lock_guard], or a call at the end of the block. *)
Definition holding {A} (r : resource) (m : traced A) : traced A :=
  acquire r ;;; a <~ m ;; release r ;;; ret a.

(** ** Samples of the host *)

Definition host_ipv4_t (h : Host) (netdev : string) : traced string :=
  if empty netdev then ret EmptyString
  else match getifaddrs h with
       | None => ret EmptyString
       | Some l => holding InterfaceList (ret (host_ipv4_loop netdev l))
       end.

Definition probe_tcp_t (h : Host) (ip : string) (port timeout_ms : Z) : traced bool :=
  if negb (inet_pton h ip) then ret false
  else if negb (socket_ok h) then ret false
  else
    holding ProbeSocket
      (ret match connect h ip port with
           | Connected => true
           | InProgress => poll_writable h timeout_ms && bool_decide (so_error h = Some 0)
           | ConnectError => false
           end).

Definition advance_readiness_t (h : Host) (c : Camera) (probe_port probe_timeout_ms : Z) : traced Camera :=
  if negb (path_exists h (path_join kSysUsb (sysfs_name_ c)))
  then ret (set_readiness c (link_state_ c) (host_ip c) kAbsent)
  else
    let c := set_readiness c (link_state_ c) (host_ip c) kUsbPresent in
    let c := resolve_netdev h c kSysUsb in
    if empty (netdev c) then ret c
    else
      let c := set_readiness c (link_state h (netdev c)) (host_ip c) kNetdevBound in
      host <~ host_ipv4_t h (netdev c) ;;
      let c := set_readiness c (link_state_ c) host kNetdevBound in
      if empty (host_ip c) then ret c
      else
        let c := set_readiness c (link_state_ c) (host_ip c) kHostAddressed in
        if (probe_port =? 0) || empty (ip c) then ret c
        else
          ok <~ probe_tcp_t h (ip c) probe_port probe_timeout_ms ;;
          ret (if ok : bool then set_readiness c (link_state_ c) (host_ip c) kL3Ready else c).

(** ** libusb *)

Definition has_cdc_t (d : UsbDevice) : traced bool :=
  match active_config d with
  | None => ret false
  | Some itfs => holding ConfigDescriptor (ret (existsb (existsb is_cdc_class) itfs))
  end.

Definition read_serial_t (h : Host) (d : UsbDevice) (sysfs : string) : traced (string * SerialSource.t) :=
  let isn := from_option iSerialNumber 0 (device_descriptor d) in
  from_descriptor <~
    (if negb (isn =? 0) && can_open d then holding DeviceHandle (ret (serial_descriptor d)) else ret None) ;;
  let '(s, src) := from_option (fun s => (s, SerialSource.kDescriptor)) (EmptyString, SerialSource.kNone)
                     from_descriptor in
  ret (if empty s then
         let s' := read_sysfs_line h (path_join (path_join kSysUsb sysfs) "serial") in
         if empty s' then (s, src) else (s', SerialSource.kSysfs)
       else (s, src)).

Definition build_t (h : Host) (d : UsbDevice) (readable : bool) : traced Camera :=
  let c := build_identity d in
  if negb readable then ret c
  else
    cdc <~ has_cdc_t d ;;
    serial <~ read_serial_t h d (sysfs_name_ c) ;;
    let '(s, src) := serial in
    let c := mkCamera (vid c) (pid c) (bus c) (address c) (ports c) (sysfs_name_ c) s src
               (default EmptyString (derive_ip s)) EmptyString EmptyString false EmptyString EmptyString
               kAbsent cdc in
    advance_readiness_t h c 0 kProbeTimeoutMs.

(** [create]: a context that fails to initialise is not there to release. *)
Definition Discovery_create_t (libusb_init_ok : bool) (vid : Z) : traced (option Discovery) :=
  if libusb_init_ok then acquire LibusbContext ;;; ret (Some (mkDiscovery vid false false ∅))
  else ret None.

(** [~Discovery]. *)
Definition Discovery_destroy_t (d : Discovery) : traced unit :=
  when (watching d) (release HotplugCallback) ;;; release LibusbContext.

Fixpoint enumerate_loop_t (d : Discovery) (l : list (Host * UsbDevice)) : traced (Discovery * list Camera) :=
  match l with
  | [] => ret (d, [])
  | (h, dev) :: l =>
      match device_descriptor dev with
      | Some desc =>
          if negb (idVendor desc =? d_vid d) then enumerate_loop_t d l
          else
            c <~ build_t h dev true ;;
            d <~ holding CacheMutex (ret (set_cache d (<[sysfs_name_ c := c]> (cache d)))) ;;
            r <~ enumerate_loop_t d l ;;
            ret (r.1, c :: r.2)
      | None => enumerate_loop_t d l
      end
  end.

Definition enumerate_t (d : Discovery) (devices : option (list (Host * UsbDevice)))
    : traced (Discovery * list Camera) :=
  match devices with
  | None => ret (d, [])
  | Some l => holding DeviceList (enumerate_loop_t d l)
  end.

(** The hotplug callback, up to the call of [impl->cb]: the mutex is released. *)
Definition trampoline_t (d : Discovery) (h : Host) (dev : UsbDevice) (arrived : bool)
    : traced (Discovery * list (Camera * bool)) :=
  c <~ build_t h dev arrived ;;
  mc <~ holding CacheMutex
    (ret (if arrived then (<[sysfs_name_ c := c]> (cache d), c)
          else match cache d !! sysfs_name_ c with
               | Some prev => (delete (sysfs_name_ c) (cache d), recover c prev)
               | None => (cache d, c)
               end)) ;;
  ret (set_cache d mc.1, if has_cb d then [(mc.2, arrived)] else []).

Definition watch_t (d : Discovery) (hotplug_supported register_ok : bool) : traced (Discovery * bool) :=
  if negb hotplug_supported then ret (d, false)
  else if negb register_ok then ret (mkDiscovery (d_vid d) (watching d) true (cache d), false)
  else acquire HotplugCallback ;;; ret (mkDiscovery (d_vid d) true true (cache d), true).

(** ** The bridge *)

(** On arrival the record is posted with [mu] held, on departure after it. *)
Definition on_hotplug_t (ctx : BridgeContext) (c : Camera) (arrived : bool) (now : Z)
    : traced (BridgeContext * list posting) :=
  if arrived then
    holding PendingMutex
      (ret (set_pending (pending ctx ++ [mkPending c now (readiness c)]) ctx,
            [mkPosting (events_port ctx) kUpdate (Some (to_record c 0))]))
  else
    ctx <~ holding PendingMutex
      (ret (set_pending (List.filter (fun p => negb (String.eqb (sysfs_name_ (cam p)) (sysfs_name_ c)))
                           (pending ctx)) ctx)) ;;
    ret (ctx, [mkPosting (events_port ctx) kLeft (Some (to_record c 0))]).

Fixpoint callbacks_t (ctx : BridgeContext) (now : Z) (calls : list (Camera * bool))
    : traced (BridgeContext * list posting) :=
  match calls with
  | [] => ret (ctx, [])
  | (c, arrived) :: calls =>
      r <~ on_hotplug_t ctx c arrived now ;;
      r' <~ callbacks_t r.1 now calls ;;
      ret (r'.1, r.2 ++ r'.2)
  end.

Definition dispatch_t (ctx : BridgeContext) (e : hotplug) : traced (BridgeContext * list posting) :=
  r <~ trampoline_t (disco ctx) (hp_host e) (hp_dev e) (hp_arrived e) ;;
  callbacks_t (set_disco r.1 ctx) (hp_now e) r.2.

Fixpoint pump_t (ctx : BridgeContext) (es : list hotplug) : traced (BridgeContext * list posting) :=
  match es with
  | [] => ret (ctx, [])
  | e :: es => r <~ dispatch_t ctx e ;; r' <~ pump_t r.1 es ;; ret (r'.1, r.2 ++ r'.2)
  end.

(** One entry, with [mu] held by the loop. *)
Definition settle_one_t (port budget : Z) (h : Host) (now : Z) (p : Pending)
    : traced (option Pending * list posting) :=
  let before := last_ p in
  c <~ advance_readiness_t h (cam p) kProbePort kProbeTimeoutMs ;;
  let after := readiness c in
  let elapsed := ms_since now (arrived p) in
  let update := mkPosting port kUpdate (Some (to_record c elapsed)) in
  let changed := negb (bool_decide (after = before)) in
  let fin := bool_decide (after = kL3Ready) || bool_decide (after = kAbsent) || (wrap 32 budget <? elapsed) in
  ret (if fin then None else Some (mkPending c (arrived p) (if changed then after else before)),
       (if changed then [update] else []) ++
       (if fin && negb changed && negb (bool_decide (after = kL3Ready)) then [update] else [])).

Fixpoint settle_t (port budget : Z) (sample : nat -> Host * Z) (i : nat) (l : list Pending)
    : traced (list Pending * list posting) :=
  match l with
  | [] => ret ([], [])
  | p :: l =>
      r <~ settle_one_t port budget (sample i).1 (sample i).2 p ;;
      r' <~ settle_t port budget sample (S i) l ;;
      ret (option_list r.1 ++ r'.1, r.2 ++ r'.2)
  end.

Definition do_rescan_t (c : BridgeContext) (devices : option (list (Host * UsbDevice)))
    : traced (BridgeContext * list posting) :=
  if rescan c then
    r <~ enumerate_t (disco c) devices ;;
    ret (set_disco r.1 (set_rescan false c),
         (fun k => mkPosting (events_port c) kUpdate (Some (to_record k 0))) <$> r.2)
  else ret (set_rescan false c, []).

Definition exec_t (b : Bridge) (a : action) : option (traced (Bridge * list posting)) :=
  let c := ctx b in
  match a, at_pc b with
  | WPump es, AtPump => Some (r <~ pump_t c es ;; ret (mkBridge r.1 AtRescan, r.2))
  | WRescan ds, AtRescan => Some (r <~ do_rescan_t c ds ;; ret (mkBridge r.1 AtLoad, r.2))
  | WSettle sample, AtSettle budget =>
      Some (r <~ holding PendingMutex (settle_t (events_port c) budget sample 0 (pending c)) ;;
            ret (mkBridge (set_pending r.1 c) AtHead, r.2))
  | _, _ => ret <$> exec b a
  end.

Fixpoint run_t (b : Bridge) (acts : list action) : option (traced (Bridge * list posting)) :=
  match acts with
  | [] => Some (ret (b, []))
  | a :: acts =>
      m ← exec_t b a;
      let r := value m in
      m' ← run_t r.1 acts;
      Some (_ <~ m ;; r' <~ m' ;; ret (r'.1, r.2 ++ r'.2))
  end.

(** [gopro_discovery_create].  On the paths that return null the [unique_ptr]s
    destroy what there is. *)
Definition gopro_discovery_create_t (port v : Z) (init_ok hotplug_supported register_ok : bool)
    (attached : list hotplug) : traced (option Bridge * list posting) :=
  acquire Context ;;;
  d <~ Discovery_create_t init_ok (if v =? 0 then kGoProVid else v) ;;
  match d with
  | None => release Context ;;; ret (None, [])
  | Some d =>
      if negb hotplug_supported then Discovery_destroy_t d ;;; release Context ;;; ret (None, [])
      else
        r <~ watch_t d hotplug_supported register_ok ;;
        if negb r.2 then Discovery_destroy_t r.1 ;;; release Context ;;; ret (None, [])
        else
          r' <~ pump_t (mkBridgeContext r.1 port false 10000 false []) attached ;;
          acquire WorkerThread ;;;
          ret (Some (mkBridge r'.1 AtStart), r'.2)
  end.

(** [gopro_discovery_destroy]: while the worker is joined it takes the actions
    [rest]; then [delete], which destroys the [Discovery]. *)
Definition gopro_discovery_destroy_t (h : option Bridge) (rest : list action)
    : option (traced (list posting)) :=
  match h with
  | None => Some (ret [])
  | Some b =>
      m ← run_t b (Stop :: rest);
      let r := value m in
      match at_pc r.1 with
      | Finished =>
          Some (_ <~ m ;; release WorkerThread ;;; Discovery_destroy_t (disco (ctx r.1)) ;;;
                release Context ;;; ret r.2)
      | _ => None
      end
  end.

(** ** Auditing a trace

    [audit held ops] replays the operations from what is held: nothing is
    acquired that is held, no mutex while a mutex is held, and only what was
    acquired last is released. *)

Fixpoint audit (held : list resource) (ops : list op) : option (list resource) :=
  match ops with
  | [] => Some held
  | Acquire r :: ops =>
      if bool_decide (r ∈ held) || (is_lock r && existsb is_lock held) then None else audit (r :: held) ops
  | Release r :: ops =>
      match held with
      | r' :: held => if bool_decide (r = r') then audit held ops else None
      | [] => None
      end
  end.

Lemma audit_app l l' : forall held, audit held (l ++ l') = held' ← audit held l; audit held' l'.
Proof.
  induction l as [|[r|r] l IH]; intros held; cbn; [done|..].
  - by destruct (_ || _).
  - destruct held as [|r' held]; [done|]. by case_bool_decide.
Qed.

Lemma value_bind {A B} (m : traced A) (k : A -> traced B) : value (bind m k) = value (k (value m)).
Proof. unfold value. destruct (run_bind m k tt) as [-> _]. by destruct (run_state m tt). Qed.

Lemma ops_bind {A B} (m : traced A) (k : A -> traced B) : ops (bind m k) = ops m ++ ops (k (value m)).
Proof. unfold ops, value. destruct (run_bind m k tt) as (_ & _ & ->). by destruct (run_state m tt). Qed.

Lemma value_holding {A} r (m : traced A) : value (holding r m) = value m.
Proof. unfold holding. by rewrite !value_bind. Qed.

Lemma ops_holding {A} r (m : traced A) : ops (holding r m) = Acquire r :: ops m ++ [Release r].
Proof. unfold holding. by rewrite !ops_bind. Qed.

(** [neutral locks uses m]: from any state in which nothing of [uses] is held,
    and no mutex if [locks], [m] passes the audit and leaves what is held as it
    was. *)
Definition neutral {A} (locks : bool) (uses : list resource) (m : traced A) : Prop := forall held,
  Forall (fun r => r ∉ held) uses -> (locks = true -> existsb is_lock held = false) ->
  audit held (ops m) = Some held.

Lemma neutral_ret {A} locks uses (a : A) : neutral locks uses (ret a).
Proof. done. Qed.

Lemma neutral_bind {A B} locks uses (m : traced A) (k : A -> traced B) :
  neutral locks uses m -> neutral locks uses (k (value m)) -> neutral locks uses (bind m k).
Proof. intros Hm Hk held Hu Hl. rewrite ops_bind, audit_app, Hm by done. by apply Hk. Qed.

Lemma neutral_weaken {A} locks locks' uses uses' (m : traced A) :
  neutral locks uses m -> uses ⊆ uses' -> (locks = true -> locks' = true) -> neutral locks' uses' m.
Proof.
  intros Hm Hu Hl held Hu' Hl'. apply Hm; [|by auto]. rewrite Forall_forall in *. auto.
Qed.

(** The body of a scope uses something else, and no mutex if the scope's is one. *)
Lemma neutral_holding {A} locks uses r (m : traced A) :
  neutral (locks && negb (is_lock r)) (List.filter (fun r' => negb (bool_decide (r' = r))) uses) m ->
  r ∈ uses -> (is_lock r = true -> locks = true) -> neutral locks uses (holding r m).
Proof.
  intros Hm Hr Hl held Hu Hlk. rewrite ops_holding. cbn [audit].
  rewrite bool_decide_eq_false_2 by (rewrite Forall_forall in Hu; by apply Hu).
  assert (is_lock r && existsb is_lock held = false) as ->.
  { destruct (is_lock r) eqn:E; [|done]. apply Hlk. by apply Hl. }
  cbn [orb]. rewrite audit_app, Hm; cbn [mbind option_bind].
  - cbn. by rewrite bool_decide_eq_true_2.
  - rewrite Forall_forall in *. intros x (Hx & Hne)%elem_of_lfilter. apply negb_true_iff, bool_decide_eq_false in Hne.
    intros [->|Hin]%elem_of_cons; [done|]. by apply (Hu x).
  - intros [H1 H2]%andb_true_iff. cbn. apply negb_true_iff in H2. rewrite H2. by apply Hlk.
Qed.

(** Walk over a computation; scopes and the lemmas below are left. *)
Ltac neutral :=
  repeat lazymatch goal with
    | |- neutral _ _ (ret _) => apply neutral_ret
    | |- neutral _ _ (bind _ _) => apply neutral_bind
    | |- neutral _ _ (match ?x with _ => _ end) => destruct x
    end.

(** What samples, device inspection and the whole of the code use in passing. *)
Definition sampling : list resource := [InterfaceList; ProbeSocket].
Definition inspecting : list resource := [ConfigDescriptor; DeviceHandle; InterfaceList; ProbeSocket].
Definition passing : list resource :=
  [DeviceList; CacheMutex; PendingMutex; ConfigDescriptor; DeviceHandle; InterfaceList; ProbeSocket].

Ltac scope := apply neutral_holding; [| |done]; [cbn; try done | set_solver].

Lemma neutral_host_ipv4 h netdev : neutral false sampling (host_ipv4_t h netdev).
Proof. unfold host_ipv4_t. neutral. scope. Qed.

Lemma neutral_probe_tcp h ip port t : neutral false sampling (probe_tcp_t h ip port t).
Proof. unfold probe_tcp_t. neutral; scope. Qed.

Lemma neutral_advance h c port t : neutral false sampling (advance_readiness_t h c port t).
Proof.
  unfold advance_readiness_t. cbv zeta. neutral; first [apply neutral_host_ipv4 | apply neutral_probe_tcp].
Qed.

Lemma neutral_build h d b : neutral false inspecting (build_t h d b).
Proof.
  assert (sampling ⊆ inspecting) as Hs by set_solver.
  unfold build_t, has_cdc_t, read_serial_t. cbv zeta. neutral; try scope.
  all: by eapply neutral_weaken; [apply neutral_advance|..].
Qed.

Lemma inspecting_passing : inspecting ⊆ passing.
Proof. set_solver. Qed.

Lemma neutral_build_passing h d b : neutral true passing (build_t h d b).
Proof. by eapply neutral_weaken; [apply neutral_build|apply inspecting_passing|]. Qed.

(** Whatever uses nothing at all may run inside any scope. *)
Lemma neutral_enumerate_loop locks l : forall d,
  locks = true -> neutral locks (CacheMutex :: inspecting) (enumerate_loop_t d l).
Proof.
  intros d ->. revert d. induction l as [|[h dev] l IH]; intros d; cbn [enumerate_loop_t]; neutral.
  - apply IH.
  - eapply neutral_weaken; [apply neutral_build|set_solver|done].
  - scope.
  - apply IH.
  - apply IH.
Qed.

Lemma neutral_enumerate d ds : neutral true passing (enumerate_t d ds).
Proof.
  unfold enumerate_t. neutral. apply neutral_holding; [|set_solver|done].
  eapply neutral_weaken; [by apply (neutral_enumerate_loop true)|set_solver|done].
Qed.

Lemma neutral_trampoline d h dev b : neutral true passing (trampoline_t d h dev b).
Proof. unfold trampoline_t. neutral; [apply neutral_build_passing | scope]. Qed.

Lemma neutral_on_hotplug c k b now : neutral true passing (on_hotplug_t c k b now).
Proof. unfold on_hotplug_t. neutral; scope. Qed.

Lemma neutral_callbacks now l : forall c, neutral true passing (callbacks_t c now l).
Proof.
  induction l as [|[k b] l IH]; intros c; cbn [callbacks_t]; neutral; [apply neutral_on_hotplug | apply IH].
Qed.

Lemma neutral_pump es : forall c, neutral true passing (pump_t c es).
Proof.
  induction es as [|e es IH]; intros c; cbn [pump_t]; neutral; [|apply IH].
  unfold dispatch_t. neutral; [apply neutral_trampoline | apply neutral_callbacks].
Qed.

Lemma neutral_settle port budget sample l : forall i, neutral false sampling (settle_t port budget sample i l).
Proof.
  induction l as [|p l IH]; intros i; cbn [settle_t]; neutral; [|apply IH].
  unfold settle_one_t. cbv zeta. neutral. apply neutral_advance.
Qed.

Lemma neutral_exec b a m : exec_t b a = Some m -> neutral true passing m.
Proof.
  assert (forall o : option (Bridge * list posting), ret <$> o = Some m -> neutral true passing m) as Hret.
  { intros [x|]; [|done]. intros [= <-]. apply neutral_ret. }
  destruct b as [c p]. unfold exec_t. cbn [ctx at_pc].
  destruct a as [| |es|ds| |sample| |ms|]; try apply Hret; destruct p; try apply Hret; intros [= <-]; neutral.
  - apply neutral_pump.
  - unfold do_rescan_t. neutral. apply neutral_enumerate.
  - apply neutral_holding; [|set_solver|done].
    eapply neutral_weaken; [apply neutral_settle|set_solver|done].
Qed.

Lemma neutral_run acts : forall b m, run_t b acts = Some m -> neutral true passing m.
Proof.
  induction acts as [|a acts IH]; intros b m; cbn [run_t]; [intros [= <-]; apply neutral_ret|].
  destruct (exec_t b a) as [m1|] eqn:E1; [|done]. cbn [mbind option_bind].
  destruct (run_t _ acts) as [m2|] eqn:E2; [|done]. cbn [mbind option_bind]. intros [= <-]. neutral.
  - by eapply neutral_exec.
  - by eapply IH.
Qed.

(** ** The same values *)

Lemma host_ipv4_agrees h n : value (host_ipv4_t h n) = host_ipv4 h n.
Proof. unfold host_ipv4_t, host_ipv4. destruct (empty n); [done|]. by destruct (getifaddrs h). Qed.

Lemma probe_tcp_agrees h ip port t : value (probe_tcp_t h ip port t) = probe_tcp h ip port t.
Proof. unfold probe_tcp_t, probe_tcp. destruct (negb _); [done|]. by destruct (negb _). Qed.

Lemma advance_agrees h c port t : value (advance_readiness_t h c port t) = advance_readiness h c port t.
Proof.
  unfold advance_readiness_t, advance_readiness. destruct (negb _); [done|]. cbv zeta.
  destruct (empty _); [done|]. rewrite value_bind, host_ipv4_agrees. destruct (empty _); [done|].
  destruct (_ || _); [done|]. rewrite value_bind, probe_tcp_agrees. by destruct (probe_tcp _ _ _ _).
Qed.

Lemma has_cdc_agrees d : value (has_cdc_t d) = has_cdc d.
Proof. unfold has_cdc_t, has_cdc. by destruct (active_config d). Qed.

Lemma read_serial_agrees h d s : value (read_serial_t h d s) = read_serial h d s.
Proof.
  unfold read_serial_t, read_serial. cbv zeta. rewrite value_bind.
  assert (value (if negb (from_option iSerialNumber 0 (device_descriptor d) =? 0) && can_open d
                 then holding DeviceHandle (ret (serial_descriptor d)) else ret None) =
          if negb (from_option iSerialNumber 0 (device_descriptor d) =? 0) && can_open d
          then serial_descriptor d else None) as -> by by destruct (_ && _).
  destruct (from_option _ _ _) as [x src]. destruct (empty x); [|done]. by destruct (empty _).
Qed.

Lemma build_agrees h d b : value (build_t h d b) = build h d b.
Proof.
  unfold build_t, build. destruct (negb b); [done|]. cbv zeta.
  rewrite value_bind, value_bind, has_cdc_agrees, read_serial_agrees.
  destruct (read_serial _ _ _) as [s src]. apply advance_agrees.
Qed.

Lemma enumerate_agrees d ds : value (enumerate_t d ds) = enumerate d ds.
Proof.
  destruct ds as [l|]; [|done]. cbn [enumerate_t enumerate]. rewrite value_holding. revert d.
  induction l as [|[h dev] l IH]; intros d; [done|]. cbn [enumerate_loop_t enumerate_loop].
  destruct (device_descriptor dev); [|apply IH]. destruct (negb _); [apply IH|].
  rewrite !value_bind, build_agrees, value_holding, IH. cbn [value run_result ret fst].
  by destruct (enumerate_loop _ l).
Qed.

Lemma trampoline_agrees d h dev b : value (trampoline_t d h dev b) = trampoline d h dev b.
Proof.
  unfold trampoline_t, trampoline. rewrite !value_bind, build_agrees, value_holding. cbn [value run_result ret fst].
  destruct b; [done|]. by destruct (cache d !! _).
Qed.

Lemma on_hotplug_agrees c k b now : value (on_hotplug_t c k b now) = on_hotplug c k b now.
Proof. by destruct b. Qed.

Lemma pump_agrees es : forall c, value (pump_t c es) = pump c es.
Proof.
  induction es as [|e es IH]; intros c; [done|]. cbn [pump_t pump]. rewrite !value_bind, IH.
  assert (value (dispatch_t c e) = dispatch c e) as ->.
  { unfold dispatch_t, dispatch. rewrite value_bind, trampoline_agrees.
    destruct (trampoline _ _ _ _) as [d calls]. cbn [fst snd]. generalize (set_disco d c). clear.
    induction calls as [|[k b] calls IH]; intros c; [done|]. cbn [callbacks_t callbacks].
    rewrite !value_bind, on_hotplug_agrees, IH. destruct (on_hotplug _ _ _ _) as [c1 ps1]. cbn [fst snd].
    by destruct (callbacks c1 _ calls). }
  destruct (dispatch c e) as [c1 ps1]. cbn [fst snd]. by destruct (pump c1 es).
Qed.

Lemma settle_agrees port budget sample l : forall i,
  value (settle_t port budget sample i l) = settle port budget sample i l.
Proof.
  induction l as [|p l IH]; intros i; [done|]. cbn [settle_t settle]. rewrite !value_bind, IH.
  assert (value (settle_one_t port budget (sample i).1 (sample i).2 p) =
          settle_one port budget (sample i).1 (sample i).2 p) as ->.
  { unfold settle_one_t. rewrite value_bind, advance_agrees. done. }
  destruct (settle_one _ _ _ _ p) as [o ps1]. cbn [fst snd]. by destruct (settle _ _ _ _ l).
Qed.

Lemma exec_agrees b a : value <$> exec_t b a = exec b a.
Proof.
  assert (forall o : option (Bridge * list posting), value <$> (ret <$> o) = o) as Hret by by intros [x|].
  destruct b as [c p]. unfold exec_t, exec. cbn [ctx at_pc].
  destruct a as [| |es|ds| |sample| |ms|]; try apply Hret; destruct p; try apply Hret; cbn [fmap option_fmap option_map].
  - rewrite value_bind, pump_agrees. by destruct (pump c es).
  - rewrite value_bind. unfold do_rescan_t, do_rescan. destruct (rescan c); [|done].
    rewrite value_bind, enumerate_agrees. by destruct (enumerate (disco c) ds).
  - rewrite value_bind, value_holding, settle_agrees. by destruct (settle _ _ _ _ _).
Qed.

Lemma run_agrees acts : forall b, value <$> run_t b acts = run b acts.
Proof.
  induction acts as [|a acts IH]; intros b; [done|]. cbn [run_t run]. rewrite <- (exec_agrees b a).
  destruct (exec_t b a) as [m|]; [|done]. cbn [mbind option_bind fmap option_fmap option_map].
  destruct (value m) as [b1 ps1] eqn:E. cbn [fst]. rewrite <- IH.
  destruct (run_t b1 acts) as [m'|]; [|done]. cbn [mbind option_bind fmap option_fmap option_map].
  rewrite !value_bind. by destruct (value m') as [b2 ps2].
Qed.

(** The registration is there to be released as long as the worker runs. *)
Lemma pump_watching es : forall c, watching (disco (pump c es).1) = watching (disco c).
Proof.
  induction es as [|e es IH]; intros c; [done|]. cbn [pump].
  assert (watching (disco (dispatch c e).1) = watching (disco c)) as E.
  { unfold dispatch, trampoline. set (k := build _ _ _).
    match goal with |- context [callbacks (set_disco (set_cache _ ?m.1) _)] => idtac | _ => idtac end.
    destruct (if hp_arrived e then _ else _) as [m k']. generalize (if has_cb (disco c) then [(k', hp_arrived e)] else []).
    change (watching (disco c)) with (watching (disco (set_disco (set_cache (disco c) m) c))).
    generalize (set_disco (set_cache (disco c) m) c). clear. intros c l. revert c.
    induction l as [|[k b] l IH]; intros c; [done|]. cbn [callbacks].
    specialize (IH (on_hotplug c k b (hp_now e)).1). destruct (on_hotplug c k b _) as [c1 ps1] eqn:E1. cbn [fst] in IH.
    destruct (callbacks c1 _ l) as [c2 ps2]. cbn [fst] in *. rewrite IH. destruct b; cbn in E1; injection E1 as <- <-; done. }
  specialize (IH (dispatch c e).1). destruct (dispatch c e) as [c1 ps1]. cbn [fst] in *.
  destruct (pump c1 es) as [c2 ps2]. cbn [fst] in *. congruence.
Qed.

Lemma enumerate_watching d ds : watching (enumerate d ds).1 = watching d.
Proof.
  destruct ds as [l|]; [|done]. cbn [enumerate]. revert d.
  induction l as [|[h dev] l IH]; intros d; [done|]. cbn [enumerate_loop].
  destruct (device_descriptor dev); [|apply IH]. destruct (negb _); [apply IH|].
  match goal with |- context [enumerate_loop ?d1 l] => specialize (IH d1); destruct (enumerate_loop d1 l) end.
  cbn [fst] in *. by rewrite IH.
Qed.

Lemma exec_watching b a b' ps :
  exec b a = Some (b', ps) -> watching (disco (ctx b')) = watching (disco (ctx b)).
Proof.
  destruct b as [c p]. unfold exec. cbn [ctx at_pc].
  destruct a as [| |es|ds| |sample| |ms|]; try destruct p; try done; try (by intros [= <- <-]).
  - pose proof (pump_watching es c) as H. destruct (pump c es) as [c1 ps1]. by intros [= <- <-].
  - unfold do_rescan. pose proof (enumerate_watching (disco c) ds) as H.
    destruct (rescan c); [|by intros [= <- <-]]. destruct (enumerate _ ds) as [d cams]. by intros [= <- <-].
  - destruct (settle _ _ _ _ _) as [l ps1]. by intros [= <- <-].
Qed.

Lemma run_watching acts : forall b b' ps,
  run b acts = Some (b', ps) -> watching (disco (ctx b')) = watching (disco (ctx b)).
Proof.
  induction acts as [|a acts IH]; intros b b' ps; cbn [run]; [by intros [= <- <-]|].
  destruct (exec b a) as [[b1 ps1]|] eqn:E1; [|done]. cbn [mbind option_bind].
  destruct (run b1 acts) as [[b2 ps2]|] eqn:E2; [|done]. cbn [mbind option_bind]. intros [= <- <-].
  rewrite (IH _ _ _ E2). by eapply exec_watching.
Qed.

(** ** Properties *)

(** What a handle holds. *)
Definition handle_resources : list resource := [WorkerThread; HotplugCallback; LibusbContext; Context].

Lemma create_t_audit port v i s r attached :
  let m := gopro_discovery_create_t port v i s r attached in
  value m = gopro_discovery_create port v i s r attached /\
  match (value m).1 with
  | None => audit [] (ops m) = Some []
  | Some b => audit [] (ops m) = Some handle_resources /\ watching (disco (ctx b)) = true
  end.
Proof.
  cbv zeta. unfold gopro_discovery_create. destruct i, s, r; try done.
  set (d := mkDiscovery (if v =? 0 then kGoProVid else v) true true ∅).
  set (c := mkBridgeContext d port false 10000 false []).
  assert (gopro_discovery_create_t port v true true true attached tt =
    ((Some (mkBridge (value (pump_t c attached)).1 AtStart), (value (pump_t c attached)).2), tt,
     Acquire Context :: Acquire LibusbContext :: Acquire HotplugCallback :: ops (pump_t c attached) ++
     [Acquire WorkerThread])) as E.
  { unfold gopro_discovery_create_t. cbn. unfold bind at 1. cbn. fold d. fold c. unfold bind, value, ops, run_result, run_events.
    destruct (pump_t c attached tt) as [[[c1 ps1] []] ev]. done. }
  set (m := gopro_discovery_create_t _ _ _ _ _ _) in *.
  assert (value m = (Some (mkBridge (pump c attached).1 AtStart), (pump c attached).2)) as ->.
  { unfold value at 1, run_result. rewrite E. cbn [fst]. by rewrite pump_agrees. }
  assert (ops m = Acquire Context :: Acquire LibusbContext :: Acquire HotplugCallback ::
                  ops (pump_t c attached) ++ [Acquire WorkerThread]) as -> by (unfold ops at 1, run_events; by rewrite E).
  split; [cbn; fold d; fold c; by destruct (pump c attached)|]. cbn [fst]. split; [|apply pump_watching].
  cbn. rewrite audit_app, neutral_pump; [done| |done]. repeat constructor; set_solver.
Qed.

(** C15: nothing leaks and nothing deadlocks.  [gopro_discovery_create] leaves
    exactly what a handle holds, or nothing on every path that returns null;
    whatever the worker does, each of its steps releases what it acquires, in
    reverse order, never acquires what it holds and never locks a mutex while it
    holds one; and [gopro_discovery_destroy] releases the rest.  The values
    computed are those of [GoproBridge]. *)
Theorem resources_released port v i s r attached acts rest :
  let mc := gopro_discovery_create_t port v i s r attached in
  value mc = gopro_discovery_create port v i s r attached /\
  match (value mc).1 with
  | None => audit [] (ops mc) = Some []
  | Some b =>
      audit [] (ops mc) = Some handle_resources /\
      value <$> run_t b acts = run b acts /\
      forall m, run_t b acts = Some m ->
        audit handle_resources (ops m) = Some handle_resources /\
        value <$> gopro_discovery_destroy_t (Some (value m).1) rest =
          gopro_discovery_destroy (Some (value m).1) rest /\
        forall md, gopro_discovery_destroy_t (Some (value m).1) rest = Some md ->
          audit [] (ops mc ++ ops m ++ ops md) = Some []
  end.
Proof.
  cbv zeta. destruct (create_t_audit port v i s r attached) as [Hv Ha]. split; [exact Hv|].
  destruct (value (gopro_discovery_create_t port v i s r attached)).1 as [b|]; [|exact Ha].
  destruct Ha as [Ha Hw]. split; [exact Ha|]. split; [apply run_agrees|]. intros m Hm.
  assert (forall b acts m, run_t b acts = Some m -> audit handle_resources (ops m) = Some handle_resources) as Hn.
  { intros b' acts' m' E. apply (neutral_run _ _ _ E); [|done]. repeat constructor; set_solver. }
  split; [by eapply Hn|]. pose proof (run_agrees acts b) as Er. rewrite Hm in Er. cbn in Er. symmetry in Er.
  destruct (value m) as [b1 ps1] eqn:Eb. apply run_watching in Er. rewrite Hw in Er. cbn [fst].
  unfold gopro_discovery_destroy_t, gopro_discovery_destroy. rewrite <- (run_agrees (Stop :: rest) b1).
  destruct (run_t b1 (Stop :: rest)) as [m2|] eqn:E2; [|by split].
  pose proof (run_agrees (Stop :: rest) b1) as Er2. rewrite E2 in Er2.
  cbn [mbind option_bind fmap option_fmap option_map] in *. symmetry in Er2.
  destruct (value m2) as [b2 ps2] eqn:Eb2. apply run_watching in Er2. cbn [fst snd] in *.
  destruct (at_pc b2); try by split. split; [cbn; by rewrite ?value_bind|]. intros md [= <-].
  rewrite audit_app, Ha. cbn [mbind option_bind]. rewrite audit_app, (Hn _ _ _ Hm). cbn [mbind option_bind].
  rewrite ops_bind, audit_app, (Hn _ _ _ E2). cbn [mbind option_bind].
  unfold Discovery_destroy_t. rewrite Er2, Er. done.
Qed.

(** One camera attached that may not be opened, one turn of the worker, the end. *)
Abbreviation demo_create := (gopro_discovery_create_t 7 0 true true true [demo_arrival]).

Definition demo_turn : list action := WStart :: one_turn 50000000.
Definition demo_rest : list action := [WCheck].

Definition acquisitions (l : list op) : list resource :=
  omap (fun o => match o with Acquire r => Some r | Release _ => None end) l.

Abbreviation demo_handle := (default demo_bridge (value demo_create).1).
Abbreviation demo_run := (default (ret (demo_bridge, [])) (run_t demo_handle demo_turn)).
Abbreviation demo_destroy := (default (ret []) (gopro_discovery_destroy_t (Some (value demo_run).1) demo_rest)).

Definition is_some {A} (o : option A) : bool := match o with Some _ => true | None => false end.

Lemma is_some_default {A} (d : A) o : is_some o = true -> o = Some (default d o).
Proof. by destruct o. Qed.

Lemma resources_released_witness :
  acquisitions (ops demo_create) =
    [Context; LibusbContext; HotplugCallback; ConfigDescriptor; InterfaceList; CacheMutex; PendingMutex;
     WorkerThread] /\
  acquisitions (ops demo_run) = [PendingMutex; InterfaceList; ProbeSocket] /\
  audit [] (ops demo_create ++ ops demo_run ++ ops demo_destroy) = Some [].
Proof.
  split; [vm_compute; reflexivity|]. split; [vm_compute; reflexivity|].
  pose proof (resources_released 7 0 true true true [demo_arrival] demo_turn demo_rest) as [_ H].
  rewrite (is_some_default demo_bridge (value demo_create).1 ltac:(vm_compute; reflexivity)) in H.
  destruct H as (_ & _ & H).
  specialize (H demo_run (is_some_default (ret (demo_bridge, [])) (run_t demo_handle demo_turn)
    ltac:(vm_compute; reflexivity))) as (_ & _ & H).
  apply (H demo_destroy (is_some_default (ret [])
    (gopro_discovery_destroy_t (Some (value demo_run).1) demo_rest) ltac:(vm_compute; reflexivity))).
Defined.
