(* ===== verification/DiscoveryClient.v ===== *)
(** * The Dart client of the discovery bridge
    ([lib/src/discovery.dart], class [GoProDiscovery], and
    [lib/src/ffi/bindings.dart])

    The other end of [GoproBridge].  What the bridge posts waits, as bytes, in
    the [ReceivePort] until the event loop delivers it to the listener of
    [start], which reads it with [EventCodec] and keeps the map of cameras.  An
    [action] is a step of the worker thread or a turn of the Dart event loop,
    and a run is any interleaving of them.

    [close] cancels the subscription in the turn in which it destroys the
    handle; its later [await]s change nothing that is modelled. *)

From stdpp Require Import strings gmap.
From S2P Require Import Prelude GlazeMeta GoproTypes GoproUsb EventCodec GoproBridge.
Local Open Scope Z_scope.

(** The argument of a native function that takes an [int32_t]. *)
Definition to_i32 (x : Z) : Z := wrap 32 (x + 2 ^ 31) - 2 ^ 31.

Section discovery.
Context {text : Type} `{EqDecision text} (utf8_decode : bytes -> text) (empty_text : text).

Abbreviation GoProCamera := (GoProCamera text).

(** ** State *)

Record GoProDiscovery := mkGoProDiscovery {
  _handle : option Bridge;                (** [None]: [nullptr] *)
  _port : list bytes;                     (** posted, not yet delivered *)
  _sub : bool;                            (** the subscription is not cancelled *)
  _current : list (text * GoProCamera);
  started : bool;                         (** the completer of [start] *)
}.

(** What is visible: the future of [start], the two streams, and an exception
    that leaves the listener. *)
Inductive effect :=
| Started
| Updated (c : GoProCamera)
| Departed (c : GoProCamera)
| Uncaught (e : thrown).

Definition set_current (m : list (text * GoProCamera)) (d : GoProDiscovery) : GoProDiscovery :=
  mkGoProDiscovery (_handle d) (_port d) (_sub d) m (started d).

Definition cameras (d : GoProDiscovery) : list GoProCamera := (_current d).*2.

Definition isReady (c : GoProCamera) : bool := bool_decide (g_readiness c = kL3Ready).

(** ** The listener *)

Definition onUpdate (c : GoProCamera) (d : GoProDiscovery) : GoProDiscovery * list effect :=
  (set_current (dict_put (g_sysfsName c) c (_current d)) d, [Updated c]).

Definition onLeft (c : GoProCamera) (d : GoProDiscovery) : GoProDiscovery * list effect :=
  (set_current (dict_del (g_sysfsName c) (_current d)) d, [Departed c]).

(** The closure given to [listen]; [event.camera!] of an event without a camera
    throws, which [decodeEvent] never returns. *)
Definition on_message (message : bytes) (d : GoProDiscovery) : GoProDiscovery * list effect :=
  match decodeEvent utf8_decode empty_text message with
  | inr e => (d, [Uncaught e])
  | inl None => (d, [])
  | inl (Some event) =>
      match kind _ event, camera _ event with
      | kSentinel, _ =>
          if started d then (d, [])
          else (mkGoProDiscovery (_handle d) (_port d) (_sub d) (_current d) true, [Started])
      | kUpdate, Some c => onUpdate c d
      | kLeft, Some c => onLeft c d
      | _, None => (d, [Uncaught StateError])
      end
  end.

(** ** [start], and the turns *)

(** Up to its [await].  The worker runs from [gopro_discovery_create] on, so it
    may take the steps [early] before the budget is set.  [None]: [StateError]. *)
Definition start (nativePort v readinessTimeout : Z) (init_ok hotplug_supported register_ok : bool)
    (attached : list hotplug) (early : list action) : option GoProDiscovery :=
  let '(h, ps) := gopro_discovery_create nativePort (wrap 16 v) init_ok hotplug_supported register_ok attached in
  b ← h;
  '(b, ps') ← run b early;
  Some (mkGoProDiscovery (gopro_discovery_set_timeout (Some b) (to_i32 readinessTimeout))
          (post_bytes <$> ps ++ ps') true [] false).

(** The methods need the object, which [start] returns when it completes. *)
Inductive turn :=
| Worker (a : action)               (** not a turn: a step of the other thread *)
| Deliver
| CallRescan
| CallClose (rest : list action).   (** the worker's steps until it is joined *)

(** [None]: not possible now. *)
Definition exec_turn (d : GoProDiscovery) (t : turn) : option (GoProDiscovery * list effect) :=
  match t with
  | Worker a =>
      if is_worker a then
        b ← _handle d;
        '(b, ps) ← exec b a;
        Some (mkGoProDiscovery (Some b) (if _sub d then _port d ++ (post_bytes <$> ps) else _port d)
                (_sub d) (_current d) (started d), [])
      else None
  | Deliver =>
      match _sub d, _port d with
      | true, message :: port =>
          Some (on_message message (mkGoProDiscovery (_handle d) port (_sub d) (_current d) (started d)))
      | _, _ => None
      end
  | CallRescan =>
      if started d
      then Some (mkGoProDiscovery (gopro_discovery_rescan (_handle d)) (_port d) (_sub d) (_current d) (started d), [])
      else None
  | CallClose rest =>
      if started d && forallb is_worker rest then
        ps ← gopro_discovery_destroy (_handle d) rest;
        Some (mkGoProDiscovery None [] false (_current d) (started d), [])
      else None
  end.

Fixpoint run_turns (d : GoProDiscovery) (ts : list turn) : option (GoProDiscovery * list effect) :=
  match ts with
  | [] => Some (d, [])
  | t :: ts =>
      '(d, es) ← exec_turn d t;
      '(d, es') ← run_turns d ts;
      Some (d, es ++ es')
  end.

(** ** Streams *)

(** [Stream.distinct], for one subscription. *)
Fixpoint distinct (prev : option GoProCamera) (l : list GoProCamera) : list GoProCamera :=
  match l with
  | [] => []
  | c :: l =>
      if from_option (fun p => bool_decide (g_sysfsName p = g_sysfsName c)) false prev
      then distinct prev l else c :: distinct (Some c) l
  end.

Definition updates (es : list effect) : list GoProCamera :=
  omap (fun e => match e with Updated c => Some c | _ => None end) es.

(** What a subscription to [ready] gives of the updates added meanwhile. *)
Definition ready (us : list GoProCamera) : list GoProCamera := distinct None (List.filter isReady us).

(** How the wait of [firstReady] ends if it is not by a camera. *)
Inductive wait_end := TimedOut | StreamClosed.

(** The answer, or the [StateError] of [Stream.first].  [us] are the updates
    added until the wait ends. *)
Definition firstReady (d : GoProDiscovery) (us : list GoProCamera) (e : wait_end)
    : option GoProCamera + thrown :=
  match List.find isReady (cameras d) with
  | Some c => inl (Some c)
  | None =>
      match ready us, e with
      | c :: _, _ => inl (Some c)
      | [], TimedOut => inl None
      | [], StreamClosed => inr StateError
      end
  end.

(** ** Posts on their way

    [tracks d b seen waiting]: the client holds [b], has been delivered the
    posts [seen], and the port holds those of [waiting].  Its map is that of
    [GoproBridge.client] as long as the names of devices, which are ASCII, are
    told apart as text. *)

Abbreviation text_of := (text_of utf8_decode empty_text).
Abbreviation camera_of := (camera_of utf8_decode empty_text).

Hypothesis text_inj : forall n n', is_name n -> is_name n' -> text_of n = text_of n' -> n = n'.

Record agrees (cur : list (text * GoProCamera)) (m : gmap string CameraRecord) : Prop := {
  ag_unique : NoDup cur.*1;
  ag_get : forall n, is_name n -> dict_get (text_of n) cur = camera_of <$> m !! n;
  ag_named : forall n r, m !! n = Some r -> is_name n;
  ag_keys : forall t, t ∈ cur.*1 -> exists n, is_name n /\ t = text_of n;
}.

Record tracks (d : GoProDiscovery) (b : Bridge) (seen waiting : list posting) : Prop := {
  tr_handle : _handle d = Some b;
  tr_sub : _sub d = true;
  tr_port : _port d = post_bytes <$> waiting;
  tr_ctx : context_ok (ctx b);
  tr_ok : Forall posting_ok waiting;
  tr_current : agrees (_current d) (client ∅ seen);
  tr_started : started d = existsb is_sentinel seen;
}.

(** What the listener makes of a post. *)
Definition shown (started : bool) (p : posting) : list effect :=
  match p_kind p, p_rec p with
  | kUpdate, Some r => [Updated (camera_of r)]
  | kLeft, Some r => [Departed (camera_of r)]
  | _, _ => if started then [] else [Started]
  end.

Lemma agrees_empty : agrees [] ∅.
Proof.
  split; [constructor|done|intros n r H; by rewrite lookup_empty in H|].
  intros t H. by apply not_elem_of_nil in H.
Qed.

Lemma agrees_put cur m r :
  is_name (sysfsName r) -> agrees cur m ->
  agrees (dict_put (text_of (sysfsName r)) (camera_of r) cur) (<[sysfsName r := r]> m).
Proof.
  intros Hn [Hu Hg Hm Hk]. split.
  - by apply dict_put_NoDup.
  - intros n Hn'. rewrite dict_get_put. case_bool_decide as E.
    + apply text_inj in E as ->; [|done..]. by rewrite lookup_insert_eq.
    + rewrite lookup_insert_ne by congruence. by apply Hg.
  - intros n r' [[<- _]|[_ H]]%lookup_insert_Some; [done | by eapply Hm].
  - intros t. rewrite dict_put_keys. case_bool_decide; [apply Hk|].
    intros [H1| ->%list_elem_of_singleton]%elem_of_app; [by apply Hk | by exists (sysfsName r)].
Qed.

Lemma agrees_del cur m n :
  is_name n -> agrees cur m -> agrees (dict_del (text_of n) cur) (delete n m).
Proof.
  intros Hn [Hu Hg Hm Hk]. split.
  - by apply dict_del_NoDup.
  - intros n' Hn'. rewrite dict_get_del. case_bool_decide as E.
    + apply text_inj in E as ->; [|done..]. by rewrite lookup_delete_eq.
    + rewrite lookup_delete_ne by congruence. by apply Hg.
  - intros n' r' [_ H]%lookup_delete_Some. by eapply Hm.
  - intros t (e & -> & [He _]%elem_of_lfilter)%list_elem_of_fmap. apply Hk, list_elem_of_fmap. by exists e.
Qed.

Lemma on_message_post p d m :
  posting_ok p -> agrees (_current d) m ->
  exists cur, on_message (post_bytes p) d =
      (mkGoProDiscovery (_handle d) (_port d) (_sub d) cur (started d || is_sentinel p), shown (started d) p) /\
    agrees cur (client_apply m p).
Proof.
  intros Hp Ha. unfold on_message. rewrite posting_ok_decodes by done.
  destruct d as [h q s cur st]. cbn [_current started _handle _port _sub] in *.
  destruct p as [pt k [r|]], k; unfold posting_ok, client_apply, is_sentinel, shown in *; cbn in *; try done.
  - destruct Hp as [_ Hn]. exists (dict_put (text_of (sysfsName r)) (camera_of r) cur).
    rewrite orb_false_r. split; [done | by apply agrees_put].
  - destruct Hp as [_ Hn]. exists (dict_del (text_of (sysfsName r)) cur).
    rewrite orb_false_r. split; [done | by apply agrees_del].
  - exists cur. split; [|done]. by destruct st.
Qed.

(** The steps of the native side in a run. *)
Definition native (ts : list turn) : list action :=
  omap (fun t => match t with Worker a => Some a | CallRescan => Some Rescan | _ => None end) ts.

Definition is_close (t : turn) : bool := match t with CallClose _ => true | _ => false end.

Definition quiet (es : list effect) : Prop := Forall (fun e => forall x, e <> Uncaught x) es.

Lemma shown_quiet st p : quiet (shown st p).
Proof.
  unfold shown, quiet. destruct (p_kind p), (p_rec p), st;
    by repeat apply Forall_cons_2 || apply Forall_nil_2.
Qed.

(** What the updates stream is given of some posts. *)
Definition updated (ps : list posting) : list GoProCamera :=
  omap (fun p => match p_kind p, p_rec p with kUpdate, Some r => Some (camera_of r) | _, _ => None end) ps.

(** The effects [es] are those of the posts delivered between [seen] and [seen']. *)
Definition told (seen seen' : list posting) (es : list effect) : Prop :=
  quiet es /\ exists new, seen' = seen ++ new /\ updates es = updated new.

Lemma told_nothing seen : told seen seen [].
Proof. split; [constructor|]. exists []. by rewrite app_nil_r. Qed.

Lemma told_shown st seen p : told seen (seen ++ [p]) (shown st p).
Proof.
  split; [apply shown_quiet|]. exists [p]. split; [done|].
  destruct p as [pt [] [r|]], st; reflexivity.
Qed.

Lemma told_trans seen seen1 seen2 es1 es2 :
  told seen seen1 es1 -> told seen1 seen2 es2 -> told seen seen2 (es1 ++ es2).
Proof.
  intros [Q1 (n1 & -> & E1)] [Q2 (n2 & -> & E2)]. split; [by apply Forall_app|].
  exists (n1 ++ n2). split; [by rewrite app_assoc|]. unfold updates, updated in *.
  by rewrite !omap_app, E1, E2.
Qed.

Lemma tracks_turn d b seen waiting t d' es :
  tracks d b seen waiting -> is_close t = false -> Forall action_ok (native [t]) ->
  exec_turn d t = Some (d', es) ->
  exists b' ps seen' waiting', run b (native [t]) = Some (b', ps) /\
    seen' ++ waiting' = (seen ++ waiting) ++ ps /\ tracks d' b' seen' waiting' /\ told seen seen' es.
Proof.
  destruct d as [h q s cur st]. intros [Hh Hs Hq Hc Hok Ha Hst] Ht Hact E.
  cbn [_handle _sub _port _current started] in *. subst h s q.
  destruct t as [a| | |rest]; [| | |done]; cbn [exec_turn native omap list_omap run _handle _sub _port _current started] in *.
  - destruct (is_worker a); [|done]. cbn [mbind option_bind] in E.
    destruct (exec b a) as [[b' ps]|] eqn:Ea; [|done]. cbn in E. injection E as <- <-.
    rewrite Forall_singleton in Hact. destruct (bridge_exec_ok _ _ _ _ Hc Hact Ea) as [H1 H2].
    exists b', ps, seen, (waiting ++ ps). cbn. rewrite app_nil_r, app_assoc.
    split_and!; [done..| |apply told_nothing]. split; cbn; try done; [by rewrite fmap_app | by apply Forall_app].
  - destruct waiting as [|p waiting]; [done|]. cbn [fmap list_fmap] in E. apply Forall_cons in Hok as [Hp Hok].
    match type of E with Some (on_message _ ?d0) = _ =>
      destruct (on_message_post p d0 _ Hp Ha) as (cur' & Em & Ha') end.
    rewrite Em in E. injection E as <- <-. exists b, [], (seen ++ [p]), waiting.
    rewrite app_nil_r, <- app_assoc. split_and!; [done..| |apply told_shown].
    split; cbn; try done; [by rewrite client_app|]. rewrite existsb_app. cbn. by rewrite orb_false_r, Hst.
  - destruct st; [|done]. injection E as <- <-. destruct b as [c p].
    assert (exec (mkBridge c p) Rescan = Some (mkBridge (set_rescan true c) p, [])) as Ex by by destruct p.
    cbn [gopro_discovery_rescan]. rewrite Ex. cbn. eexists _, [], seen, waiting. rewrite app_nil_r.
    split_and!; [done..| |apply told_nothing]. split; cbn; try done. by destruct Hc.
Qed.

Lemma native_app ts ts' : native (ts ++ ts') = native ts ++ native ts'.
Proof. unfold native. apply omap_app. Qed.

Lemma bridge_run_app acts acts' : forall b,
  run b (acts ++ acts') = '(b, ps) ← run b acts; '(b, ps') ← run b acts'; Some (b, ps ++ ps').
Proof.
  induction acts as [|a acts IH]; intros b; cbn [app run].
  - cbn. by destruct (run b acts') as [[]|].
  - destruct (exec b a) as [[b1 ps1]|]; [|done]. cbn [mbind option_bind]. rewrite IH.
    destruct (run b1 acts) as [[b2 ps2]|]; [|done]. cbn [mbind option_bind].
    destruct (run b2 acts') as [[b3 ps3]|]; [|done]. cbn. by rewrite app_assoc.
Qed.

Lemma tracks_run ts : forall d b seen waiting d' es,
  tracks d b seen waiting -> forallb (fun t => negb (is_close t)) ts = true -> Forall action_ok (native ts) ->
  run_turns d ts = Some (d', es) ->
  exists b' ps seen' waiting', run b (native ts) = Some (b', ps) /\
    seen' ++ waiting' = (seen ++ waiting) ++ ps /\ tracks d' b' seen' waiting' /\ told seen seen' es.
Proof.
  induction ts as [|t ts IH]; intros d b seen waiting d' es Ht Hn Ha E; cbn [run_turns] in E.
  { injection E as <- <-. exists b, [], seen, waiting. rewrite app_nil_r. split_and!; [done..|apply told_nothing]. }
  cbn [forallb] in Hn. apply andb_true_iff in Hn as [Hn1 Hn]. apply negb_true_iff in Hn1.
  change (t :: ts) with ([t] ++ ts) in Ha |- *. rewrite native_app in Ha |- *. apply Forall_app in Ha as [Ha1 Ha].
  destruct (exec_turn d t) as [[d1 es1]|] eqn:E1; [|done]. cbn [mbind option_bind] in E.
  destruct (run_turns d1 ts) as [[d2 es2]|] eqn:E2; [|done]. cbn in E. injection E as <- <-.
  destruct (tracks_turn _ _ _ _ _ _ _ Ht Hn1 Ha1 E1) as (b1 & ps1 & seen1 & w1 & R1 & S1 & T1 & Q1).
  destruct (IH _ _ _ _ _ _ T1 Hn Ha E2) as (b2 & ps2 & seen2 & w2 & R2 & S2 & T2 & Q2).
  exists b2, (ps1 ++ ps2), seen2, w2. rewrite bridge_run_app, R1. cbn [mbind option_bind]. rewrite R2.
  split_and!; [done | by rewrite S2, S1, <- !app_assoc | done | by eapply told_trans].
Qed.

(** ** What [start] starts from *)

Lemma set_timeout_eq b ms :
  gopro_discovery_set_timeout (Some b) ms = Some (mkBridge (set_timeout_ms ms (ctx b)) (at_pc b)).
Proof. by destruct b as [c []]. Qed.

Lemma tracks_start np v ms i h r attached early d :
  start np v ms i h r attached early = Some d -> Forall hotplug_ok attached -> Forall action_ok early ->
  exists b0 ps0 b ps, gopro_discovery_create np (wrap 16 v) i h r attached = (Some b0, ps0) /\
    run b0 (early ++ [SetTimeout (to_i32 ms)]) = Some (b, ps) /\ tracks d b [] (ps0 ++ ps).
Proof.
  unfold start. destruct (gopro_discovery_create np _ i h r attached) as [[b0|] ps0] eqn:Ec; [|done].
  cbn [mbind option_bind]. destruct (run b0 early) as [[b1 ps1]|] eqn:Er; [|done]. cbn.
  intros [= <-] Hat Hearly. destruct (created_ok _ _ _ _ _ _ _ _ Ec Hat) as [H0 H1].
  destruct (bridge_run_ok early _ _ _ H0 Hearly Er) as [H2 H3].
  exists b0, ps0, (mkBridge (set_timeout_ms (to_i32 ms) (ctx b1)) (at_pc b1)), ps1. split; [done|].
  rewrite bridge_run_app, Er. cbn [mbind option_bind run].
  assert (exec b1 (SetTimeout (to_i32 ms)) = Some (mkBridge (set_timeout_ms (to_i32 ms) (ctx b1)) (at_pc b1), [])) as Ex
    by by destruct b1 as [c []].
  rewrite Ex. cbn. rewrite app_nil_r. split; [done|]. split; cbn; try done.
  - by destruct H2.
  - by apply Forall_app.
  - apply agrees_empty.
Qed.

(** A run from [start], before a [close], is one of the bridge, and what it has
    not been shown is in the port. *)
Lemma run_from_start np v ms i h r attached early d0 ts d es :
  start np v ms i h r attached early = Some d0 ->
  Forall hotplug_ok attached -> Forall action_ok early -> Forall action_ok (native ts) ->
  forallb (fun t => negb (is_close t)) ts = true -> run_turns d0 ts = Some (d, es) ->
  exists b0 ps0 b ps seen waiting, gopro_discovery_create np (wrap 16 v) i h r attached = (Some b0, ps0) /\
    run b0 (early ++ [SetTimeout (to_i32 ms)] ++ native ts) = Some (b, ps) /\
    seen ++ waiting = ps0 ++ ps /\ tracks d b seen waiting /\ quiet es.
Proof.
  intros Hs Hat Hearly Hts Hn Hrun.
  destruct (tracks_start _ _ _ _ _ _ _ _ _ Hs Hat Hearly) as (b0 & ps0 & b1 & ps1 & Hc & Hr & Ht).
  destruct (tracks_run ts _ _ _ _ _ _ Ht Hn Hts Hrun) as (b & ps & seen & waiting & Hr2 & Hsp & Ht2 & [Hq _]).
  exists b0, ps0, b, (ps1 ++ ps), seen, waiting. rewrite app_assoc, bridge_run_app, Hr.
  cbn [mbind option_bind]. rewrite Hr2. split_and!; [done..| rewrite Hsp; cbn [app]; by rewrite app_assoc | done | done].
Qed.

(** The only stores of the other thread that turns make are rescans. *)
Lemma native_stores ts : forall d d' es,
  run_turns d ts = Some (d', es) ->
  budgets (native ts) = [] /\ (CallRescan ∉ ts -> Rescan ∉ native ts).
Proof.
  induction ts as [|t ts IH]; intros d d' es E; cbn [run_turns] in E.
  { split; [done|]. intros _. apply not_elem_of_nil. }
  destruct (exec_turn d t) as [[d1 es1]|] eqn:E1; [|done]. cbn [mbind option_bind] in E.
  destruct (run_turns d1 ts) as [[d2 es2]|] eqn:E2; [|done]. destruct (IH _ _ _ E2) as [H1 H2].
  destruct t as [a| | |rest]; cbn [native omap list_omap] in *; fold (native ts) in *; unfold native in *;
    cbn [omap list_omap] in *.
  - cbn [exec_turn] in E1. destruct (is_worker a) eqn:Ew; [|done]. split.
    + unfold budgets in *. cbn [omap list_omap]. by destruct a.
    + intros [_ H]%not_elem_of_cons. apply not_elem_of_cons. split; [by destruct a | by apply H2].
  - split; [done|]. intros [_ H]%not_elem_of_cons. by apply H2.
  - split; [done|]. intros []%not_elem_of_cons. done.
  - split; [done|]. intros [_ H]%not_elem_of_cons. by apply H2.
Qed.

Lemma agrees_elem cur m t g :
  agrees cur m -> (t, g) ∈ cur -> exists n r, t = text_of n /\ m !! n = Some r /\ g = camera_of r.
Proof.
  intros [Hu Hg Hm Hk] Hin. destruct (Hk t) as (n & Hn & ->).
  { apply list_elem_of_fmap. by exists (t, g). }
  apply dict_get_elem in Hin; [|done]. rewrite Hg in Hin by done.
  destruct (m !! n) as [r|] eqn:Er; [|done]. injection Hin as <-. by exists n, r.
Qed.

Lemma agrees_dom cur m t : agrees cur m -> t ∈ cur.*1 <-> exists n, n ∈ dom m /\ t = text_of n.
Proof.
  intros Ha. split.
  - intros ((t' & g) & -> & Hin)%list_elem_of_fmap.
    destruct (agrees_elem _ _ _ _ Ha Hin) as (n & r & -> & Hr & _). exists n. split; [by apply elem_of_dom; exists r | done].
  - destruct Ha as [Hu Hg Hm Hk]. intros (n & [r Hr]%elem_of_dom & ->). apply dict_get_keys.
    rewrite Hg, Hr by (by eapply Hm). by eexists.
Qed.

(** How the settling of a camera ended. *)
Definition settled (bs : list Z) (g : GoProCamera) : Prop :=
  g_readiness g = kL3Ready \/ g_readiness g = kAbsent \/ exists b, b ∈ bs /\ wrap 32 b < g_elapsed_ms text g.

Lemma readiness_of_val x : readiness_of (Readiness_val x) = x.
Proof. by destruct x. Qed.

Lemma terminal_settled bs r : terminal bs r -> settled bs (camera_of r).
Proof.
  unfold settled, terminal. cbn [camera_of EventCodec.camera_of g_readiness g_elapsed_ms].
  intros [-> | [-> | H]]; rewrite ?readiness_of_val; tauto.
Qed.

(** C12: the cameras listed, without rescans.  A run of worker and event loop from
    [start], in any order, never throws out of the listener.  If no rescan is asked
    for, by the owner or while [start] runs, and libusb reports no arrival at a port
    whose camera has not left ([orderly]), then once everything posted has been
    delivered [cameras] lists each attached camera exactly once, under its name; and
    each one either is still being settled, and known as far as it got, or is known
    as ready, gone, or out of one of the two budgets: ten seconds until the one
    given is set.  A rescan breaks the last part (Example [rescan_loses_ready] of
    [GoproBridge]). *)
Theorem discovery_mirrors np v ms i h r attached early d0 ts d es :
  start np v ms i h r attached early = Some d0 ->
  run_turns d0 ts = Some (d, es) -> forallb (fun t => negb (is_close t)) ts = true ->
  Forall hotplug_ok attached -> Forall action_ok early -> Forall action_ok (native ts) ->
  quiet es /\
  (_port d = [] -> CallRescan ∉ ts -> forallb is_worker early = true ->
   let events := attached ++ hotplugs (early ++ native ts) in
   orderly ∅ events ->
   NoDup (_current d).*1 /\
   (forall t, t ∈ (_current d).*1 <-> exists n, n ∈ foldl plug ∅ events /\ t = text_of n) /\
   exists b, _handle d = Some b /\ forall t g, (t, g) ∈ _current d ->
     (exists p, p ∈ pending (ctx b) /\ t = text_of (sysfs_name_ (cam p)) /\ g_readiness g = last_ p) \/
     settled [10000; to_i32 ms] g).
Proof.
  intros Hs Hrun Hn Hat Hearly Hts.
  destruct (run_from_start _ _ _ _ _ _ _ _ _ _ _ _ Hs Hat Hearly Hts Hn Hrun)
    as (b0 & ps0 & b & ps & seen & waiting & Hc & Hr & Hsp & Ht & Hq).
  split; [done|]. intros Hp Hnr Hw. cbv zeta. intros Ho.
  destruct (native_stores ts _ _ _ Hrun) as [Hb Hnr']. specialize (Hnr' Hnr).
  assert (Rescan ∉ early /\ budgets early = []) as [Hnr2 Hb2].
  { clear - Hw. induction early as [|a early IH]; [split; [apply not_elem_of_nil | done]|].
    cbn in Hw. apply andb_true_iff in Hw as [Hw1 Hw2]. destruct (IH Hw2). split.
    - apply not_elem_of_cons. split; [by destruct a | done].
    - rewrite budgets_cons, H0. by destruct a. }
  rewrite hotplugs_app in Ho |- *. rewrite foldl_app. apply orderly_app in Ho as [Ho1 Ho2].
  set (acts := early ++ [SetTimeout (to_i32 ms)] ++ native ts) in *.
  assert (hotplugs acts = hotplugs early ++ hotplugs (native ts)) as Hhp by (subst acts; by rewrite !hotplugs_app).
  rewrite <- Hhp in Ho2 |- *.
  assert (bridge_mirror b0 (client ∅ ps0) (foldl plug ∅ attached) [10000; to_i32 ms]) as H0.
  { eapply mirror_created; [exact Hc | left | exact Ho1]. }
  assert (bridge_mirror b (client (client ∅ ps0) ps) (foldl plug (foldl plug ∅ attached) (hotplugs acts))
    [10000; to_i32 ms]) as [[Hcb Hok Hnd Hdom Htr Hrest _] _ _].
  { eapply mirror_run; [exact H0| | |done|exact Hr].
    - subst acts. rewrite !not_elem_of_app. split_and!; [done| |done].
      apply not_elem_of_cons. split; [done | apply not_elem_of_nil].
    - subst acts. rewrite !budgets_app, Hb2, Hb. apply Forall_singleton. right. left. }
  destruct Ht as [Hh _ Hport _ _ Ha _]. rewrite Hp in Hport. symmetry in Hport. apply fmap_nil_inv in Hport as ->.
  rewrite app_nil_r in Hsp. subst seen. rewrite client_app in Ha. rewrite <- Hdom.
  split_and!; [by destruct Ha | intros t; by apply agrees_dom|].
  exists b. split; [done|]. intros t g Hin. destruct (agrees_elem _ _ _ _ Ha Hin) as (n & rec & -> & Hm & ->).
  destruct (decide (n ∈ names (pending (ctx b)))) as [(p & -> & Hp2)%list_elem_of_fmap|Hni].
  - left. exists p. split_and!; [done..|]. rewrite Forall_forall in Htr.
    destruct (Htr p Hp2) as (rec' & Hr' & Hv). rewrite Hm in Hr'. injection Hr' as <-.
    cbn [camera_of EventCodec.camera_of g_readiness]. by rewrite Hv, readiness_of_val.
  - right. eapply terminal_settled, Hrest; done.
Qed.

(** Delivering everything that waits. *)
Lemma drain b waiting : forall d seen,
  tracks d b seen waiting ->
  exists d' es, run_turns d (repeat Deliver (length waiting)) = Some (d', es) /\
    tracks d' b (seen ++ waiting) [].
Proof.
  induction waiting as [|p waiting IH]; intros d seen Ht.
  { exists d, []. by rewrite app_nil_r. }
  assert (exists x, exec_turn d Deliver = Some x) as [[d1 es1] E].
  { destruct Ht as [_ Hs Hp _ _ _ _]. cbn [exec_turn]. rewrite Hs, Hp. by eexists. }
  assert (tracks d1 b (seen ++ [p]) waiting) as Ht1.
  { destruct d as [h q s cur st]. destruct Ht as [Hh Hs Hp Hc Hok Ha Hst]. cbn in Hh, Hs, Hp, Ha, Hst. subst h s q.
    apply Forall_cons in Hok as [Hok1 Hok]. cbn [exec_turn _sub _port fmap list_fmap] in E.
    match type of E with Some (on_message _ ?d0) = _ =>
      destruct (on_message_post p d0 _ Hok1 Ha) as (cur' & Em & Ha') end.
    rewrite Em in E. injection E as <- <-. split; cbn; try done; [by rewrite client_app|].
    rewrite existsb_app, Hst. cbn. by rewrite orb_false_r. }
  destruct (IH _ _ Ht1) as (d' & es & Hr & Ht'). rewrite <- app_assoc in Ht'.
  exists d', (es1 ++ es). split; [|done]. cbn [length repeat run_turns]. rewrite E.
  cbn [mbind option_bind]. by rewrite Hr.
Qed.

Lemma split_at_sentinel l1 l2 p q r1 r2 :
  no_sentinel l1 -> no_sentinel l2 -> p_kind p = kSentinel -> p_kind q = kSentinel ->
  l1 ++ p :: r1 = l2 ++ q :: r2 -> l1 = l2.
Proof.
  intros H1 H2 Hp Hq. revert l2 H2. induction H1 as [|x l1 Hx H1 IH]; intros [|y l2] H2 E; try done.
  - cbn in E. apply Forall_cons in H2 as [H2 _]. congruence.
  - cbn in E. congruence.
  - cbn in E. injection E as -> E. apply Forall_cons in H2 as [_ H2]. f_equal. by apply IH.
Qed.

Lemma no_sentinel_existsb ps : no_sentinel ps <-> existsb is_sentinel ps = false.
Proof.
  unfold no_sentinel. rewrite <- not_true_iff_false, existsb_exists, Forall_forall. split.
  - intros H (p & Hp%list_elem_of_In & E). unfold is_sentinel in E. to_prop. by eapply H.
  - intros H p Hp E. apply H. exists p. split; [by apply list_elem_of_In | by apply bool_decide_eq_true_2].
Qed.

(** Only a sentinel completes [start], and it leaves the map alone. *)
Lemma started_by_sentinel d b seen waiting d' es :
  tracks d b seen waiting -> exec_turn d Deliver = Some (d', es) -> Started ∈ es ->
  exists p waiting', waiting = p :: waiting' /\ p_kind p = kSentinel /\ no_sentinel seen /\
    agrees (_current d') (client ∅ seen).
Proof.
  destruct d as [h q s cur st]. intros [Hh Hs Hq Hc Hok Ha Hst] E Hin.
  cbn [_handle _sub _port _current started] in *. subst h s q.
  cbn [exec_turn _sub _port] in E. destruct waiting as [|p waiting]; [done|].
  cbn [fmap list_fmap] in E. apply Forall_cons in Hok as [Hp _].
  unfold on_message in E. rewrite posting_ok_decodes in E by done. cbn [started] in E.
  exists p, waiting. destruct p as [pt k [r|]], k; try done; cbn in E.
  1-2: injection E as <- <-; apply list_elem_of_singleton in Hin; done.
  destruct st; injection E as <- <-; [by apply not_elem_of_nil in Hin|].
  split_and!; [done..| |done]. by apply no_sentinel_existsb.
Qed.

(** C13: [start] completes, and at the right time.  From every point of a run from
    [start], under any interleaving, at most one step of the worker and the
    delivery of what waits complete its future.  And the turn that completes it
    leaves [cameras] with exactly the cameras attached when the handle was
    created, so that an empty list does mean that there was none. *)
Theorem start_completes np v ms i h r attached early d0 ts d es :
  start np v ms i h r attached early = Some d0 ->
  run_turns d0 ts = Some (d, es) -> forallb (fun t => negb (is_close t)) ts = true ->
  Forall hotplug_ok attached -> Forall action_ok early -> Forall action_ok (native ts) ->
  orderly ∅ attached ->
  (exists first n d' es', first ∈ [[]; [Worker WStart]] /\
     run_turns d (first ++ repeat Deliver n) = Some (d', es') /\ started d' = true) /\
  (forall d' es', exec_turn d Deliver = Some (d', es') -> Started ∈ es' ->
     forall t, t ∈ (_current d').*1 <-> exists n, n ∈ foldl plug ∅ attached /\ t = text_of n).
Proof.
  intros Hs Hrun Hn Hat Hearly Hts Ho.
  destruct (run_from_start _ _ _ _ _ _ _ _ _ _ _ _ Hs Hat Hearly Hts Hn Hrun)
    as (b0 & ps0 & b & ps & seen & waiting & Hc & Hr & Hsp & Ht & _).
  destruct (created_start _ _ _ _ _ _ _ _ Hc) as [Hno Hb0].
  destruct (run_sentinel _ _ _ _ Hr Hb0) as [[Hpc ->]|(Hpc & rest & -> & Hrest)].
  - rewrite app_nil_r in Hsp. split.
    + assert (exists d1 es1, exec_turn d (Worker WStart) = Some (d1, es1)) as (d1 & es1 & E1).
      { destruct Ht as [Hh _ _ _ _ _ _]. cbn. rewrite Hh. destruct b as [c p]. cbn in Hpc. subst p. cbn. by do 2 eexists. }
      destruct (tracks_turn _ _ _ _ (Worker WStart) _ _ Ht eq_refl ltac:(by apply Forall_singleton) E1)
        as (b1 & ps1 & seen1 & w1 & R1 & S1 & T1 & _).
      destruct (drain _ _ _ _ T1) as (d' & es' & Hd & [_ _ _ _ _ _ Hst]).
      exists [Worker WStart], (length w1), d', (es1 ++ es'). split_and!; [by right; left| |].
      * cbn [app run_turns]. rewrite E1. cbn [mbind option_bind]. by rewrite Hd.
      * rewrite Hst, S1, existsb_app. destruct b as [c p]. cbn in Hpc. subst p. cbn in R1.
        injection R1 as _ <-. cbn. by rewrite orb_true_r.
    + intros d' es' E Hin. exfalso. apply no_sentinel_existsb in Hno. rewrite <- Hsp, existsb_app in Hno.
      apply orb_false_iff in Hno as [_ Hno]. apply (started_by_sentinel _ _ _ _ _ _ Ht E) in Hin as (p & w' & -> & Hp & _).
      cbn in Hno. unfold is_sentinel in Hno. by rewrite bool_decide_eq_true_2 in Hno.
  - split.
    + destruct (drain _ _ _ _ Ht) as (d' & es' & Hd & [_ _ _ _ _ _ Hst]).
      exists [], (length waiting), d', es'. split_and!; [by left | done|].
      rewrite Hst, Hsp, existsb_app. cbn. by rewrite orb_true_r.
    + intros d' es' E Hin. apply (started_by_sentinel _ _ _ _ _ _ Ht E) in Hin as (p & w' & -> & Hp & Hns & Ha).
      apply split_at_sentinel in Hsp as ->; [|done..]. intros t. rewrite (agrees_dom _ _ t Ha).
      assert (bridge_mirror b0 (client ∅ ps0) (foldl plug ∅ attached) [10000]) as [[_ _ _ Hdom _ _ _] _ _].
      { eapply mirror_created; [exact Hc | left | exact Ho]. }
      by rewrite Hdom.
Qed.

(** Closing.  [close] always returns, after at most five steps of the worker,
    and shows nothing; from then on no turn does anything: nothing is
    delivered, the handle is not used again, and closing again is harmless. *)
Theorem client_close_final d :
  started d = true ->
  (exists rest d', (length rest <= 5)%nat /\ exec_turn d (CallClose rest) = Some (d', [])) /\
  (forall rest d' es, exec_turn d (CallClose rest) = Some (d', es) ->
     es = [] /\ forall ts d'' es', run_turns d' ts = Some (d'', es') -> d'' = d' /\ es' = []).
Proof.
  intros Hst. split.
  - destruct (_handle d) as [b|] eqn:Hh.
    + destruct (destroy_returns b [] None (fun _ => (demo_host, 0)))
        as (rest & ps & Hl & Hw & Hd).
      exists rest. cbn [exec_turn]. rewrite Hst, Hw, Hh, Hd. cbn. by eexists.
    + exists []. cbn [exec_turn forallb]. rewrite Hst, Hh. cbn. eexists. split; [lia | done].
  - intros rest d' es E. cbn [exec_turn] in E. destruct (started d && forallb is_worker rest); [|done].
    destruct (gopro_discovery_destroy _ _) as [ps|]; [|done]. cbn in E. injection E as <- <-.
    split; [done|]. induction ts as [|t ts IH]; intros d'' es' E; cbn [run_turns] in E; [by injection E as <- <-|].
    assert (forall x, exec_turn (mkGoProDiscovery None [] false (_current d) (started d)) t = Some x ->
      x = (mkGoProDiscovery None [] false (_current d) (started d), [])) as H.
    { intros x. destruct t as [a| | |rest']; cbn; [by destruct (is_worker a) | done | |];
        rewrite Hst; [by intros [= <-]|]. destruct (forallb is_worker rest'); [by intros [= <-] | done]. }
    destruct (exec_turn _ t) as [x|]; [|done]. rewrite (H x eq_refl) in E. cbn [mbind option_bind] in E.
    destruct (run_turns _ ts) as [[d2 es2]|]; [|done]. cbn in E. injection E as <- <-.
    by destruct (IH _ _ eq_refl) as [-> ->].
Qed.

Lemma distinct_elem prev l c : c ∈ distinct prev l -> c ∈ l.
Proof.
  revert prev. induction l as [|x l IH]; intros prev; cbn [distinct]; [done|].
  destruct (from_option _ _ _); [intros H; right; by eapply IH|].
  intros [->|H]%elem_of_cons; [by left | right; by eapply IH].
Qed.

Lemma ready_nil us : ready us = [] <-> List.filter isReady us = [].
Proof. unfold ready. by destruct (List.filter isReady us). Qed.

(** [firstReady].  It answers with a camera that is ready, known at the call or
    updated before the wait ends; with null, or the [StateError] of a closed
    stream, exactly if there is none. *)
Theorem first_ready_spec d us e :
  match firstReady d us e with
  | inl (Some c) => isReady c = true /\ c ∈ cameras d ++ us
  | r => r = (match e with TimedOut => inl None | StreamClosed => inr StateError end) /\
         Forall (fun c => isReady c = false) (cameras d ++ us)
  end.
Proof.
  unfold firstReady. destruct (List.find isReady (cameras d)) as [c|] eqn:Ef.
  { apply find_some in Ef as [H1 H2]. split; [done|]. apply elem_of_app. left. by apply list_elem_of_In. }
  assert (Forall (fun c => isReady c = false) (cameras d)) as Hc.
  { apply Forall_forall. intros c Hc. by eapply find_none; [|apply list_elem_of_In]. }
  destruct (ready us) as [|c l] eqn:Er.
  - assert (Forall (fun c => isReady c = false) us) as Hu.
    { apply ready_nil in Er. apply Forall_forall. intros c Hin. apply not_true_iff_false. intros Hr.
      assert (c ∈ List.filter isReady us) as H by by apply elem_of_lfilter. rewrite Er in H. by apply not_elem_of_nil in H. }
    destruct e; (split; [done | by apply Forall_app]).
  - assert (c ∈ ready us) as Hin by (rewrite Er; left). apply distinct_elem, elem_of_lfilter in Hin as [H1 H2].
    split; [done|]. apply elem_of_app. by right.
Qed.

(** A subscription to [ready] whose updates are all of one port gives at most one
    camera, however often a camera is attached there anew. *)
Theorem ready_once t us :
  Forall (fun c => g_sysfsName c = t) us -> (length (ready us) <= 1)%nat.
Proof.
  intros Hus. assert (Forall (fun c => g_sysfsName c = t) (List.filter isReady us)) as H.
  { rewrite Forall_forall in *. intros c [Hc _]%elem_of_lfilter. by apply Hus. }
  unfold ready. destruct H as [|c l Hc Hl]; [cbn; lia|]. cbn [distinct from_option length].
  enough (distinct (Some c) l = []) as -> by done.
  induction Hl as [|x l Hx Hl IH]; [done|]. cbn [distinct from_option].
  rewrite bool_decide_eq_true_2 by congruence. apply IH.
Qed.
End discovery.

(** ** At concrete inputs *)

Abbreviation string_of := bytes_string.

Lemma text_of_string s : text_of string_of EmptyString s = s.
Proof. unfold text_of. destruct s; [done|]. cbn [empty]. apply bytes_string_bytes. Qed.

Lemma string_inj n n' :
  is_name n -> is_name n' -> text_of string_of EmptyString n = text_of string_of EmptyString n' -> n = n'.
Proof. by rewrite !text_of_string. Qed.

Definition demo_client : option (GoProDiscovery (text := string)) :=
  start 7 0 15000 true true true [demo_arrival] [].

(** A round of the worker that sees the events [es], and what then arrives. *)
Definition one_round (es : list hotplug) (now : Z) : list turn :=
  Worker <$> [WCheck; WPump es; WRescan None; WLoad; WSettle (fun _ => (demo_host, now))].

Definition seen_by_client (ts : list turn) : option (list (string * Z) * list (effect (text := string))) :=
  d ← demo_client;
  '(d, es) ← run_turns string_of EmptyString d ts;
  Some ((fun e => (e.1, Readiness_val (g_readiness e.2))) <$> _current d, es).

Definition demo_turns : list turn := Worker WStart :: one_round [] 50000000 ++ repeat Deliver 3.

Lemma demo_run :
  exists d0 d es, demo_client = Some d0 /\ run_turns string_of EmptyString d0 demo_turns = Some (d, es) /\
    _port d = [] /\ (_current d).*1 = ["2-1"].
Proof.
  assert (from_option (fun d0 => from_option (fun x => bool_decide (_port x.1 = []) && bool_decide ((_current x.1).*1 = ["2-1"]))
    false (run_turns string_of EmptyString d0 demo_turns)) false demo_client = true) as H by (vm_compute; reflexivity).
  destruct demo_client as [d0|]; [|done]. cbn [from_option] in H.
  destruct (run_turns string_of EmptyString d0 demo_turns) as [[d es]|] eqn:E; [|done]. cbn [from_option fst] in H.
  apply andb_true_iff in H as [H1 H2]. to_prop. exists d0, d, es. split_and!; [reflexivity | exact E | exact H1 | exact H2].
Qed.

Lemma one_round_ok es now : Forall hotplug_ok es -> Forall action_ok (native (one_round es now)).
Proof.
  intros H. unfold one_round. cbn. repeat apply Forall_cons_2; try exact I; try apply Forall_nil_2; [exact H|].
  intros i. apply demo_host_ok.
Qed.

Lemma demo_arrival_ok : hotplug_ok demo_arrival.
Proof. split; [apply demo_host_ok | apply demo_device_ok]. Qed.

Lemma demo_turns_ok : Forall action_ok (native demo_turns).
Proof.
  unfold demo_turns. change (Worker WStart :: ?l) with ([Worker WStart] ++ l). rewrite !native_app.
  apply Forall_app. split; [by apply Forall_singleton|]. apply Forall_app. split; [by apply one_round_ok | apply Forall_nil_2].
Qed.

Lemma demo_orderly : orderly ∅ [demo_arrival].
Proof. split; [|done]. intros _. apply not_elem_of_empty. Qed.

Lemma discovery_mirrors_witness :
  exists d0 d es, demo_client = Some d0 /\ run_turns string_of EmptyString d0 demo_turns = Some (d, es) /\
    quiet es /\ NoDup (_current d).*1 /\ "2-1" ∈ (_current d).*1.
Proof.
  destruct demo_run as (d0 & d & es & H0 & H1 & H2 & H3). exists d0, d, es. split; [done|]. split; [done|].
  destruct (discovery_mirrors string_of EmptyString string_inj 7 0 15000 true true true [demo_arrival] [] d0
    demo_turns d es H0 H1 eq_refl) as [Q H].
  - apply Forall_singleton, demo_arrival_ok.
  - apply Forall_nil_2.
  - apply demo_turns_ok.
  - split; [exact Q|]. destruct (H H2) as (N & _ & _).
    + unfold demo_turns, one_round. cbn. rewrite !not_elem_of_cons. split_and!; try discriminate. apply not_elem_of_nil.
    + reflexivity.
    + apply demo_orderly.
    + split; [exact N|]. rewrite H3. left.
Defined.

Lemma start_completes_witness :
  exists d0, demo_client = Some d0 /\
    exists first n d' es', first ∈ [[]; [Worker WStart]] /\
      run_turns string_of EmptyString d0 (first ++ repeat Deliver n) = Some (d', es') /\ started d' = true.
Proof.
  destruct demo_run as (d0 & d & es & H0 & _). exists d0. split; [done|].
  refine (proj1 (start_completes string_of EmptyString string_inj 7 0 15000 true true true [demo_arrival] [] d0
    [] d0 [] H0 eq_refl eq_refl _ _ _ demo_orderly)).
  - apply Forall_singleton, demo_arrival_ok.
  - apply Forall_nil_2.
  - apply Forall_nil_2.
Defined.

(** ** What modelling showed *)

Definition demo_departure : hotplug := mkHotplug demo_host demo_device false 60000000.

Definition demo_again : hotplug := mkHotplug demo_host demo_device true 70000000.

(** A camera that is unplugged and plugged in again at the same port becomes
    ready a second time, and is listed as ready; a subscription to [ready] is
    given only the first of the two. *)
Example replug_not_ready_again :
  match seen_by_client (Worker WStart :: one_round [] 50000000 ++ one_round [demo_departure] 60000000 ++
                        one_round [demo_again] 80000000 ++ repeat Deliver 6) with
  | Some (listed, es) =>
      listed = [("2-1", 4)] /\
      length (List.filter isReady (updates es)) = 2%nat /\
      (g_sysfsName <$> ready (updates es)) = ["2-1"]
  | None => False
  end.
Proof. vm_compute. done. Qed.

(** A [readinessTimeout] that does not fit 32 bits becomes another one: 25 days
    are passed on as a negative number of milliseconds. *)
Example timeout_wraps : to_i32 2160000000 = -2134967296.
Proof. reflexivity. Qed.
