(* ===== verification/DiscoveryReady.v ===== *)
(** * From a reachable camera to a ready one
    ([native/src/gopro_usb.cpp], [native/src/gopro_bridge.cpp],
    [lib/src/discovery.dart])

    The path a camera's readiness takes, end to end: the rungs of the ladder on
    the host, the settling on the worker, the record as bytes in the port, and
    the streams and [firstReady] of the Dart client. *)

From stdpp Require Import strings gmap.
From S2P Require Import Prelude GlazeMeta GoproTypes GoproUsb EventCodec GoproBridge DiscoveryClient.
Local Open Scope Z_scope.

(** ** The host and the bus *)

(** On this host the camera [n] with the address [a] is there, has an interface
    with an address, and accepts connections. *)
Record serves (h : Host) (n a : string) : Prop := {
  sv_present : path_exists h (path_join kSysUsb n) = true;
  sv_netdev : find_netdev h n kSysUsb <> EmptyString;
  sv_address : host_ipv4 h (find_netdev h n kSysUsb) <> EmptyString;
  sv_probe : probe_tcp h a kProbePort kProbeTimeoutMs = true;
}.

Definition departs (n : string) (e : hotplug) : Prop := hp_arrived e = false /\ hp_name e = n.

(** Neither a round of settling nor the departure of [n]. *)
Definition undisturbed (n : string) (a : action) : Prop :=
  match a with
  | WSettle _ => False
  | WPump es => Forall (fun e => ~ departs n e) es
  | _ => True
  end.

Lemma not_empty s : s <> EmptyString -> empty s = false.
Proof. by destruct s. Qed.

Lemma serves_ready h c : ip c <> EmptyString -> serves h (sysfs_name_ c) (ip c) ->
  readiness (advance_readiness h c kProbePort kProbeTimeoutMs) = kL3Ready.
Proof.
  intros Hi [H1 H2 H3 H4]. destruct (advance_ladder h c kProbePort kProbeTimeoutMs) as [E _].
  assert (known_netdev h c = find_netdev h (sysfs_name_ c) kSysUsb) as Hk.
  { unfold known_netdev, or_else. by rewrite not_empty. }
  rewrite Hk, H1, H4, !not_empty in E by done.
  by destruct (readiness _) in E |- *.
Qed.

(** ** The worker *)

Lemma dispatch_keeps c e p :
  has_cb (disco c) = true -> p ∈ pending c -> ~ departs (sysfs_name_ (cam p)) e ->
  p ∈ pending (dispatch c e).1 /\ has_cb (disco (dispatch c e).1) = true.
Proof.
  intros Hcb Hp Hd. destruct (dispatch_eq c e Hcb) as (d & k & Hk & _ & Hd2 & ->).
  unfold on_hotplug. destruct (hp_arrived e) eqn:Ea; cbn; (split; [|done]).
  - apply elem_of_app. by left.
  - apply elem_of_lfilter. split; [done|]. apply negb_true_iff, String.eqb_neq. intros E. apply Hd.
    split; [done|]. congruence.
Qed.

Lemma pump_keeps es p : forall c,
  has_cb (disco c) = true -> p ∈ pending c -> Forall (fun e => ~ departs (sysfs_name_ (cam p)) e) es ->
  p ∈ pending (pump c es).1.
Proof.
  induction es as [|e es IH]; intros c Hcb Hp Hes; [done|]. apply Forall_cons in Hes as [He Hes].
  destruct (dispatch_keeps c e p Hcb Hp He) as [H1 H2]. cbn [pump].
  destruct (dispatch c e) as [c1 ps1]. specialize (IH c1 H2 H1 Hes). by destruct (pump c1 es).
Qed.

Lemma do_rescan_pending c ds : pending (do_rescan c ds).1 = pending c.
Proof. unfold do_rescan. destruct (rescan c); [|done]. by destruct (enumerate _ _). Qed.

Lemma exec_keeps b a b' ps p :
  exec b a = Some (b', ps) -> has_cb (disco (ctx b)) = true -> p ∈ pending (ctx b) ->
  undisturbed (sysfs_name_ (cam p)) a -> p ∈ pending (ctx b').
Proof.
  destruct b as [c q]. cbn [ctx]. intros E Hcb Hp Hu.
  destruct a as [| |es|ds| |sample| |ms|]; unfold exec in E; cbn [ctx at_pc] in E; destruct q; try done;
    try (by injection E as <- <-).
  - pose proof (pump_keeps es p c Hcb Hp Hu) as H. destruct (pump c es). by injection E as <- <-.
  - pose proof (do_rescan_pending c ds) as H. destruct (do_rescan c ds). injection E as <- <-.
    cbn in *. by rewrite H.
Qed.

Lemma run_keeps acts p : forall b b' ps,
  run b acts = Some (b', ps) -> all_pending_ok (ctx b) -> p ∈ pending (ctx b) ->
  Forall (undisturbed (sysfs_name_ (cam p))) acts -> p ∈ pending (ctx b').
Proof.
  induction acts as [|a acts IH]; intros b b' ps E Hok Hp Hu; cbn [run] in E; [by injection E as <- <-|].
  apply Forall_cons in Hu as [Ha Hu]. destruct (exec b a) as [[b1 ps1]|] eqn:E1; [|done]. cbn [mbind option_bind] in E.
  destruct (run b1 acts) as [[b2 ps2]|] eqn:E2; [|done]. cbn in E. injection E as <- <-.
  eapply IH; [exact E2 | by eapply exec_pending_ok | eapply exec_keeps; [exact E1 | apply Hok | done | done] | done].
Qed.

(** A round of settling on a host that serves a waiting camera reports it ready. *)
Lemma settle_reports b sample b' ps p :
  exec b (WSettle sample) = Some (b', ps) -> all_pending_ok (ctx b) -> p ∈ pending (ctx b) ->
  ip (cam p) <> EmptyString -> (forall i, serves (sample i).1 (sysfs_name_ (cam p)) (ip (cam p))) ->
  exists r, mkPosting (events_port (ctx b)) kUpdate (Some r) ∈ ps /\
    sysfsName r = sysfs_name_ (cam p) /\ GoproTypes.readiness r = U (Readiness_val kL3Ready).
Proof.
  destruct b as [c q]. cbn [ctx]. intros E [_ Hok] Hp Hip Hs.
  unfold exec in E. cbn [ctx at_pc] in E. destruct q; try done. rewrite settle_eq in E by done.
  injection E as <- <-. apply list_elem_of_lookup in Hp as [i Hi].
  pose proof (serves_ready (sample i).1 (cam p) Hip (Hs i)) as Hr. fold (sampled (sample i).1 p) in Hr.
  exists (to_record (sampled (sample i).1 p) (ms_since (sample i).2 (arrived p))). split_and!.
  - apply list_elem_of_In, in_concat.
    exists (reports (events_port c) budget sample i p). split.
    + apply list_elem_of_In, list_elem_of_lookup. exists i.
      rewrite list_lookup_imap, Hi. reflexivity.
    + unfold reports, finished. rewrite Hr, orb_true_r. by left.
  - apply advance_name.
  - cbn. by rewrite Hr.
Qed.

(** Unless told to stop, the worker comes to its next round of settling. *)
Definition alive (b : Bridge) : Prop := stop (ctx b) = false /\ at_pc b <> Finished.

Lemma exec_alive b a b' ps : exec b a = Some (b', ps) -> a <> Stop -> alive b -> alive b'.
Proof.
  destruct b as [c p]. unfold alive. cbn [ctx at_pc]. intros E Ha [Hs Hp].
  destruct a as [| |es|ds| |sample| |ms|]; unfold exec in E; cbn [ctx at_pc] in E;
    try (by injection E as <- <-); destruct p; try done;
    try (injection E as <- <-; cbn; rewrite ?Hs; done).
  - pose proof (pump_stop es c) as H. destruct (pump c es). injection E as <- <-. cbn in *. by rewrite H.
  - pose proof (do_rescan_stop c ds) as H. destruct (do_rescan c ds). injection E as <- <-. cbn in *. by rewrite H.
  - destruct (settle _ _ _ _ _). by injection E as <- <-.
Qed.

Lemma run_alive acts : forall b b' ps, run b acts = Some (b', ps) -> Stop ∉ acts -> alive b -> alive b'.
Proof.
  induction acts as [|a acts IH]; intros b b' ps E Hn Hb; cbn [run] in E; [by injection E as <- <-|].
  apply not_elem_of_cons in Hn as [Ha Hn]. destruct (exec b a) as [[b1 ps1]|] eqn:E1; [|done]. cbn [mbind option_bind] in E.
  destruct (run b1 acts) as [[b2 ps2]|] eqn:E2; [|done]. cbn in E. injection E as <- <-.
  eapply IH; [exact E2 | done | by eapply exec_alive].
Qed.

Lemma created_alive port v i h r attached b0 ps0 :
  gopro_discovery_create port v i h r attached = (Some b0, ps0) -> alive b0.
Proof.
  rewrite create_spec. destruct (i && h && r); [|done]. cbv zeta. set (c0 := mkBridgeContext _ _ _ _ _ _).
  pose proof (pump_stop attached c0) as H. destruct (pump c0 attached). intros [= <- <-]. by split.
Qed.

Definition to_settle (p : pc) : nat :=
  match p with
  | AtSettle _ => 0 | AtLoad => 1 | AtRescan => 2 | AtPump => 3 | AtHead => 4 | AtStart => 5 | Finished => 0
  end.

Lemma reaches_settle es ds (sample : nat -> Host * Z) n : forall b,
  alive b -> to_settle (at_pc b) = n ->
  exists acts b' ps budget, run b acts = Some (b', ps) /\ at_pc b' = AtSettle budget /\ length acts = n /\
    Forall (fun a => a ∈ [WStart; WCheck; WPump es; WRescan ds; WLoad]) acts.
Proof.
  induction n as [|n IH]; intros b Hb Hn.
  - destruct b as [c p]. destruct Hb as [_ Hf]. cbn in *. destruct p; try done.
    eexists [], _, [], _. split_and!; [reflexivity | reflexivity | done | constructor].
  - destruct (next_worker (at_pc b) es ds sample) as [a|] eqn:Ea; [|by destruct (at_pc b)].
    destruct (next_enabled b _ _ _ a Ea) as (b1 & ps1 & E1).
    assert (a ∈ [WStart; WCheck; WPump es; WRescan ds; WLoad]) as Hin.
    { destruct (at_pc b); try done; injection Ea as <-; rewrite !elem_of_cons; tauto. }
    assert (a <> Stop) as Hns by by destruct (at_pc b); try done; injection Ea as <-.
    pose proof (exec_alive _ _ _ _ E1 Hns Hb) as Hb1.
    assert (to_settle (at_pc b1) = n) as Hn1.
    { destruct b as [c p], Hb as [Hs _]. cbn in *. destruct p; try done; injection Ea as <-; unfold exec in E1;
        cbn [ctx at_pc] in E1; rewrite ?Hs in E1; repeat case_match; injection E1 as <- <-; cbn in *; congruence. }
    destruct (IH b1 Hb1 Hn1) as (acts & b' & ps & bu & R & P & L & F).
    exists (a :: acts), b', (ps1 ++ ps), bu. split_and!; [|done| cbn; by rewrite L | by constructor].
    cbn [run]. rewrite E1. cbn [mbind option_bind]. by rewrite R.
Qed.

(** ** The client *)

Section client.
Context {text : Type} `{EqDecision text} (utf8_decode : bytes -> text) (empty_text : text).

Abbreviation text_of := (text_of utf8_decode empty_text).
Abbreviation run_turns := (run_turns utf8_decode empty_text).
Abbreviation tracks := (tracks utf8_decode empty_text).

Hypothesis text_inj : forall n n', is_name n -> is_name n' -> text_of n = text_of n' -> n = n'.

Lemma distinct_covers (l : list (GoProCamera text)) : forall prev g, g ∈ l ->
  (exists c, c ∈ distinct prev l /\ g_sysfsName c = g_sysfsName g) \/
  (exists q, prev = Some q /\ g_sysfsName q = g_sysfsName g).
Proof.
  induction l as [|x l IH]; intros prev g Hg; [by apply not_elem_of_nil in Hg|].
  assert (x = g \/ g ∈ l) as Hg' by (apply elem_of_cons in Hg as [->|]; tauto). cbn [distinct].
  destruct (from_option _ false prev) eqn:E.
  - destruct prev as [q|]; [|done]. cbn in E. to_prop.
    destruct Hg' as [->|Hg']; [right; by exists q|]. exact (IH _ _ Hg').
  - left. destruct Hg' as [->|Hg']; [exists g; split; [by left | done]|].
    destruct (IH (Some x) g Hg') as [(c & Hc & Hn)|(q & [= <-] & Hn)].
    + exists c. split; [by right | done].
    + exists x. split; [by left | done].
Qed.

(** A subscription to [ready] is given a camera for each name that became ready. *)
Lemma ready_covers (us : list (GoProCamera text)) g : g ∈ us -> isReady g = true ->
  exists c, c ∈ ready us /\ g_sysfsName c = g_sysfsName g /\ isReady c = true.
Proof.
  intros Hg Hr. assert (g ∈ List.filter isReady us) as Hf by by apply elem_of_lfilter.
  destruct (distinct_covers _ None g Hf) as [(c & Hc & Hn)|(q & [=] & _)].
  exists c. split_and!; [done..|]. apply distinct_elem, elem_of_lfilter in Hc. tauto.
Qed.

Lemma ready_answers (d : GoProDiscovery) (us : list (GoProCamera text)) c e : c ∈ ready us -> exists c', firstReady d us e = inl (Some c').
Proof.
  intros Hc. unfold firstReady. destruct (List.find isReady (cameras d)) as [c'|]; [by exists c'|].
  destruct (ready us) as [|c' l]; [by apply not_elem_of_nil in Hc | by exists c'].
Qed.

Lemma run_turns_app ts ts' : forall d,
  run_turns d (ts ++ ts') = '(d, es) ← run_turns d ts; '(d, es') ← run_turns d ts'; Some (d, es ++ es').
Proof.
  induction ts as [|t ts IH]; intros d; cbn [app DiscoveryClient.run_turns].
  - cbn. by destruct (run_turns d ts') as [[]|].
  - destruct (exec_turn _ _ d t) as [[d1 es1]|]; [|done]. cbn [mbind option_bind]. rewrite IH.
    destruct (run_turns d1 ts) as [[d2 es2]|]; [|done]. cbn [mbind option_bind].
    destruct (run_turns d2 ts') as [[d3 es3]|]; [|done]. cbn. by rewrite app_assoc.
Qed.

(** Steps of the worker are possible for the client when they are for the bridge. *)
Lemma worker_turns acts : forall d b b' ps,
  run b acts = Some (b', ps) -> _handle d = Some b -> forallb is_worker acts = true ->
  exists d', run_turns d (Worker <$> acts) = Some (d', []).
Proof.
  induction acts as [|a acts IH]; intros d b b' ps E Hh Hw; [by exists d|].
  cbn [forallb] in Hw. apply andb_true_iff in Hw as [Hw1 Hw]. cbn [run] in E.
  destruct (exec b a) as [[b1 ps1]|] eqn:E1; [|done]. cbn [mbind option_bind] in E.
  destruct (run b1 acts) as [[b2 ps2]|] eqn:E2; [|done].
  cbn [fmap list_fmap DiscoveryClient.run_turns exec_turn]. rewrite Hw1, Hh. cbn [mbind option_bind]. rewrite E1.
  cbn [mbind option_bind]. match goal with |- context [DiscoveryClient.run_turns _ _ ?d1 _] =>
    destruct (IH d1 b1 b2 ps2 E2 eq_refl Hw) as [d' E'] end.
  exists d'. by rewrite E'.
Qed.

Lemma native_workers acts : native (Worker <$> acts) = acts.
Proof. induction acts as [|a acts IH]; [done|]. cbn [fmap list_fmap native omap list_omap]. by f_equal. Qed.

Lemma native_no_stop ts : forall d d' es, run_turns d ts = Some (d', es) -> Stop ∉ native ts.
Proof.
  induction ts as [|t ts IH]; intros d d' es E; cbn [DiscoveryClient.run_turns] in E; [apply not_elem_of_nil|].
  destruct (exec_turn _ _ d t) as [[d1 es1]|] eqn:E1; [|done]. cbn [mbind option_bind] in E.
  destruct (run_turns d1 ts) as [[d2 es2]|] eqn:E2; [|done]. specialize (IH _ _ _ E2).
  change (t :: ts) with ([t] ++ ts). rewrite native_app, not_elem_of_app. split; [|done].
  destruct t as [a| | |rest]; try apply not_elem_of_nil; cbn [native omap list_omap].
  - cbn [exec_turn] in E1. destruct (is_worker a) eqn:Ew; [|done]. intros H%list_elem_of_singleton. by subst a.
  - by intros H%list_elem_of_singleton.
Qed.

(** What a client that holds [b] is in, on the side of the worker. *)
Record holds (d : GoProDiscovery) (b : Bridge) (seen waiting : list posting) : Prop := {
  hd_tracks : tracks d b seen waiting;
  hd_pending : all_pending_ok (ctx b);
  hd_alive : alive b;
}.

Lemma workers_no_stop acts : forallb is_worker acts = true -> Stop ∉ acts.
Proof.
  intros H Hin%list_elem_of_In. apply (proj1 (forallb_forall is_worker acts) H) in Hin. done.
Qed.

Lemma holds_from_start np v ms i h r attached early d0 ts d es b :
  start np v ms i h r attached early = Some d0 -> run_turns d0 ts = Some (d, es) ->
  forallb (fun t => negb (is_close t)) ts = true -> forallb is_worker early = true ->
  Forall hotplug_ok attached -> Forall action_ok early -> Forall action_ok (native ts) ->
  _handle d = Some b -> exists seen waiting, holds d b seen waiting.
Proof.
  intros Hs Hrun Hn Hw Hat Hearly Hts Hb.
  destruct (run_from_start utf8_decode empty_text text_inj _ _ _ _ _ _ _ _ _ _ _ _ Hs Hat Hearly Hts Hn Hrun)
    as (b0 & ps0 & b1 & ps & seen & waiting & Hc & Hr & _ & Ht & _).
  assert (b1 = b) as -> by (destruct Ht; congruence).
  exists seen, waiting. split; [done| |].
  - apply reachable_pending_ok. by repeat eexists.
  - eapply run_alive; [exact Hr| |by eapply created_alive].
    rewrite !not_elem_of_app. split_and!; [by apply workers_no_stop| |by eapply native_no_stop].
    by intros ?%list_elem_of_singleton.
Qed.

(** The worker comes to its settling, whatever libusb dispatches and lists. *)
Lemma settling_comes d b seen waiting n evs ds sample :
  holds d b seen waiting ->
  Forall hotplug_ok evs -> Forall (fun e => ~ departs n e) evs ->
  action_ok (WRescan ds) -> action_ok (WSettle sample) ->
  exists acts k d' es', (length acts <= 5)%nat /\ Forall (undisturbed n) acts /\
    run_turns d ((Worker <$> acts) ++ Worker (WSettle sample) :: repeat Deliver k) = Some (d', es') /\
    _port d' = [].
Proof.
  intros [Ht _ Hal] Hevs Hdep Hds Hsa.
  destruct (reaches_settle evs ds sample _ b Hal eq_refl) as (acts & b1 & ps1 & bu & Hr & Hp & Hl & Hin).
  assert (exists b2 ps2, exec b1 (WSettle sample) = Some (b2, ps2)) as (b2 & ps2 & E2).
  { apply (next_enabled b1 evs ds sample). by rewrite Hp. }
  set (all := acts ++ [WSettle sample]).
  assert (run b all = Some (b2, ps1 ++ ps2)) as Hall.
  { unfold all. rewrite bridge_run_app, Hr. cbn [mbind option_bind run]. rewrite E2. cbn. by rewrite app_nil_r. }
  rewrite Forall_forall in Hin.
  assert (forallb is_worker all = true) as Hw.
  { apply forallb_forall. intros a [Ha|Ha]%list_elem_of_In%elem_of_app; [|by apply list_elem_of_singleton in Ha as ->].
    apply Hin in Ha. rewrite !elem_of_cons in Ha. destruct_or! Ha; subst; try done. by apply not_elem_of_nil in Ha. }
  assert (Forall action_ok all) as Hok.
  { apply Forall_app. split; [|by apply Forall_singleton]. apply Forall_forall. intros a Ha.
    apply Hin in Ha. rewrite !elem_of_cons in Ha. destruct_or! Ha; subst; try done. by apply not_elem_of_nil in Ha. }
  destruct (worker_turns all d b _ _ Hall (tr_handle _ _ _ _ _ _ Ht) Hw) as [d1 Hd1].
  assert (forallb (fun t => negb (is_close t)) (Worker <$> all) = true) as Hnc.
  { apply forallb_forall. by intros t (a & -> & _)%list_elem_of_In%list_elem_of_fmap. }
  destruct (tracks_run utf8_decode empty_text text_inj _ _ _ _ _ _ _ Ht Hnc ltac:(by rewrite native_workers) Hd1)
    as (b3 & ps3 & seen3 & w3 & _ & _ & Ht3 & _).
  destruct (drain utf8_decode empty_text text_inj _ _ _ _ Ht3) as (d' & es' & Hd & Ht').
  exists acts, (length w3), d', es'. split_and!.
  - rewrite Hl. destruct (at_pc b); cbn; lia.
  - apply Forall_forall. intros a Ha. apply Hin in Ha. rewrite !elem_of_cons in Ha.
    destruct_or! Ha; subst; try done. by apply not_elem_of_nil in Ha.
  - change (Worker (WSettle sample) :: ?l) with ((Worker <$> [WSettle sample]) ++ l).
    rewrite app_assoc, <- fmap_app. fold all. rewrite run_turns_app, Hd1. cbn [mbind option_bind]. by rewrite Hd.
  - by destruct Ht'.
Qed.

(** And once it has settled with the camera served, the ready record is among the
    updates delivered. *)
Lemma ready_delivered d b seen waiting p ts1 sample ts2 d' es' :
  holds d b seen waiting -> p ∈ pending (ctx b) -> ip (cam p) <> EmptyString ->
  let ts' := ts1 ++ Worker (WSettle sample) :: ts2 in
  run_turns d ts' = Some (d', es') -> forallb (fun t => negb (is_close t)) ts' = true -> Forall action_ok (native ts') ->
  Forall (undisturbed (sysfs_name_ (cam p))) (native ts1) ->
  (forall i, serves (sample i).1 (sysfs_name_ (cam p)) (ip (cam p))) -> _port d' = [] ->
  exists g, g ∈ updates es' /\ g_sysfsName g = text_of (sysfs_name_ (cam p)) /\ isReady g = true.
Proof.
  intros [Ht Hok _] Hp Hip ts' Hrun Hnc Hact Hu Hsv Hport.
  destruct (tracks_run utf8_decode empty_text text_inj _ _ _ _ _ _ _ Ht Hnc Hact Hrun)
    as (b' & ps & seen' & waiting' & Hr & Hsp & Ht' & [_ (new & -> & Hupd)]).
  destruct Ht' as [_ _ Hport' _ _ _ _]. rewrite Hport in Hport'. symmetry in Hport'. apply fmap_nil_inv in Hport' as ->.
  rewrite app_nil_r, <- app_assoc in Hsp. apply app_inv_head in Hsp as ->.
  subst ts'. rewrite native_app in Hr.
  change (native (Worker (WSettle sample) :: ts2)) with ([WSettle sample] ++ native ts2) in Hr.
  rewrite bridge_run_app in Hr. destruct (run b (native ts1)) as [[b1 ps1]|] eqn:E1; [|done].
  cbn [mbind option_bind app run] in Hr. destruct (exec b1 (WSettle sample)) as [[b2 ps2]|] eqn:E2; [|done].
  cbn [mbind option_bind] in Hr. destruct (run b2 (native ts2)) as [[b3 ps3]|]; [|done]. cbn in Hr. injection Hr as _ <-.
  destruct (settle_reports _ _ _ _ p E2 (run_pending_ok _ _ _ _ E1 Hok) (run_keeps _ p _ _ _ E1 Hok Hp Hu) Hip Hsv)
    as (r & Hin & Hn & Hr).
  exists (camera_of utf8_decode empty_text r). split_and!.
  - rewrite Hupd. unfold updated. apply list_elem_of_omap. exists (mkPosting (events_port (ctx b1)) kUpdate (Some r)).
    split; [|done]. rewrite !elem_of_app. tauto.
  - cbn. by rewrite Hn.
  - unfold isReady. apply bool_decide_eq_true_2. cbn. by rewrite Hr.
Qed.

(** C14: a camera in reach becomes ready for the client.  From every point of a run
    from [start] at which a camera is settling, the worker comes to its next round
    of settling within five steps, whatever libusb dispatches and lists meanwhile.
    And if the host then serves the camera and it has not departed, then in every
    run that goes on from there until what was posted is delivered, however the
    turns interleave, a subscription to [ready] is given a ready camera of that
    name, and [firstReady] answers with a camera instead of timing out. *)
Theorem reachable_becomes_ready np v ms i h r attached early d0 ts d es b p :
  start np v ms i h r attached early = Some d0 -> run_turns d0 ts = Some (d, es) ->
  forallb (fun t => negb (is_close t)) ts = true -> forallb is_worker early = true ->
  Forall hotplug_ok attached -> Forall action_ok early -> Forall action_ok (native ts) ->
  _handle d = Some b -> p ∈ pending (ctx b) -> ip (cam p) <> EmptyString ->
  let n := sysfs_name_ (cam p) in
  (forall evs ds sample, Forall hotplug_ok evs -> Forall (fun e => ~ departs n e) evs ->
     action_ok (WRescan ds) -> action_ok (WSettle sample) ->
     exists acts k d' es', (length acts <= 5)%nat /\ Forall (undisturbed n) acts /\
       run_turns d ((Worker <$> acts) ++ Worker (WSettle sample) :: repeat Deliver k) = Some (d', es') /\
       _port d' = []) /\
  (forall ts1 sample ts2 d' es',
     let ts' := ts1 ++ Worker (WSettle sample) :: ts2 in
     run_turns d ts' = Some (d', es') -> forallb (fun t => negb (is_close t)) ts' = true -> Forall action_ok (native ts') ->
     Forall (undisturbed n) (native ts1) -> (forall i, serves (sample i).1 n (ip (cam p))) -> _port d' = [] ->
     (exists c, c ∈ ready (updates es') /\ g_sysfsName c = text_of n /\ isReady c = true) /\
     forall e, exists c, firstReady d (updates es') e = inl (Some c)).
Proof.
  intros Hs Hrun Hnc Hw Hat Hearly Hts Hb Hp Hip n.
  destruct (holds_from_start _ _ _ _ _ _ _ _ _ _ _ _ _ Hs Hrun Hnc Hw Hat Hearly Hts Hb) as (seen & waiting & Hh).
  split; [intros; by eapply settling_comes|].
  intros ts1 sample ts2 d' es' ts' H1 H2 H3 H4 H5 H6.
  destruct (ready_delivered _ _ _ _ _ _ _ _ _ _ Hh Hp Hip H1 H2 H3 H4 H5 H6) as (g & Hg & Hn & Hr).
  destruct (ready_covers _ g Hg Hr) as (c & Hc & Hcn & Hcr). split.
  - exists c. split_and!; [done | by rewrite Hcn | done].
  - intros e. by eapply ready_answers.
Qed.
End client.

(** ** At a concrete input *)

Definition demo_pending : option Pending :=
  d ← demo_client; b ← _handle d; head (pending (ctx b)).

Lemma demo_serves p : demo_pending = Some p ->
  sysfs_name_ (cam p) = "2-1" /\ ip (cam p) <> EmptyString /\ serves demo_host "2-1" (ip (cam p)).
Proof.
  intros H. assert (ip (cam p) = default EmptyString (ip <$> (cam <$> demo_pending)) /\
    sysfs_name_ (cam p) = default EmptyString (sysfs_name_ <$> (cam <$> demo_pending))) as [E1 E2] by by rewrite H.
  rewrite E1, E2. split_and!; [by vm_compute | by vm_compute|]. split; by vm_compute.
Qed.

Lemma reachable_becomes_ready_witness :
  exists d0 b p d' es', demo_client = Some d0 /\ _handle d0 = Some b /\ p ∈ pending (ctx b) /\
    run_turns string_of EmptyString d0
      ((Worker <$> [WStart; WCheck; WPump []; WRescan None; WLoad]) ++
       Worker (WSettle (fun _ => (demo_host, 50000000))) :: repeat Deliver 3) = Some (d', es') /\
    (exists c, c ∈ ready (updates es') /\ g_sysfsName c = "2-1" /\ isReady c = true) /\
    exists c, firstReady d0 (updates es') TimedOut = inl (Some c).
Proof.
  destruct demo_run as (d0 & d' & es' & H0 & H1 & H2 & _).
  assert (demo_turns = (Worker <$> [WStart; WCheck; WPump []; WRescan None; WLoad]) ++
    Worker (WSettle (fun _ => (demo_host, 50000000))) :: repeat Deliver 3) as Et by reflexivity.
  pose proof demo_turns_ok as Hok. rewrite Et in H1, Hok.
  destruct demo_pending as [p|] eqn:Ep; [|vm_compute in Ep; discriminate].
  destruct (demo_serves p Ep) as (Hn & Hip & Hsv). unfold demo_pending in Ep. rewrite H0 in Ep. cbn [mbind option_bind] in Ep.
  destruct (_handle d0) as [b|] eqn:Hb; [|done]. cbn [mbind option_bind] in Ep.
  assert (p ∈ pending (ctx b)) as Hp by (apply head_Some_elem_of; exact Ep).
  exists d0, b, p, d', es'. split; [exact H0|]. split; [exact Hb|]. split; [exact Hp|]. split; [exact H1|].
  destruct (reachable_becomes_ready string_of EmptyString string_inj 7 0 15000 true true true [demo_arrival] [] d0
    [] d0 [] b p H0 eq_refl eq_refl eq_refl) as [_ H]; [..|exact Hb|exact Hp|exact Hip|].
  1: apply Forall_singleton, demo_arrival_ok.
  1-2: apply Forall_nil_2.
  rewrite Hn, text_of_string in H.
  destruct (H (Worker <$> [WStart; WCheck; WPump []; WRescan None; WLoad]) (fun _ => (demo_host, 50000000))
    (repeat Deliver 3) d' es' H1 eq_refl Hok) as [R F].
  - repeat apply Forall_cons_2; try exact I; apply Forall_nil_2.
  - intros _. exact Hsv.
  - exact H2.
  - split; [exact R | exact (F TimedOut)].
Defined.
