(* ===== verification/DartApiDl.v ===== *)
(** * Linking the VM's entry points
    ([native/src/dart_api_dl.c], [native/include/dart_api_dl.h],
    [native/include/internal/dart_api_dl_impl.h], [native/include/dart_version.h])

    The library calls the Dart VM through variables [X_DL], null until
    [Dart_InitializeApiDL] has looked every symbol up in the table the VM hands
    over.  A function pointer is an address; the table is what precedes its
    terminating entry. *)

From stdpp Require Import strings gmap.
From S2P Require Import Prelude.
Local Open Scope Z_scope.

Definition DART_API_DL_MAJOR_VERSION : Z := 2.
Definition DART_API_DL_MINOR_VERSION : Z := 6.

Record DartApiEntry := mkDartApiEntry {
  name : string;
  function : Z;
}.

Record DartApi := mkDartApi {
  major : Z;
  minor : Z;
  functions : list DartApiEntry;
}.

(** The loop up to the entry whose name is null; [None] is [NULL]. *)
Fixpoint FindFunctionPointer (entries : list DartApiEntry) (n : string) : option Z :=
  match entries with
  | [] => None
  | e :: entries => if String.eqb (name e) n then Some (function e) else FindFunctionPointer entries n
  end.

Definition DART_NATIVE_API_DL_SYMBOLS : list string :=
  ["Dart_PostCObject"; "Dart_PostInteger"; "Dart_NewNativePort"; "Dart_CloseNativePort"].

Definition DART_API_DL_SYMBOLS : list string :=
  ["Dart_IsError"; "Dart_IsApiError"; "Dart_IsUnhandledExceptionError"; "Dart_IsCompilationError";
   "Dart_IsFatalError"; "Dart_GetError"; "Dart_ErrorHasException"; "Dart_ErrorGetException";
   "Dart_ErrorGetStackTrace"; "Dart_NewApiError"; "Dart_NewCompilationError";
   "Dart_NewUnhandledExceptionError"; "Dart_PropagateError"; "Dart_HandleFromPersistent";
   "Dart_HandleFromWeakPersistent"; "Dart_NewPersistentHandle"; "Dart_SetPersistentHandle";
   "Dart_DeletePersistentHandle"; "Dart_NewWeakPersistentHandle"; "Dart_DeleteWeakPersistentHandle";
   "Dart_NewFinalizableHandle"; "Dart_DeleteFinalizableHandle"; "Dart_CurrentIsolate";
   "Dart_ExitIsolate"; "Dart_EnterIsolate"; "Dart_GetMainPortId"; "Dart_Post"; "Dart_NewSendPort";
   "Dart_NewSendPortEx"; "Dart_SendPortGetId"; "Dart_SendPortGetIdEx"; "Dart_GetCurrentThreadOwnsIsolate";
   "Dart_EnterScope"; "Dart_ExitScope"; "Dart_IsNull"; "Dart_Null"].

Definition DART_API_DEPRECATED_DL_SYMBOLS : list string :=
  ["Dart_UpdateExternalSize"; "Dart_UpdateFinalizableExternalSize"].

Definition DART_API_ALL_DL_SYMBOLS : list string := DART_NATIVE_API_DL_SYMBOLS ++ DART_API_DL_SYMBOLS.

(** What a variable [X_DL] holds: null, an address of the VM's, or this file's
    [X_Deprecated]. *)
Inductive pointer := Null | Vm (address : Z) | Deprecated.

Abbreviation globals := (gmap string pointer).

(** [DART_API_DL_DEFINITIONS]. *)
Definition globals_init : globals :=
  list_to_map ((fun s => (s, Null)) <$> (DART_API_ALL_DL_SYMBOLS ++ DART_API_DEPRECATED_DL_SYMBOLS)).

Definition link (entries : list DartApiEntry) (g : globals) (s : string) : globals :=
  <[s := match FindFunctionPointer entries s with Some a => Vm a | None => Null end]> g.

Definition Dart_InitializeApiDL (g : globals) (data : DartApi) : globals * Z :=
  if negb (major data =? DART_API_DL_MAJOR_VERSION) then (g, -1)
  else
    let g := foldl (link (functions data)) g DART_API_ALL_DL_SYMBOLS in
    let g := foldl (fun g s => <[s := Deprecated]> g) g DART_API_DEPRECATED_DL_SYMBOLS in
    (g, 0).

(** [gopro_bridge_init] of [gopro_bridge.cpp]: the result is dropped. *)
Definition gopro_bridge_init (g : globals) (data : DartApi) : globals := (Dart_InitializeApiDL g data).1.

(** ** Lookup *)

Lemma find_first entries n :
  match FindFunctionPointer entries n with
  | Some a => exists pre post e, entries = pre ++ e :: post /\ name e = n /\ function e = a /\
                Forall (fun e => name e <> n) pre
  | None => Forall (fun e => name e <> n) entries
  end.
Proof.
  induction entries as [|e es IH]; cbn [FindFunctionPointer]; [constructor|].
  destruct (String.eqb (name e) n) eqn:E.
  - apply String.eqb_eq in E. by exists [], es, e.
  - apply String.eqb_neq in E. destruct (FindFunctionPointer es n).
    + destruct IH as (pre & post & e' & -> & H1 & H2 & H3). exists (e :: pre), post, e'.
      split_and!; [done..|]. by constructor.
    + by constructor.
Qed.

Lemma foldl_insert {A} (f : string -> A) l : forall (g : gmap string A) s,
  foldl (fun g s => <[s := f s]> g) g l !! s = if decide (s ∈ l) then Some (f s) else g !! s.
Proof.
  induction l as [|x l IH]; intros g s; cbn [foldl].
  { by rewrite decide_False by apply not_elem_of_nil. }
  rewrite IH. destruct (decide (s ∈ l)) as [Hl|Hl].
  - rewrite decide_True by (by right). done.
  - destruct (decide (s = x)) as [->|Hne].
    + rewrite decide_True by left. apply lookup_insert_eq.
    + rewrite decide_False by (by intros [?|?]%elem_of_cons). by apply lookup_insert_ne.
Qed.

Lemma symbols_disjoint s : s ∈ DART_API_ALL_DL_SYMBOLS -> s ∉ DART_API_DEPRECATED_DL_SYMBOLS.
Proof.
  intros H. assert (forallb (fun s => negb (bool_decide (s ∈ DART_API_DEPRECATED_DL_SYMBOLS)))
    DART_API_ALL_DL_SYMBOLS = true) as E by (vm_compute; reflexivity).
  rewrite forallb_forall in E. apply list_elem_of_In, E in H. by to_prop.
Qed.

(** ** Properties *)

(** Linking.  A VM of the major version compiled against is accepted, and
    then every symbol is the VM's first entry of that name, or null if the VM
    has none; the deprecated ones never come from the VM, and nothing else is
    touched.  Any other VM is refused and leaves every variable as it was. *)
Theorem api_linking g data :
  let '(g', r) := Dart_InitializeApiDL g data in
  (r = 0 <-> major data = DART_API_DL_MAJOR_VERSION) /\
  (r <> 0 -> r = -1 /\ g' = g) /\
  (r = 0 -> forall s,
     (s ∈ DART_API_ALL_DL_SYMBOLS ->
        (exists pre post e, functions data = pre ++ e :: post /\ name e = s /\
           Forall (fun e => name e <> s) pre /\ g' !! s = Some (Vm (function e))) \/
        (Forall (fun e => name e <> s) (functions data) /\ g' !! s = Some Null)) /\
     (s ∈ DART_API_DEPRECATED_DL_SYMBOLS -> g' !! s = Some Deprecated) /\
     (s ∉ DART_API_ALL_DL_SYMBOLS -> s ∉ DART_API_DEPRECATED_DL_SYMBOLS -> g' !! s = g !! s)).
Proof.
  unfold Dart_InitializeApiDL. destruct (major data =? DART_API_DL_MAJOR_VERSION) eqn:E; to_prop; cbn [negb].
  - split_and!; [done..|]. intros _ s. rewrite !foldl_insert.
    pose proof (foldl_insert (fun s => match FindFunctionPointer (functions data) s with Some a => Vm a | None => Null end)
      DART_API_ALL_DL_SYMBOLS g s) as Hg. unfold link. rewrite Hg. split_and!.
    + intros Hs. rewrite decide_False by by apply symbols_disjoint. rewrite decide_True by done.
      pose proof (find_first (functions data) s) as Hf. destruct (FindFunctionPointer _ s) as [a|]; [left | by right].
      destruct Hf as (pre & post & e & H1 & H2 & H3 & H4). exists pre, post, e. by rewrite H3.
    + intros Hs. by rewrite decide_True.
    + intros H1 H2. by rewrite !decide_False.
  - split_and!; [|done|done]. split; [done|]. intros H. by destruct E.
Qed.

(** ** What modelling showed *)

(** With a VM of another major version the library is initialised all the same,
    and the first event is posted through a null pointer. *)
Example refused_vm_is_not_noticed :
  gopro_bridge_init globals_init (mkDartApi 3 0 [mkDartApiEntry "Dart_PostCObject" 4096]) !! "Dart_PostCObject" = Some Null /\
  gopro_bridge_init globals_init (mkDartApi 2 0 [mkDartApiEntry "Dart_PostCObject" 4096]) !! "Dart_PostCObject" = Some (Vm 4096).
Proof. vm_compute. done. Qed.
