(* ===== verification/VmPost.v ===== *)
(** * The library in a Dart process
    ([post] of [native/src/ble_bridge.cpp] and [native/src/gopro_bridge.cpp],
    [Dart_CObject] of [native/include/dart_native_api.h], and
    [lib/src/ffi/bindings.dart])

    The two bridges share one table of the VM's entry points, and every event
    leaves through [Dart_PostCObject_DL].  A process is the table, the isolates
    that have initialised it, and the handles the two bridges have given out; a
    [call] is one of the bindings, or a step of a discovery worker.  What the VM
    does with an object is outside: a post is the call that is made.  The
    specification of a run is what each handle would post alone ([ble_alone],
    [usb_alone]). *)

From stdpp Require Import strings gmap.
From S2P Require Import Prelude BleSession BleBridge GlazeMeta GoproTypes GoproUsb EventCodec GoproBridge DartApiDl.
Local Open Scope Z_scope.

(** ** [Dart_CObject] *)

Inductive Dart_TypedData_Type :=
| Dart_TypedData_kByteData | Dart_TypedData_kInt8 | Dart_TypedData_kUint8 | Dart_TypedData_kUint8Clamped
| Dart_TypedData_kInt16 | Dart_TypedData_kUint16 | Dart_TypedData_kInt32 | Dart_TypedData_kUint32
| Dart_TypedData_kInt64 | Dart_TypedData_kUint64 | Dart_TypedData_kFloat32 | Dart_TypedData_kFloat64
| Dart_TypedData_kInt32x4 | Dart_TypedData_kFloat32x4 | Dart_TypedData_kFloat64x2 | Dart_TypedData_kInvalid.

(** The tagged union; pointers to data are what they point at, other addresses
    are numbers, and a double is its bits. *)
Inductive Dart_CObject :=
| Dart_CObject_kNull
| Dart_CObject_kBool (as_bool : bool)
| Dart_CObject_kInt32 (as_int32 : Z)
| Dart_CObject_kInt64 (as_int64 : Z)
| Dart_CObject_kDouble (as_double : Z)
| Dart_CObject_kString (as_string : bytes)
| Dart_CObject_kArray (length : Z) (values : list Dart_CObject)
| Dart_CObject_kTypedData (type : Dart_TypedData_Type) (length : Z) (values : bytes)
| Dart_CObject_kExternalTypedData (type : Dart_TypedData_Type) (length : Z) (data : bytes) (peer callback : Z)
| Dart_CObject_kSendPort (id origin_id : Z)
| Dart_CObject_kCapability (id : Z)
| Dart_CObject_kNativePointer (ptr size callback : Z)
| Dart_CObject_kUnsupported
| Dart_CObject_kUnmodifiableExternalTypedData (type : Dart_TypedData_Type) (length : Z) (data : bytes)
    (peer callback : Z).

(** A call through [Dart_PostCObject_DL]. *)
Inductive vm_call :=
| CallNull
| CallVm (address : Z) (port : Z) (message : Dart_CObject).

(** The object both [post]s build around their buffer. *)
Definition typed_data (buf : bytes) : Dart_CObject :=
  Dart_CObject_kTypedData Dart_TypedData_kUint8 (Z.of_nat (length buf)) buf.

Definition post (vars : globals) (m : Z * bytes) : vm_call :=
  match vars !! "Dart_PostCObject"%string with
  | Some (Vm a) => CallVm a m.1 (typed_data m.2)
  | _ => CallNull
  end.

Definition usb_posts (ps : list posting) : list (Z * bytes) := (fun x => (p_port x, post_bytes x)) <$> ps.

(** ** The process *)

Record Process := mkProcess {
  vars : globals;
  initialized : list nat;           (** the isolates whose [_initialized] is set *)
  sessions : list handle;
  bridges : list (option Bridge);
}.

Definition process_init : Process := mkProcess globals_init [] [] [].

(** Calls of the bindings from an isolate [i], and on the [n]-th handle given. *)
Inductive call :=
| Init (i : nat)
| BleCreate (i : nat) (port keepAlive writeTimeout queueTimeout : Z)
| BleCall (n : nat) (k : abi_call)
| BleDestroy (n : nat)
| UsbCreate (i : nat) (port v : Z) (init_ok hotplug_supported register_ok : bool) (attached : list hotplug)
| UsbStep (n : nat) (a : action)
| UsbDestroy (n : nat) (rest : list action).

(** The handles, numbered by each bridge in the order they were given. *)
Inductive origin := Ble (n : nat) | Usb (n : nat).

#[export] Instance origin_eq_dec : EqDecision origin.
Proof. solve_decision. Defined.

(** ** A handle by itself

    What it posts if there is nothing else in the process. *)

(** The calls on the [n]-th session; [None] destroys it. *)
Definition ble_ops (n : nat) (cs : list call) : list (option abi_call) :=
  omap (fun c => match c with
                 | BleCall m k => if (m =? n)%nat then Some (Some k) else None
                 | BleDestroy m => if (m =? n)%nat then Some None else None
                 | _ => None end) cs.

Fixpoint ble_alone (h : handle) (ops : list (option abi_call)) : list (Z * bytes) :=
  match ops with
  | [] => []
  | o :: ops =>
      let '(h, ps) := match o with Some k => abi h k | None => gopro_ble_destroy h end in ps ++ ble_alone h ops
  end.

(** The steps of the [n]-th discovery; a list destroys it. *)
Definition usb_ops (n : nat) (cs : list call) : list (action + list action) :=
  omap (fun c => match c with
                 | UsbStep m a => if (m =? n)%nat then Some (inl a) else None
                 | UsbDestroy m rest => if (m =? n)%nat then Some (inr rest) else None
                 | _ => None end) cs.

Fixpoint usb_alone (b : Bridge) (ops : list (action + list action)) : list posting :=
  match ops with
  | [] => []
  | inl a :: ops => match GoproBridge.exec b a with Some (b, ps) => ps ++ usb_alone b ops | None => [] end
  | inr rest :: _ => default [] (gopro_discovery_destroy (Some b) rest)
  end.

(** What the handles were created with. *)
Definition ble_created (cs : list call) : list (Z * handle) :=
  omap (fun c => match c with BleCreate _ port ka wt qt => Some (port, gopro_ble_create port ka wt qt) | _ => None end) cs.

Definition usb_created (cs : list call) : list (Z * (option Bridge * list posting)) :=
  omap (fun c => match c with
                 | UsbCreate _ port v io hs ro attached => Some (port, gopro_discovery_create port v io hs ro attached)
                 | _ => None end) cs.

(** *** Everything goes to its port *)

Lemma on_session_port {A} ctx (m : act BleSession SEvent A) :
  Forall (fun m => m.1 = BleBridge.events_port ctx) (on_session ctx m).2 /\
  BleBridge.events_port (on_session ctx m).1.1 = BleBridge.events_port ctx.
Proof. unfold on_session. destruct (m (session ctx)) as [[x s] ev]. split; [|done]. by apply Forall_fmap, Forall_true. Qed.

Lemma abi_port h k ctx : h = Some ctx ->
  Forall (fun m => m.1 = BleBridge.events_port ctx) (abi h k).2 /\
  exists ctx', (abi h k).1 = Some ctx' /\ BleBridge.events_port ctx' = BleBridge.events_port ctx.
Proof.
  intros ->. destruct k; cbn [abi]; unfold gopro_ble_submit, gopro_ble_submit_protobuf, gopro_ble_feed, gopro_ble_tick,
    gopro_ble_set_att_payload, gopro_ble_disconnect; repeat (case_match; simplify_eq); cbn;
    repeat match goal with E : on_session ctx ?m = _ |- _ =>
      let H := fresh in pose proof (on_session_port ctx m) as H; rewrite E in H; destruct H as [??]; clear E end;
    (split; [try done; by constructor | by eexists]).
Qed.

Lemma ble_alone_none ops : ble_alone None ops = [].
Proof. induction ops as [|[k|] ops IH]; [done| |exact IH]. destruct k; exact IH. Qed.

Lemma ble_alone_port ops : forall h ctx, h = Some ctx ->
  Forall (fun m => m.1 = BleBridge.events_port ctx) (ble_alone h ops).
Proof.
  induction ops as [|[k|] ops IH]; intros h ctx Hh; cbn [ble_alone]; [constructor|..].
  - destruct (abi_port h k ctx Hh) as (H1 & ctx' & H2 & H3). destruct (abi h k) as [h' ps]. cbn in *.
    apply Forall_app. split; [done|]. rewrite <- H3. by apply IH.
  - subst h. cbn [gopro_ble_destroy]. unfold on_session. destruct (on_disconnect _) as [[x s] ev].
    rewrite ble_alone_none, app_nil_r. by apply Forall_fmap, Forall_true.
Qed.

Abbreviation to_port port := (Forall (fun x => p_port x = port)).

Lemma callbacks_port now calls : forall c, to_port (GoproBridge.events_port c) (callbacks c now calls).2.
Proof.
  induction calls as [|[k a] calls IH]; intros c; [constructor|]. cbn [callbacks].
  assert (GoproBridge.events_port (on_hotplug c k a now).1 = GoproBridge.events_port c /\ to_port (GoproBridge.events_port c) (on_hotplug c k a now).2) as [H1 H2] by (destruct a; by repeat constructor).
  destruct (on_hotplug _ _ _ _) as [c1 ps]. specialize (IH c1). destruct (callbacks _ _ _). cbn in *.
  apply Forall_app. rewrite H1 in IH. done.
Qed.

Lemma pump_events_port es c : GoproBridge.events_port (pump c es).1 = GoproBridge.events_port c.
Proof. exact (f_equal (fun k => k.1.1.1) (pump_knobs es c)). Qed.

Lemma pump_port es : forall c, to_port (GoproBridge.events_port c) (pump c es).2.
Proof.
  induction es as [|e es IH]; intros c; [constructor|]. pose proof (pump_events_port [e] c) as Hc.
  cbn [pump] in *. unfold dispatch in *. destruct (trampoline _ _ _ _) as [d calls].
  pose proof (callbacks_port (hp_now e) calls (set_disco d c)) as H.
  destruct (callbacks _ _ _) as [c1 ps]. specialize (IH c1). destruct (pump c1 es). cbn in *.
  apply Forall_app. rewrite Hc in IH. done.
Qed.

Lemma settle_port port budget sample l : forall i, to_port port (settle port budget sample i l).2.
Proof.
  induction l as [|p l IH]; intros i; cbn [settle]; [constructor|]. unfold settle_one.
  specialize (IH (S i)). destruct (settle _ _ _ _ l). cbn [snd fst] in *. rewrite !Forall_app.
  split_and!; [case_match; by repeat constructor..|done].
Qed.

Lemma exec_port b a b' ps :
  GoproBridge.exec b a = Some (b', ps) ->
  to_port (GoproBridge.events_port (ctx b)) ps /\ GoproBridge.events_port (ctx b') = GoproBridge.events_port (ctx b).
Proof.
  destruct b as [c p]. destruct a as [| |es|ds| |sample| |ms|]; cbn; destruct p; try done; intros E.
  all: try (injection E as <- <-; by repeat constructor).
  - pose proof (pump_port es c) as H1. pose proof (pump_events_port es c) as H2. destruct (pump c es).
    by injection E as <- <-.
  - unfold do_rescan in E. destruct (rescan c); [|injection E as <- <-; by repeat constructor].
    destruct (enumerate _ _) as [d cams]. injection E as <- <-. split; [|done]. by apply Forall_fmap, Forall_true.
  - pose proof (settle_port (GoproBridge.events_port c) budget sample (pending c) 0) as H.
    destruct (settle _ _ _ _ _). by injection E as <- <-.
Qed.

Lemma run_port acts : forall b b' ps,
  GoproBridge.run b acts = Some (b', ps) -> to_port (GoproBridge.events_port (ctx b)) ps.
Proof.
  induction acts as [|a acts IH]; intros b b' ps; cbn [GoproBridge.run]; [by intros [= <- <-]|].
  destruct (GoproBridge.exec b a) as [[b1 ps1]|] eqn:E1; [|done]. cbn [mbind option_bind].
  destruct (GoproBridge.run b1 acts) as [[b2 ps2]|] eqn:E2; [|done]. cbn. intros [= <- <-].
  destruct (exec_port _ _ _ _ E1) as [H1 H2]. apply Forall_app. split; [done|]. rewrite <- H2. by eapply IH.
Qed.

Lemma destroy_port b rest ps :
  gopro_discovery_destroy (Some b) rest = Some ps -> to_port (GoproBridge.events_port (ctx b)) ps.
Proof.
  unfold gopro_discovery_destroy. destruct (GoproBridge.run b (Stop :: rest)) as [[b1 ps1]|] eqn:E; [|done].
  cbn [mbind option_bind]. destruct (at_pc b1); try done. intros [= <-]. by eapply run_port.
Qed.

Lemma create_port port v i h r attached :
  to_port port (gopro_discovery_create port v i h r attached).2 /\ forall b, (gopro_discovery_create port v i h r attached).1 = Some b -> GoproBridge.events_port (ctx b) = port.
Proof.
  rewrite create_spec. destruct (i && h && r); [|by split; [constructor|]]. cbv zeta.
  match goal with |- context [pump ?c attached] =>
    pose proof (pump_port attached c) as H1; pose proof (pump_events_port attached c) as H2; destruct (pump c attached) end.
  split; [done|]. by intros ? [= <-].
Qed.

Lemma usb_alone_port ops : forall b, to_port (GoproBridge.events_port (ctx b)) (usb_alone b ops).
Proof.
  induction ops as [|[a|rest] ops IH]; intros b; cbn [usb_alone]; [constructor|..].
  - destruct (GoproBridge.exec b a) as [[b' ps]|] eqn:E; [|constructor].
    destruct (exec_port _ _ _ _ E) as [H1 H2]. apply Forall_app. split; [done|]. rewrite <- H2. apply IH.
  - destruct (gopro_discovery_destroy (Some b) rest) as [ps|] eqn:E; [by eapply destroy_port|constructor].
Qed.

Lemma usb_posts_to port ps : to_port port ps -> usb_posts ps = (fun x => (port, post_bytes x)) <$> ps.
Proof. induction 1 as [|x ps <- H IH]; [done|]. unfold usb_posts in *. cbn. by rewrite IH. Qed.

Section process.
Context (data : DartApi).  (** [NativeApi.initializeApiDLData] *)

(** [GoProBindings.init]. *)
Definition init (i : nat) (p : Process) : Process :=
  if bool_decide (i ∈ initialized p) then p
  else mkProcess (gopro_bridge_init (vars p) data) (i :: initialized p) (sessions p) (bridges p).

(** On a handle that is alive; on others the calls are undefined. *)
Definition on_ble (p : Process) (n : nat) (f : handle -> handle * list (Z * bytes))
    : option (Process * list (Z * bytes)) :=
  match sessions p !! n with
  | Some (Some ctx) =>
      let '(h, ps) := f (Some ctx) in
      Some (mkProcess (vars p) (initialized p) (<[n := h]> (sessions p)) (bridges p), ps)
  | _ => None
  end.

Definition on_usb (p : Process) (n : nat) (f : Bridge -> option (option Bridge * list posting))
    : option (Process * list (Z * bytes)) :=
  match bridges p !! n with
  | Some (Some b) =>
      match f b with
      | Some (h, ps) =>
          Some (mkProcess (vars p) (initialized p) (sessions p) (<[n := h]> (bridges p)), usb_posts ps)
      | None => None
      end
  | _ => None
  end.

(** A call, and what it posts. *)
Definition exec_call (p : Process) (c : call) : option (Process * list (Z * bytes)) :=
  match c with
  | Init i => Some (init i p, [])
  | BleCreate i port ka wt qt =>
      let p := init i p in
      Some (mkProcess (vars p) (initialized p) (sessions p ++ [gopro_ble_create port ka wt qt]) (bridges p), [])
  | BleCall n k => on_ble p n (fun h => abi h k)
  | BleDestroy n => on_ble p n gopro_ble_destroy
  | UsbCreate i port v io hs ro attached =>
      let p := init i p in
      let '(h, ps) := gopro_discovery_create port v io hs ro attached in
      Some (mkProcess (vars p) (initialized p) (sessions p) (bridges p ++ [h]), usb_posts ps)
  | UsbStep n a => on_usb p n (fun b => '(b, ps) ← GoproBridge.exec b a; Some (Some b, ps))
  | UsbDestroy n rest => on_usb p n (fun b => ps ← gopro_discovery_destroy (Some b) rest; Some (None, ps))
  end.

(** The handle a call posts for. *)
Definition origin_of (p : Process) (c : call) : option origin :=
  match c with
  | Init _ | BleCreate _ _ _ _ _ => None
  | BleCall n _ | BleDestroy n => Some (Ble n)
  | UsbCreate _ _ _ _ _ _ _ => Some (Usb (length (bridges p)))
  | UsbStep n _ | UsbDestroy n _ => Some (Usb n)
  end.

(** Every post, with the handle it is for and the call it becomes, through the
    table as it is then. *)
Fixpoint run_calls (p : Process) (cs : list call)
    : option (Process * list (option origin * (Z * bytes) * vm_call)) :=
  match cs with
  | [] => Some (p, [])
  | c :: cs =>
      '(p1, ms) ← exec_call p c;
      '(p2, calls) ← run_calls p1 cs;
      Some (p2, ((fun m => (origin_of p c, m, post (vars p1) m)) <$> ms) ++ calls)
  end.

(** ** The table before the first handle *)

(** What the VM offers for posting, if its table is of the right version. *)
Definition entry : option Z :=
  if major data =? DART_API_DL_MAJOR_VERSION then FindFunctionPointer (functions data) "Dart_PostCObject" else None.

Definition through (m : Z * bytes) : vm_call :=
  match entry with Some a => CallVm a m.1 (typed_data m.2) | None => CallNull end.

Record linked (p : Process) : Prop := {
  lk_post : initialized p <> [] -> forall m, post (vars p) m = through m;
  lk_ble : initialized p = [] -> sessions p = [];
  lk_usb : initialized p = [] -> bridges p = [];
  lk_null : initialized p = [] -> vars p !! "Dart_PostCObject"%string = Some Null;
}.

Lemma init_table g :
  (forall m, post g m = through m) \/ g !! "Dart_PostCObject"%string = Some Null ->
  forall m, post (gopro_bridge_init g data) m = through m.
Proof.
  intros Hg m. unfold gopro_bridge_init, Dart_InitializeApiDL, through, entry in *.
  destruct (major data =? DART_API_DL_MAJOR_VERSION); cbn [negb fst].
  - unfold post. rewrite !foldl_insert. rewrite decide_False by (by apply (bool_decide_unpack _); vm_compute).
    unfold link.
    pose proof (foldl_insert (fun s => match FindFunctionPointer (functions data) s with Some a => Vm a | None => Null end)
      DART_API_ALL_DL_SYMBOLS g "Dart_PostCObject") as E.
    rewrite E, decide_True by (by apply (bool_decide_unpack _); vm_compute).
    by destruct (FindFunctionPointer _ _).
  - destruct Hg as [Hg|Hg]; [apply Hg|]. unfold post. by rewrite Hg.
Qed.

Lemma linked_init p i : linked p -> linked (init i p) /\ initialized (init i p) <> [].
Proof.
  intros Hp. unfold init. case_bool_decide as Hi.
  { split; [done|]. intros E. rewrite E in Hi. by apply not_elem_of_nil in Hi. }
  split; [|done]. split; cbn; try done. intros _. apply init_table.
  destruct (initialized p) eqn:E; [right; by apply lk_null | left; apply lk_post; [done | by rewrite E]].
Qed.

Lemma on_ble_linked p n f p' ms :
  linked p -> on_ble p n f = Some (p', ms) -> linked p' /\ initialized p' <> [].
Proof.
  intros [H1 H2 H3 H4] E. unfold on_ble in E. destruct (sessions p !! n) as [[ctx|]|] eqn:Es; try done.
  assert (initialized p <> []) as Hi by (intros H; by rewrite (H2 H) in Es).
  destruct (f (Some ctx)) as [h ps]. injection E as <- <-. split; [|done]. by split.
Qed.

Lemma on_usb_linked p n f p' ms :
  linked p -> on_usb p n f = Some (p', ms) -> linked p' /\ initialized p' <> [].
Proof.
  intros [H1 H2 H3 H4] E. unfold on_usb in E. destruct (bridges p !! n) as [[b|]|] eqn:Es; try done.
  assert (initialized p <> []) as Hi by (intros H; by rewrite (H3 H) in Es).
  destruct (f b) as [[h ps]|]; [|done]. injection E as <- <-. split; [|done]. by split.
Qed.

Lemma exec_linked p c p' ms :
  linked p -> exec_call p c = Some (p', ms) -> linked p' /\ initialized p' <> [].
Proof.
  intros Hp E. destruct c as [i|i port ka wt qt|n k|n|i port v io hs ro att|n a|n rest]; cbn [exec_call] in E;
    try (destruct (linked_init p i Hp) as [[H1 H2 H3 H4] Hi]).
  - by injection E as <- <-.
  - injection E as <- <-. by split; [split|].
  - by eapply on_ble_linked.
  - by eapply on_ble_linked.
  - destruct (gopro_discovery_create _ _ _ _ _ _) as [h ps]. injection E as <- <-. by split; [split|].
  - by eapply on_usb_linked.
  - by eapply on_usb_linked.
Qed.

Lemma run_linked cs : forall p p' calls,
  linked p -> run_calls p cs = Some (p', calls) -> Forall (fun x => x.2 = through x.1.2) calls.
Proof.
  induction cs as [|c cs IH]; intros p p' calls Hp E; cbn [run_calls] in E; [by injection E as <- <-|].
  destruct (exec_call p c) as [[p1 ms]|] eqn:E1; [|done]. cbn [mbind option_bind] in E.
  destruct (run_calls p1 cs) as [[p2 calls2]|] eqn:E2; [|done]. cbn in E. injection E as <- <-.
  destruct (exec_linked _ _ _ _ Hp E1) as [Hp1 Hi]. apply Forall_app. split; [|by eapply IH].
  apply Forall_fmap, Forall_true. intros m. cbn. by apply lk_post.
Qed.

(** ** Each handle posts as if alone *)

(** What was posted for a handle. *)
Definition posts_of (o : origin) (calls : list (option origin * (Z * bytes) * vm_call)) : list (Z * bytes) :=
  (fun x => x.1.2) <$> filter (fun x => x.1.1 = Some o) calls.

Lemma posts_of_step o w (ms : list (Z * bytes)) (f : Z * bytes -> vm_call) calls :
  posts_of o (((fun m => (w, m, f m)) <$> ms) ++ calls) = (if decide (w = Some o) then ms else []) ++ posts_of o calls.
Proof.
  unfold posts_of. rewrite filter_app, fmap_app. f_equal. induction ms as [|m ms IH]; [by case_decide|].
  rewrite fmap_cons, filter_cons. cbn [fst]. case_decide; [|done]. cbn. by rewrite IH.
Qed.

Lemma on_ble_alone p n f p' ms :
  on_ble p n f = Some (p', ms) ->
  exists c, sessions p !! n = Some (Some c) /\ ms = (f (Some c)).2 /\
    sessions p' = <[n := (f (Some c)).1]> (sessions p) /\ bridges p' = bridges p.
Proof.
  unfold on_ble. destruct (sessions p !! n) as [[c|]|]; [|done..]. destruct (f (Some c)) as [h ps] eqn:E.
  intros [= <- <-]. exists c. by rewrite E.
Qed.

Lemma on_usb_alone p n f p' ms :
  on_usb p n f = Some (p', ms) ->
  exists b h ps, bridges p !! n = Some (Some b) /\ f b = Some (h, ps) /\ ms = usb_posts ps /\
    bridges p' = <[n := h]> (bridges p) /\ sessions p' = sessions p.
Proof.
  unfold on_usb. destruct (bridges p !! n) as [[b|]|]; [|done..]. destruct (f b) as [[h ps]|] eqn:E; [|done].
  intros [= <- <-]. by exists b, h, ps.
Qed.

Lemma init_handles i p : sessions (init i p) = sessions p /\ bridges (init i p) = bridges p.
Proof. unfold init. by case_bool_decide. Qed.

Lemma lookup_slot {A} (l l' : list A) m n x y :
  l !! m = Some x -> (<[m := y]> l ++ l') !! n = if (m =? n)%nat then Some y else (l ++ l') !! n.
Proof.
  intros Hx. apply lookup_lt_Some in Hx as Hl. rewrite <- insert_app_l by done.
  destruct (Nat.eqb_spec m n) as [<-|Hne]; [|by apply list_lookup_insert_ne].
  apply list_lookup_insert_eq. rewrite length_app. lia.
Qed.

Lemma decide_origin {A} n m (f : nat -> origin) (x y : A) :
  (forall a b, f a = f b -> a = b) ->
  (if decide (Some (f m) = Some (f n)) then x else y) = if (m =? n)%nat then x else y.
Proof. intros Hf. destruct (Nat.eqb_spec m n) as [->|Hne]; case_decide as H; try congruence. destruct Hne. apply Hf. congruence. Qed.

(** The sessions there are and those still to come, by number. *)
Lemma run_ble n cs : forall p p' calls,
  run_calls p cs = Some (p', calls) ->
  posts_of (Ble n) calls =
    match (sessions p ++ (snd <$> ble_created cs)) !! n with Some h => ble_alone h (ble_ops n cs) | None => [] end.
Proof.
  induction cs as [|c cs IH]; intros p p' calls E; cbn [run_calls] in E.
  { injection E as <- <-. cbn. rewrite app_nil_r. by destruct (sessions p !! n) as [[?|]|]. }
  destruct (exec_call p c) as [[p1 ms]|] eqn:E1; [|done]. cbn [mbind option_bind] in E.
  destruct (run_calls p1 cs) as [[p2 calls2]|] eqn:E2; [|done]. cbn [mbind option_bind] in E. injection E as <- <-.
  rewrite posts_of_step, (IH _ _ _ E2). clear IH E2.
  destruct c as [i|i port ka wt qt|m k|m|i port v io hs ro att|m a|m rest]; cbn [exec_call origin_of] in *;
    rewrite ?decide_False by congruence.
  - injection E1 as <- <-. by destruct (init_handles i p) as [-> _].
  - injection E1 as <- <-. cbn [sessions]. destruct (init_handles i p) as [-> _]. by rewrite <- app_assoc.
  - destruct (on_ble_alone _ _ _ _ _ E1) as (c & Hc & -> & -> & _).
    rewrite (lookup_slot _ _ _ _ _ _ Hc), decide_origin by congruence. cbn.
    destruct (Nat.eqb_spec m n) as [<-|Hne]; [|done]. rewrite (lookup_app_l_Some _ _ _ _ Hc). cbn. by destruct (abi _ k).
  - destruct (on_ble_alone _ _ _ _ _ E1) as (c & Hc & -> & -> & _).
    rewrite (lookup_slot _ _ _ _ _ _ Hc), decide_origin by congruence. cbn.
    destruct (Nat.eqb_spec m n) as [<-|Hne]; [|done]. rewrite (lookup_app_l_Some _ _ _ _ Hc). cbn.
    by destruct (on_session _ _) as [[? ?] ?].
  - destruct (gopro_discovery_create _ _ _ _ _ _) as [h ps]. injection E1 as <- <-. cbn [sessions].
    by destruct (init_handles i p) as [-> _].
  - by destruct (on_usb_alone _ _ _ _ _ E1) as (? & ? & ? & _ & _ & _ & _ & ->).
  - by destruct (on_usb_alone _ _ _ _ _ E1) as (? & ? & ? & _ & _ & _ & _ & ->).
Qed.

Definition usb_posted (x : option Bridge * list posting) ops : list posting :=
  x.2 ++ from_option (fun b => usb_alone b ops) [] x.1.

Lemma run_usb n cs : forall p p' calls,
  run_calls p cs = Some (p', calls) ->
  posts_of (Usb n) calls =
    match (((.,[]) <$> bridges p) ++ (snd <$> usb_created cs)) !! n with
    | Some x => usb_posts (usb_posted x (usb_ops n cs)) | None => [] end.
Proof.
  induction cs as [|c cs IH]; intros p p' calls E; cbn [run_calls] in E.
  { injection E as <- <-. cbn. rewrite app_nil_r, list_lookup_fmap. by destruct (bridges p !! n) as [[?|]|]. }
  destruct (exec_call p c) as [[p1 ms]|] eqn:E1; [|done]. cbn [mbind option_bind] in E.
  destruct (run_calls p1 cs) as [[p2 calls2]|] eqn:E2; [|done]. cbn [mbind option_bind] in E. injection E as <- <-.
  rewrite posts_of_step, (IH _ _ _ E2). clear IH E2.
  destruct c as [i|i port ka wt qt|m k|m|i port v io hs ro att|m a|m rest]; cbn [exec_call origin_of] in *;
    rewrite ?decide_False by congruence.
  - injection E1 as <- <-. by destruct (init_handles i p) as [_ ->].
  - injection E1 as <- <-. cbn [bridges]. by destruct (init_handles i p) as [_ ->].
  - by destruct (on_ble_alone _ _ _ _ _ E1) as (? & _ & _ & _ & ->).
  - by destruct (on_ble_alone _ _ _ _ _ E1) as (? & _ & _ & _ & ->).
  - destruct (gopro_discovery_create _ _ _ _ _ _) as [h ps] eqn:Ec. injection E1 as <- <-. cbn [bridges].
    destruct (init_handles i p) as [_ ->]. cbn [usb_created omap list_omap fmap list_fmap usb_ops]. rewrite Ec. cbn [snd].
    rewrite fmap_app, <- app_assoc. cbn. case_decide as Hn; simplify_eq.
    + rewrite !lookup_app_r by (rewrite length_fmap; lia). rewrite length_fmap, Nat.sub_diag. cbn.
      unfold usb_posted, usb_posts. cbn. by rewrite fmap_app.
    + destruct (decide (n < length (bridges p))%nat); [by rewrite !lookup_app_l by (rewrite length_fmap; lia)|].
      rewrite !lookup_app_r by (rewrite length_fmap; lia).
      rewrite length_fmap. destruct (n - length (bridges p))%nat eqn:E; [exfalso; apply Hn; do 2 f_equal; lia|done].
  - destruct (on_usb_alone _ _ _ _ _ E1) as (b & h & ps & Hb & Hf & -> & -> & _).
    rewrite list_fmap_insert, (lookup_slot _ _ _ _ (Some b, [])), decide_origin by (congruence || by rewrite list_lookup_fmap, Hb).
    cbn. destruct (Nat.eqb_spec m n) as [<-|Hne]; [|done].
    rewrite (lookup_app_l_Some _ _ m (Some b, [])) by (by rewrite list_lookup_fmap, Hb).
    unfold usb_posted, usb_posts. cbn. destruct (GoproBridge.exec b a) as [[b' ps']|]; [|done].
    injection Hf as <- <-. cbn. by rewrite fmap_app.
  - destruct (on_usb_alone _ _ _ _ _ E1) as (b & h & ps & Hb & Hf & -> & -> & _).
    rewrite list_fmap_insert, (lookup_slot _ _ _ _ (Some b, [])), decide_origin by (congruence || by rewrite list_lookup_fmap, Hb).
    cbn. destruct (Nat.eqb_spec m n) as [<-|Hne]; [|done].
    rewrite (lookup_app_l_Some _ _ m (Some b, [])) by (by rewrite list_lookup_fmap, Hb).
    unfold usb_posted, usb_posts. cbn -[gopro_discovery_destroy].
    destruct (gopro_discovery_destroy (Some b) rest); [|done].
    injection Hf as <- <-. cbn. by rewrite app_nil_r.
Qed.

Lemma run_origins cs : forall p p' calls,
  run_calls p cs = Some (p', calls) -> Forall (fun x => is_Some x.1.1) calls.
Proof.
  induction cs as [|c cs IH]; intros p p' calls E; cbn [run_calls] in E; [by injection E as <- <-|].
  destruct (exec_call p c) as [[p1 ms]|] eqn:E1; [|done]. cbn [mbind option_bind] in E.
  destruct (run_calls p1 cs) as [[p2 calls2]|] eqn:E2; [|done]. cbn in E. injection E as <- <-.
  apply Forall_app. split; [|by eapply IH]. apply Forall_fmap.
  destruct c; cbn [exec_call origin_of] in *; try (by injection E1 as <- <-); apply Forall_true; intros m; cbn; eauto.
Qed.

Lemma ble_created_port cs n port h :
  ble_created cs !! n = Some (port, h) -> exists ctx, h = Some ctx /\ BleBridge.events_port ctx = port.
Proof.
  unfold ble_created. intros H%list_elem_of_lookup_2%list_elem_of_omap. destruct H as (c & _ & H). destruct c; try done.
  injection H as <- <-. by eexists.
Qed.

Lemma usb_created_port cs n port x :
  usb_created cs !! n = Some (port, x) -> forall ops, to_port port (usb_posted x ops).
Proof.
  unfold usb_created. intros H%list_elem_of_lookup_2%list_elem_of_omap ops. destruct H as (c & _ & H). destruct c; try done.
  injection H as <- <-.
  match goal with |- context [gopro_discovery_create ?a ?b ?c ?d ?e ?f] =>
    destruct (create_port a b c d e f) as [H1 H2]; destruct (gopro_discovery_create a b c d e f) as [[b'|] ps] end;
    apply Forall_app; (split; [done|]); cbn; [|constructor].
  rewrite <- (H2 b') by done. apply usb_alone_port.
Qed.

(** ** Properties *)

(** C31: events reach the VM.  In any run of a process in which handles come from
    the bindings, by any number of isolates and for both bridges, every event is
    posted through the VM's own [Dart_PostCObject], as a typed array of 8-bit
    elements whose length and elements are its buffer's, if the VM is of the
    version compiled against and offers it; and otherwise every event is a call
    of null.  The events are those of the handles: the [n]-th session posts what
    the calls on it alone would post, in order, and the [n]-th discovery what its
    creation and its own steps would, whatever is interleaved with them; and each
    posts to the port it was created with and to no other. *)
Theorem posts_reach_vm cs p calls :
  run_calls process_init cs = Some (p, calls) ->
  Forall (fun x => x.2 = match entry with
                         | Some a => CallVm a x.1.2.1 (Dart_CObject_kTypedData Dart_TypedData_kUint8
                                                         (Z.of_nat (length x.1.2.2)) x.1.2.2)
                         | None => CallNull
                         end /\ is_Some x.1.1) calls /\
  (forall n, match ble_created cs !! n with
             | Some (port, h) => posts_of (Ble n) calls = ble_alone h (ble_ops n cs) /\
                                 Forall (fun m => m.1 = port) (posts_of (Ble n) calls)
             | None => posts_of (Ble n) calls = []
             end) /\
  (forall n, match usb_created cs !! n with
             | Some (port, (h, ps)) =>
                 posts_of (Usb n) calls =
                   (fun x => (port, post_bytes x)) <$> (ps ++ from_option (fun b => usb_alone b (usb_ops n cs)) [] h)
             | None => posts_of (Usb n) calls = []
             end).
Proof.
  intros E. split; [|split].
  - apply Forall_and. split; [|by eapply run_origins]. eapply Forall_impl; [eapply run_linked; [|exact E]; by split|].
    intros [[o m] c]. cbn. done.
  - intros n. rewrite (run_ble n _ _ _ _ E). cbn [sessions process_init app]. rewrite list_lookup_fmap.
    destruct (ble_created cs !! n) as [[port h]|] eqn:Ec; [|done]. cbn. split; [done|].
    destruct (ble_created_port _ _ _ _ Ec) as (ctx & Hh & <-). by apply ble_alone_port.
  - intros n. rewrite (run_usb n _ _ _ _ E). cbn [bridges process_init app fmap list_fmap]. rewrite list_lookup_fmap.
    destruct (usb_created cs !! n) as [[port [h ps]]|] eqn:Ec; [|done]. cbn.
    apply usb_posts_to. exact (usb_created_port cs n port (h, ps) Ec _).
Qed.
End process.

(** A process with a camera attached before the handle is created, two sessions
    with their calls interleaved, and a command answered by a disconnect. *)
Definition demo_api : DartApi := mkDartApi 2 0 [mkDartApiEntry "Dart_PostCObject" 4096].

Definition demo_calls : list call :=
  [UsbCreate 0 7 0 true true true [demo_arrival]; UsbStep 0 WStart;
   BleCreate 0 8 0 0 0; BleCreate 0 9 0 0 0; BleCall 0 (ASubmit 2 (Some [19; 8; 10]) 3 1 0);
   BleCall 1 (ASubmit 2 (Some [23; 1; 1]) 3 1 0); BleDestroy 1; BleDestroy 0].

Lemma posts_reach_vm_witness :
  exists p calls, run_calls demo_api process_init demo_calls = Some (p, calls) /\
    (4 < length calls)%nat /\
    posts_of (Ble 1) calls = ble_alone (gopro_ble_create 9 0 0 0) [Some (ASubmit 2 (Some [23; 1; 1]) 3 1 0); None] /\
    (0 < length (posts_of (Ble 1) calls))%nat /\ Forall (fun m => m.1 = 9) (posts_of (Ble 1) calls).
Proof.
  assert (from_option (fun x => Nat.ltb 4 (length x.2) && Nat.ltb 0 (length (posts_of (Ble 1) x.2))) false
            (run_calls demo_api process_init demo_calls) = true) as H by (vm_compute; reflexivity).
  destruct (run_calls demo_api process_init demo_calls) as [[p calls]|] eqn:E; [|discriminate].
  apply andb_prop in H as [H1%Nat.ltb_lt H2%Nat.ltb_lt].
  destruct (posts_reach_vm demo_api demo_calls p calls E) as (_ & Hb & _). specialize (Hb 1%nat). cbn in Hb.
  exists p, calls. split; [reflexivity|]. split; [exact H1|]. split; [apply Hb|]. split; [exact H2|apply Hb].
Defined.
